(* ===== verification/_CoqProject ===== *)
-Q . S2P
Prelude.v
IpAddr.v
Glob.v
Policy.v
Bytes.v
Reader.v
Types.v
Quota.v
Crypto.v
ErasureCode.v
ChunkReader.v
ChunkWriter.v
EncryptedEc.v
MetadataIndex.v
FileSystem.v
Paths.v
World.v
TreeOk.v
Keyring.v
Storage.v
BucketConfig.v
Sidecar.v
Encryption.v
Publish.v
Objects.v
Demo.v
EncryptionSpec.v
Layout.v
DeleteBucketSpec.v
BucketSpec.v
ObjectsSpec.v
ChunkedSpec.v
Versions.v
Multipart.v
LockSpec.v
Behaviours.v
Listing.v
Housekeeping.v
HousekeepingSpec.v
ApiError.v
Utf8.v
ListApi.v
Events.v
EventsSpec.v
Http.v
Signature.v
RateLimit.v
Tenant.v
Gate.v
GateSpec.v
MultipartSpec.v
StorageInvariant.v
HttpBody.v
Headers.v
ObjectApi.v
BucketApi.v
Cors.v
ClusterEc.v
ClusterEcSpec.v
RaftStore.v
RaftStoreSpec.v
ClusterRouting.v
AccessLog.v
ConsoleAuth.v
Console.v
ConsoleSpec.v
Admin.v
AuditLog.v
Backend.v
ClusterMetadata.v
Startup.v
ObjectApiSpec.v
CopySpec.v
SettingsSpec.v
HandlersSpec.v
