(* ===== verification/Prelude.v ===== *)
(** * MaxIO: a verification library of the object store

    MaxIO is an S3-compatible object store.  This library models the storage
    engine [crates/maxio-storage], the server [crates/maxio-server] with its S3,
    console and admin interfaces, and the cluster layer [crates/maxio-cluster],
    and proves what makes them correct.  File names below are those of
    [crates/maxio-storage/src] and, after "server:" and "cluster:", of
    [crates/maxio-server/src] and [crates/maxio-cluster/src].

    ** How the program fits together

    The router of the server sends a request to the S3 interface, the console or
    the admin interface.  An S3 request passes the gates (signature, public
    buckets, tenants, policies, rate limits) and the cross-origin layer, is
    routed to a handler, and the handler calls the storage; a console request
    passes the session, tenant and origin gates.  After the answer a task of its
    own delivers the access log.  The storage is an interface with two
    implementations: the file-system store, and a wrapper that proposes the
    mutations of buckets to the Raft group of the storage nodes first.  The
    file-system store keeps a bucket as a directory with a [.bucket.json] record;
    an object as a payload file, or a directory [key.ec] of chunks with a
    manifest, next to a JSON sidecar; a version under [.versions]; an upload in
    parts under [.uploads].  A payload may be encrypted in frames under a data
    key that a master key, a KMS or the customer wraps.  Bodies stream through
    readers: the quota reader on the way in, the chunk reader and the frame
    decryptor on the way out.  An optional SQLite index answers listings.  An
    hourly sweep expires objects and leftovers, a spool holds the events of
    buckets for their webhooks, and a storage node scans its shards for damage.

    ** The models

    Data and pure components.
    - [Prelude]: results, panics ([exec]), string functions of the Rust standard
      library, list lemmas, tactics.  [IpAddr]: parsing and value of addresses.
      [Bytes], [Utf8]: bytes, little-endian integers, Rust strings.
    - [Types]: the records and errors of [lib.rs], bucket names, protection.
    - [Glob], [Policy]: [policy.rs], the matcher and both evaluators.
    - [Reader]: [AsyncRead] as a state machine with a contract, the class
      [ReaderSpec], that every reader below implements and every consumer uses.
    - [Quota]: [quota.rs].  [Crypto]: [crypto.rs] and the frame helpers of
      [filesystem/common.rs].  [ErasureCode], [ChunkReader], [ChunkWriter],
      [EncryptedEc]: the erasure-coded formats of [chunk_reader.rs] and
      [filesystem/object_io.rs].  [Keyring]: [keys.rs], [kms.rs].
      [MetadataIndex]: [metadata_index.rs].

    The store.
    - [FileSystem], [Paths]: the calls of [std::fs] on a tree of directories and
      files, and the meaning of paths.  [World]: the monad [M] of the store; a
      world is the tree, the index and a tick that every read of a clock or of
      randomness advances.  [TreeOk]: the invariant of the tree.
    - [Storage]: configuration, paths, keys and buckets of [filesystem/mod.rs];
      [BucketConfig]: every setting of a bucket; [Sidecar]: sidecars, their MAC
      and object lock; [Encryption]: data keys ([filesystem/encryption_io.rs]),
      an implementation of the class [KeyService] the objects rely on;
      [Publish]: atomic publication of a payload with its sidecar; [Objects]:
      upload, download, ranges, head, tags, deletion ([filesystem/object_io.rs]);
      [Versions]: delete markers and versions; [Multipart]:
      [filesystem/multipart.rs]; [Listing]: [filesystem/listing.rs];
      [Housekeeping]: [filesystem/housekeeping.rs].
    - [Backend]: the trait of [backend.rs] as a record of operations over any
      state, the file-system store as an instance, and the class [BucketStore] of
      what a client may rely on.

    The server.
    - [ApiError]: server: [error.rs].  [Http]: requests, virtual hosts, trusted
      proxies (server: [api/virtual_host.rs], [audit.rs], [proxy.rs]).
    - [Signature]: server: [auth/signature_v4.rs].  [RateLimit]: server:
      [rate_limit.rs].  [Tenant]: server: [auth/credentials.rs],
      [auth/tenant.rs].
    - [Gate]: the authentication middleware and the gates of the handlers
      (server: [auth/middleware.rs], [auth/tenant_middleware.rs],
      [auth/bucket_policy.rs], [api/request_context.rs], [api/router.rs]), in a
      monad over the state of the server.
    - [HttpBody], [Headers], [ObjectApi]: server: [api/object.rs],
      [api/multipart.rs]; [BucketApi]: server: [api/bucket.rs] and the router;
      [Cors]: server: [api/cors.rs]; [ListApi]: server: [api/list.rs];
      [Events]: server: [events.rs].
    - [AccessLog]: server: [access_log.rs] and the delivery in
      [filesystem/access_logging.rs].
    - [ConsoleAuth], [Console]: server: [auth/console_session.rs],
      [auth/keycloak.rs], [api/console.rs].  [Admin]: server: [api/admin.rs] and
      [server.rs].  [AuditLog]: server: [audit.rs], [metrics.rs], the layers
      that record requests and change no answer.  [Startup]: [src/main.rs],
      server: [config.rs].

    The cluster.
    - [ClusterEc]: shards, their checksums and the scanner (cluster: [ec]).
    - [RaftStore]: log, state machine and snapshots of a node (cluster:
      [storage/raft_store.rs]).
    - [ClusterRouting]: peers, routing snapshot, readiness (cluster:
      [routing.rs], [client.rs], [storage/api.rs]; server: [cluster.rs],
      [cluster_sync.rs]).  [ClusterMetadata]: the wrapper (cluster:
      [metadata.rs]), generic in the storage it wraps.

    A definition carries the name of the function it models where that is free;
    a loop or a block of a long function has a definition of its own.  A [?] is
    the bind of a monad; the state reached when an operation fails is kept, as on
    disk.  Steps of one operation run without interleaving with other requests,
    except where a model splits an operation ([AccessLog]).

    ** What is proved

    - Objects ([ObjectsSpec]): in a bucket that keeps no versions and no chunks,
      what an upload stored is downloaded, plain or encrypted; an upload touches
      its own object only, and a failed one nothing.  [ChunkedSpec]: in one
      that keeps chunks, what an upload stored is downloaded whatever happened to
      as many files as it has parity.
      [Layout]: accepted keys stay in their bucket and off the internal files.
      [StorageInvariant]: every operation keeps the tree well formed.
      [MultipartSpec]: an upload in parts refines a map from part numbers to
      data, and reads back as their concatenation.
    - Encryption ([Crypto], [EncryptionSpec], [Keyring]): frames round-trip for
      any slicing and any buffers, the poll-driven decryptor refines a
      frame-by-frame reference, a complete read is authentic, nonces differ and
      associated data binds; a prepared key is found again, also after rotation.
    - Erasure coding ([ChunkWriter], [EncryptedEc], [ClusterEcSpec]): objects
      survive the loss of as many shards as there is parity, and are never
      delivered wrong; the scanner rebuilds a damaged shard bit for bit.
    - Object lock ([LockSpec]), deletion of buckets ([DeleteBucketSpec]),
      settings ([BucketSpec], [SettingsSpec]), expiration ([HousekeepingSpec]),
      quotas, policies, matching.
    - Listings ([Listing], [ListApi], [MetadataIndex]): a listing is complete and
      sorted, and pages cover it.
    - The S3 interface ([ObjectApiSpec], [CopySpec], [HandlersSpec],
      [HttpBody], [EventsSpec], [AccessLog]): uploads, ranges and copies read back
      through the handlers, deletions gate every key, events settle, the log
      loses no line when deliveries do not overlap.
    - Requests: a signature stands for one request ([Signature]); a handler runs
      on authentic requests and public reads only ([GateSpec]); the limiter lets
      through what it promised ([RateLimit]).  The same for the console
      ([ConsoleSpec]: logins, sessions, confinement to the buckets of a tenant,
      presigned links that the S3 interface honours) and for the admin interface
      ([Admin]).
    - The cluster: the log store refines a list and replicas agree
      ([RaftStoreSpec]); the snapshot is ready exactly with a majority that knows
      a leader ([ClusterRouting]); buckets of the server and of the cluster agree
      ([ClusterMetadata]); the default buckets exist after the start ([Startup]).
      The counters of requests count them, modulo their width ([AuditLog]).
    - [Behaviours], the last part of [GateSpec] and the demonstrations at the end
      of other files show what the code does where it does not do what it means
      to: uploads over a directory, deleted versions, retention that can be
      lifted, a keyring that cannot be read, virtual hosts that open private
      buckets, unverified shards used for healing, a deletion that the cluster
      carries out and the server refuses, single sign-on that sets no session,
      log lines lost by overlapping deliveries, and others.

    ** Parameters

    Third-party code is a class with the laws the program relies on, each with a
    concrete instance for the witnesses: AES-GCM ([Aead]), SHA-256, MD5, HMAC,
    base64 and hex ([Sha256Hex], [Crates], [HexDecode]), Reed-Solomon
    ([ReedSolomon]), serde ([Serde], [SerdeJson], [RaftJson]), quick_xml
    ([XmlCrate]), percent-encoding ([PercentEncoding]), axum and http
    ([RouterCrate], [BodyCrate], [HeaderCrate], [HttpDates], [ConsoleRouter],
    [FromBody], [FromQuery]), tokio ([Buffering], [Tasks]), HTTP clients and what
    answers them ([Webhooks], [PeerHttp], [RaftHttp], [ClusterHttp],
    [KeycloakHttp], [Redis]),
    openraft ([Openraft]), clocks, UUIDs, random bytes and the free disk space
    ([Environment], [Process], [AmzClock], [LogClock], [DiskSpace]).  Parsing of
    policies and credentials is an argument.

    ** Fuel

    Walks over the tree take [tree_depth t] as fuel, a bound on the length of a
    location ([Listing], [Storage]); the matcher takes the measure of its cursors
    ([Glob]); readers are driven by fuel that the length of what is left bounds
    ([Reader]).  Each theorem about such a function shows that this much fuel is
    enough, or that more changes nothing.

    ** Not modelled

    - Input and output around third-party frameworks: sockets, TLS, timers and
      tasks of [src/main.rs], the parser of its command line, log lines, the
      verbose health report, the serialization of XML and JSON answers.
    - The consensus itself: openraft, the start of a Raft node and its HTTP
      transport (cluster: [storage/node.rs], [storage/http_network.rs]), and the
      experiment [raft_spike.rs] the program does not use.
    - The admin command line [crates/maxio-admin] and the embedded web console
      [crates/maxio-ui].
    - Concurrency of requests on one object: operations are sequences of
      file-system calls, and the interleaving of two of them is not explored
      beyond the access log; the tasks of a multi-object delete run one after
      another, in an arbitrary order.
    - Dates near the ends of the range of [chrono], where adding a duration
      panics. *)

From stdpp Require Import base list strings gmap numbers pretty.
From Stdlib Require Import ZArith Lia Ascii.

Declare Scope maxio_scope.
Delimit Scope maxio_scope with maxio.

(** Boolean tests in hypotheses and goals, as propositions. *)
Ltac bool_to_prop :=
  repeat match goal with
  | H : _ && _ = true |- _ => apply andb_true_iff in H as [? ?]
  | H : _ || _ = false |- _ => apply orb_false_iff in H as [? ?]
  | H : negb _ = true |- _ => apply negb_true_iff in H
  | H : negb _ = false |- _ => apply negb_false_iff in H
  | H : (_ <=? _)%Z = true |- _ => apply Z.leb_le in H
  | H : (_ <=? _)%Z = false |- _ => apply Z.leb_gt in H
  | H : (_ <? _)%Z = true |- _ => apply Z.ltb_lt in H
  | H : (_ <? _)%Z = false |- _ => apply Z.ltb_ge in H
  | H : (_ =? _)%Z = true |- _ => apply Z.eqb_eq in H
  | H : (_ =? _)%Z = false |- _ => apply Z.eqb_neq in H
  | H : (_ <=? _)%nat = true |- _ => apply Nat.leb_le in H
  | H : (_ <=? _)%nat = false |- _ => apply Nat.leb_gt in H
  | H : (_ <? _)%nat = true |- _ => apply Nat.ltb_lt in H
  | H : (_ <? _)%nat = false |- _ => apply Nat.ltb_ge in H
  | H : (_ =? _)%nat = true |- _ => apply Nat.eqb_eq in H
  | H : (_ =? _)%nat = false |- _ => apply Nat.eqb_neq in H
  | H : bool_decide _ = true |- _ => apply bool_decide_eq_true in H
  | H : bool_decide _ = false |- _ => apply bool_decide_eq_false in H
  end.

(** ** Results: [Result<A, E>] *)

(** Rust's [Result]; the error type comes first so that [result E] is a monad. *)
Inductive result (E A : Type) : Type :=
| Ok (a : A)
| Err (e : E).
Arguments Ok {E A} a.
Arguments Err {E A} e.

Global Instance result_eq_dec {E A} `{EqDecision E} `{EqDecision A} : EqDecision (result E A).
Proof. solve_decision. Defined.
Global Instance result_ret {E} : MRet (result E) := fun A a => Ok a.
Global Instance result_bind {E} : MBind (result E) :=
  fun A B f m => match m with Ok a => f a | Err e => Err e end.

Definition is_ok {E A} (r : result E A) : bool :=
  match r with Ok _ => true | Err _ => false end.
Definition is_err {E A} (r : result E A) : bool := negb (is_ok r).

(** [map_err] of [Result]. *)
Definition map_err {E F A} (f : E -> F) (r : result E A) : result F A :=
  match r with Ok a => Ok a | Err e => Err (f e) end.

(** [ok_or] of [Option]. *)
Definition ok_or {E A} (o : option A) (e : E) : result E A :=
  match o with Some a => Ok a | None => Err e end.

Lemma result_bind_ok {E A B} (f : A -> result E B) (m : result E A) b :
  (m ≫= f) = Ok b <-> exists a, m = Ok a /\ f a = Ok b.
Proof. destruct m as [x|e]; cbn; split; [eauto|by intros (? & [= <-] & ?)|done|by intros (? & ? & ?)]. Qed.

Lemma ok_or_ok {E A} (o : option A) (e : E) a : ok_or o e = Ok a <-> o = Some a.
Proof. destruct o; cbn; naive_solver. Qed.

(** A loop [for x in l { f(x)?; }]. *)
Fixpoint for_each {E A} (f : A -> result E unit) (l : list A) : result E unit :=
  match l with
  | [] => Ok tt
  | x :: l => match f x with Ok _ => for_each f l | Err e => Err e end
  end.

Lemma for_each_ok {E A} (f : A -> result E unit) l :
  for_each f l = Ok tt <-> Forall (fun x => f x = Ok tt) l.
Proof.
  induction l as [|x l IH]; cbn; [by split|].
  rewrite Forall_cons. destruct (f x) as [[]|e]; [|by split; [|intros [? _]]].
  rewrite IH. split; [done|by intros [_ ?]].
Qed.

(** ** Panics

    A Rust expression that may panic (slice out of range, division by zero).
    The panic unwinds through every caller, so it is the zero of the monad. *)
Inductive exec (A : Type) : Type :=
| Ret (a : A)
| Panic.
Arguments Ret {A} a.
Arguments Panic {A}.

Global Instance exec_ret : MRet exec := fun A a => Ret a.
Global Instance exec_bind : MBind exec :=
  fun A B f m => match m with Ret a => f a | Panic => Panic end.

(** [m?] inside a function that returns a [Result] and may panic. *)
Definition try_bind {E A B} (m : result E A) (k : A -> exec (result E B)) : exec (result E B) :=
  match m with Ok a => k a | Err e => Ret (Err e) end.
Notation "'try' x ':=' m 'in' k" := (try_bind m (fun x => k))
  (at level 10, x name, m at level 100, k at level 200) : maxio_scope.

(** [Iterator::any] with a predicate that may panic: left to right, and it
    stops at the first [true]. *)
Fixpoint anyM {A} (f : A -> exec bool) (l : list A) : exec bool :=
  match l with
  | [] => Ret false
  | x :: l => b ← f x; if b : bool then Ret true else anyM f l
  end.

(** The loop [for x in l { if !f(x) { return false; } } true]. *)
Fixpoint allM {A} (f : A -> exec bool) (l : list A) : exec bool :=
  match l with
  | [] => Ret true
  | x :: l => b ← f x; if b : bool then allM f l else Ret false
  end.

Lemma anyM_ret {A} (g : A -> bool) f l :
  (forall x, x ∈ l -> f x = Ret (g x)) -> anyM f l = Ret (existsb g l).
Proof.
  induction l as [|x l IH]; intros Hf; cbn; [done|].
  rewrite (Hf x) by left. cbn. destruct (g x); cbn; [done|].
  apply IH. intros y Hy. apply Hf. by right.
Qed.

Lemma allM_ret {A} (g : A -> bool) f l :
  (forall x, x ∈ l -> f x = Ret (g x)) -> allM f l = Ret (forallb g l).
Proof.
  induction l as [|x l IH]; intros Hf; cbn; [done|].
  rewrite (Hf x) by left. cbn. destruct (g x); cbn; [|done].
  apply IH. intros y Hy. apply Hf. by right.
Qed.

(** ** Strings

    Rust's [str] as a Stdlib string, one [ascii] per [char].  [chars] is the
    iterator of the same name. *)
Fixpoint chars (s : string) : list ascii :=
  match s with "" => [] | String c s => c :: chars s end%string.

Fixpoint of_chars (l : list ascii) : string :=
  match l with [] => "" | c :: l => String c (of_chars l) end%string.

Lemma chars_of_chars l : chars (of_chars l) = l.
Proof. induction l; cbn; by f_equal. Qed.
Lemma of_chars_chars s : of_chars (chars s) = s.
Proof. induction s; cbn; by f_equal. Qed.
Lemma str_app_cons c s t : String c s +:+ t = String c (s +:+ t).
Proof. done. Qed.
Lemma str_app_nil s : "" +:+ s = s.
Proof. done. Qed.
Lemma chars_app s t : chars (s +:+ t) = chars s ++ chars t.
Proof. induction s as [|c s IH]; [done|]. rewrite str_app_cons. cbn. by f_equal. Qed.
Global Instance chars_inj : Inj (=) (=) chars.
Proof. intros s t H. by rewrite <-(of_chars_chars s), H, of_chars_chars. Qed.
Lemma chars_length s : length (chars s) = String.length s.
Proof. induction s as [|c s IH]; [done|]. change (S (length (chars s)) = S (String.length s)). by rewrite IH. Qed.

(** The double quote. *)
Definition dquote : string := String (ascii_of_nat 34) EmptyString.

(** [str::strip_prefix]. *)
Fixpoint strip_prefix (p s : string) : option string :=
  match p, s with
  | EmptyString, _ => Some s
  | String a p, String b s => if decide (a = b) then strip_prefix p s else None
  | String _ _, EmptyString => None
  end.

(** [str::starts_with], [str::ends_with], [str::contains] of a [char]. *)
Definition starts_with (s p : string) : bool := bool_decide (is_Some (strip_prefix p s)).
Definition ends_with (s p : string) : bool :=
  bool_decide (is_Some (strip_prefix (of_chars (rev (chars p))) (of_chars (rev (chars s))))).
Definition contains_char (c : ascii) (s : string) : bool := bool_decide (c ∈ chars s).

(** [str::contains] of a string. *)
Fixpoint contains_str (p s : string) : bool :=
  starts_with s p || match s with EmptyString => false | String _ s => contains_str p s end.

Lemma strip_prefix_Some p s r : strip_prefix p s = Some r <-> s = p +:+ r.
Proof.
  revert s. induction p as [|a p IH]; intros s; cbn.
  - rewrite str_app_nil. naive_solver.
  - rewrite str_app_cons. destruct s as [|b s]; [naive_solver|].
    case_decide; [|naive_solver]. subst. rewrite IH. naive_solver.
Qed.

Lemma starts_with_spec s p : starts_with s p = true <-> exists r, s = p +:+ r.
Proof.
  unfold starts_with. rewrite bool_decide_eq_true. unfold is_Some.
  by setoid_rewrite strip_prefix_Some.
Qed.

Lemma ends_with_spec s p : ends_with s p = true <-> exists r, s = r +:+ p.
Proof.
  unfold ends_with. rewrite bool_decide_eq_true. unfold is_Some.
  setoid_rewrite strip_prefix_Some. split; intros [r Hr].
  - exists (of_chars (rev (chars r))). apply (inj chars).
    apply (f_equal chars) in Hr. rewrite chars_app, !chars_of_chars in *.
    apply (f_equal (@rev _)) in Hr. by rewrite rev_app_distr, !rev_involutive in Hr.
  - exists (of_chars (rev (chars r))). subst s. apply (inj chars).
    by rewrite !chars_app, !chars_of_chars, rev_app_distr.
Qed.

(** [str::split_once] of a [char]: at the first occurrence. *)
Fixpoint split_once (c : ascii) (s : string) : option (string * string) :=
  match s with
  | EmptyString => None
  | String a s =>
      if decide (a = c) then Some (EmptyString, s)
      else '(l, r) ← split_once c s; Some (String a l, r)
  end.

(** [str::rsplit_once] of a string: at the last occurrence. *)
Fixpoint rsplit_once (p s : string) : option (string * string) :=
  match s with
  | EmptyString => r ← strip_prefix p s; Some (EmptyString, r)
  | String a s' =>
      match rsplit_once p s' with
      | Some (l, r) => Some (String a l, r)
      | None => r ← strip_prefix p s; Some (EmptyString, r)
      end
  end.

Lemma split_once_app c s l r : split_once c s = Some (l, r) -> s = l +:+ String c r.
Proof.
  revert l. induction s as [|a s IH]; intros l; cbn; [done|].
  case_decide; [by intros [= <- <-]; subst|].
  destruct (split_once c s) as [[l' r']|] eqn:E; cbn; [|done].
  intros [= <- <-]. rewrite str_app_cons. f_equal. by apply IH.
Qed.

Lemma rsplit_once_app p s l r : rsplit_once p s = Some (l, r) -> s = l +:+ p +:+ r.
Proof.
  revert l. induction s as [|a s IH]; intros l; cbn -[strip_prefix].
  - destruct (strip_prefix p "") eqn:E; cbn; [|done].
    intros [= <- <-]. by apply strip_prefix_Some in E.
  - destruct (rsplit_once p s) as [[l' r']|] eqn:E.
    + intros [= <- <-]. rewrite str_app_cons. f_equal. by apply IH.
    + destruct (strip_prefix p (String a s)) eqn:E'; cbn; [|done].
      intros [= <- <-]. by apply strip_prefix_Some in E'.
Qed.

(** [str::split] on a [char]: always at least one piece. *)
Fixpoint split_char (c : ascii) (s : string) : list string :=
  match s with
  | EmptyString => [EmptyString]
  | String a s =>
      if decide (a = c) then EmptyString :: split_char c s
      else match split_char c s with
           | w :: ws => String a w :: ws
           | [] => [String a EmptyString]
           end
  end.

(** ASCII classes, [to_ascii_lowercase], [eq_ignore_ascii_case]. *)
Definition code (c : ascii) : Z := Z.of_N (N_of_ascii c).
Definition is_ascii_lowercase (c : ascii) : bool := ((97 <=? code c) && (code c <=? 122))%Z.
Definition is_ascii_uppercase (c : ascii) : bool := ((65 <=? code c) && (code c <=? 90))%Z.
Definition is_ascii_digit (c : ascii) : bool := ((48 <=? code c) && (code c <=? 57))%Z.
Definition is_ascii_alphanumeric (c : ascii) : bool :=
  is_ascii_lowercase c || is_ascii_uppercase c || is_ascii_digit c.
Definition to_ascii_lowercase (c : ascii) : ascii :=
  if is_ascii_uppercase c then ascii_of_N (N_of_ascii c + 32) else c.
Definition eq_ignore_ascii_case (s t : string) : bool :=
  bool_decide (map to_ascii_lowercase (chars s) = map to_ascii_lowercase (chars t)).

Lemma eq_ignore_ascii_case_refl s : eq_ignore_ascii_case s s = true.
Proof. by apply bool_decide_eq_true. Qed.
Lemma eq_ignore_ascii_case_trans_false s t u :
  eq_ignore_ascii_case s t = true -> eq_ignore_ascii_case t u = false ->
  eq_ignore_ascii_case s u = false.
Proof.
  unfold eq_ignore_ascii_case. rewrite bool_decide_eq_true, !bool_decide_eq_false.
  congruence.
Qed.

(** The value of a digit in a base up to 16 ([char::to_digit]). *)
Definition to_digit (base : Z) (c : ascii) : option Z :=
  let v :=
    if is_ascii_digit c then Some (code c - 48)%Z
    else if is_ascii_lowercase c then Some (code c - 87)%Z
    else if is_ascii_uppercase c then Some (code c - 55)%Z
    else None in
  d ← v; if (d <? base)%Z then Some d else None.

Fixpoint parse_digits (base max : Z) (acc : Z) (l : list ascii) : option Z :=
  match l with
  | [] => Some acc
  | c :: l =>
      d ← to_digit base c;
      let acc := (acc * base + d)%Z in
      if (acc <=? max)%Z then parse_digits base max acc l else None
  end.

(** [s.parse::<uN>()]: an optional leading [+], at least one decimal digit,
    and no overflow; [max] is [uN::MAX]. *)
Definition parse_uint (max : Z) (s : string) : option Z :=
  let l := match chars s with c :: l => if decide (c = "+"%char) then l else c :: l
                            | [] => [] end in
  match l with [] => None | _ => parse_digits 10 max 0 l end.

Definition u8_max : Z := 2 ^ 8 - 1.
Definition u32_max : Z := 2 ^ 32 - 1.
Definition u64_max : Z := 2 ^ 64 - 1.

Lemma to_digit_bounds base c d : to_digit base c = Some d -> (0 <= d < base)%Z.
Proof.
  unfold to_digit, is_ascii_digit, is_ascii_lowercase, is_ascii_uppercase. intros H.
  apply bind_Some in H as (v & Hv & H).
  destruct (Z.ltb_spec v base); simplify_eq.
  repeat (case_match; simplify_eq; bool_to_prop; try lia).
Qed.

Lemma elem_of_rev {A} (x : A) l : x ∈ rev l <-> x ∈ l.
Proof. by rewrite !list_elem_of_In, <-in_rev. Qed.

(** A loop [for x in l { acc = f(acc, x)?; }]. *)
Fixpoint fold_result {E A B} (f : A -> B -> result E A) (acc : A) (l : list B) : result E A :=
  match l with
  | [] => Ok acc
  | x :: l => acc ← f acc x; fold_result f acc l
  end.

Lemma fold_result_app {E A B} (f : A -> B -> result E A) a l k :
  fold_result f a (l ++ k) = (a ← fold_result f a l; fold_result f a k).
Proof.
  revert a. induction l as [|x l IH]; intros a; [done|]. cbn [app fold_result].
  destruct (f a x) as [b|e]; [apply IH|done].
Qed.

(** An invariant of such a loop, indexed by the elements already seen. *)
Lemma fold_result_ind {E A B} (f : A -> B -> result E A) (I : list B -> A -> Prop) l acc r :
  (forall seen a x a', I seen a -> x ∈ l -> f a x = Ok a' -> I (seen ++ [x]) a') ->
  I [] acc -> fold_result f acc l = Ok r -> I l r.
Proof.
  intros Hstep. change l with ([] ++ l) at 2. generalize (@nil B) as seen. revert acc Hstep.
  induction l as [|x l IH]; intros acc Hstep seen HI H; cbn in H.
  { injection H as <-. by rewrite app_nil_r. }
  apply result_bind_ok in H as (a & Ha & H).
  replace (seen ++ x :: l) with ((seen ++ [x]) ++ l) by by rewrite <-app_assoc.
  apply (IH a); [|eapply Hstep; [exact HI|left|exact Ha]|exact H].
  intros. eapply Hstep; eauto using list_elem_of_further.
Qed.

(** [slice::chunks]: consecutive pieces of [n] elements, the last one possibly
    shorter.  The fuel is the length of the list. *)
Fixpoint chunks_fuel {A} (fuel n : nat) (l : list A) : list (list A) :=
  match fuel, l with
  | S fuel, _ :: _ => take n l :: chunks_fuel fuel n (drop n l)
  | _, _ => []
  end.
Definition chunks {A} (n : nat) (l : list A) : list (list A) := chunks_fuel (length l) n l.

Lemma chunks_fuel_enough {A} n f1 f2 (l : list A) :
  0 < n -> length l <= f1 -> length l <= f2 -> chunks_fuel f1 n l = chunks_fuel f2 n l.
Proof.
  intros Hn. revert f2 l. induction f1 as [|f1 IH]; intros [|f2] [|x l]; cbn; try done; try lia.
  intros H1 H2. destruct n as [|n]; [lia|]. cbn. f_equal. apply IH; rewrite length_drop; lia.
Qed.

Lemma chunks_nil {A} n : chunks n (@nil A) = [].
Proof. done. Qed.

Lemma chunks_step {A} n (l : list A) :
  0 < n -> l <> [] -> chunks n l = take n l :: chunks n (drop n l).
Proof.
  intros Hn Hl. unfold chunks. destruct l as [|x l]; [done|].
  change (length (x :: l)) with (S (length l)). cbn [chunks_fuel]. f_equal.
  apply chunks_fuel_enough; rewrite ?length_drop; cbn; lia.
Qed.

Lemma chunks_app {A} n (l k : list A) :
  length l = n -> 0 < n -> chunks n (l ++ k) = l :: chunks n k.
Proof.
  intros <- Hn. rewrite chunks_step; [|done|by destruct l; [cbn in Hn; lia|]].
  by rewrite take_app_length, drop_app_length.
Qed.

Lemma chunks_small {A} n (l : list A) : l <> [] -> length l <= n -> chunks n l = [l].
Proof.
  intros Hl Hn. assert (length l <> 0) by by destruct l.
  rewrite chunks_step, take_ge, drop_ge, chunks_nil; [done|lia..|done].
Qed.

Lemma concat_chunks {A} n (l : list A) : 0 < n -> concat (chunks n l) = l.
Proof.
  intros Hn. remember (length l) as m eqn:Hm. revert l Hm.
  induction m as [m IH] using lt_wf_ind. intros l ->.
  destruct (decide (l = [])) as [->|Hl]; [done|].
  rewrite chunks_step by done. cbn. rewrite (IH (length (drop n l))); [apply take_drop| |done].
  rewrite length_drop. destruct l; cbn; [done|lia].
Qed.

(** A slice of a concatenation. *)
Lemma slice_app {A} n m (l k : list A) :
  take n (drop m (l ++ k)) =
  take n (drop m l) ++ take (n - length (take n (drop m l))) (drop (m - length l) k).
Proof.
  rewrite drop_app, take_app. f_equal. f_equal. rewrite length_take. lia.
Qed.

Lemma drop_chunks {A} n k (l : list A) : 0 < n -> drop k (chunks n l) = chunks n (drop (k * n) l).
Proof.
  intros Hn. revert l. induction k as [|k IH]; intros l; [done|].
  destruct (decide (l = [])) as [->|Hl]; [by rewrite chunks_nil, !drop_nil|].
  rewrite (chunks_step n l) by done. cbn [drop]. rewrite IH, drop_drop. done.
Qed.

Lemma concat_take_chunks {A} n k (l : list A) : 0 < n -> concat (take k (chunks n l)) = take (k * n) l.
Proof.
  intros Hn. revert l. induction k as [|k IH]; intros l; [done|].
  destruct (decide (l = [])) as [->|Hl]; [by rewrite chunks_nil, !take_nil|].
  rewrite (chunks_step n l) by done. cbn [take concat]. rewrite IH. cbn [Nat.mul].
  by rewrite take_take_drop.
Qed.

Lemma chunks_lookup_length {A} n i (l c : list A) :
  0 < n -> chunks n l !! i = Some c -> length c = Nat.min n (length l - i * n) /\ i * n < length l.
Proof.
  intros Hn Hi. pose proof (lookup_drop (chunks n l) i 0) as E.
  rewrite Nat.add_0_r, Hi, drop_chunks in E by done.
  destruct (decide (drop (i * n) l = [])) as [Hd|Hd]; [by rewrite Hd in E|].
  assert (length (drop (i * n) l) <> 0) by by destruct (drop (i * n) l).
  rewrite length_drop in *. rewrite chunks_step in E by done. injection E as <-.
  rewrite length_take, length_drop. lia.
Qed.

Lemma chunks_lt {A} n i (l : list A) : 0 < n -> i < length (chunks n l) <-> i * n < length l.
Proof.
  intros Hn. split; intros Hi.
  - apply lookup_lt_is_Some in Hi as [c Hc]. by eapply chunks_lookup_length in Hc as [_ ?].
  - apply Nat.nle_gt. intros Hle. assert (E : drop i (chunks n l) = []) by by apply drop_ge.
    rewrite drop_chunks in E by done.
    assert (Hd : drop (i * n) l <> []).
    { intros Hd%(f_equal length). rewrite length_drop in Hd. cbn in Hd. lia. }
    by rewrite chunks_step in E by done.
Qed.

(** ** Decimal numbers: printing then parsing *)

Lemma pretty_digit d : (d < 10)%N ->
  to_digit 10 (pretty_N_char d) = Some (Z.of_N d) /\ pretty_N_char d <> "+"%char.
Proof.
  intros Hd.
  assert (d = 0 \/ d = 1 \/ d = 2 \/ d = 3 \/ d = 4 \/ d = 5 \/ d = 6 \/ d = 7 \/ d = 8 \/ d = 9)%N
    as Hcases by lia.
  by repeat (destruct Hcases as [->|Hcases]); [..|subst d].
Qed.

Lemma parse_pretty_N_go max x s :
  (Z.of_N x <= max)%Z ->
  parse_digits 10 max 0 (chars (pretty_N_go x s)) = parse_digits 10 max (Z.of_N x) (chars s).
Proof.
  revert s. induction (N.lt_wf_0 x) as [x _ IH]; intros s Hx.
  assert (x = 0 \/ 0 < x)%N as [->|Hpos] by lia; [by rewrite pretty_N_go_0|].
  rewrite pretty_N_go_step by done.
  pose proof (N.mod_lt x 10 ltac:(done)) as Hm. destruct (pretty_digit _ Hm) as [Hd _].
  assert (Hdiv : (Z.of_N x = Z.of_N (x / 10) * 10 + Z.of_N (x mod 10))%Z).
  { pose proof (N.div_mod x 10 ltac:(done)). lia. }
  assert (Hle : (Z.of_N (x / 10) <= max)%Z).
  { clear -Hdiv Hx. pose proof (N2Z.is_nonneg (x / 10)). pose proof (N2Z.is_nonneg (x mod 10)).
    revert Hdiv. generalize dependent (Z.of_N (x / 10)). generalize dependent (Z.of_N (x mod 10)). lia. }
  rewrite IH; [|by apply N.div_lt|done]. cbn -[to_digit]. rewrite Hd. cbn -[Z.mul].
  rewrite <-Hdiv. by rewrite (proj2 (Z.leb_le _ _) Hx).
Qed.

Lemma pretty_N_go_head x s c r :
  pretty_N_go x s = String c r -> (0 < x)%N -> c <> "+"%char.
Proof.
  revert s. induction (N.lt_wf_0 x) as [x _ IH]; intros s Hx Hpos.
  rewrite pretty_N_go_step in Hx by done.
  pose proof (N.mod_lt x 10 ltac:(done)) as Hm. destruct (pretty_digit _ Hm) as [_ Hd].
  destruct (decide (x / 10 = 0)%N) as [E|E].
  - rewrite E, pretty_N_go_0 in Hx. by injection Hx as <- _.
  - refine (IH (x / 10)%N _ _ Hx _); [by apply N.div_lt|by apply N.neq_0_lt_0].
Qed.

(** [n.to_string().parse()] is [n]. *)
Lemma parse_uint_pretty max n : (0 <= n <= max)%Z -> parse_uint max (pretty n) = Some n.
Proof.
  intros Hn. destruct n as [|p|p]; [by destruct max; [..|lia]| |lia].
  change (pretty (Zpos p)) with (pretty_N_go (Npos p) "").
  unfold parse_uint. pose proof (parse_pretty_N_go max (Npos p) "" ltac:(lia)) as Hp.
  pose proof (pretty_N_go_head (Npos p) "") as Hh.
  destruct (pretty_N_go (Npos p) "") as [|c r] eqn:E.
  - by cbn in Hp.
  - cbn [chars] in *. rewrite decide_False by (eapply Hh; done). exact Hp.
Qed.

Lemma parse_digits_chars max acc l n :
  parse_digits 10 max acc l = Some n -> Forall (fun c => is_Some (to_digit 10 c)) l.
Proof.
  revert acc. induction l as [|c l IH]; intros acc; [constructor|]. cbn -[to_digit].
  destruct (to_digit 10 c) as [d|] eqn:E; [|done]. cbn -[to_digit]. case_match; [|done].
  intros Hp. constructor; [by rewrite E|by eapply IH].
Qed.

(** The characters of a printed number. *)
Lemma pretty_no_char n c : (0 <= n)%Z -> c <> "+"%char -> to_digit 10 c = None -> contains_char c (pretty n) = false.
Proof.
  intros Hn Hplus Hd. pose proof (parse_uint_pretty n n ltac:(lia)) as Hp. unfold parse_uint in Hp.
  unfold contains_char. apply bool_decide_eq_false. intros Hin.
  destruct (chars (pretty n)) as [|c0 l]; [by apply elem_of_nil in Hin|].
  assert (Hl : c ∈ match (if decide (c0 = "+"%char) then l else c0 :: l) with [] => [] | l => l end).
  { case_decide; [|by destruct l]. apply elem_of_cons in Hin as [->|Hin]; [done|by destruct l]. }
  destruct (if decide (c0 = "+"%char) then l else c0 :: l) as [|c1 l'] eqn:E; [done|].
  apply parse_digits_chars in Hp. rewrite Forall_forall in Hp. destruct (Hp c Hl) as [d Hd']. congruence.
Qed.
Lemma pretty_chars n : (0 <= n)%Z ->
  contains_char "/" (pretty n) = false /\ contains_char "." (pretty n) = false /\ pretty n <> "".
Proof.
  intros Hn. split_and!; [by apply pretty_no_char..|]. intros E.
  pose proof (parse_uint_pretty n n ltac:(lia)) as Hp. by rewrite E in Hp.
Qed.
