(* ===== verification/IpAddr.v ===== *)
(** * IP addresses: [std::net::IpAddr] as the policy code uses it

    The textual parser of the Rust standard library ([IpAddr::from_str]) and
    the big-endian value of an address, with the arithmetic of bit masks the
    CIDR test relies on. *)

From stdpp Require Import base list strings numbers.
From Stdlib Require Import ZArith Lia Ascii.
From S2P Require Import Prelude.

Local Open Scope Z_scope.

(** An address by its octets in network order: 4 of them, or 16. *)
Inductive IpAddr : Type :=
| V4 (octets : list Z)
| V6 (octets : list Z).

Global Instance IpAddr_eq_dec : EqDecision IpAddr.
Proof. solve_decision. Defined.

Definition octet (z : Z) : Prop := 0 <= z < 256.

Definition wf_ip (ip : IpAddr) : Prop :=
  match ip with
  | V4 o => length o = 4%nat /\ Forall octet o
  | V6 o => length o = 16%nat /\ Forall octet o
  end.

(** [uN::from_be_bytes]. *)
Definition from_be_bytes (l : list Z) : Z := foldl (fun acc b => acc * 256 + b) 0 l.

(** ** The parser *)
Module Parser.

(** A parser consumes a prefix of the input or leaves it untouched. *)
Definition parser (A : Type) : Type := list ascii -> option (A * list ascii).

Definition read_given_char (c : ascii) : parser unit := fun s =>
  match s with
  | a :: s => if decide (a = c) then Some (tt, s) else None
  | [] => None
  end.

Fixpoint read_digits (radix : Z) (max_digits : nat) (acc : Z) (count : nat)
    (s : list ascii) : option (Z * nat * list ascii) :=
  match s with
  | c :: s' =>
      match to_digit radix c with
      | Some d =>
          if decide (S count <= max_digits)%nat
          then read_digits radix max_digits (acc * radix + d) (S count) s'
          else None
      | None => Some (acc, count, s)
      end
  | [] => Some (acc, count, [])
  end.

(** [read_number(radix, Some(max_digits), allow_zero_prefix)], the result
    converted to a type whose largest value is [max]. *)
Definition read_number (radix : Z) (max_digits : nat) (allow_zero_prefix : bool)
    (max : Z) : parser Z := fun s =>
  let has_leading_zero := bool_decide (head s = Some "0"%char) in
  '(v, count, rest) ← read_digits radix max_digits 0 0 s;
  if decide (count = 0%nat) then None
  else if negb allow_zero_prefix && has_leading_zero && (1 <? Z.of_nat count) then None
  else if v <=? max then Some (v, rest) else None.

Definition read_separator {A} (sep : ascii) (index : nat) (inner : parser A) : parser A :=
  fun s =>
    if decide (index = 0%nat) then inner s
    else '(_, s) ← read_given_char sep s; inner s.

Definition read_ipv4_addr : parser (list Z) := fun s =>
  let group i := read_separator "."%char i (read_number 10 3 false 255) in
  '(a, s) ← group 0%nat s;
  '(b, s) ← group 1%nat s;
  '(c, s) ← group 2%nat s;
  '(d, s) ← group 3%nat s;
  Some ([a; b; c; d], s).

(** [read_groups]: the octets read, and whether an IPv4 tail was read.
    [todo] is the number of slots left of [limit = i + todo]. *)
Fixpoint read_groups (todo i : nat) (s : list ascii) : list Z * bool * list ascii :=
  match todo with
  | O => ([], false, s)
  | S todo' =>
      let ipv4 := if decide (todo' = 0%nat) then None
                  else read_separator ":"%char i read_ipv4_addr s in
      match ipv4 with
      | Some (o, s') => (o, true, s')
      | None =>
          match read_separator ":"%char i (read_number 16 4 true 65535) s with
          | Some (g, s') =>
              let '(gs, v4, s'') := read_groups todo' (S i) s' in
              ([g / 256; g mod 256] ++ gs, v4, s'')
          | None => ([], false, s)
          end
      end
  end.

Definition read_ipv6_addr : parser (list Z) := fun s =>
  let '(hd, head_ipv4, s) := read_groups 8 0 s in
  if decide (length hd = 16%nat) then Some (hd, s)
  else if head_ipv4 : bool then None
  else
    '(_, s) ← read_given_char ":"%char s;
    '(_, s) ← read_given_char ":"%char s;
    let limit := (8 - (length hd / 2 + 1))%nat in
    let '(tl, _, s) := read_groups limit 0 s in
    Some (hd ++ replicate (16 - length hd - length tl) 0 ++ tl, s).

Definition read_ip_addr : parser IpAddr := fun s =>
  match read_ipv4_addr s with
  | Some (o, s) => Some (V4 o, s)
  | None => '(o, s) ← read_ipv6_addr s; Some (V6 o, s)
  end.

End Parser.

(** [s.parse::<IpAddr>()]: the whole input must be read. *)
Definition parse_ip (s : string) : option IpAddr :=
  match Parser.read_ip_addr (chars s) with
  | Some (ip, []) => Some ip
  | _ => None
  end.

Example parse_ip_v4 : parse_ip "203.0.113.50" = Some (V4 [203; 0; 113; 50]).
Proof. reflexivity. Qed.
Example parse_ip_v4_zero_prefix : parse_ip "203.0.113.050" = None.
Proof. reflexivity. Qed.
Example parse_ip_v6 :
  parse_ip "2001:db8::1" = Some (V6 [32; 1; 13; 184; 0; 0; 0; 0; 0; 0; 0; 0; 0; 0; 0; 1]).
Proof. reflexivity. Qed.
Example parse_ip_v6_embedded :
  parse_ip "::ffff:1.2.3.4" = Some (V6 [0; 0; 0; 0; 0; 0; 0; 0; 0; 0; 255; 255; 1; 2; 3; 4]).
Proof. reflexivity. Qed.

(** ** Arithmetic of prefixes *)

Lemma from_be_bytes_acc acc l :
  foldl (fun acc b => acc * 256 + b) acc l = acc * 256 ^ Z.of_nat (length l) + from_be_bytes l.
Proof.
  unfold from_be_bytes. revert acc. induction l as [|b l IH]; intros acc; cbn [foldl length].
  - change (Z.of_nat 0) with 0. rewrite Z.pow_0_r. lia.
  - rewrite IH, (IH (0 * 256 + b)), Nat2Z.inj_succ, Z.pow_succ_r by lia. ring.
Qed.

Lemma from_be_bytes_app l1 l2 :
  from_be_bytes (l1 ++ l2) = from_be_bytes l1 * 256 ^ Z.of_nat (length l2) + from_be_bytes l2.
Proof. unfold from_be_bytes at 1. rewrite foldl_app, from_be_bytes_acc. done. Qed.

Lemma from_be_bytes_cons b l :
  from_be_bytes (b :: l) = b * 256 ^ Z.of_nat (length l) + from_be_bytes l.
Proof. apply (from_be_bytes_app [b] l). Qed.

Lemma from_be_bytes_bounds l : Forall octet l -> 0 <= from_be_bytes l < 256 ^ Z.of_nat (length l).
Proof.
  induction 1 as [|b l Hb _ IH]; [done|].
  rewrite from_be_bytes_cons. unfold octet in Hb. cbn [length].
  rewrite Nat2Z.inj_succ, Z.pow_succ_r by lia. nia.
Qed.

Lemma from_be_bytes_inj l1 l2 :
  Forall octet l1 -> Forall octet l2 -> length l1 = length l2 ->
  from_be_bytes l1 = from_be_bytes l2 -> l1 = l2.
Proof.
  intros H1. revert l2. induction H1 as [|b1 l1 Hb1 Hl1 IH]; intros [|b2 l2] H2 Hlen;
    [done..|]. inversion H2 as [|?? Hb2 Hl2]; subst. injection Hlen as Hlen.
  rewrite !from_be_bytes_cons, Hlen. intros Heq.
  pose proof (from_be_bytes_bounds l1 Hl1) as B1.
  pose proof (from_be_bytes_bounds l2 Hl2) as B2. rewrite Hlen in B1.
  assert (b1 = b2) by nia. subst. f_equal. apply IH; [done..|]. lia.
Qed.

(** Masking the low [k] of [w] bits away. *)
Lemma land_mask w k x :
  0 <= k <= w -> 0 <= x < 2 ^ w ->
  Z.land x ((2 ^ w - 1) * 2 ^ k mod 2 ^ w) = x / 2 ^ k * 2 ^ k.
Proof.
  intros Hk Hx. apply Z.bits_inj'. intros n Hn.
  rewrite Z.land_spec, <-Z.land_ones, Z.land_spec by lia.
  replace (2 ^ w - 1) with (Z.ones w) by (rewrite Z.ones_equiv; lia).
  rewrite Z.testbit_ones_nonneg, <-!Z.shiftl_mul_pow2, !Z.shiftl_spec by lia.
  destruct (Z.ltb_spec n k).
  { rewrite !(Z.testbit_neg_r _ (n - k)) by lia. by rewrite andb_false_r. }
  rewrite Z.testbit_ones_nonneg by lia.
  rewrite <-Z.shiftr_div_pow2, Z.shiftr_spec by lia. replace (n - k + k) with n by lia.
  destruct (Z.ltb_spec n w).
  - rewrite (proj2 (Z.ltb_lt (n - k) w)) by lia. by rewrite !andb_true_r.
  - rewrite andb_false_r, andb_false_r. symmetry.
    destruct (decide (x = 0)) as [->|]; [apply Z.bits_0|].
    apply Z.bits_above_log2; [lia|].
    apply Z.log2_lt_pow2; [lia|]. apply Z.lt_le_trans with (2 ^ w); [lia|].
    apply Z.pow_le_mono_r; lia.
Qed.

Lemma land_mask_eq w k x y :
  0 <= k <= w -> 0 <= x < 2 ^ w -> 0 <= y < 2 ^ w ->
  Z.land x ((2 ^ w - 1) * 2 ^ k mod 2 ^ w) = Z.land y ((2 ^ w - 1) * 2 ^ k mod 2 ^ w)
  <-> x / 2 ^ k = y / 2 ^ k.
Proof.
  intros. rewrite !land_mask by done. pose proof (Z.pow_pos_nonneg 2 k). nia.
Qed.

(** ** What the parser returns is well formed *)

Definition width (ip : IpAddr) : Z := match ip with V4 _ => 32 | V6 _ => 128 end.
Definition value (ip : IpAddr) : Z :=
  match ip with V4 o => from_be_bytes o | V6 o => from_be_bytes o end.

Lemma value_bounds ip : wf_ip ip -> 0 <= value ip < 2 ^ width ip.
Proof.
  destruct ip as [o|o]; intros [Hlen Ho]; cbn; pose proof (from_be_bytes_bounds o Ho) as B;
    rewrite Hlen in B; exact B.
Qed.

Module ParserFacts.
Import Parser.

Lemma read_digits_nonneg radix md acc n s v k s' :
  0 <= radix -> 0 <= acc -> read_digits radix md acc n s = Some (v, k, s') -> 0 <= v.
Proof.
  intros Hr. revert acc n. induction s as [|c s IH]; intros acc n Ha; cbn; [naive_solver|].
  destruct (to_digit radix c) as [d|] eqn:Hd; [|naive_solver].
  apply to_digit_bounds in Hd. case_decide; [|done]. apply IH. nia.
Qed.

Lemma read_number_bounds radix md z max s v s' :
  0 <= radix -> read_number radix md z max s = Some (v, s') -> 0 <= v <= max.
Proof.
  intros Hr. unfold read_number.
  destruct (read_digits radix md 0 0 s) as [[[v' k] r]|] eqn:E; cbn; [|done].
  apply read_digits_nonneg in E; [|lia..].
  repeat (case_match; try done). intros [= <- <-]. bool_to_prop. lia.
Qed.

Lemma read_separator_Some {A} sep i (p : parser A) s r :
  read_separator sep i p s = Some r -> exists s', p s' = Some r.
Proof.
  unfold read_separator. case_decide; [eauto|].
  destruct (read_given_char sep s) as [[[] s']|]; cbn; [eauto|done].
Qed.

Lemma read_ipv4_wf s o s' :
  read_ipv4_addr s = Some (o, s') -> length o = 4%nat /\ Forall octet o.
Proof.
  unfold read_ipv4_addr. intros H.
  repeat match goal with
  | H : (_ ≫= _) = Some _ |- _ => apply bind_Some in H as ([? ?] & ?%read_separator_Some & H)
  end.
  injection H as <- <-. split; [done|].
  repeat match goal with
  | H : exists _, _ |- _ => destruct H as [? ?%read_number_bounds]; [|lia]
  end.
  repeat constructor; unfold octet; lia.
Qed.

Lemma read_groups_wf todo i s o b s' :
  read_groups todo i s = (o, b, s') ->
  Forall octet o /\ (exists n, length o = 2 * n /\ n <= todo)%nat.
Proof.
  revert i s o b s'. induction todo as [|todo IH]; intros i s o b s'; cbn.
  { intros [= <- <- <-]. split; [done|]. by exists 0%nat. }
  case_match eqn:E4.
  - destruct p as [o4 s4]. intros [= <- <- <-]. case_decide; [done|].
    apply read_separator_Some in E4 as [? [Hl Ho]%read_ipv4_wf]. split; [done|].
    exists 2%nat. lia.
  - destruct (read_separator _ i (read_number 16 4 true 65535) s) as [[g s1]|] eqn:Eg.
    + destruct (read_groups todo (S i) s1) as [[gs v4] s2] eqn:Er.
      intros [= <- <- <-]. apply IH in Er as (Hgs & n & Hn & Hle).
      apply read_separator_Some in Eg as [? Hg%read_number_bounds]; [|lia].
      split; [|exists (S n); cbn; lia].
      pose proof (Z.mod_pos_bound g 256). pose proof (Z.div_pos g 256).
      pose proof (Z.div_lt_upper_bound g 256 256).
      cbn [app]. constructor; [unfold octet; lia|].
      constructor; [unfold octet; lia|done].
    + intros [= <- <- <-]. split; [done|]. exists 0%nat. cbn. lia.
Qed.

Lemma read_ipv6_wf s o s' :
  read_ipv6_addr s = Some (o, s') -> length o = 16%nat /\ Forall octet o.
Proof.
  unfold read_ipv6_addr. destruct (read_groups 8 0 s) as [[hd v4] s1] eqn:Eh.
  apply read_groups_wf in Eh as (Hh & n & Hn & Hle).
  case_decide; [intros [= <- <-]; done|]. destruct v4; [done|]. intros H'.
  repeat match goal with
  | H : (_ ≫= _) = Some _ |- _ => apply bind_Some in H as ([? ?] & ? & H)
  end.
  destruct (read_groups _ 0 _) as [[tl v4] s2] eqn:Et. injection H' as <- <-.
  apply read_groups_wf in Et as (Ht & m & Hm & Hle').
  assert (length hd / 2 = n)%nat as Hd by (rewrite Hn, Nat.mul_comm, Nat.div_mul; lia).
  rewrite Hd in Hle'. split.
  - rewrite !length_app, length_replicate. lia.
  - apply Forall_app; split; [done|]. apply Forall_app; split; [|done].
    by apply Forall_replicate.
Qed.

End ParserFacts.

Lemma parse_ip_wf s ip : parse_ip s = Some ip -> wf_ip ip.
Proof.
  unfold parse_ip, Parser.read_ip_addr. intros H.
  destruct (Parser.read_ipv4_addr (chars s)) as [[o r]|] eqn:E4.
  - destruct r; [|done]. injection H as <-. by eapply ParserFacts.read_ipv4_wf.
  - destruct (Parser.read_ipv6_addr (chars s)) as [[o r]|] eqn:E6; [|done]. cbn in H.
    destruct r; [|done]. injection H as <-. by eapply ParserFacts.read_ipv6_wf.
Qed.

(** ** The leading bits of a 16-octet address *)

Lemma from_be_bytes_take f o :
  length o = 16%nat -> Forall octet o -> (f <= 16)%nat ->
  from_be_bytes o / 2 ^ (128 - 8 * Z.of_nat f) = from_be_bytes (take f o).
Proof.
  intros Hl Ho Hf. rewrite <-(take_drop f o) at 1. rewrite from_be_bytes_app, length_drop, Hl.
  assert (Forall octet (drop f o)) as Hd by by apply Forall_drop.
  pose proof (from_be_bytes_bounds _ Hd) as B. rewrite length_drop, Hl in B.
  replace (128 - 8 * Z.of_nat f) with (8 * Z.of_nat (16 - f)) by lia.
  rewrite Z.pow_mul_r by lia. change (2 ^ 8) with 256.
  rewrite Z.div_add_l by lia. rewrite Z.div_small by done. lia.
Qed.

Lemma from_be_bytes_take_bits f r x o :
  length o = 16%nat -> Forall octet o -> o !! f = Some x -> 0 < r < 8 ->
  from_be_bytes o / 2 ^ (128 - (8 * Z.of_nat f + r))
  = from_be_bytes (take f o) * 2 ^ r + x / 2 ^ (8 - r).
Proof.
  intros Hl Ho Hx Hr. pose proof (lookup_lt_Some _ _ _ Hx) as Hf.
  pose proof (from_be_bytes_take (S f) o Hl Ho ltac:(lia)) as E.
  rewrite (take_S_r _ _ x), from_be_bytes_app in E by done.
  change (length [x]) with 1%nat in E. change (from_be_bytes [x]) with (0 * 256 + x) in E.
  replace (128 - (8 * Z.of_nat f + r)) with (128 - 8 * Z.of_nat (S f) + (8 - r)) by lia.
  rewrite Z.pow_add_r, <-Z.div_div, E by lia. change (256 ^ Z.of_nat 1) with (2 ^ 8).
  assert (2 ^ 8 = 2 ^ r * 2 ^ (8 - r)) as E8.
  { rewrite <-Z.pow_add_r by lia. f_equal. lia. }
  rewrite E8.
  rewrite Z.mul_assoc, Z.div_add_l by lia. by do 2 f_equal.
Qed.

(** Two numbers in mixed radix agree exactly when both digits do. *)
Lemma mixed_radix_eq b q1 r1 q2 r2 :
  0 <= r1 < b -> 0 <= r2 < b -> q1 * b + r1 = q2 * b + r2 <-> q1 = q2 /\ r1 = r2.
Proof.
  intros. split; [|by intros [-> ->]]. intros E.
  destruct (Z.lt_trichotomy q1 q2) as [?|[->|?]]; [nia|lia|nia].
Qed.
