(* ===== verification/Glob.v ===== *)
(** * Wildcard matching: [glob_match] of maxio-storage/src/policy.rs

    The matcher keeps two cursors and the position of the last star, and
    backtracks to it.  [Glob] is the reference relation. *)

From stdpp Require Import base list strings numbers.
From Stdlib Require Import Lia Ascii.
From S2P Require Import Prelude.

Local Open Scope nat_scope.

Definition star : ascii := "*"%char.
Definition qmark : ascii := "?"%char.

(** ** The reference relation *)
Inductive Glob : list ascii -> list ascii -> Prop :=
| glob_nil : Glob [] []
| glob_skip p v : Glob p v -> Glob (star :: p) v
| glob_eat p c v : Glob (star :: p) v -> Glob (star :: p) (c :: v)
| glob_any p c v : Glob p v -> Glob (qmark :: p) (c :: v)
| glob_char p c v : Glob p v -> Glob (c :: p) (c :: v).

(** ** The loop *)
Record cursors : Type := mk_cursors {
  pi : nat;
  vi : nat;
  star_pi : option nat;
  star_vi : option nat;
}.

(** One iteration of [while vi < v.len()]; [inr] is a [return]. *)
Definition glob_step (p v : list ascii) (s : cursors) : cursors + bool :=
  match p !! pi s, v !! vi s with
  | Some a, Some b =>
      if bool_decide (a = b) || bool_decide (a = qmark)
      then inl (mk_cursors (S (pi s)) (S (vi s)) (star_pi s) (star_vi s))
      else if bool_decide (a = star)
      then inl (mk_cursors (S (pi s)) (vi s) (Some (pi s)) (Some (vi s)))
      else match star_pi s, star_vi s with
           | Some spi, Some svi => inl (mk_cursors (S spi) (S svi) (Some spi) (Some (S svi)))
           | _, _ => inr false
           end
  | _, _ =>
      match star_pi s, star_vi s with
      | Some spi, Some svi => inl (mk_cursors (S spi) (S svi) (Some spi) (Some (S svi)))
      | _, _ => inr false
      end
  end.

(** The trailing [while pi < p.len() && p[pi] == '*' { pi += 1 }], and the
    final comparison [pi == p.len()]. *)
Fixpoint only_stars (p : list ascii) : bool :=
  match p with [] => true | a :: p => bool_decide (a = star) && only_stars p end.

Fixpoint glob_loop (fuel : nat) (p v : list ascii) (s : cursors) : option bool :=
  match fuel with
  | O => None
  | S fuel =>
      if decide (vi s < length v) then
        match glob_step p v s with
        | inl s => glob_loop fuel p v s
        | inr b => Some b
        end
      else Some (only_stars (drop (pi s) p))
  end.

Definition glob_fuel (p v : list ascii) : nat := S ((2 + length v) * (2 + length p)).

Definition glob_match_run (pattern value : string) : option bool :=
  let p := chars pattern in
  let v := chars value in
  glob_loop (glob_fuel p v) p v (mk_cursors 0 0 None None).

(** The fuel is always enough ([glob_match_terminates]), so the default is
    never used. *)
Definition glob_match (pattern value : string) : bool :=
  default false (glob_match_run pattern value).

Example glob_match_1 : glob_match "public/*" "public/a.txt" = true.
Proof. reflexivity. Qed.
Example glob_match_2 : glob_match "public/*" "private/a.txt" = false.
Proof. reflexivity. Qed.
Example glob_match_3 : glob_match "a*b?d*" "axxbxbcdyy" = true.
Proof. reflexivity. Qed.

(** ** Facts about the relation *)

Lemma Glob_refl v : Glob v v.
Proof. induction v; by constructor. Qed.

Lemma Glob_star_app p w v : Glob (star :: p) v -> Glob (star :: p) (w ++ v).
Proof. intros H. induction w; cbn; [done|by apply glob_eat]. Qed.

Lemma Glob_app p1 p2 v1 v2 : Glob p1 v1 -> Glob p2 v2 -> Glob (p1 ++ p2) (v1 ++ v2).
Proof. intros H1 H2. by induction H1; cbn; [|constructor..]. Qed.

Lemma Glob_star_all v : Glob [star] v.
Proof. rewrite <-(app_nil_r v). apply Glob_star_app. do 2 constructor. Qed.

Lemma Glob_star_inv p v :
  Glob (star :: p) v <-> exists w v', v = w ++ v' /\ Glob p v'.
Proof.
  split.
  - remember (star :: p) as q eqn:Hq. intros H. revert p Hq.
    induction H as [|p v H _|p c v H IH|p c v H _|p c v H _]; intros p' Hq; simplify_eq.
    + by exists [], v.
    + destruct (IH _ eq_refl) as (w & v' & -> & ?). by exists (c :: w), v'.
    + by exists [star], v.
  - intros (w & v' & -> & H). apply Glob_star_app. by constructor.
Qed.

Lemma Glob_cons_inv a p v :
  a <> star -> Glob (a :: p) v <-> exists b v', v = b :: v' /\ (a = b \/ a = qmark) /\ Glob p v'.
Proof.
  intros Ha. split.
  - inversion 1; subst; naive_solver.
  - intros (b & v' & -> & [-> | ->] & H); by constructor.
Qed.

Lemma Glob_nil_inv v : Glob [] v <-> v = [].
Proof. split; [by inversion 1|intros ->; constructor]. Qed.

Lemma Glob_only_stars p : Glob p [] <-> only_stars p = true.
Proof.
  induction p as [|a p IH]; cbn; [by split; [|constructor]|].
  rewrite andb_true_iff, bool_decide_eq_true, <-IH. split.
  - inversion 1; subst; done.
  - intros [-> ?]. by constructor.
Qed.

(** A star-free segment of a pattern consumes exactly its own length. *)
Lemma Glob_free_app q p v :
  star ∉ q -> Glob (q ++ p) v ->
  exists w v', v = w ++ v' /\ length w = length q /\ Glob p v'.
Proof.
  revert v. induction q as [|a q IH]; intros v Hq H; cbn in *.
  - by exists [], v.
  - apply not_elem_of_cons in Hq as [Ha Hq].
    apply Glob_cons_inv in H as (b & v' & -> & _ & H); [|done].
    destruct (IH _ Hq H) as (w & v'' & -> & Hlen & H'). exists (b :: w), v''.
    cbn. by rewrite Hlen.
Qed.

(** ** The loop invariant *)

(** The match still open at the cursors, and the one left at the last star. *)
Definition cur (p v : list ascii) (s : cursors) : Prop := Glob (drop (pi s) p) (drop (vi s) v).
Definition alt (p v : list ascii) (s : cursors) : Prop :=
  match star_pi s, star_vi s with
  | Some a, Some b => Glob (star :: drop (S a) p) (drop (S b) v)
  | _, _ => False
  end.
Definition open (p v : list ascii) (s : cursors) : Prop := cur p v s \/ alt p v s.

(** Since the last star, [q] was matched one character per character. *)
Definition wf (p v : list ascii) (s : cursors) : Prop :=
  pi s <= length p /\
  match star_pi s, star_vi s with
  | None, None => True
  | Some a, Some b =>
      S a <= length p /\
      exists q, (star ∉ v -> star ∉ q) /\ drop (S a) p = q ++ drop (pi s) p /\
                vi s = b + length q
  | _, _ => False
  end.

Definition measure (p v : list ascii) (s : cursors) : nat :=
  match star_vi s with None => S (length v) | Some b => length v - b end * (2 + length p)
  + (length p - pi s).

Inductive step_view (p v : list ascii) (s : cursors) : cursors + bool -> Prop :=
| view_eq a p' b v' :
    drop (pi s) p = a :: p' -> drop (vi s) v = b :: v' -> a = b \/ a = qmark ->
    p' = drop (S (pi s)) p -> v' = drop (S (vi s)) v ->
    step_view p v s (inl (mk_cursors (S (pi s)) (S (vi s)) (star_pi s) (star_vi s)))
| view_star p' b v' :
    drop (pi s) p = star :: p' -> drop (vi s) v = b :: v' -> star <> b ->
    p' = drop (S (pi s)) p -> v' = drop (S (vi s)) v ->
    step_view p v s (inl (mk_cursors (S (pi s)) (vi s) (Some (pi s)) (Some (vi s))))
| view_back spi svi :
    star_pi s = Some spi -> star_vi s = Some svi -> ~ cur p v s ->
    step_view p v s (inl (mk_cursors (S spi) (S svi) (Some spi) (Some (S svi))))
| view_fail :
    (star_pi s = None \/ star_vi s = None) -> ~ cur p v s -> step_view p v s (inr false).

Lemma glob_step_view p v s :
  vi s < length v -> step_view p v s (glob_step p v s).
Proof.
  intros Hv. destruct (lookup_lt_is_Some_2 v (vi s) Hv) as [b Hb].
  pose proof (drop_S v b (vi s) Hb) as Dv.
  assert (Hstuck : ~ cur p v s -> step_view p v s
    match star_pi s, star_vi s with
    | Some spi, Some svi => inl (mk_cursors (S spi) (S svi) (Some spi) (Some (S svi)))
    | _, _ => inr false
    end).
  { intros Hc. destruct (star_pi s) eqn:E1, (star_vi s) eqn:E2;
      first [by apply view_back | apply view_fail; by auto]. }
  unfold glob_step. rewrite Hb. destruct (p !! pi s) as [a|] eqn:Ha.
  - pose proof (drop_S p a (pi s) Ha) as Dp.
    destruct (decide (a = b \/ a = qmark)) as [Hab|Hab].
    + rewrite (proj2 (orb_true_iff _ _)) by (rewrite !bool_decide_eq_true; done).
      by eapply view_eq.
    + rewrite (proj2 (orb_false_iff _ _)) by (rewrite !bool_decide_eq_false; tauto).
      destruct (decide (a = star)) as [->|Hs].
      * rewrite bool_decide_eq_true_2 by done. eapply view_star; eauto.
      * rewrite bool_decide_eq_false_2 by done. apply Hstuck. unfold cur. rewrite Dp, Dv.
        rewrite Glob_cons_inv by done.
        intros (? & ? & [= -> _] & ? & _). by apply Hab.
  - apply lookup_ge_None in Ha. apply Hstuck. unfold cur.
    rewrite (drop_ge p) by done. rewrite Glob_nil_inv, Dv. done.
Qed.

Lemma glob_step_sound p v s s' :
  vi s < length v -> glob_step p v s = inl s' -> open p v s' -> open p v s.
Proof.
  intros Hv Hs. pose proof (glob_step_view p v s Hv) as V. rewrite Hs in V.
  unfold open, cur, alt. inversion V as [a p' b v' E1 E2 Hab -> -> |p' b v' E1 E2 _ -> ->
    |spi svi E1 E2 _|]; subst; cbn [pi vi star_pi star_vi].
  - rewrite E1, E2. intros [H|H]; [left|by right].
    destruct Hab as [-> | ->]; [by apply glob_char|by apply glob_any].
  - rewrite E1, E2. intros [H|H]; left; [|by apply glob_eat].
    by apply glob_skip.
  - rewrite E1, E2. intros [H|H]; right; [by apply glob_skip|].
    destruct (drop (S svi) v) as [|c r] eqn:Ev.
    + rewrite (drop_ge v (S (S svi))) in H; [done|].
      apply (f_equal length) in Ev. rewrite length_drop in Ev. cbn in Ev. lia.
    + apply glob_eat. replace r with (drop (S (S svi)) v); [done|].
      replace (S (S svi)) with (S svi + 1) by lia. by rewrite <-drop_drop, Ev.
Qed.

Lemma glob_step_wf p v s s' :
  vi s < length v -> wf p v s -> glob_step p v s = inl s' ->
  wf p v s' /\ vi s' <= length v /\ measure p v s' < measure p v s.
Proof.
  intros Hv [Hp Hw] Hs. pose proof (glob_step_view p v s Hv) as V. rewrite Hs in V.
  unfold wf, measure.
  inversion V as [a p' b v' E1 E2 Hab -> -> |p' b v' E1 E2 _ -> -> |spi svi E1 E2 _|];
    subst; cbn [pi vi star_pi star_vi].
  - assert (pi s < length p) by (apply (f_equal length) in E1; rewrite length_drop in E1; cbn in E1; lia).
    split_and!; [lia| |lia|lia].
    destruct (star_pi s), (star_vi s); try done. destruct Hw as (Hl & q & Hq & Eq & Ev).
    split; [done|]. exists (q ++ [a]). split_and!.
    + intros Hf [Hin|Ha]%elem_of_app; [by apply Hq|].
      apply list_elem_of_singleton in Ha as <-.
      destruct Hab as [<-|?]; [|done]. apply Hf, (list_elem_of_lookup_2 _ (vi s)).
      by rewrite <-(Nat.add_0_r (vi s)), <-lookup_drop, E2.
    + rewrite Eq, E1, <-app_assoc. done.
    + rewrite length_app. cbn. lia.
  - assert (pi s < length p) by (apply (f_equal length) in E1; rewrite length_drop in E1; cbn in E1; lia).
    split_and!; [lia|lia| |lia|].
    + exists []. rewrite Nat.add_0_r. split_and!; [|done..]. intros _. apply not_elem_of_nil.
    + destruct (star_pi s), (star_vi s) as [b0|]; try done; [|nia].
      destruct Hw as (_ & q & _ & _ & Ev). nia.
  - rewrite E1, E2 in *. destruct Hw as (Hl & q & _ & _ & Ev).
    split_and!; [lia|lia| |lia|nia].
    exists []. rewrite Nat.add_0_r. split_and!; [|done..]. intros _. apply not_elem_of_nil.
Qed.

(** With a value free of stars, no match is lost. *)
Lemma glob_step_complete p v s s' :
  star ∉ v -> vi s < length v -> wf p v s -> glob_step p v s = inl s' ->
  open p v s -> open p v s'.
Proof.
  intros Hf Hv [Hp Hw] Hs. pose proof (glob_step_view p v s Hv) as V. rewrite Hs in V.
  unfold open, cur, alt in *.
  inversion V as [a p' b v' E1 E2 Hab -> -> |p' b v' E1 E2 Hne -> ->
    |spi svi E1 E2 Hc|]; subst; cbn [pi vi star_pi star_vi].
  - intros [H|H]; [left|by right]. rewrite E1, E2 in H.
    assert (a <> star) as Ha.
    { intros ->. destruct Hab as [<-|?]; [|done]. apply Hf, (list_elem_of_lookup_2 _ (vi s)).
      by rewrite <-(Nat.add_0_r (vi s)), <-lookup_drop, E2. }
    apply Glob_cons_inv in H as (? & ? & [= <- <-] & _ & H); done.
  - intros H. assert (Glob (star :: drop (S (pi s)) p) (drop (vi s) v)) as Hcur.
    { destruct H as [H|H]; [by rewrite E1 in H|].
      destruct (star_pi s), (star_vi s) as [b0|]; try done.
      destruct Hw as (_ & q & Hq & Eq & Ev). rewrite Eq, E1 in H.
      apply Glob_star_inv in H as (w & v1 & Ew & H).
      apply Glob_free_app in H as (w' & v2 & -> & Hlen & H); [|by apply Hq].
      replace (drop (vi s) v) with (take (S (length w)) (drop (vi s) v) ++ v2).
      { by apply Glob_star_app. }
      rewrite <-(take_drop (S (length w)) (drop (vi s) v)) at 2. f_equal.
      rewrite drop_drop, Ev. replace (b0 + length q + S (length w))
        with (S b0 + (length w + length w')) by lia.
      rewrite <-drop_drop, Ew, app_assoc, <-length_app. by rewrite drop_app_length. }
    apply Glob_star_inv in Hcur as ([|c w] & v1 & Ev1 & Hc); cbn in Ev1.
    { left. by rewrite Ev1. }
    right. rewrite E2 in Ev1. injection Ev1 as -> ->. apply Glob_star_app. by constructor.
  - rewrite E1, E2. intros [H|H]; [done|].
    apply Glob_star_inv in H as ([|c w] & v1 & Ev1 & H); cbn in Ev1.
    { left. by rewrite Ev1. }
    right. replace (S (S svi)) with (S svi + 1) by lia.
    rewrite <-drop_drop, Ev1. cbn. rewrite drop_0. apply Glob_star_app. by constructor.
Qed.

Lemma open_at_end p v s :
  star ∉ v -> wf p v s -> vi s <= length v -> ~ vi s < length v ->
  open p v s -> only_stars (drop (pi s) p) = true.
Proof.
  intros Hf [_ Hw] Hv Hn. unfold open, cur, alt. rewrite <-Glob_only_stars.
  rewrite (drop_ge v (vi s)) by lia. intros [H|H]; [done|].
  destruct (star_pi s), (star_vi s) as [b|]; try done.
  destruct Hw as (_ & q & Hq & Eq & Ev). rewrite Eq in H.
  apply Glob_star_inv in H as (w & v1 & Ew & H).
  apply Glob_free_app in H as (w' & v2 & -> & Hlen & H); [|by apply Hq].
  apply (f_equal length) in Ew. rewrite length_drop, !length_app in Ew.
  assert (v2 = []) as -> by (apply length_zero_iff_nil; lia). done.
Qed.

(** ** The theorems *)

Lemma glob_loop_terminates p v fuel s :
  wf p v s -> vi s <= length v -> measure p v s < fuel -> is_Some (glob_loop fuel p v s).
Proof.
  revert s. induction fuel as [|fuel IH]; intros s Hw Hv Hm; [lia|]. cbn.
  case_decide as Hlt; [|done]. destruct (glob_step p v s) as [s'|b] eqn:E; [|done].
  destruct (glob_step_wf p v s s') as (? & ? & ?); [done..|]. apply IH; [done..|lia].
Qed.

Lemma glob_loop_sound p v fuel s :
  glob_loop fuel p v s = Some true -> vi s <= length v -> wf p v s -> open p v s.
Proof.
  revert s. induction fuel as [|fuel IH]; intros s Hl Hv Hw; [done|]. cbn in Hl.
  case_decide as Hlt.
  - pose proof (glob_step_view p v s Hlt) as V.
    destruct (glob_step p v s) as [s'|b] eqn:E; [|inversion V; by subst].
    destruct (glob_step_wf p v s s') as (? & ? & ?); [done..|].
    eapply glob_step_sound; [done..|]. by apply IH.
  - injection Hl as Hl. left. unfold cur. rewrite (drop_ge v) by lia. by apply Glob_only_stars.
Qed.

Lemma glob_loop_complete p v fuel s b :
  star ∉ v -> glob_loop fuel p v s = Some b -> vi s <= length v -> wf p v s ->
  open p v s -> b = true.
Proof.
  intros Hf. revert s. induction fuel as [|fuel IH]; intros s Hl Hv Hw Ho; [done|].
  cbn in Hl. case_decide as Hlt.
  - pose proof (glob_step_view p v s Hlt) as V.
    destruct (glob_step p v s) as [s'|b'] eqn:E.
    + destruct (glob_step_wf p v s s') as (? & ? & ?); [done..|].
      eapply IH; [done..|]. by eapply glob_step_complete.
    + inversion V as [| | |Hs Hc]; subst. destruct Ho as [|Ha]; [done|].
      unfold alt in Ha. destruct Hs as [Hs|Hs]; rewrite Hs in Ha; [done|].
      by destruct (star_pi s).
  - injection Hl as <-. by eapply open_at_end.
Qed.

Lemma wf_init p v : wf p v (mk_cursors 0 0 None None).
Proof. split; cbn; [lia|done]. Qed.

Lemma open_init p v : open p v (mk_cursors 0 0 None None) <-> Glob p v.
Proof. unfold open, cur, alt. cbn. rewrite !drop_0. naive_solver. Qed.

Lemma glob_match_run_total pattern value :
  glob_match_run pattern value = Some (glob_match pattern value).
Proof.
  unfold glob_match, glob_match_run.
  edestruct (glob_loop_terminates (chars pattern) (chars value)) as [b Hb];
    [apply wf_init|cbn; lia| |by rewrite Hb].
  unfold measure, glob_fuel. cbn. lia.
Qed.

(** [glob_match] accepts only what the pattern describes. *)
Lemma glob_match_sound pattern value :
  glob_match pattern value = true -> Glob (chars pattern) (chars value).
Proof.
  intros H. pose proof (glob_match_run_total pattern value) as E. rewrite H in E.
  apply open_init. eapply glob_loop_sound; [exact E|cbn; lia|apply wf_init].
Qed.

Lemma glob_match_complete pattern value :
  star ∉ chars value -> Glob (chars pattern) (chars value) -> glob_match pattern value = true.
Proof.
  intros Hf H. pose proof (glob_match_run_total pattern value) as E.
  eapply glob_loop_complete; [done|exact E|cbn; lia|apply wf_init|by apply open_init].
Qed.

(** C29: the matcher returns, and on a value without stars it decides the
    wildcard relation. *)
Theorem glob_match_correct pattern value :
  star ∉ chars value ->
  exists b, glob_match_run pattern value = Some b
            /\ (b = true <-> Glob (chars pattern) (chars value)).
Proof.
  intros Hf. exists (glob_match pattern value). split; [apply glob_match_run_total|].
  split; [apply glob_match_sound|by apply glob_match_complete].
Qed.

Lemma glob_match_correct_witness :
  exists b, glob_match_run "a*b?d*" "axxbxbcdyy" = Some b
            /\ (b = true <-> Glob (chars "a*b?d*") (chars "axxbxbcdyy")).
Proof.
  apply glob_match_correct. eapply (bool_decide_eq_false_1 _). vm_compute. reflexivity.
Defined.

(** Whatever the value, a match is reported only when there is one. *)
Theorem glob_match_only_matches pattern value :
  glob_match pattern value = true -> Glob (chars pattern) (chars value).
Proof. apply glob_match_sound. Qed.

Lemma glob_match_only_matches_witness : Glob (chars "p*/?") (chars "photos/*").
Proof. apply glob_match_only_matches. vm_compute. reflexivity. Defined.
