(* ===== verification/Policy.v ===== *)
(** * Bucket policies: maxio-storage/src/policy.rs

    The two evaluators of a bucket policy: [evaluate_v1_policy], which turns
    a policy into two public flags, and [evaluate_policy_v2], which decides
    one request; and [validate_policy_v2], run before a policy is stored.
    JSON parsing ([serde_json::from_str] into [BucketPolicy]) is a parameter. *)

From stdpp Require Import base list strings sets numbers pretty.
From Stdlib Require Import ZArith Lia Ascii.
From S2P Require Import Prelude IpAddr Glob.

Local Open Scope string_scope.

(** ** Data *)

(** [serde_json::Value]; an object is its map in iteration order (a BTreeMap:
    sorted, each key once). *)
Inductive Value : Type :=
| VNull
| VBool (b : bool)
| VNumber (text : string)
| VString (s : string)
| VArray (l : list Value)
| VObject (m : list (string * Value)).

Definition as_str (v : Value) : option string :=
  match v with VString s => Some s | _ => None end.
Definition as_object (v : Value) : option (list (string * Value)) :=
  match v with VObject m => Some m | _ => None end.

(** [Map::get]. *)
Fixpoint map_get (k : string) (m : list (string * Value)) : option Value :=
  match m with
  | [] => None
  | (k', v) :: m => if decide (k = k') then Some v else map_get k m
  end.

Record PolicyEffects : Type := mk_effects { public_read : bool; public_list : bool }.

Inductive PolicyDecision : Type := Allow | Deny | ImplicitDeny.

Global Instance PolicyDecision_eq_dec : EqDecision PolicyDecision.
Proof. solve_decision. Defined.

Record PolicyContext : Type := {
  principal_access_key : option string;
  source_ip : option string;
  is_anonymous : bool;
  jwt_groups : list string;
  jwt_roles : list string;
  oidc_claims : option (list (string * Value));
}.

Record PolicyRequest : Type := {
  action : string;
  bucket : string;
  object_key : option string;
  list_prefix : option string;
}.

Inductive PolicyActions : Type := OneAction (s : string) | ManyActions (l : list string).
Inductive PolicyResources : Type := OneResource (s : string) | ManyResources (l : list string).

Record PolicyStatement : Type := {
  effect : string;
  principal : Value;
  st_action : PolicyActions;
  resource : PolicyResources;
  condition : option Value;
}.

Record BucketPolicy : Type := { version : string; statement : list PolicyStatement }.

Definition SUPPORTED_ACTIONS : list string :=
  ["s3:GetObject"; "s3:PutObject"; "s3:DeleteObject"; "s3:ListBucket"; "s3:*"].

Definition CONDITION_OPERATORS : list string := ["StringEquals"; "StringLike"; "IpAddress"].

(** ** Small helpers *)

Definition actions_list (a : PolicyActions) : list string :=
  match a with OneAction s => [s] | ManyActions l => l end.
Definition resources_list (r : PolicyResources) : list string :=
  match r with OneResource s => [s] | ManyResources l => l end.

Definition normalize_action (action : string) : string :=
  match split_once ":"%char action with
  | Some (service, rest) =>
      if eq_ignore_ascii_case service "s3" then "s3:" +:+ rest else action
  | None => action
  end.

Definition principal_is_wildcard (principal : Value) : bool :=
  match principal with
  | VString s => bool_decide (s = "*")
  | VObject map =>
      match map_get "AWS" map with
      | Some (VString s) => bool_decide (s = "*")
      | Some (VArray arr) => existsb (fun x => bool_decide (as_str x = Some "*")) arr
      | _ => false
      end
  | _ => false
  end.

Definition principal_arns (principal : Value) : list string :=
  match principal with
  | VString s => if decide (s = "*") then [] else [s]
  | VObject map =>
      match map_get "AWS" map with
      | Some (VString s) => if decide (s = "*") then [] else [s]
      | Some (VArray arr) =>
          omap (fun v => s ← as_str v; if decide (s = "*") then None else Some s) arr
      | _ => []
      end
  | _ => []
  end.

Definition access_key_from_principal_arn (arn : string) : option string :=
  '(_, suffix) ← rsplit_once ":user/" arn;
  if decide (suffix = "") then None else Some suffix.

Definition resource_matches (resource expected : string) : bool :=
  bool_decide (resource = expected) || bool_decide (resource = "*").

Definition any_resource (resources : PolicyResources) (expected : string) : bool :=
  match resources with
  | OneResource s => resource_matches s expected
  | ManyResources l => existsb (fun s => resource_matches s expected) l
  end.

Definition condition_values (v : Value) : list string :=
  match v with
  | VString s => [s]
  | VArray arr => omap as_str arr
  | _ => []
  end.

Definition is_supported_condition_key (key : string) : bool :=
  bool_decide (key ∈ ["aws:SourceIp"; "s3:prefix"; "jwt:groups"; "jwt:roles"]).

Definition bucket_arn_of (bucket : string) : string := "arn:aws:s3:::" +:+ bucket.

(** ** Conditions *)

(** [ip_in_network]: slices and indices of the octet arrays are checked, so a
    prefix length beyond 128 on an IPv6 network panics. *)
Definition ip_in_network (ip network : IpAddr) (prefix_len : Z) : exec bool :=
  match network, ip with
  | V4 net, V4 addr =>
      let mask :=
        (if 32 <=? prefix_len then 2 ^ 32 - 1
         else if prefix_len =? 0 then 0
         else (2 ^ 32 - 1) * 2 ^ (32 - prefix_len) mod 2 ^ 32)%Z in
      let net_bits := from_be_bytes net in
      let addr_bits := from_be_bytes addr in
      Ret (Z.land net_bits mask =? Z.land addr_bits mask)%Z
  | V6 net, V6 addr =>
      let full_bytes := Z.to_nat (prefix_len / 8)%Z in
      let remainder := (prefix_len mod 8)%Z in
      if decide (length net < full_bytes \/ length addr < full_bytes)%nat then Panic
      else if bool_decide (take full_bytes net <> take full_bytes addr) then Ret false
      else if (remainder =? 0)%Z then Ret true
      else
        let mask := (255 * 2 ^ (8 - remainder) mod 2 ^ 8)%Z in
        match net !! full_bytes, addr !! full_bytes with
        | Some a, Some b => Ret (Z.land a mask =? Z.land b mask)%Z
        | _, _ => Panic
        end
  | _, _ => Ret false
  end.

Definition ip_matches_cidr (ip cidr : string) : exec bool :=
  match parse_ip ip with
  | None => Ret false
  | Some addr =>
      match split_once "/"%char cidr with
      | Some (network, prefix) =>
          match parse_ip network with
          | None => Ret false
          | Some net_addr =>
              match parse_uint u8_max prefix with
              | None => Ret false
              | Some prefix_len => ip_in_network addr net_addr prefix_len
              end
          end
      | None => Ret (bool_decide (ip = cidr))
      end
  end.

(** The two comparisons of a condition operator. *)
Definition operator_matches (operator pattern value : string) : bool :=
  if eq_ignore_ascii_case operator "StringEquals" then bool_decide (value = pattern)
  else if eq_ignore_ascii_case operator "StringLike" then glob_match pattern value
  else false.

Definition jwt_claim_condition_matches (operator : string) (expected : Value)
    (actual : list string) : bool :=
  existsb (fun pattern => existsb (operator_matches operator pattern) actual)
    (condition_values expected).

(** [req.list_prefix.or(req.object_key).unwrap_or("")]. *)
Definition request_prefix (req : PolicyRequest) : string :=
  match list_prefix req with
  | Some p => p
  | None => default "" (object_key req)
  end.

Definition condition_key_matches (operator key : string) (expected : Value)
    (req : PolicyRequest) (ctx : PolicyContext) : exec bool :=
  if decide (key = "aws:SourceIp" /\ eq_ignore_ascii_case operator "IpAddress" = true) then
    match source_ip ctx with
    | None => Ret false
    | Some ip => anyM (ip_matches_cidr ip) (condition_values expected)
    end
  else if decide (key = "s3:prefix") then
    Ret (existsb (fun pattern => operator_matches operator pattern (request_prefix req))
           (condition_values expected))
  else if decide (key = "jwt:groups") then
    Ret (jwt_claim_condition_matches operator expected (jwt_groups ctx))
  else if decide (key = "jwt:roles") then
    Ret (jwt_claim_condition_matches operator expected (jwt_roles ctx))
  else Ret false.

Definition conditions_match (condition : Value) (req : PolicyRequest) (ctx : PolicyContext)
    : exec bool :=
  match as_object condition with
  | None => Ret false
  | Some obj =>
      allM (fun '(operator, body) =>
        match as_object body with
        | None => Ret false
        | Some keys =>
            allM (fun '(key, expected) => condition_key_matches operator key expected req ctx) keys
        end) obj
  end.

(** ** Matching one statement *)

Definition principal_matches (principal : Value) (ctx : PolicyContext) : bool :=
  if principal_is_wildcard principal then true
  else match principal_access_key ctx with
       | None => false
       | Some access_key =>
           existsb (fun arn => bool_decide (access_key_from_principal_arn arn = Some access_key))
             (principal_arns principal)
       end.

Definition actions_match (actions : PolicyActions) (requested : string) : bool :=
  let requested := normalize_action requested in
  existsb (fun raw =>
    let action := normalize_action raw in
    bool_decide (action = "s3:*") || bool_decide (action = requested)) (actions_list actions).

Definition resource_pattern_matches (pattern target bucket_arn : string) : bool :=
  if bool_decide (pattern = "*") || bool_decide (pattern = target) then true
  else if contains_char star pattern || contains_char qmark pattern
  then glob_match pattern target
  else bool_decide (pattern = bucket_arn) && starts_with target bucket_arn.

Definition resource_matches_request (resources : PolicyResources) (req : PolicyRequest)
    (bucket_arn object_arn : string) : bool :=
  let target := if decide (action req = "s3:ListBucket") then bucket_arn else object_arn in
  existsb (fun pattern => resource_pattern_matches pattern target bucket_arn)
    (resources_list resources).

Definition statement_matches_request (stmt : PolicyStatement) (req : PolicyRequest)
    (bucket_arn object_arn : string) (ctx : PolicyContext) : exec bool :=
  if negb (principal_matches (principal stmt) ctx) then Ret false
  else if negb (actions_match (st_action stmt) (action req)) then Ret false
  else if negb (resource_matches_request (resource stmt) req bucket_arn object_arn) then Ret false
  else match condition stmt with
       | None => Ret true
       | Some cond => conditions_match cond req ctx
       end.

(** ** Validation of a document before it is stored *)

Definition validate_effect (effect : string) : result string unit :=
  if eq_ignore_ascii_case effect "Allow" || eq_ignore_ascii_case effect "Deny" then Ok tt
  else Err ("MalformedPolicy: unsupported Effect '" +:+ effect +:+ "' (allowed: Allow, Deny)").

Definition validate_principal (principal : Value) : result string unit :=
  if principal_is_wildcard principal then Ok tt
  else for_each (fun arn =>
    if bool_decide (access_key_from_principal_arn arn = None)
    then Err ("MalformedPolicy: unsupported Principal ARN '" +:+ arn +:+
              "' (expected arn:aws:iam:::user/ACCESS_KEY)")
    else Ok tt) (principal_arns principal).

Definition validate_actions (actions : PolicyActions) : result string unit :=
  let list := actions_list actions in
  if bool_decide (list = []) then Err "MalformedPolicy: Action must not be empty"
  else for_each (fun action =>
    if bool_decide (normalize_action action ∈ SUPPORTED_ACTIONS) then Ok tt
    else Err ("MalformedPolicy: unsupported Action '" +:+ action +:+
              "' (allowed: s3:GetObject, s3:PutObject, s3:DeleteObject, s3:ListBucket, s3:*)")) list.

Definition wildcard_resource_matches_bucket (resource bucket_arn object_prefix : string) : bool :=
  if negb (contains_char star resource) then false
  else glob_match resource bucket_arn || glob_match resource (object_prefix +:+ "example-key").

Definition validate_resources_for_bucket (resources : PolicyResources)
    (bucket_arn object_arn_prefix : string) : result string unit :=
  let list := resources_list resources in
  if bool_decide (list = []) then Err "MalformedPolicy: Resource must not be empty"
  else for_each (fun resource =>
    if bool_decide (resource = "*") || bool_decide (resource = bucket_arn)
       || starts_with resource object_arn_prefix
       || wildcard_resource_matches_bucket resource bucket_arn object_arn_prefix
    then Ok tt
    else Err ("MalformedPolicy: Resource '" +:+ resource +:+ "' must scope to bucket ARN " +:+
              bucket_arn +:+ " or " +:+ object_arn_prefix +:+ "*")) list.

Definition validate_condition (condition : Value) : result string unit :=
  match as_object condition with
  | None => Err "MalformedPolicy: Condition must be a JSON object"
  | Some obj =>
      if bool_decide (obj = []) then Err "MalformedPolicy: Condition must not be empty"
      else for_each (fun '(operator, body) =>
        if negb (existsb (fun op => eq_ignore_ascii_case op operator) CONDITION_OPERATORS)
        then Err ("MalformedPolicy: unsupported Condition operator '" +:+ operator +:+
                  "' (allowed: StringEquals, StringLike, IpAddress)")
        else match as_object body with
             | None => Err ("MalformedPolicy: Condition operator '" +:+ operator +:+
                            "' must map condition keys to values")
             | Some keys =>
                 for_each (fun '(key, _) =>
                   if is_supported_condition_key key then Ok tt
                   else Err ("MalformedPolicy: unsupported Condition key '" +:+ key +:+ "'")) keys
             end) obj
  end.

Definition validate_statement (bucket : string) (stmt : PolicyStatement) : result string unit :=
  _ ← validate_effect (effect stmt);
  _ ← validate_principal (principal stmt);
  _ ← validate_actions (st_action stmt);
  _ ← validate_resources_for_bucket (resource stmt) (bucket_arn_of bucket)
        (bucket_arn_of bucket +:+ "/");
  match condition stmt with
  | Some cond => validate_condition cond
  | None => Ok tt
  end.

(** ** The evaluators *)

(** The body of the v1 loop for one action: it sets a flag or fails. *)
Definition apply_action (bucket : string) (stmt : PolicyStatement) (effects : PolicyEffects)
    (raw_action : string) : result string PolicyEffects :=
  let bucket_arn := bucket_arn_of bucket in
  let object_arn := bucket_arn +:+ "/*" in
  let action := normalize_action raw_action in
  if decide (action = "s3:GetObject") then
    if any_resource (resource stmt) object_arn
    then Ok (mk_effects true (public_list effects))
    else Err ("MalformedPolicy: s3:GetObject requires Resource " +:+ object_arn)
  else if decide (action = "s3:ListBucket") then
    if any_resource (resource stmt) bucket_arn
    then Ok (mk_effects (public_read effects) true)
    else Err ("MalformedPolicy: s3:ListBucket requires Resource " +:+ bucket_arn)
  else Err ("MalformedPolicy: unsupported Action '" +:+ action +:+
            "' in v1 (allowed: s3:GetObject, s3:ListBucket)").

Definition apply_statement (bucket : string) (effects : PolicyEffects) (stmt : PolicyStatement)
    : result string PolicyEffects :=
  if bool_decide (is_Some (condition stmt)) then
    Err "MalformedPolicy: Condition blocks are not supported in v1"
  else if negb (eq_ignore_ascii_case (effect stmt) "Allow") then
    Err "MalformedPolicy: only Effect=Allow statements are supported in v1"
  else if negb (principal_is_wildcard (principal stmt)) then
    Err ("MalformedPolicy: only Principal=" +:+ dquote +:+ "*" +:+ dquote +:+ " is supported in v1")
  else fold_result (apply_action bucket stmt) effects (actions_list (st_action stmt)).

Section Evaluate.
(** [serde_json::from_str::<BucketPolicy>]. *)
Context (from_str : string -> result string BucketPolicy).

Definition parse_policy (raw : string) : result string BucketPolicy :=
  policy ← map_err (fun e => "MalformedPolicy: invalid JSON: " +:+ e) (from_str raw);
  if bool_decide (version policy <> "") && bool_decide (version policy <> "2012-10-17")
  then Err ("MalformedPolicy: unsupported Version '" +:+ version policy +:+
            "', expected 2012-10-17")
  else Ok policy.

Definition evaluate_v1_policy (bucket raw : string) : result string PolicyEffects :=
  policy ← parse_policy raw;
  fold_result (apply_statement bucket) (mk_effects false false) (statement policy).

Definition policy_requires_v2_enforcement (bucket raw : string) : bool :=
  is_err (evaluate_v1_policy bucket raw).

Fixpoint v2_loop (req : PolicyRequest) (ctx : PolicyContext) (bucket_arn object_arn : string)
    (allow_match deny_match : bool) (stmts : list PolicyStatement)
    : exec (result string PolicyDecision) :=
  match stmts with
  | [] => Ret (Ok (if deny_match then Deny else if allow_match then Allow else ImplicitDeny))
  | stmt :: stmts =>
      m ← statement_matches_request stmt req bucket_arn object_arn ctx;
      if negb m then v2_loop req ctx bucket_arn object_arn allow_match deny_match stmts
      else if eq_ignore_ascii_case (effect stmt) "Deny"
      then v2_loop req ctx bucket_arn object_arn allow_match true stmts
      else if eq_ignore_ascii_case (effect stmt) "Allow"
      then v2_loop req ctx bucket_arn object_arn true deny_match stmts
      else Ret (Err ("MalformedPolicy: unsupported Effect '" +:+ effect stmt +:+ "'"))
  end.

Definition object_arn_of (req : PolicyRequest) : string :=
  bucket_arn_of (bucket req) +:+ "/" +:+ default "*" (object_key req).

Definition evaluate_policy_v2 (raw : string) (req : PolicyRequest) (ctx : PolicyContext)
    : exec (result string PolicyDecision) :=
  match parse_policy raw with
  | Err e => Ret (Err e)
  | Ok policy =>
      v2_loop req ctx (bucket_arn_of (bucket req)) (object_arn_of req) false false
        (statement policy)
  end.

Definition validate_policy_v2 (bucket raw : string) : result string unit :=
  policy ← parse_policy raw;
  if bool_decide (statement policy = []) then Err "MalformedPolicy: Statement must not be empty"
  else for_each (validate_statement bucket) (statement policy).

End Evaluate.

(** ** CIDR blocks *)

Lemma ip_in_network_v4 a n p :
  wf_ip (V4 a) -> wf_ip (V4 n) -> (0 <= p <= 32)%Z ->
  ip_in_network (V4 a) (V4 n) p
  = Ret (bool_decide (value (V4 n) / 2 ^ (32 - p) = value (V4 a) / 2 ^ (32 - p))%Z).
Proof.
  intros Ha Hn Hp. pose proof (value_bounds _ Ha) as Ba. pose proof (value_bounds _ Hn) as Bn.
  cbn [value width] in *. unfold ip_in_network. f_equal.
  replace (if (32 <=? p)%Z then _ else _) with ((2 ^ 32 - 1) * 2 ^ (32 - p) mod 2 ^ 32)%Z.
  - apply eq_true_iff_eq. rewrite Z.eqb_eq, bool_decide_eq_true. apply land_mask_eq; lia.
  - destruct (Z.leb_spec 32 p); [by replace p with 32%Z by lia|].
    destruct (Z.eqb_spec p 0); by subst.
Qed.

Lemma ip_in_network_v6 a n p :
  wf_ip (V6 a) -> wf_ip (V6 n) -> (0 <= p <= 128)%Z ->
  ip_in_network (V6 a) (V6 n) p
  = Ret (bool_decide (value (V6 n) / 2 ^ (128 - p) = value (V6 a) / 2 ^ (128 - p))%Z).
Proof.
  intros [La Fa] [Ln Fn] Hp. cbn [value]. unfold ip_in_network.
  pose proof (Z.mod_pos_bound p 8) as Hr. pose proof (Z.div_mod p 8) as Ep.
  set (f := Z.to_nat (p / 8)) in *. set (r := (p mod 8)%Z) in *.
  assert (p = 8 * Z.of_nat f + r /\ (f <= 16)%nat)%Z as [Ep' Hf] by lia. clear Ep.
  rewrite decide_False by lia.
  assert (from_be_bytes (take f n) = from_be_bytes (take f a) -> take f n = take f a) as Hinj.
  { apply from_be_bytes_inj; [by apply Forall_take..|]. rewrite !length_take. lia. }
  destruct (Z.eqb_spec r 0) as [Er|Er].
  - rewrite Ep', Er, Z.add_0_r, !from_be_bytes_take by done.
    destruct (decide (take f n = take f a)) as [E|E].
    + rewrite bool_decide_eq_false_2 by tauto. by rewrite bool_decide_eq_true_2 by congruence.
    + rewrite bool_decide_eq_true_2 by done. by rewrite bool_decide_eq_false_2 by tauto.
  - destruct (lookup_lt_is_Some_2 n f) as [x Hx]; [lia|].
    destruct (lookup_lt_is_Some_2 a f) as [y Hy]; [lia|].
    rewrite Hx, Hy, Ep', (from_be_bytes_take_bits f r x n), (from_be_bytes_take_bits f r y a)
      by (done || lia).
    assert (forall z o, o !! f = Some z -> Forall octet o -> 0 <= z / 2 ^ (8 - r) < 2 ^ r)%Z as Hz.
    { intros z o Hz Ho. eapply Forall_lookup_1 in Ho; [|exact Hz]. unfold octet in Ho.
      split; [apply Z.div_pos; lia|apply Z.div_lt_upper_bound; [lia|]].
      rewrite <-Z.pow_add_r by lia. replace (8 - r + r)%Z with 8%Z by lia. lia. }
    destruct (decide (take f n = take f a)) as [E|E].
    + rewrite bool_decide_eq_false_2 by tauto. rewrite E. f_equal.
      apply eq_true_iff_eq. rewrite Z.eqb_eq, bool_decide_eq_true.
      eapply Forall_lookup_1 in Fn; [|exact Hx]. eapply Forall_lookup_1 in Fa; [|exact Hy].
      unfold octet in *. rewrite (land_mask_eq 8) by lia. lia.
    + rewrite bool_decide_eq_true_2 by done. rewrite bool_decide_eq_false_2; [done|].
      rewrite mixed_radix_eq by eauto. tauto.
Qed.

(** ** Well-scoped network literals never panic *)

(** The prefix length of an IPv6 block is at most 128. *)
Definition cidr_in_range (cidr : string) : bool :=
  match split_once "/"%char cidr with
  | Some (network, prefix) =>
      match parse_ip network, parse_uint u8_max prefix with
      | Some (V6 _), Some p => (p <=? 128)%Z
      | _, _ => true
      end
  | None => true
  end.

Lemma parse_digits_nonneg base max acc l v :
  (0 <= base)%Z -> (0 <= acc)%Z -> parse_digits base max acc l = Some v -> (0 <= v)%Z.
Proof.
  intros Hb. revert acc. induction l as [|c l IH]; intros acc Ha; cbn; [naive_solver|].
  destruct (to_digit base c) as [d|] eqn:Hd; cbn; [|done]. apply to_digit_bounds in Hd.
  case_match; [|done]. apply IH. nia.
Qed.

Lemma parse_uint_nonneg max s v : parse_uint max s = Some v -> (0 <= v)%Z.
Proof.
  unfold parse_uint. case_match; [done|]. intros H'. by apply parse_digits_nonneg in H'.
Qed.

Lemma ip_matches_cidr_ret ip cidr :
  cidr_in_range cidr = true -> exists b, ip_matches_cidr ip cidr = Ret b.
Proof.
  unfold ip_matches_cidr, cidr_in_range. intros Hc.
  destruct (parse_ip ip) as [a|] eqn:Ea; [|eauto].
  destruct (split_once "/"%char cidr) as [[w q]|]; [|eauto].
  destruct (parse_ip w) as [n|] eqn:En; [|eauto].
  destruct (parse_uint u8_max q) as [p|] eqn:Ep; [|eauto].
  apply parse_ip_wf in Ea, En. apply parse_uint_nonneg in Ep.
  destruct n as [n|n], a as [a|a]; [cbn; eauto..|]. bool_to_prop.
  rewrite ip_in_network_v6 by (done || lia). eauto.
Qed.

(** The network literals a statement tests the source address against. *)
Definition statement_networks (stmt : PolicyStatement) : list string :=
  match condition stmt ≫= as_object with
  | None => []
  | Some obj =>
      mjoin ((fun '(_, body) =>
        match as_object body with
        | None => []
        | Some keys =>
            mjoin ((fun '(key, expected) =>
              if decide (key = "aws:SourceIp") then condition_values expected else []) <$> keys)
        end) <$> obj)
  end.

Lemma anyM_total {A} (f : A -> exec bool) l :
  Forall (fun x => exists b, f x = Ret b) l -> exists b, anyM f l = Ret b.
Proof.
  induction 1 as [|x l [[] Hx] _ IH]; cbn; [eauto|rewrite Hx; cbn; eauto..].
Qed.

Lemma allM_total {A} (f : A -> exec bool) l :
  Forall (fun x => exists b, f x = Ret b) l -> exists b, allM f l = Ret b.
Proof.
  induction 1 as [|x l [[] Hx] _ IH]; cbn; [eauto|rewrite Hx; cbn; eauto..].
Qed.

Lemma Forall_mjoin_fmap {A B} (P : B -> Prop) (f : A -> list B) l :
  Forall P (mjoin (f <$> l)) <-> Forall (fun x => Forall P (f x)) l.
Proof.
  induction l as [|x l IH]; cbn; [by split|]. by rewrite Forall_app, IH, Forall_cons.
Qed.

Definition in_range (stmt : PolicyStatement) : Prop :=
  Forall (fun cidr => cidr_in_range cidr = true) (statement_networks stmt).

Lemma condition_key_total op key expected req ctx :
  (key = "aws:SourceIp" -> Forall (fun c => cidr_in_range c = true) (condition_values expected)) ->
  exists b, condition_key_matches op key expected req ctx = Ret b.
Proof.
  intros H. unfold condition_key_matches.
  destruct (decide (key = "aws:SourceIp" /\ eq_ignore_ascii_case op "IpAddress" = true))
    as [[-> Hop]|]; [|repeat case_decide; eauto].
  destruct (source_ip ctx) as [ip|]; [|eauto]. apply anyM_total.
  eapply Forall_impl; [by apply H|]. intros c Hc. by apply ip_matches_cidr_ret.
Qed.

Lemma statement_matches_total stmt req ba oa ctx :
  in_range stmt -> exists b, statement_matches_request stmt req ba oa ctx = Ret b.
Proof.
  unfold in_range, statement_networks, statement_matches_request. intros Hr.
  destruct (negb (principal_matches (principal stmt) ctx)); [eauto|].
  destruct (negb (actions_match (st_action stmt) (action req))); [eauto|].
  destruct (negb (resource_matches_request (resource stmt) req ba oa)); [eauto|].
  destruct (condition stmt) as [cond|]; [|eauto]. cbn in Hr. unfold conditions_match.
  destruct (as_object cond) as [obj|]; [|eauto]. apply allM_total.
  rewrite Forall_mjoin_fmap in Hr. eapply Forall_impl; [exact Hr|].
  intros [op body] Hb. destruct (as_object body) as [keys|]; [|eauto]. apply allM_total.
  rewrite Forall_mjoin_fmap in Hb. eapply Forall_impl; [exact Hb|].
  intros [key expected] Hk. apply condition_key_total. intros ->. exact Hk.
Qed.

(** ** The v2 decision *)

Definition is_deny (stmt : PolicyStatement) : bool := eq_ignore_ascii_case (effect stmt) "Deny".
Definition is_allow (stmt : PolicyStatement) : bool := eq_ignore_ascii_case (effect stmt) "Allow".
Definition effect_ok (stmt : PolicyStatement) : Prop := is_deny stmt = true \/ is_allow stmt = true.

Lemma is_allow_not_deny stmt : is_allow stmt = true -> is_deny stmt = false.
Proof.
  unfold is_allow, is_deny. intros H.
  by apply (eq_ignore_ascii_case_trans_false _ "Allow").
Qed.

(** The documented rule: an explicit deny wins over any allow. *)
Definition decide_statements (matching : list PolicyStatement) : PolicyDecision :=
  if existsb is_deny matching then Deny
  else if existsb is_allow matching then Allow
  else ImplicitDeny.

Definition the_matches (req : PolicyRequest) (ctx : PolicyContext) (stmt : PolicyStatement) : bool :=
  match statement_matches_request stmt req (bucket_arn_of (bucket req)) (object_arn_of req) ctx with
  | Ret b => b
  | Panic => false
  end.

Definition matching (req : PolicyRequest) (ctx : PolicyContext) : list PolicyStatement ->
    list PolicyStatement := List.filter (the_matches req ctx).

Lemma the_matches_ret req ctx stmt :
  in_range stmt ->
  statement_matches_request stmt req (bucket_arn_of (bucket req)) (object_arn_of req) ctx
  = Ret (the_matches req ctx stmt).
Proof.
  intros H. unfold the_matches.
  by destruct (statement_matches_total stmt req (bucket_arn_of (bucket req)) (object_arn_of req)
    ctx H) as [b ->].
Qed.

Lemma v2_loop_decision req ctx stmts a d :
  Forall in_range stmts -> Forall effect_ok stmts ->
  v2_loop req ctx (bucket_arn_of (bucket req)) (object_arn_of req) a d stmts
  = Ret (Ok (if d || existsb is_deny (matching req ctx stmts) then Deny
             else if a || existsb is_allow (matching req ctx stmts) then Allow
             else ImplicitDeny)).
Proof.
  intros Hr He. revert a d.
  induction Hr as [|s stmts Hs _ IH]; intros a d; inversion He as [|?? Hes Hes']; subst; cbn.
  { by rewrite !orb_false_r. }
  rewrite the_matches_ret by done. cbn.
  unfold matching. cbn. destruct (the_matches req ctx s); cbn; [|by apply IH].
  fold (is_deny s) (is_allow s). rewrite orb_assoc, orb_assoc.
  destruct (is_deny s) eqn:Ed.
  - rewrite IH by done. fold (matching req ctx stmts).
    by rewrite !orb_true_r.
  - destruct Hes as [Hes|Hes]; [by rewrite Hes in Ed|]. rewrite Hes.
    rewrite IH by done. by rewrite orb_true_r, orb_false_r.
Qed.

Lemma evaluate_policy_v2_ok from_str raw policy req ctx :
  parse_policy from_str raw = Ok policy ->
  Forall in_range (statement policy) -> Forall effect_ok (statement policy) ->
  evaluate_policy_v2 from_str raw req ctx
  = Ret (Ok (decide_statements (matching req ctx (statement policy)))).
Proof.
  intros Hp Hr He. unfold evaluate_policy_v2. rewrite Hp.
  by rewrite v2_loop_decision.
Qed.

Lemma validate_statement_effect bucket stmt :
  validate_statement bucket stmt = Ok tt -> effect_ok stmt.
Proof.
  unfold validate_statement, validate_effect. intros H.
  apply result_bind_ok in H as (u & H & _). case_match eqn:E; [|done].
  apply orb_true_iff in E as [E|E]; [by right|by left].
Qed.

Lemma validate_policy_v2_effects from_str bucket raw policy :
  parse_policy from_str raw = Ok policy ->
  validate_policy_v2 from_str bucket raw = Ok tt -> Forall effect_ok (statement policy).
Proof.
  unfold validate_policy_v2. intros ->. cbn. case_match; [done|].
  rewrite for_each_ok. intros Hf. eapply Forall_impl; [exact Hf|].
  apply validate_statement_effect.
Qed.

(** C30: a policy that passed [validate_policy_v2], and whose network literals have
    a prefix within the width of their address ([in_range], which validation does
    not check, see [validated_policy_can_panic]), is evaluated without error or panic for every request, and the
    decision is the documented rule: deny wins over allow, and a request that
    no statement matches is denied implicitly. *)
Theorem validated_policy_decides from_str bucket raw policy req ctx :
  parse_policy from_str raw = Ok policy ->
  validate_policy_v2 from_str bucket raw = Ok tt ->
  Forall in_range (statement policy) ->
  evaluate_policy_v2 from_str raw req ctx
  = Ret (Ok (decide_statements (matching req ctx (statement policy)))).
Proof.
  intros Hp Hv Hr. apply evaluate_policy_v2_ok; [done..|].
  by eapply validate_policy_v2_effects.
Qed.

(** ** The v1 flags *)

Definition names_action (name : string) (stmt : PolicyStatement) : bool :=
  existsb (fun a => bool_decide (normalize_action a = name)) (actions_list (st_action stmt)).

(** What [evaluate_v1_policy] requires of one action of a statement. *)
Definition v1_action_ok (bucket : string) (stmt : PolicyStatement) (a : string) : Prop :=
  (normalize_action a = "s3:GetObject"
   /\ any_resource (resource stmt) (bucket_arn_of bucket +:+ "/*") = true)
  \/ (normalize_action a = "s3:ListBucket"
      /\ any_resource (resource stmt) (bucket_arn_of bucket) = true).

Definition v1_statement_ok (bucket : string) (stmt : PolicyStatement) : Prop :=
  condition stmt = None /\ is_allow stmt = true
  /\ principal_is_wildcard (principal stmt) = true
  /\ Forall (v1_action_ok bucket stmt) (actions_list (st_action stmt)).

Lemma apply_action_ok bucket stmt eff a eff' :
  apply_action bucket stmt eff a = Ok eff' ->
  v1_action_ok bucket stmt a
  /\ public_read eff' = public_read eff || bool_decide (normalize_action a = "s3:GetObject")
  /\ public_list eff' = public_list eff || bool_decide (normalize_action a = "s3:ListBucket").
Proof.
  unfold apply_action, v1_action_ok. intros H.
  destruct (decide (normalize_action a = "s3:GetObject")) as [E|E].
  - case_match; [|done]. injection H as <-. rewrite E. cbn. rewrite orb_true_r, orb_false_r. auto.
  - destruct (decide (normalize_action a = "s3:ListBucket")) as [E'|E']; [|done].
    case_match; [|done]. injection H as <-. rewrite E'. cbn.
    rewrite orb_true_r, orb_false_r. auto.
Qed.

Lemma apply_statement_ok bucket stmt eff eff' :
  apply_statement bucket eff stmt = Ok eff' ->
  v1_statement_ok bucket stmt
  /\ public_read eff' = public_read eff || names_action "s3:GetObject" stmt
  /\ public_list eff' = public_list eff || names_action "s3:ListBucket" stmt.
Proof.
  unfold apply_statement, v1_statement_ok, names_action. intros H.
  destruct (condition stmt); [done|]. cbn in H.
  fold (is_allow stmt) in H. destruct (is_allow stmt); [|done].
  destruct (principal_is_wildcard (principal stmt)); [|done]. cbn in H.
  apply (fold_result_ind _ (fun seen e =>
    Forall (v1_action_ok bucket stmt) seen
    /\ public_read e = public_read eff
       || existsb (fun a => bool_decide (normalize_action a = "s3:GetObject")) seen
    /\ public_list e = public_list eff
       || existsb (fun a => bool_decide (normalize_action a = "s3:ListBucket")) seen)) in H.
  - naive_solver.
  - intros seen e a e' (Hf & Hg & Hl) _ (Ha & Hg' & Hl')%apply_action_ok.
    rewrite !existsb_app, Forall_app. cbn. rewrite Hg', Hl', Hg, Hl, !orb_false_r, !orb_assoc.
    split_and!; auto.
  - cbn. by rewrite !orb_false_r.
Qed.

Lemma evaluate_v1_policy_ok from_str bucket raw eff :
  evaluate_v1_policy from_str bucket raw = Ok eff ->
  exists policy, parse_policy from_str raw = Ok policy
  /\ Forall (v1_statement_ok bucket) (statement policy)
  /\ public_read eff = existsb (names_action "s3:GetObject") (statement policy)
  /\ public_list eff = existsb (names_action "s3:ListBucket") (statement policy).
Proof.
  unfold evaluate_v1_policy. intros H. apply result_bind_ok in H as (policy & Hp & H).
  exists policy. split; [done|].
  apply (fold_result_ind _ (fun seen e =>
    Forall (v1_statement_ok bucket) seen
    /\ public_read e = existsb (names_action "s3:GetObject") seen
    /\ public_list e = existsb (names_action "s3:ListBucket") seen)) in H; [done| |done].
  intros seen e s e' (Hf & Hg & Hl) _ (Ha & Hg' & Hl')%apply_statement_ok.
  rewrite !existsb_app, Forall_app. cbn. rewrite Hg', Hl', Hg, Hl, !orb_false_r.
  split_and!; auto.
Qed.

Lemma any_resource_elem resources expected :
  any_resource resources expected = true <->
  exists r, r ∈ resources_list resources /\ (r = expected \/ r = "*").
Proof.
  unfold any_resource, resource_matches. destruct resources as [s|l]; cbn.
  - rewrite orb_true_iff, !bool_decide_eq_true. split; [|set_solver]. exists s. set_solver.
  - rewrite existsb_exists. setoid_rewrite list_elem_of_In.
    setoid_rewrite orb_true_iff. by setoid_rewrite bool_decide_eq_true.
Qed.

Lemma existsb_elem {A} (f : A -> bool) l : existsb f l = true <-> exists x, x ∈ l /\ f x = true.
Proof. rewrite existsb_exists. by setoid_rewrite list_elem_of_In. Qed.

Lemma object_glob_all p key : Glob (chars (p +:+ "*")) (chars (p +:+ key)).
Proof. rewrite !chars_app. apply Glob_app; [apply Glob_refl|apply Glob_star_all]. Qed.

(** The pattern of all objects of a bucket covers every star-free object. *)
Lemma object_pattern_matches bucket key :
  star ∉ chars bucket -> star ∉ chars key ->
  glob_match (bucket_arn_of bucket +:+ "/*") (bucket_arn_of bucket +:+ "/" +:+ key) = true.
Proof.
  intros Hb Hk. apply glob_match_complete; unfold bucket_arn_of; rewrite !chars_app.
  - rewrite !not_elem_of_app. split_and!; [|done| |done];
      by eapply (bool_decide_eq_false_1 _); vm_compute.
  - apply Glob_app; [apply Glob_refl|]. cbn. apply glob_char, Glob_star_all.
Qed.

Lemma v1_statement_in_range bucket stmt : v1_statement_ok bucket stmt -> in_range stmt.
Proof. intros (Hc & _). unfold in_range, statement_networks. rewrite Hc. constructor. Qed.

(** On a v1 statement, v2 matching is naming the action. *)
Lemma v1_statement_matches name stmt req ctx :
  v1_statement_ok (bucket req) stmt -> action req = name ->
  (name = "s3:GetObject" /\ (star ∉ chars (bucket req)) /\
     (exists key, object_key req = Some key /\ (star ∉ chars key))
   \/ name = "s3:ListBucket") ->
  the_matches req ctx stmt = names_action name stmt.
Proof.
  intros (Hc & _ & Hw & Ha) Hname Hcase. unfold the_matches, statement_matches_request.
  unfold principal_matches. rewrite Hw, Hc. cbn [negb].
  assert (normalize_action name = name) as En by (destruct Hcase as [(-> & _)| ->]; done).
  assert (actions_match (st_action stmt) (action req) = names_action name stmt) as ->.
  { unfold actions_match, names_action. rewrite Hname, En. apply eq_true_iff_eq.
    rewrite !existsb_elem. split; intros (a & Hin & H); exists a; (split; [done|]); bool_to_prop.
    - apply orb_true_iff in H. rewrite !bool_decide_eq_true in *. destruct H as [H|H]; [|done].
      rewrite Forall_forall in Ha. apply Ha in Hin.
      destruct Hin as [[H' _]|[H' _]]; rewrite H' in H; done.
    - apply orb_true_iff. rewrite !bool_decide_eq_true. by right. }
  destruct (names_action name stmt) eqn:E; [|done]. cbn [negb].
  apply existsb_elem in E as (a & Hin & Hna). bool_to_prop.
  rewrite Forall_forall in Ha. apply Ha in Hin.
  replace (resource_matches_request _ _ _ _) with true; [done|]. symmetry.
  unfold resource_matches_request. apply existsb_elem.
  destruct Hcase as [(-> & Hb & key & Hk & Hs)| ->].
  - destruct Hin as [[_ Hr]|[H _]]; [|congruence].
    apply any_resource_elem in Hr as (r & Hr & Hcase). exists r. split; [done|].
    rewrite Hname. rewrite decide_False by done. unfold resource_pattern_matches.
    destruct Hcase as [-> | ->]; [|done]. unfold object_arn_of. rewrite Hk. cbn [default].
    destruct (_ || _); [done|].
    assert (contains_char star (bucket_arn_of (bucket req) +:+ "/*") = true) as ->.
    { apply bool_decide_eq_true. rewrite chars_app. apply elem_of_app. right. cbn. set_solver. }
    by apply object_pattern_matches.
  - destruct Hin as [[H _]|[_ Hr]]; [congruence|].
    apply any_resource_elem in Hr as (r & Hr & Hcase). exists r. split; [done|].
    rewrite Hname. rewrite decide_True by done. unfold resource_pattern_matches.
    destruct Hcase as [-> | ->]; [|done].
    rewrite (bool_decide_eq_true_2 (bucket_arn_of (bucket req) = bucket_arn_of (bucket req)))
      by done.
    by rewrite orb_true_r.
Qed.

Lemma v1_decision stmts (m : PolicyStatement -> bool) :
  Forall (fun s => is_allow s = true) stmts ->
  decide_statements (List.filter m stmts) = if existsb m stmts then Allow else ImplicitDeny.
Proof.
  intros H. unfold decide_statements.
  assert (existsb is_deny (List.filter m stmts) = false) as ->.
  { induction H as [|s l Hs _ IH]; cbn; [done|]. destruct (m s); cbn; [|done].
    by rewrite is_allow_not_deny. }
  assert (existsb is_allow (List.filter m stmts) = existsb m stmts) as ->; [|done].
  induction H as [|s l Hs _ IH]; cbn; [done|]. destruct (m s); cbn; [by rewrite Hs|done].
Qed.

Lemma filter_ext_Forall {A} (f g : A -> bool) l :
  Forall (fun x => f x = g x) l -> List.filter f l = List.filter g l.
Proof. induction 1 as [|x l Hx _ IH]; cbn; [done|]. by rewrite Hx, IH. Qed.

(** C31: on a policy the v1 evaluator accepts, for a bucket and a key that hold no
    literal star (see [deny_evaded_by_star_key]), the two evaluators agree: the
    public flags of v1 are the decisions v2 takes, for anyone, on reading the
    object and on listing the bucket. *)
Theorem v1_flags_agree_with_v2 from_str raw eff b key prefix ctx :
  evaluate_v1_policy from_str b raw = Ok eff ->
  (star ∉ chars b) -> (star ∉ chars key) ->
  evaluate_policy_v2 from_str raw
    {| action := "s3:GetObject"; bucket := b; object_key := Some key; list_prefix := prefix |} ctx
  = Ret (Ok (if public_read eff then Allow else ImplicitDeny))
  /\
  evaluate_policy_v2 from_str raw
    {| action := "s3:ListBucket"; bucket := b; object_key := None; list_prefix := prefix |} ctx
  = Ret (Ok (if public_list eff then Allow else ImplicitDeny)).
Proof.
  intros (policy & Hp & Hok & -> & ->)%evaluate_v1_policy_ok Hb Hk.
  assert (Forall in_range (statement policy)) as Hr.
  { eapply Forall_impl; [exact Hok|]. apply v1_statement_in_range. }
  assert (Forall (fun s => is_allow s = true) (statement policy)) as Ha.
  { eapply Forall_impl; [exact Hok|]. by intros s (_ & ? & _). }
  assert (Forall effect_ok (statement policy)) as He.
  { eapply Forall_impl; [exact Ha|]. by right. }
  split; rewrite (evaluate_policy_v2_ok _ _ policy) by done; unfold matching.
  - rewrite (filter_ext_Forall _ (names_action "s3:GetObject")), v1_decision; [done..|].
    eapply Forall_impl; [exact Hok|]. intros s Hs. apply v1_statement_matches; [done..|].
    left. cbn. eauto.
  - rewrite (filter_ext_Forall _ (names_action "s3:ListBucket")), v1_decision; [done..|].
    eapply Forall_impl; [exact Hok|]. intros s Hs. apply v1_statement_matches; [done..|].
    by right.
Qed.

(** The order of the statements of a policy does not matter. *)
Theorem statement_order_irrelevant from_str raw1 raw2 p1 p2 req ctx :
  parse_policy from_str raw1 = Ok p1 -> parse_policy from_str raw2 = Ok p2 ->
  statement p1 ≡ₚ statement p2 ->
  Forall in_range (statement p1) -> Forall effect_ok (statement p1) ->
  evaluate_policy_v2 from_str raw1 req ctx = evaluate_policy_v2 from_str raw2 req ctx.
Proof.
  intros H1 H2 Hp Hr He.
  rewrite (evaluate_policy_v2_ok _ _ p1), (evaluate_policy_v2_ok _ _ p2)
    by (done || by rewrite <-Hp).
  unfold decide_statements. do 2 f_equal.
  assert (forall f, existsb f (matching req ctx (statement p1))
                  = existsb f (matching req ctx (statement p2))) as E; [|by rewrite !E].
  intros f. apply eq_true_iff_eq. rewrite !existsb_elem. unfold matching.
  setoid_rewrite list_elem_of_In. setoid_rewrite filter_In.
  setoid_rewrite <-list_elem_of_In. by setoid_rewrite Hp.
Qed.

(** [ip_in_network] is membership in the CIDR block: the addresses agree
    on their leading [p] bits, and an address of the other family is outside. *)
Theorem ip_in_network_spec ip net p :
  wf_ip ip -> wf_ip net -> (0 <= p <= width net)%Z ->
  ip_in_network ip net p
  = Ret (bool_decide (width ip = width net /\
           value net / 2 ^ (width net - p) = value ip / 2 ^ (width net - p))%Z).
Proof.
  destruct ip as [a|a], net as [n|n]; intros Ha Hn Hp.
  - rewrite ip_in_network_v4 by done. f_equal. apply bool_decide_ext. cbn. tauto.
  - cbn. f_equal.
  - cbn. f_equal.
  - rewrite ip_in_network_v6 by done. f_equal. apply bool_decide_ext. cbn. tauto.
Qed.

(** ** Witnesses *)

(** A closed non-membership, by computation. *)
Ltac not_in := eapply (bool_decide_eq_false_1 _); vm_compute; reflexivity.

Definition anyone : PolicyContext :=
  {| principal_access_key := None; source_ip := Some "203.0.113.50"; is_anonymous := true;
     jwt_groups := []; jwt_roles := []; oidc_claims := None |}.

Definition get_request (b key : string) : PolicyRequest :=
  {| action := "s3:GetObject"; bucket := b; object_key := Some key; list_prefix := None |}.

Definition simple_statement (eff : string) (acts : list string) (res : list string)
    (cond : option Value) : PolicyStatement :=
  {| effect := eff; principal := VString "*"; st_action := ManyActions acts;
     resource := ManyResources res; condition := cond |}.

Definition public_photos : BucketPolicy :=
  {| version := "2012-10-17";
     statement := [simple_statement "Allow" ["S3:GetObject"] ["arn:aws:s3:::photos/*"] None] |}.

Definition office_only : BucketPolicy :=
  {| version := "2012-10-17";
     statement :=
       [simple_statement "Allow" ["s3:*"] ["arn:aws:s3:::photos/*"] None;
        simple_statement "Deny" ["s3:GetObject"] ["arn:aws:s3:::photos/secret/*"]
          (Some (VObject [("IpAddress",
             VObject [("aws:SourceIp", VArray [VString "203.0.113.0/24"; VString "2001:db8::/32"])])]))] |}.

Lemma validated_policy_decides_witness :
  evaluate_policy_v2 (fun _ => Ok office_only) "" (get_request "photos" "secret/k") anyone
  = Ret (Ok Deny).
Proof.
  rewrite (validated_policy_decides (fun _ => Ok office_only) "photos" "" office_only);
    [reflexivity|reflexivity|reflexivity|].
  repeat constructor.
Defined.

Lemma v1_flags_agree_with_v2_witness :
  evaluate_policy_v2 (fun _ => Ok public_photos) "" (get_request "photos" "a.txt") anyone
  = Ret (Ok Allow).
Proof.
  apply (v1_flags_agree_with_v2 (fun _ => Ok public_photos) "" (mk_effects true false)
    "photos" "a.txt" None anyone); [reflexivity|not_in|not_in].
Defined.

Definition office_only_reversed : BucketPolicy :=
  {| version := ""; statement := rev (statement office_only) |}.

Definition two_documents (raw : string) : result string BucketPolicy :=
  Ok (if decide (raw = "1") then office_only else office_only_reversed).

Lemma statement_order_irrelevant_witness :
  evaluate_policy_v2 two_documents "1" (get_request "photos" "k") anyone
  = evaluate_policy_v2 two_documents "2" (get_request "photos" "k") anyone.
Proof.
  apply (statement_order_irrelevant two_documents "1" "2" office_only office_only_reversed);
    [reflexivity|reflexivity|apply Permutation_swap| |].
  - repeat constructor.
  - constructor; [by right|]. constructor; [by left|constructor].
Defined.

Lemma ip_in_network_spec_witness :
  ip_in_network (V4 [203; 0; 113; 50]%Z) (V4 [203; 0; 113; 0]%Z) 24 = Ret true.
Proof.
  rewrite (ip_in_network_spec (V4 [203; 0; 113; 50]%Z) (V4 [203; 0; 113; 0]%Z) 24);
    [reflexivity| | |cbn; lia]; (split; [reflexivity|]; repeat constructor; cbn; lia).
Defined.

(** ** Two defects the model exhibits *)

Definition panicking : BucketPolicy :=
  {| version := "2012-10-17";
     statement := [simple_statement "Allow" ["s3:GetObject"] ["arn:aws:s3:::photos/*"]
       (Some (VObject [("IpAddress", VObject [("aws:SourceIp", VString "2001:db8::/200")])]))] |}.

Definition ipv6_client : PolicyContext :=
  {| principal_access_key := None; source_ip := Some "2001:db8::1"; is_anonymous := true;
     jwt_groups := []; jwt_roles := []; oidc_claims := None |}.

(** A policy that validates can make every evaluation of an IPv6 request
    panic: the prefix length of a network literal is not checked against the
    width of an IPv6 address. *)
Theorem validated_policy_can_panic :
  validate_policy_v2 (fun _ => Ok panicking) "photos" "" = Ok tt
  /\ evaluate_policy_v2 (fun _ => Ok panicking) "" (get_request "photos" "a.txt") ipv6_client
     = Panic.
Proof. split; vm_compute; reflexivity. Qed.

Definition allow_then_deny_all : BucketPolicy :=
  {| version := "2012-10-17";
     statement := [simple_statement "Allow" ["s3:GetObject"] ["*"] None;
                   simple_statement "Deny" ["s3:GetObject"] ["arn:aws:s3:::photos/*"] None] |}.

(** A deny on every object of a bucket does not apply to a key that starts
    with a literal star, which [glob_match] consumes against the pattern's
    star without recording it; other keys are denied. *)
Theorem deny_evaded_by_star_key :
  evaluate_policy_v2 (fun _ => Ok allow_then_deny_all) "" (get_request "photos" "*x") anyone
  = Ret (Ok Allow)
  /\ Glob (chars "arn:aws:s3:::photos/*") (chars "arn:aws:s3:::photos/*x")
  /\ evaluate_policy_v2 (fun _ => Ok allow_then_deny_all) "" (get_request "photos" "ax") anyone
     = Ret (Ok Deny).
Proof.
  split_and!; [vm_compute; reflexivity| |vm_compute; reflexivity].
  apply (object_glob_all "arn:aws:s3:::photos/" "*x").
Qed.
