(* ===== verification/Bytes.v ===== *)
(** * Bytes and little-endian numbers

    [u8] buffers are lists of [byte]; [to_le_bytes] and [from_le_bytes] are
    the conversions of Rust's unsigned integers. *)

From stdpp Require Import base list numbers.
From Stdlib Require Import ZArith Lia Strings.Byte.
From S2P Require Import Prelude.

Local Open Scope Z_scope.

Abbreviation bytes := (list byte).

Global Instance byte_eq_dec : EqDecision byte := Byte.byte_eq_dec.

Definition Z_of_byte (b : byte) : Z := Z.of_N (Byte.to_N b).
Definition byte_of_Z (z : Z) : byte := default x00 (Byte.of_N (Z.to_N (z mod 256))).

Lemma Z_of_byte_bounds b : 0 <= Z_of_byte b < 256.
Proof. unfold Z_of_byte. pose proof (Byte.to_N_bounded b). lia. Qed.

Lemma Z_of_byte_of_Z z : Z_of_byte (byte_of_Z z) = z mod 256.
Proof.
  unfold Z_of_byte, byte_of_Z. pose proof (Z.mod_pos_bound z 256 eq_refl) as B.
  destruct (Byte.of_N (Z.to_N (z mod 256))) as [b|] eqn:E; cbn.
  - apply Byte.to_of_N in E. rewrite E. lia.
  - apply Byte.of_N_None_iff in E. lia.
Qed.

Lemma byte_of_Z_of_byte b : byte_of_Z (Z_of_byte b) = b.
Proof.
  unfold byte_of_Z. rewrite Z.mod_small by apply Z_of_byte_bounds.
  unfold Z_of_byte. by rewrite N2Z.id, Byte.of_to_N.
Qed.

Global Instance Z_of_byte_inj : Inj (=) (=) Z_of_byte.
Proof. intros a b H. by rewrite <-(byte_of_Z_of_byte a), H, byte_of_Z_of_byte. Qed.

(** [uN::to_le_bytes], for [n] bytes. *)
Fixpoint to_le_bytes (n : nat) (z : Z) : bytes :=
  match n with O => [] | S n => byte_of_Z z :: to_le_bytes n (z / 256) end.

(** [uN::from_le_bytes]. *)
Fixpoint from_le_bytes (l : bytes) : Z :=
  match l with [] => 0 | b :: l => Z_of_byte b + 256 * from_le_bytes l end.

Lemma length_to_le_bytes n z : length (to_le_bytes n z) = n.
Proof. revert z. induction n as [|n IH]; intros z; cbn; by f_equal. Qed.

Lemma from_to_le_bytes n z : from_le_bytes (to_le_bytes n z) = z mod 256 ^ Z.of_nat n.
Proof.
  revert z. induction n as [|n IH]; intros z; cbn [to_le_bytes from_le_bytes].
  { change (256 ^ Z.of_nat 0) with 1. by rewrite Z.mod_1_r. }
  rewrite IH, Z_of_byte_of_Z, Nat2Z.inj_succ, Z.pow_succ_r by lia.
  rewrite Z.rem_mul_r by lia. done.
Qed.

Lemma from_to_le_bytes_small n z :
  0 <= z < 256 ^ Z.of_nat n -> from_le_bytes (to_le_bytes n z) = z.
Proof. intros. by rewrite from_to_le_bytes, Z.mod_small. Qed.

Lemma from_le_bytes_bounds l : 0 <= from_le_bytes l < 256 ^ Z.of_nat (length l).
Proof.
  induction l as [|b l IH]; cbn [from_le_bytes length]; [done|].
  pose proof (Z_of_byte_bounds b). rewrite Nat2Z.inj_succ, Z.pow_succ_r by lia. nia.
Qed.

Lemma to_le_bytes_app n m z :
  to_le_bytes (n + m) z = to_le_bytes n z ++ to_le_bytes m (z / 256 ^ Z.of_nat n).
Proof.
  revert z. induction n as [|n IH]; intros z; cbn [to_le_bytes app Nat.add].
  { change (256 ^ Z.of_nat 0) with 1. by rewrite Z.div_1_r. }
  rewrite IH, Z.div_div, Nat2Z.inj_succ, Z.pow_succ_r by lia. done.
Qed.

Lemma to_le_bytes_inj n z1 z2 :
  0 <= z1 < 256 ^ Z.of_nat n -> 0 <= z2 < 256 ^ Z.of_nat n ->
  to_le_bytes n z1 = to_le_bytes n z2 -> z1 = z2.
Proof.
  intros H1 H2 H. apply (f_equal from_le_bytes) in H.
  by rewrite !from_to_le_bytes_small in H.
Qed.
