(* ===== verification/Reader.v ===== *)
(** * Asynchronous readers

    [tokio::io::AsyncRead] as a state machine: [poll_read r cap] is one call
    with [cap] bytes of room.  [ReaderSpec] is the contract every reader of
    the storage layer is proved to meet and every consumer relies on: the
    reader delivers a fixed stream of bytes followed by a fixed end. *)

From stdpp Require Import base list numbers strings.
From Stdlib Require Import Lia Strings.Byte.
From S2P Require Import Prelude Bytes.

Local Open Scope nat_scope.

(** [std::io::Error]. *)
Inductive io_kind : Type :=
| InvalidData | UnexpectedEof | NotFound | PermissionDenied | AlreadyExists
| NotADirectory | IsADirectory | DirectoryNotEmpty | Other.
Record io_error : Type := mk_io_error { io_error_kind : io_kind; io_message : string }.

Global Instance io_kind_eq_dec : EqDecision io_kind.
Proof. solve_decision. Defined.
Global Instance io_error_eq_dec : EqDecision io_error.
Proof. solve_decision. Defined.

Inductive Poll (A : Type) : Type := Pending | Ready (a : A).
Arguments Pending {A}.
Arguments Ready {A} a.

Class AsyncRead (R : Type) : Type :=
  poll_read : R -> nat -> R * Poll (result io_error bytes).

(** How a stream ends. *)
Inductive stream_end : Type := Eof | Fail (e : io_error).

(** [reads r out e]: from state [r] the reader delivers [out], then ends with
    [e].  [patience r] bounds the number of times it answers [Pending]. *)
Class ReaderSpec (R : Type) `{AsyncRead R} : Type := {
  reads : R -> bytes -> stream_end -> Prop;
  patience : R -> nat;
  reads_step r out e cap :
    reads r out e -> 0 < cap ->
    match poll_read r cap with
    | (r', Pending) => reads r' out e /\ patience r' < patience r
    | (r', Ready (Ok bs)) =>
        patience r' <= patience r /\ length bs <= cap /\
        (exists out', out = bs ++ out' /\ reads r' out' e) /\
        (bs = [] -> out = [] /\ e = Eof)
    | (r', Ready (Err x)) => out = [] /\ e = Fail x
    end;
}.

(** ** A consumer: read to the end, with any choice of buffer sizes *)

(** [cap n] is the room offered on the [n]-th call. *)
Fixpoint drain {R} `{AsyncRead R} (fuel : nat) (cap : nat -> nat) (n : nat) (r : R)
    : option (bytes * stream_end) :=
  match fuel with
  | O => None
  | S fuel =>
      match poll_read r (cap n) with
      | (r, Pending) => drain fuel cap (S n) r
      | (r, Ready (Ok [])) => Some ([], Eof)
      | (r, Ready (Ok bs)) => '(rest, e) ← drain fuel cap (S n) r; Some (bs ++ rest, e)
      | (r, Ready (Err x)) => Some ([], Fail x)
      end
  end.

Lemma drain_reads_fuel {R} `{ReaderSpec R} cap fuel n r out e :
  (forall i, 0 < cap i) -> reads r out e -> length out + patience r < fuel ->
  drain fuel cap n r = Some (out, e).
Proof.
  intros Hcap. revert n r out. induction fuel as [|fuel IH]; intros n r out Hr Hf; [lia|].
  cbn. pose proof (reads_step r out e (cap n) Hr (Hcap n)) as S.
  destruct (poll_read r (cap n)) as [r' [|[bs|x]]].
  - destruct S as [Hr' Hp]. apply IH; [done|lia].
  - destruct S as (Hp & _ & (out' & -> & Hr') & He). rewrite length_app in Hf.
    destruct bs as [|b bs].
    + by destruct (He eq_refl) as [-> ->].
    + cbn in Hf. rewrite (IH _ _ out'); [done..|lia].
  - by destruct S as [-> ->].
Qed.

Lemma drain_reads_unique {R} `{ReaderSpec R} cap fuel n r out e res :
  (forall i, 0 < cap i) -> reads r out e -> drain fuel cap n r = Some res -> res = (out, e).
Proof.
  intros Hcap. revert n r out res. induction fuel as [|fuel IH]; intros n r out res Hr Hd; [done|].
  cbn in Hd. pose proof (reads_step r out e (cap n) Hr (Hcap n)) as S.
  destruct (poll_read r (cap n)) as [r' [|[bs|x]]].
  - destruct S as [Hr' Hp]. by eapply IH.
  - destruct S as (_ & _ & (out' & -> & Hr') & He). destruct bs as [|b bs].
    + destruct (He eq_refl) as [-> ->]. by injection Hd as <-.
    + destruct (drain fuel cap (S n) r') as [[rest e']|] eqn:E; [|done].
      injection Hd as <-. by injection (IH _ _ _ _ Hr' E) as -> ->.
  - destruct S as [-> ->]. by injection Hd as <-.
Qed.

(** Any consumer obtains exactly the stream the contract promises. *)
Lemma drain_reads {R} `{ReaderSpec R} cap r out e :
  (forall i, 0 < cap i) -> reads r out e ->
  exists fuel, drain fuel cap 0 r = Some (out, e).
Proof.
  intros Hc Hr. exists (S (length out + patience r)).
  apply drain_reads_fuel; [done..|lia].
Qed.

(** ** Files and sockets

    A reader over bytes at hand ([fs::File], [Cursor], a request body): it
    serves them in the pieces a schedule dictates, and may fail at the end. *)
Inductive io_event : Type := Wait | Give (n : nat).

Record source : Type := mk_source {
  src_data : bytes;
  src_end : stream_end;
  src_schedule : list io_event;
}.

Definition source_poll (s : source) (cap : nat) : source * Poll (result io_error bytes) :=
  match src_schedule s with
  | Wait :: sched => (mk_source (src_data s) (src_end s) sched, Pending)
  | sched =>
      let limit := match sched with Give n :: _ => Nat.max 1 n | _ => cap end in
      let bs := take (Nat.min cap limit) (src_data s) in
      let s' := mk_source (drop (Nat.min cap limit) (src_data s)) (src_end s) (tail sched) in
      match src_data s, src_end s with
      | [], Fail e => (s', Ready (Err e))
      | _, _ => (s', Ready (Ok bs))
      end
  end.

Global Instance source_reader : AsyncRead source := source_poll.

Fixpoint waits (sched : list io_event) : nat :=
  match sched with [] => 0 | Wait :: l => S (waits l) | Give _ :: l => waits l end.

Global Program Instance source_spec : ReaderSpec source := {
  reads s out e := src_data s = out /\ src_end s = e;
  patience s := waits (src_schedule s);
}.
Next Obligation.
  intros [d en sched] out e cap [<- <-] Hcap. unfold poll_read, source_reader, source_poll.
  assert (Hgive : forall k sched', 0 < k <= cap -> waits sched' <= waits sched ->
    match
      match d, en with
      | [], Fail x => (mk_source (drop k d) en sched', Ready (Err x))
      | _, _ => (mk_source (drop k d) en sched', Ready (Ok (take k d)))
      end
    with
    | (r', Pending) => (src_data r' = d /\ src_end r' = en) /\ waits (src_schedule r') < waits sched
    | (r', Ready (Ok bs)) =>
        waits (src_schedule r') <= waits sched /\ length bs <= cap /\
        (exists out', d = bs ++ out' /\ src_data r' = out' /\ src_end r' = en) /\
        (bs = [] -> d = [] /\ en = Eof)
    | (r', Ready (Err x)) => d = [] /\ en = Fail x
    end).
  { intros k sched' [Hk Hc] Hw. destruct d as [|b d]; [destruct en; cbn; rewrite ?take_nil, ?drop_nil|].
    - split_and!; [done|cbn; lia|by exists []|done].
    - done.
    - cbn [src_schedule src_data src_end]. split_and!; [done|rewrite length_take; lia| |].
      + exists (drop k (b :: d)). by rewrite take_drop.
      + by destruct k; [lia|]. }
  destruct sched as [|[|n] sched]; cbn -[take drop]; [apply Hgive; cbn; lia| by split; [|lia] |].
  apply Hgive; cbn; lia.
Qed.

(** ** Loops that read a body to its end

    [loop { let n = body.read(&mut buf).await?; if n == 0 { break } ... }] with
    a buffer of [cap] bytes: [f] is the loop's body, applied to each piece. *)
Section pump.
Context {R : Type} `{!AsyncRead R} {St Er : Type}.
Context (cap : nat) (read_error : io_error -> Er) (f : St -> bytes -> result Er St).

Fixpoint pump (fuel : nat) (s : St) (r : R) : option (result Er St) :=
  match fuel with
  | O => None
  | S fuel =>
      match poll_read r cap with
      | (r, Pending) => pump fuel s r
      | (r, Ready (Ok [])) => Some (Ok s)
      | (r, Ready (Ok bs)) =>
          match f s bs with
          | Ok s => pump fuel s r
          | Err x => Some (Err x)
          end
      | (r, Ready (Err x)) => Some (Err (read_error x))
      end
  end.

(** The loop sees the stream in non-empty pieces, whatever they are. *)
Lemma pump_reads `{!ReaderSpec R} fuel s r out e :
  0 < cap -> reads r out e -> length out + patience r < fuel ->
  exists pieces, concat pieces = out /\
    pump fuel s r =
      Some (match fold_result f s pieces with
            | Ok s => match e with Eof => Ok s | Fail x => Err (read_error x) end
            | Err x => Err x
            end).
Proof.
  intros Hcap. revert s r out. induction fuel as [|fuel IH]; intros s r out Hr Hf; [lia|].
  cbn [pump]. pose proof (reads_step r out e cap Hr Hcap) as S.
  destruct (poll_read r cap) as [r' [|[bs|x]]].
  - destruct S as [Hr' Hp]. apply IH; [done|lia].
  - destruct S as (Hp & _ & (out' & -> & Hr') & He). rewrite length_app in Hf.
    destruct bs as [|b bs].
    + destruct (He eq_refl) as [-> ->]. by exists [].
    + cbn in Hf. destruct (f s (b :: bs)) as [s'|x] eqn:E.
      * destruct (IH s' r' out') as (pieces & <- & IH'); [done|lia|].
        exists ((b :: bs) :: pieces). split; [done|]. by cbn; rewrite E; cbn.
      * exists [b :: bs; out']. split; [cbn; by rewrite app_nil_r|].
        by cbn; rewrite E.
  - destruct S as [-> ->]. by exists [].
Qed.
End pump.
