(* ===== verification/Types.v ===== *)
(** * The types of the storage layer

    The data of [maxio-storage/src/lib.rs]: metadata records as they are kept
    in the JSON sidecars, the storage error type, and the functions of that
    file: bucket-name validation, checksum names, object protection. *)

From stdpp Require Import base list strings gmap numbers pretty.
From Stdlib Require Import ZArith Lia Ascii.
From S2P Require Import Prelude Bytes Reader.

Local Open Scope Z_scope.

(** [StorageError].  [Json] carries the message of [serde_json]. *)
Inductive StorageError : Type :=
| Io (e : io_error)
| Json (msg : string)
| NotFoundError (msg : string)
| BucketNotEmpty
| InvalidKey (msg : string)
| UploadNotFound (msg : string)
| VersionNotFound (msg : string)
| ChecksumMismatch (msg : string)
| EncryptionError (msg : string)
| DecryptionError (msg : string)
| IntegrityError (msg : string)
| ObjectTooLarge (max : Z)
| InsufficientStorage (msg : string)
| ObjectLocked (msg : string).

Inductive ChecksumAlgorithm : Type := CRC32 | CRC32C | SHA1 | SHA256.
Global Instance ChecksumAlgorithm_eq_dec : EqDecision ChecksumAlgorithm.
Proof. solve_decision. Defined.

Definition header_name (a : ChecksumAlgorithm) : string :=
  match a with
  | CRC32 => "x-amz-checksum-crc32"
  | CRC32C => "x-amz-checksum-crc32c"
  | SHA1 => "x-amz-checksum-sha1"
  | SHA256 => "x-amz-checksum-sha256"
  end.

Definition to_ascii_uppercase (c : ascii) : ascii :=
  if is_ascii_lowercase c then ascii_of_N (N_of_ascii c - 32) else c.

Definition from_header_str (s : string) : option ChecksumAlgorithm :=
  let u := of_chars (map to_ascii_uppercase (chars s)) in
  if decide (u = "CRC32") then Some CRC32
  else if decide (u = "CRC32C") then Some CRC32C
  else if decide (u = "SHA1") then Some SHA1
  else if decide (u = "SHA256") then Some SHA256
  else None.

Record PutResult : Type := mk_PutResult {
  pr_size : Z;
  pr_etag : string;
  pr_version_id : option string;
  pr_checksum_algorithm : option ChecksumAlgorithm;
  pr_checksum_value : option string;
}.

Record DeleteResult : Type := mk_DeleteResult {
  dr_version_id : option string;
  dr_is_delete_marker : bool;
}.

Record LifecycleRule : Type := mk_LifecycleRule {
  lr_id : string;
  lr_prefix : string;
  lr_expiration_days : option Z;
  lr_transition_days : option Z;
  lr_noncurrent_expiration_days : option Z;
  lr_enabled : bool;
}.

Inductive ObjectLockMode : Type := Governance | Compliance.
Inductive LegalHoldStatus : Type := On | Off.
Global Instance ObjectLockMode_eq_dec : EqDecision ObjectLockMode.
Proof. solve_decision. Defined.
Global Instance LegalHoldStatus_eq_dec : EqDecision LegalHoldStatus.
Proof. solve_decision. Defined.

Record ObjectLockConfig : Type := mk_ObjectLockConfig {
  olc_enabled : bool;
  olc_default_retention_mode : option ObjectLockMode;
  olc_default_retention_days : option Z;
}.

Record ObjectLockRetention : Type := mk_ObjectLockRetention {
  olr_mode : ObjectLockMode;
  olr_retain_until_date : string;
}.

Record BucketNotificationConfig : Type := mk_BucketNotificationConfig {
  bn_webhook_url : string;
  bn_events : list string;
}.

Record CorsRule : Type := mk_CorsRule {
  allowed_origins : list string;
  allowed_methods : list string;
  allowed_headers : list string;
  expose_headers : list string;
  max_age_seconds : option Z;
}.

Record BucketEncryptionConfig : Type := mk_BucketEncryptionConfig {
  be_sse_algorithm : string;
  be_kms_key_id : option string;
}.

Record BucketMeta : Type := mk_BucketMeta {
  bm_name : string;
  bm_created_at : string;
  bm_region : string;
  bm_versioning : bool;
  bm_cors_rules : option (list CorsRule);
  bm_encryption_config : option BucketEncryptionConfig;
  bm_public_read : bool;
  bm_public_list : bool;
  bm_bucket_policy : option string;
  bm_erasure_coding : option bool;
  bm_lifecycle_rules : option (list LifecycleRule);
  bm_tenant_id : option string;
  bm_logging_target_bucket : option string;
  bm_logging_target_prefix : option string;
  bm_notification_config : option BucketNotificationConfig;
  bm_object_lock_enabled : bool;
  bm_object_lock_config : option ObjectLockConfig;
}.

Inductive EncryptionMode : Type := SseS3 | SseC | SseKms.
Global Instance EncryptionMode_eq_dec : EqDecision EncryptionMode.
Proof. solve_decision. Defined.

Record EncryptionMeta : Type := mk_EncryptionMeta {
  em_algorithm : string;
  em_mode : EncryptionMode;
  em_key_id : option string;
  em_kms_key_id : option string;
  em_wrapped_dek : option string;
  em_wrap_nonce : option string;
  em_customer_key_md5 : option string;
  em_nonce_prefix : string;
  em_chunk_size : Z;
  em_sidecar_mac : string;
}.

Record ObjectMeta : Type := mk_ObjectMeta {
  om_key : string;
  om_size : Z;
  om_etag : string;
  om_content_type : string;
  om_last_modified : string;
  om_version_id : option string;
  om_is_delete_marker : bool;
  om_storage_format : option string;
  om_checksum_algorithm : option ChecksumAlgorithm;
  om_checksum_value : option string;
  om_tags : option (gmap string string);
  om_part_sizes : option (list Z);
  om_encryption : option EncryptionMeta;
  om_object_lock_mode : option ObjectLockMode;
  om_retain_until_date : option string;
  om_legal_hold_status : option LegalHoldStatus;
}.

Record UploadEncryptionSpec : Type := mk_UploadEncryptionSpec {
  ue_mode : EncryptionMode;
  ue_customer_key_md5 : option string;
  ue_upload_dek_wrapped : option string;
  ue_upload_dek_wrap_nonce : option string;
  ue_upload_dek_key_id : option string;
  ue_kms_key_id : option string;
  ue_upload_nonce_prefix : string;
}.

Record MultipartUploadMeta : Type := mk_MultipartUploadMeta {
  mu_upload_id : string;
  mu_bucket : string;
  mu_key : string;
  mu_content_type : string;
  mu_initiated : string;
  mu_checksum_algorithm : option ChecksumAlgorithm;
  mu_encryption_spec : option UploadEncryptionSpec;
}.

Record PartMeta : Type := mk_PartMeta {
  pm_part_number : Z;
  pm_etag : string;
  pm_size : Z;
  pm_last_modified : string;
  pm_checksum_algorithm : option ChecksumAlgorithm;
  pm_checksum_value : option string;
  pm_encrypted : bool;
  pm_ciphertext_size : option Z;
}.

Inductive ChunkKind : Type := Data | Parity.
Global Instance ChunkKind_eq_dec : EqDecision ChunkKind.
Proof. solve_decision. Defined.

Record ChunkInfo : Type := mk_ChunkInfo {
  ci_index : Z;
  ci_size : Z;
  ci_sha256 : string;
  ci_kind : ChunkKind;
}.

Record ChunkManifest : Type := mk_ChunkManifest {
  cm_version : Z;
  cm_total_size : Z;
  cm_chunk_size : Z;
  cm_chunk_count : Z;
  cm_chunks : list ChunkInfo;
  cm_parity_shards : option Z;
  cm_shard_size : option Z;
  cm_plaintext_size : option Z;
}.

Record EncryptionRequest : Type := mk_EncryptionRequest {
  er_mode : EncryptionMode;
  er_customer_key : option bytes;
  er_kms_key_id : option string;
}.
Definition sse_s3 : EncryptionRequest := mk_EncryptionRequest SseS3 None None.
Definition sse_c (key : bytes) : EncryptionRequest := mk_EncryptionRequest SseC (Some key) None.
Definition sse_kms (id : option string) : EncryptionRequest := mk_EncryptionRequest SseKms None id.

(** ** Bucket names *)

Definition bucket_name_char (c : ascii) : bool :=
  is_ascii_lowercase c || is_ascii_digit c
  || bool_decide (c = "-"%char) || bool_decide (c = "."%char).

Definition is_valid_bucket_name (name : string) : bool :=
  let n := String.length name in
  if (n <? 3)%nat || (63 <? n)%nat then false
  else if negb (forallb bucket_name_char (chars name)) then false
  else
    let a := default "000"%char (head (chars name)) in
    let z := default "000"%char (list.last (chars name)) in
    if negb (is_ascii_alphanumeric a) || negb (is_ascii_alphanumeric z) then false
    else if contains_str ".." name || contains_str ".-" name || contains_str "-." name then false
    else
      let parts := split_char "."%char name in
      if (length parts =? 4)%nat && forallb (fun p => bool_decide (is_Some (parse_uint u8_max p))) parts
      then false
      else true.

Definition validate_bucket_name (name : string) : result StorageError unit :=
  if is_valid_bucket_name name then Ok tt
  else Err (InvalidKey ("invalid bucket name: " +:+ name)).

(** ** Object protection

    [now] is [chrono::Utc::now()] and [parse_rfc3339] is chrono's parser, both
    in the same unit of time. *)
Section protection.
Context (parse_rfc3339 : string -> option Z) (now : Z).

Definition is_object_protected (meta : ObjectMeta) : bool :=
  if decide (om_legal_hold_status meta = Some On) then true
  else match om_retain_until_date meta ≫= parse_rfc3339 with
       | Some dt => now <? dt
       | None => false
       end.
End protection.

(** ** Bucket names are safe path segments *)

Lemma contains_str_app p l r : contains_str p (l +:+ p +:+ r) = true.
Proof.
  induction l as [|c l IH].
  - rewrite str_app_nil. destruct (p +:+ r) eqn:E; cbn; apply orb_true_iff; left;
      rewrite <-E; apply starts_with_spec; eauto.
  - rewrite str_app_cons. cbn. by rewrite IH, orb_true_r.
Qed.

Lemma bucket_name_char_spec c :
  bucket_name_char c = true -> c <> "/"%char /\ c <> "\"%char /\ c <> "000"%char.
Proof. intros H. split_and!; by intros ->. Qed.

(** What the uses of a bucket name as a path rely on. *)
Lemma valid_bucket_name_segment name :
  validate_bucket_name name = Ok tt ->
  contains_char "/" name = false /\
  exists a r, name = String a r /\ is_ascii_alphanumeric a = true /\ name <> ".." /\ name <> ".".
Proof.
  unfold validate_bucket_name, is_valid_bucket_name. intros H.
  repeat case_match; try done. bool_to_prop. split.
  - unfold contains_char. apply bool_decide_eq_false. intros Hin.
    destruct (bucket_name_char_spec "/") as [? _]; [|done].
    apply (proj1 (forallb_forall bucket_name_char (chars name))); [done|by apply list_elem_of_In].
  - destruct name as [|a r]; [done|]. exists a, r. split_and!; [done| | |].
    + match goal with H : is_ascii_alphanumeric (default _ (head _)) = true |- _ => exact H end.
    + by intros [= -> ->].
    + by intros [= -> ->].
Qed.

(** An accepted bucket name is one path segment, safe to join to the data
    directory: between 3 and 63 characters, no separator or NUL, not [.] or
    [..] and without [..] anywhere, and it starts and ends with a letter or a
    digit. *)
Theorem valid_bucket_name_is_path_segment name :
  validate_bucket_name name = Ok tt ->
  (3 <= String.length name <= 63)%nat /\
  Forall (fun c => c <> "/"%char /\ c <> "\"%char /\ c <> "000"%char) (chars name) /\
  name <> "." /\ name <> ".." /\
  (forall l r, name <> l +:+ ".." +:+ r) /\
  (exists a z l, is_ascii_alphanumeric a = true /\ is_ascii_alphanumeric z = true /\
     chars name = a :: l ++ [z]).
Proof.
  unfold validate_bucket_name, is_valid_bucket_name. intros H.
  repeat case_match; try done. bool_to_prop.
  match goal with H : contains_str ".." name = false |- _ => rename H into Hdots end.
  split_and!; [lia..| | | | |].
  - apply Forall_forall. intros c Hc. apply bucket_name_char_spec.
    apply (proj1 (forallb_forall bucket_name_char (chars name))); [done|by apply list_elem_of_In].
  - by intros ->.
  - by intros ->.
  - intros l r ->. by rewrite contains_str_app in Hdots.
  - pose proof (chars_length name) as Hl. destruct (chars name) as [|a cs] eqn:E; cbn in *; [lia|].
    destruct cs as [|z cs _] using rev_ind; [cbn in Hl; lia|].
    exists a, z, cs. split_and!; [done| |done].
    match goal with H : is_ascii_alphanumeric (default _ (list.last _)) = true |- _ =>
      rewrite app_comm_cons, last_snoc in H; exact H end.
Qed.

Lemma valid_bucket_name_is_path_segment_witness :
  validate_bucket_name "prod-logs.2026" = Ok tt /\
  (exists a z l, is_ascii_alphanumeric a = true /\ is_ascii_alphanumeric z = true /\
     chars "prod-logs.2026" = a :: l ++ [z]).
Proof.
  split; [vm_compute; reflexivity|].
  apply (valid_bucket_name_is_path_segment "prod-logs.2026"). vm_compute. reflexivity.
Defined.

(** ** Error messages: [Display] of [StorageError] *)
Definition storage_error_to_string (e : StorageError) : string :=
  match e with
  | Io e => "IO error: " +:+ io_message e
  | Json msg => "JSON error: " +:+ msg
  | NotFoundError msg => "Not found: " +:+ msg
  | BucketNotEmpty => "Bucket not empty"
  | InvalidKey msg => "Invalid key: " +:+ msg
  | UploadNotFound msg => "Multipart upload not found: " +:+ msg
  | VersionNotFound msg => "Version not found: " +:+ msg
  | ChecksumMismatch msg => "Checksum mismatch: " +:+ msg
  | EncryptionError msg => "Encryption error: " +:+ msg
  | DecryptionError msg => "Decryption error: " +:+ msg
  | IntegrityError msg => "Integrity error: " +:+ msg
  | ObjectTooLarge max => "object exceeds maximum allowed size of " +:+ pretty max +:+ " bytes"
  | InsufficientStorage msg => "insufficient storage: " +:+ msg
  | ObjectLocked msg => "object locked: " +:+ msg
  end.
