(* ===== verification/Quota.v ===== *)
(** * Upload quotas

    [maxio-storage/src/quota.rs]: the limits on an upload, the reader that
    enforces them while the body streams in, and the passage of the limit
    errors through [std::io::Error] and back.

    The free space reported by [statvfs] is not under the program's control:
    [disk n] is the answer to the [n]-th query, [None] when it fails. *)

From stdpp Require Import base list numbers strings pretty.
From Stdlib Require Import ZArith Lia Strings.Byte.
From S2P Require Import Prelude Bytes Reader Types.

Local Open Scope Z_scope.

Record QuotaLimits : Type := mk_QuotaLimits {
  max_object_bytes : Z;
  min_free_disk_bytes : Z;
}.

Definition from_config (max_object min_free : Z) : QuotaLimits := mk_QuotaLimits max_object min_free.

Definition check_object_size (l : QuotaLimits) (object_bytes : Z) : result StorageError unit :=
  if (0 <? max_object_bytes l) && (max_object_bytes l <? object_bytes)
  then Err (ObjectTooLarge (max_object_bytes l))
  else Ok tt.

Definition check_declared_size (l : QuotaLimits) (declared : option Z) : result StorageError unit :=
  match declared with Some n => check_object_size l n | None => Ok tt end.

Definition check_available (l : QuotaLimits) (available : option Z) : result StorageError unit :=
  match available with
  | None => Err (InsufficientStorage "unable to determine free disk space")
  | Some available =>
      if available <? min_free_disk_bytes l then
        Err (InsufficientStorage ("free disk space " +:+ pretty available
               +:+ " bytes is below reserve " +:+ pretty (min_free_disk_bytes l) +:+ " bytes"))
      else Ok tt
  end.

Definition check_disk_reserve (l : QuotaLimits) (available : option Z) : result StorageError unit :=
  if min_free_disk_bytes l =? 0 then Ok tt else check_available l available.

Definition check_write_progress (l : QuotaLimits) (available : option Z) (written : Z)
    : result StorageError unit :=
  _ ← check_object_size l written;
  if 0 <? min_free_disk_bytes l then check_available l available else Ok tt.

(** ** Errors through the reader interface *)

Definition too_large_prefix : string := "maxio:quota:object-too-large:".
Definition insufficient_prefix : string := "maxio:quota:insufficient-storage:".

Definition quota_io_error (err : StorageError) : io_error :=
  mk_io_error Other
    match err with
    | ObjectTooLarge max => too_large_prefix +:+ pretty max
    | InsufficientStorage msg => insufficient_prefix +:+ msg
    | other => storage_error_to_string other
    end.

Definition map_read_quota_error (err : io_error) : StorageError :=
  let msg := io_message err in
  match (rest ← strip_prefix too_large_prefix msg; parse_uint u64_max rest) with
  | Some max => ObjectTooLarge max
  | None =>
      match strip_prefix insufficient_prefix msg with
      | Some rest => InsufficientStorage rest
      | None => Io err
      end
  end.

Lemma strip_prefix_app p r : strip_prefix p (p +:+ r) = Some r.
Proof. by apply strip_prefix_Some. Qed.

(** The two limit errors survive the passage. *)
Lemma quota_error_roundtrip err :
  match err with
  | ObjectTooLarge max => 0 <= max <= u64_max
  | InsufficientStorage _ => True
  | _ => False
  end ->
  map_read_quota_error (quota_io_error err) = err.
Proof.
  destruct err as [| | | | | | | | | | |max|msg|]; try done. intros Hm.
  unfold map_read_quota_error, quota_io_error. cbn [io_message].
  rewrite strip_prefix_app. cbn [mbind option_bind]. by rewrite parse_uint_pretty.
Qed.

(** ** The reader *)

Record QuotaReader (R : Type) : Type := mk_QuotaReader {
  qr_inner : R;
  qr_written : Z;
  qr_limits : QuotaLimits;
  qr_disk : nat -> option Z;
  qr_queries : nat;
}.
Arguments mk_QuotaReader {R}.
Arguments qr_inner {R}.
Arguments qr_written {R}.
Arguments qr_limits {R}.
Arguments qr_disk {R}.
Arguments qr_queries {R}.

Section reader.
Context {R : Type} `{!AsyncRead R}.

Definition quota_reader_new (inner : R) (limits : QuotaLimits) (disk : nat -> option Z) : QuotaReader R :=
  mk_QuotaReader inner 0 limits disk 0.

Definition quota_poll (q : QuotaReader R) (cap : nat) : QuotaReader R * Poll (result io_error bytes) :=
  let '(inner, p) := poll_read (qr_inner q) cap in
  let q' := mk_QuotaReader inner (qr_written q) (qr_limits q) (qr_disk q) (qr_queries q) in
  match p with
  | Ready (Ok (b :: bs)) =>
      let written := qr_written q + Z.of_nat (length (b :: bs)) in
      let q' := mk_QuotaReader inner written (qr_limits q) (qr_disk q) (S (qr_queries q)) in
      match check_write_progress (qr_limits q) (qr_disk q (qr_queries q)) written with
      | Err e => (q', Ready (Err (quota_io_error e)))
      | Ok _ => (q', p)
      end
  | _ => (q', p)
  end.

Global Instance quota_reader : AsyncRead (QuotaReader R) := quota_poll.
End reader.

Section spec.
Context {R : Type} `{!AsyncRead R} `{!ReaderSpec R}.
Implicit Types q : QuotaReader R.

(** The volume keeps its reserve. *)
Definition disk_ok (l : QuotaLimits) (disk : nat -> option Z) : Prop :=
  0 < min_free_disk_bytes l -> forall n, check_available l (disk n) = Ok tt.

Definition within (l : QuotaLimits) (total : Z) : Prop :=
  0 < max_object_bytes l -> total <= max_object_bytes l.

Global Instance within_dec l n : Decision (within l n).
Proof. unfold within. apply _. Defined.

Lemma check_object_size_spec l n :
  (check_object_size l n = Ok tt /\ within l n) \/
  (check_object_size l n = Err (ObjectTooLarge (max_object_bytes l)) /\
   0 < max_object_bytes l < n).
Proof.
  unfold check_object_size, within. destruct (Z.ltb_spec 0 (max_object_bytes l)); cbn; [|left; split; [done|lia]].
  destruct (Z.ltb_spec (max_object_bytes l) n); [right|left]; split; (done || lia).
Qed.

Lemma check_write_progress_ok l available n :
  within l n -> (0 < min_free_disk_bytes l -> check_available l available = Ok tt) ->
  check_write_progress l available n = Ok tt.
Proof.
  intros Hw Hd. unfold check_write_progress.
  destruct (check_object_size_spec l n) as [[-> _]|[_ ?]]; [|unfold within in Hw; lia]. cbn.
  destruct (Z.ltb_spec 0 (min_free_disk_bytes l)); auto.
Qed.

(** A body within the limits passes unchanged. *)
Global Program Instance quota_reader_spec : ReaderSpec (QuotaReader R) := {
  reads q out e :=
    reads (qr_inner q) out e /\ disk_ok (qr_limits q) (qr_disk q) /\
    within (qr_limits q) (qr_written q + Z.of_nat (length out));
  patience q := patience (qr_inner q);
}.
Next Obligation.
  intros q out e cap (Hr & Hd & Hw) Hcap. unfold poll_read, quota_reader, quota_poll.
  pose proof (reads_step _ out e cap Hr Hcap) as S.
  destruct (poll_read (qr_inner q) cap) as [inner [|[[|b bs]|x]]]; [by destruct S| |..].
  - destruct S as (Hp & Hl & (out' & -> & Hr') & He). split_and!; try done. by exists out'.
  - destruct S as (Hp & Hl & (out' & -> & Hr') & He). rewrite length_app in Hw.
    rewrite check_write_progress_ok; [..|by intros; apply Hd].
    + split_and!; try done. exists out'. split_and!; try done. cbn [qr_limits qr_written].
      unfold within in *. lia.
    + unfold within in *. lia.
  - done.
Qed.

Lemma drain_over_limit fuel cap n q out e :
  (forall i, (0 < cap i)%nat) -> reads (qr_inner q) out e -> disk_ok (qr_limits q) (qr_disk q) ->
  0 < max_object_bytes (qr_limits q) -> qr_written q <= max_object_bytes (qr_limits q) ->
  max_object_bytes (qr_limits q) < qr_written q + Z.of_nat (length out) ->
  (length out + patience (qr_inner q) < fuel)%nat ->
  exists out', drain fuel cap n q =
      Some (out', Fail (quota_io_error (ObjectTooLarge (max_object_bytes (qr_limits q))))) /\
    out' `prefix_of` out /\ qr_written q + Z.of_nat (length out') <= max_object_bytes (qr_limits q).
Proof.
  intros Hcap. revert n q out. induction fuel as [|fuel IH]; intros n q out Hr Hd Hmax Hw Hover Hf; [lia|].
  cbn [drain]. change (poll_read q (cap n)) with (quota_poll q (cap n)). unfold quota_poll.
  pose proof (reads_step _ out e (cap n) Hr (Hcap n)) as S.
  destruct (poll_read (qr_inner q) (cap n)) as [inner [|[[|b bs]|x]]].
  - destruct S as [Hr' Hp].
    apply (IH (S n) (mk_QuotaReader inner (qr_written q) (qr_limits q) (qr_disk q) (qr_queries q)));
      cbn; try done. lia.
  - destruct S as (_ & _ & _ & He). destruct (He eq_refl) as [-> _]. cbn in Hover. lia.
  - destruct S as (Hp & _ & (out' & -> & Hr') & _). rewrite length_app in *.
    set (written := qr_written q + Z.of_nat (length (b :: bs))) in *.
    destruct (check_object_size_spec (qr_limits q) written) as [[Ho Hin]|[Ho Hin]].
    + rewrite check_write_progress_ok by (done || (intros; by apply Hd)).
      set (q' := mk_QuotaReader inner written (qr_limits q) (qr_disk q) (S (qr_queries q))).
      destruct (IH (S n) q' out') as (o & E & [k ->] & Hl); cbn -[length] in *; try done.
      { by apply Hin. }
      { lia. }
      { cbn [length] in *. lia. }
      fold q'. rewrite E. exists ((b :: bs) ++ o). split; [done|]. split; [exists k; by rewrite <-app_assoc|].
      rewrite length_app. lia.
    + unfold check_write_progress. rewrite Ho. cbn. exists []. split; [done|].
      split; [apply prefix_nil|]. cbn. lia.
  - destruct S as [-> _]. cbn in Hover. lia.
Qed.
(** A loop over the quota reader that ends well has seen the whole body, and a
    loop with enough fuel ends. *)
Lemma quota_pump_ok {St Er} cap (err : io_error -> Er) (f : St -> bytes -> result Er St) fuel s q out e s' :
  (0 < cap)%nat -> reads (qr_inner q) out e -> pump cap err f fuel s q = Some (Ok s') ->
  e = Eof /\ exists pieces, concat pieces = out /\ fold_result f s pieces = Ok s'.
Proof.
  intros Hcap. revert s q out. induction fuel as [|fuel IH]; intros s q out Hr; [done|].
  cbn [pump]. change (poll_read q cap) with (quota_poll q cap). unfold quota_poll.
  pose proof (reads_step _ out e cap Hr Hcap) as S.
  destruct (poll_read (qr_inner q) cap) as [inner [|[[|b bs]|x]]].
  - destruct S as [Hr' _]. apply IH. exact Hr'.
  - destruct S as (_ & _ & _ & He). destruct (He eq_refl) as [-> ->]. intros [= <-].
    split; [done|]. by exists [].
  - destruct S as (_ & _ & (out' & -> & Hr') & _). destruct (check_write_progress _ _ _); [|done].
    destruct (f s (b :: bs)) as [s1|x] eqn:E; [|done]. intros Hp.
    destruct (IH s1 (mk_QuotaReader inner (qr_written q + Z.of_nat (length (b :: bs))) (qr_limits q)
                       (qr_disk q) (S (qr_queries q))) out' Hr' Hp) as [-> (pieces & <- & Hf)].
    split; [done|]. exists ((b :: bs) :: pieces). split; [done|]. by cbn; rewrite E; cbn.
  - done.
Qed.

Lemma quota_pump_total {St Er} cap (err : io_error -> Er) (f : St -> bytes -> result Er St) fuel s q out e :
  (0 < cap)%nat -> reads (qr_inner q) out e -> (length out + patience (qr_inner q) < fuel)%nat ->
  pump cap err f fuel s q <> None.
Proof.
  intros Hcap. revert s q out. induction fuel as [|fuel IH]; intros s q out Hr Hf; [lia|].
  cbn [pump]. change (poll_read q cap) with (quota_poll q cap). unfold quota_poll.
  pose proof (reads_step _ out e cap Hr Hcap) as S.
  destruct (poll_read (qr_inner q) cap) as [inner [|[[|b bs]|x]]]; [|done| |done].
  - destruct S as [Hr' Hp]. eapply IH; [exact Hr'|]. cbn. lia.
  - destruct S as (Hp & _ & (out' & -> & Hr') & _). rewrite length_app in Hf. cbn in Hf.
    destruct (check_write_progress _ _ _); [|done]. destruct (f s (b :: bs)); [|done].
    eapply IH; [exact Hr'|]. cbn. lia.
Qed.
End spec.

(** C32: the object-size quota.  A body within the limit passes through the
    quota reader unchanged; a longer one is cut, after at most
    [max_object_bytes] bytes of it, by an error that the upload path turns back
    into [ObjectTooLarge], whatever the sizes of the pieces. *)
Theorem quota_enforced {R} `{ReaderSpec R} (inner : R) limits disk out e cap :
  (forall i, (0 < cap i)%nat) -> reads inner out e -> disk_ok limits disk ->
  0 <= max_object_bytes limits <= u64_max ->
  exists res, drain (S (length out + patience inner)) cap 0 (quota_reader_new inner limits disk) = Some res /\
    if decide (within limits (Z.of_nat (length out))) then res = (out, e)
    else exists out' err, res = (out', Fail err) /\ out' `prefix_of` out /\
           Z.of_nat (length out') <= max_object_bytes limits /\
           map_read_quota_error err = ObjectTooLarge (max_object_bytes limits).
Proof.
  intros Hcap Hr Hd Hmax. destruct (decide _) as [Hw|Hw].
  - exists (out, e). split; [|done]. apply drain_reads_fuel; [done| |cbn; lia]. by split_and!.
  - destruct (drain_over_limit (S (length out + patience inner)) cap 0 (quota_reader_new inner limits disk) out e)
      as (out' & Hdr & Hp & Hl); try done; cbn in *; try (unfold within in Hw; lia).
    eexists. split; [exact Hdr|]. eexists _, _. split_and!; try done.
    by rewrite quota_error_roundtrip.
Qed.

Lemma quota_enforced_witness :
  exists res, drain 6 (fun _ => 2%nat) 0
      (quota_reader_new (mk_source [x01; x02; x03; x04; x05] Eof []) (mk_QuotaLimits 3 10) (fun _ => Some 11))
    = Some res /\
    exists out' err, res = (out', Fail err) /\ out' `prefix_of` [x01; x02; x03; x04; x05] /\
      Z.of_nat (length out') <= 3 /\ map_read_quota_error err = ObjectTooLarge 3.
Proof.
  destruct (quota_enforced (mk_source [x01; x02; x03; x04; x05] Eof []) (mk_QuotaLimits 3 10)
              (fun _ => Some 11) [x01; x02; x03; x04; x05] Eof (fun _ => 2%nat)) as (res & E & P).
  - intros; lia.
  - by split.
  - intros _ n. reflexivity.
  - cbn. unfold u64_max. lia.
  - exists res. split; [exact E|]. rewrite decide_False in P; [exact P|].
    unfold within. cbn. lia.
Defined.
