(* ===== verification/Crypto.v ===== *)
(** * Encrypted frames

    [maxio-storage/src/crypto.rs], with the nonce, AAD and frame-writing
    helpers of [filesystem/common.rs] and the encryption loop of
    [filesystem/object_io.rs].  An object's ciphertext is a sequence of frames
    [nonce (12 bytes) ++ ciphertext ++ tag (16 bytes)], one per
    [FRAME_CHUNK_SIZE] bytes of plaintext.

    AES-256-GCM and SHA-256 are not in the repository: they are parameters
    ([Aead], [sha256]) with their documented laws. *)

From stdpp Require Import base list strings numbers pretty.
From Stdlib Require Import ZArith Lia Strings.Byte.
From S2P Require Import Prelude Bytes Reader Types Quota.

Local Open Scope nat_scope.

(** ** The AEAD *)

(** [Aes256Gcm]: key, nonce, message, associated data. *)
Class Aead : Type := {
  seal : bytes -> bytes -> bytes -> bytes -> option bytes;
  open : bytes -> bytes -> bytes -> bytes -> option bytes;
}.

(** What the code relies on: a 16-byte tag, decryption accepts exactly the
    output of encryption under the same key, nonce and data, and encryption
    only fails on messages above [P_MAX] = 2^36 bytes. *)
Class AeadSpec `{Aead} : Prop := {
  seal_length k n m a c : seal k n m a = Some c -> length c = length m + 16;
  open_seal k n c a m : open k n c a = Some m <-> seal k n m a = Some c;
  seal_total k n m a :
    length n = 12 -> (Z.of_nat (length m) <= 2 ^ 36)%Z -> (Z.of_nat (length a) <= 2 ^ 36)%Z ->
    is_Some (seal k n m a);
}.

(** A concrete instance: the tag is the start of nonce and data. *)
Module Toy.
Definition tag (n a : bytes) : bytes := take 16 (n ++ a ++ replicate 16 x00).
#[export] Instance toy_aead : Aead := {|
  seal k n m a := Some (m ++ tag n a);
  open k n c a :=
    let m := take (length c - 16) c in
    if decide (c = m ++ tag n a) then Some m else None
|}.
#[export] Instance toy_aead_spec : AeadSpec.
Proof.
  assert (T : forall n a, length (tag n a) = 16).
  { intros n a. unfold tag. rewrite length_take, !length_app, length_replicate. lia. }
  split.
  - intros k n m a c [= <-]. by rewrite length_app, T.
  - intros k n c a m. cbn. case_decide as D; split.
    + intros [= <-]. by rewrite <-D.
    + intros [= <-]. f_equal. rewrite length_app, T, Nat.add_sub. apply take_app_length.
    + done.
    + intros [= <-]. exfalso. apply D.
      by rewrite length_app, T, Nat.add_sub, take_app_length.
  - intros. by eexists.
Qed.
End Toy.

(** ** Sizes, nonces *)

Definition FRAME_CHUNK_SIZE : nat := Z.to_nat 65536.
Definition FRAME_OVERHEAD : nat := 12 + 16.

(** [make_nonce], of a 4-byte prefix. *)
Definition make_nonce (prefix : bytes) (chunk_index : nat) : bytes :=
  prefix ++ to_le_bytes 8 (Z.of_nat chunk_index).

Definition make_frame_nonce (prefix : bytes) (chunk_index : nat) : result StorageError bytes :=
  match length prefix with
  | 4 => Ok (prefix ++ to_le_bytes 8 (Z.of_nat chunk_index))
  | 8 =>
      if (u32_max <? Z.of_nat chunk_index)%Z then
        Err (EncryptionError "object has too many encrypted frames for nonce format")
      else Ok (prefix ++ to_le_bytes 4 (Z.of_nat chunk_index))
  | _ => Err (EncryptionError "nonce_prefix must be 4 or 8 bytes")
  end.

Lemma make_frame_nonce_ok prefix i n :
  make_frame_nonce prefix i = Ok n ->
  (length prefix = 4 /\ n = prefix ++ to_le_bytes 8 (Z.of_nat i)) \/
  (length prefix = 8 /\ (Z.of_nat i <= u32_max)%Z /\ n = prefix ++ to_le_bytes 4 (Z.of_nat i)).
Proof.
  unfold make_frame_nonce. intros H. repeat case_match; simplify_eq; [by left|].
  right. match goal with H : (_ <? _)%Z = false |- _ => apply Z.ltb_ge in H end. done.
Qed.

Lemma make_frame_nonce_length prefix i n : make_frame_nonce prefix i = Ok n -> length n = 12.
Proof.
  intros [[L ->]|(L & _ & ->)]%make_frame_nonce_ok; by rewrite length_app, length_to_le_bytes, L.
Qed.

(** ** Associated data *)

(** [str::as_bytes]. *)
Definition as_bytes (s : string) : bytes := String.list_byte_of_string s.

Section aad.
Context (sha256 : bytes -> bytes).

(** What is hashed for a frame of an object. *)
Definition frame_aad_input (bucket key : string) (version_id : option string) (i : nat) : bytes :=
  as_bytes bucket ++ [x00] ++ as_bytes key ++ [x00]
  ++ as_bytes (default "" version_id) ++ [x00] ++ to_le_bytes 8 (Z.of_nat i).

Definition build_frame_aad (bucket key : string) (version_id : option string) (i : nat) : bytes :=
  sha256 (frame_aad_input bucket key version_id i).

Definition object_aad_builder (bucket key : string) (version_id : option string) : nat -> bytes :=
  fun i => build_frame_aad bucket key version_id i.

(** What is hashed for a frame of an uploaded part. *)
Definition part_aad_input (upload_id : string) (part_number : Z) (i : nat) : bytes :=
  as_bytes "PART" ++ [x00] ++ as_bytes upload_id ++ [x00]
  ++ to_le_bytes 4 part_number ++ [x00] ++ to_le_bytes 8 (Z.of_nat i).

Definition build_part_aad (upload_id : string) (part_number : Z) (i : nat) : bytes :=
  sha256 (part_aad_input upload_id part_number i).

Definition part_aad_builder (upload_id : string) (part_number : Z) : nat -> bytes :=
  fun i => build_part_aad upload_id part_number i.
End aad.

(** ** Writing frames *)

Section frames.
Context `{Aead}.

(** [encrypt_frame_to_vec]: the bytes of one frame. *)
Definition encrypt_frame_to_vec (cipher prefix : bytes) (i : nat) (plaintext aad : bytes)
    : result StorageError bytes :=
  nonce ← make_frame_nonce prefix i;
  ciphertext ← ok_or (seal cipher nonce plaintext aad) (EncryptionError "frame encryption failed");
  Ok (nonce ++ ciphertext).

(** [write_encrypted_frame]: the same bytes, appended to the writer. *)
Definition write_encrypted_frame (writer cipher prefix : bytes) (i : nat) (plaintext aad : bytes)
    : result StorageError bytes :=
  nonce ← make_frame_nonce prefix i;
  ciphertext ← ok_or (seal cipher nonce plaintext aad) (EncryptionError "frame encryption failed");
  Ok ((writer ++ nonce) ++ ciphertext).

(** The reference: the frames of a list of plaintext chunks. *)
Fixpoint encrypt_chunks (cipher prefix : bytes) (aad : nat -> bytes) (i : nat) (l : list bytes)
    : result StorageError bytes :=
  match l with
  | [] => Ok []
  | p :: l =>
      f ← encrypt_frame_to_vec cipher prefix i p (aad i);
      rest ← encrypt_chunks cipher prefix aad (S i) l;
      Ok (f ++ rest)
  end.

(** The encryption loop of [put_object]: [frame_buf], [chunk_index] and what
    has been written. [frame_size] is [FRAME_CHUNK_SIZE] in the code. *)
Record frame_writer : Type := mk_frame_writer {
  fw_frame_buf : bytes;
  fw_chunk_index : nat;
  fw_written : bytes;
}.

Section writer.
Context (frame_size : nat) (cipher prefix : bytes) (aad : nat -> bytes).

(** [while frame_buf.len() >= FRAME_CHUNK_SIZE { ... }]. *)
Fixpoint write_full_frames (fuel : nat) (w : frame_writer) : result StorageError frame_writer :=
  match fuel with
  | S fuel =>
      if frame_size <=? length (fw_frame_buf w) then
        out ← write_encrypted_frame (fw_written w) cipher prefix (fw_chunk_index w)
                (take frame_size (fw_frame_buf w)) (aad (fw_chunk_index w));
        write_full_frames fuel
          (mk_frame_writer (drop frame_size (fw_frame_buf w)) (S (fw_chunk_index w)) out)
      else Ok w
  | O => Ok w
  end.

(** One piece of the body. *)
Definition push_plaintext (w : frame_writer) (piece : bytes) : result StorageError frame_writer :=
  let buf := fw_frame_buf w ++ piece in
  write_full_frames (length buf) (mk_frame_writer buf (fw_chunk_index w) (fw_written w)).

(** The end of the body: the partial frame, if any. *)
Definition flush_partial_frame (w : frame_writer) : result StorageError bytes :=
  match fw_frame_buf w with
  | [] => Ok (fw_written w)
  | buf => write_encrypted_frame (fw_written w) cipher prefix (fw_chunk_index w) buf
             (aad (fw_chunk_index w))
  end.
End writer.
End frames.

(** ** Reading frames *)

(** Bytes of the frame [idx], nonce and tag included; 0 past the last frame. *)
Definition frame_target_for (plaintext_size chunk_size idx : nat) : nat :=
  let bytes_before := idx * chunk_size in
  if plaintext_size <=? bytes_before then 0
  else 12 + (plaintext_size - bytes_before) `min` chunk_size + 16.

(** [FrameDecryptor::ciphertext_offset]. *)
Definition ciphertext_offset (chunk_size offset : nat) : nat :=
  (offset / chunk_size) * (chunk_size + FRAME_OVERHEAD).

Definition frame_index_mismatch (expected : nat) (got : Z) : io_error :=
  mk_io_error InvalidData
    ("frame index mismatch: expected " +:+ pretty expected +:+ ", got " +:+ pretty got).
Definition authentication_error : io_error :=
  mk_io_error InvalidData "AES-GCM decryption failed: authentication error".
Definition truncated_frame : io_error := mk_io_error UnexpectedEof "truncated encrypted frame".
Definition truncated_object : io_error :=
  mk_io_error InvalidData "encrypted object truncated before first plaintext byte".

(** Decryption of one complete frame. *)
Definition open_frame `{Aead} (cipher : bytes) (aad : nat -> bytes) (idx : nat) (frame : bytes)
    : result io_error bytes :=
  if length frame <? 12 then
    Err (mk_io_error InvalidData "ciphertext frame too short to contain a nonce")
  else
    let nonce_bytes := take 12 frame in
    let ct_with_tag := drop 12 frame in
    let stored_idx_v1 := from_le_bytes (drop 4 nonce_bytes) in
    let stored_idx_v2 := from_le_bytes (drop 8 nonce_bytes) in
    if negb (stored_idx_v1 =? Z.of_nat idx)%Z && negb (stored_idx_v2 =? Z.of_nat idx)%Z then
      Err (frame_index_mismatch idx stored_idx_v1)
    else ok_or (open cipher nonce_bytes ct_with_tag (aad idx)) authentication_error.

(** What one turn of a poll loop does. *)
Inductive step (S A : Type) : Type := Continue (s : S) | Return (s : S) (a : A).
Arguments Continue {S A} s.
Arguments Return {S A} s a.

(** [FrameDecryptor].  [frame_buf] is the filled part of the frame buffer, so
    [frame_filled] is its length. *)
Record FrameDecryptor (R : Type) : Type := mk_FrameDecryptor {
  fd_inner : R;
  fd_cipher : bytes;
  fd_aad_builder : nat -> bytes;
  fd_plaintext_size : nat;
  fd_chunk_size : nat;
  fd_chunk_index : nat;
  fd_skip_bytes : nat;
  fd_remaining : nat;
  fd_frame_buf : bytes;
  fd_frame_target : nat;
  fd_out_buf : bytes;
  fd_out_pos : nat;
  fd_done : bool;
}.
Arguments mk_FrameDecryptor {R}.
Arguments fd_inner {R}.
Arguments fd_cipher {R}.
Arguments fd_aad_builder {R}.
Arguments fd_plaintext_size {R}.
Arguments fd_chunk_size {R}.
Arguments fd_chunk_index {R}.
Arguments fd_skip_bytes {R}.
Arguments fd_remaining {R}.
Arguments fd_frame_buf {R}.
Arguments fd_frame_target {R}.
Arguments fd_out_buf {R}.
Arguments fd_out_pos {R}.
Arguments fd_done {R}.

Section decryptor.
Context `{Aead} {R : Type} `{!AsyncRead R}.
Implicit Types d : FrameDecryptor R.

Definition for_range_internal (inner : R) (key : bytes)
    (plaintext_size chunk_size start_frame remaining skip_bytes : nat) (aad : nat -> bytes)
    : FrameDecryptor R :=
  let done := (plaintext_size =? 0) || (remaining =? 0) in
  mk_FrameDecryptor inner key aad plaintext_size chunk_size start_frame skip_bytes remaining
    [] (if done then 0 else frame_target_for plaintext_size chunk_size start_frame) [] 0 done.

(** [FrameDecryptor::new] and [FrameDecryptor::for_range]. *)
Definition decryptor_new (inner : R) (key : bytes) (plaintext_size chunk_size : nat)
    (aad : nat -> bytes) : FrameDecryptor R :=
  for_range_internal inner key plaintext_size chunk_size 0 plaintext_size 0 aad.
Definition for_range (inner : R) (key : bytes) (plaintext_size chunk_size offset len : nat)
    (aad : nat -> bytes) : FrameDecryptor R :=
  for_range_internal inner key plaintext_size chunk_size
    (offset / chunk_size) len (offset mod chunk_size) aad.

Definition set_cursor d (out_pos skip remaining : nat) : FrameDecryptor R :=
  mk_FrameDecryptor (fd_inner d) (fd_cipher d) (fd_aad_builder d) (fd_plaintext_size d)
    (fd_chunk_size d) (fd_chunk_index d) skip remaining (fd_frame_buf d)
    (fd_frame_target d) (fd_out_buf d) out_pos (fd_done d).
Definition set_input d (inner : R) (frame_buf : bytes) (done : bool) : FrameDecryptor R :=
  mk_FrameDecryptor inner (fd_cipher d) (fd_aad_builder d) (fd_plaintext_size d)
    (fd_chunk_size d) (fd_chunk_index d) (fd_skip_bytes d) (fd_remaining d) frame_buf
    (fd_frame_target d) (fd_out_buf d) (fd_out_pos d) done.

(** A frame has been decrypted: [chunk_index += 1; frame_filled = 0;
    update_frame_target()]. *)
Definition next_frame d (pt : bytes) : FrameDecryptor R :=
  mk_FrameDecryptor (fd_inner d) (fd_cipher d) (fd_aad_builder d) (fd_plaintext_size d)
    (fd_chunk_size d) (S (fd_chunk_index d)) (fd_skip_bytes d) (fd_remaining d) []
    (frame_target_for (fd_plaintext_size d) (fd_chunk_size d) (S (fd_chunk_index d)))
    pt 0 (fd_done d).

(** Any leading skip (range read within the first frame). *)
Definition apply_skip d : FrameDecryptor R :=
  let skip := Nat.min (fd_skip_bytes d) (length (fd_out_buf d) - fd_out_pos d) in
  set_cursor d (fd_out_pos d + skip) (fd_skip_bytes d - skip) (fd_remaining d).

(** Serve from the decrypted output buffer. *)
Definition serve d (cap : nat) : FrameDecryptor R * option bytes :=
  let len := length (fd_out_buf d) in
  if fd_out_pos d <? len then
    let d := apply_skip d in
    if (fd_out_pos d <? len) && (0 <? fd_remaining d) then
      let avail := Nat.min (Nat.min (len - fd_out_pos d) (fd_remaining d)) cap in
      if 0 <? avail then
        (set_cursor d (fd_out_pos d + avail) (fd_skip_bytes d) (fd_remaining d - avail),
         Some (take avail (drop (fd_out_pos d) (fd_out_buf d))))
      else (d, None)
    else (d, None)
  else (d, None).

(** One turn of the loop of [poll_read]. *)
Definition decryptor_step d (cap : nat)
    : step (FrameDecryptor R) (Poll (result io_error bytes)) :=
  match serve d cap with
  | (d, Some bs) => Return d (Ready (Ok bs))
  | (d, None) =>
      if fd_done d || (fd_remaining d =? 0) || (fd_frame_target d =? 0) then
        Return d (Ready (Ok []))
      else if length (fd_frame_buf d) =? fd_frame_target d then
        match open_frame (fd_cipher d) (fd_aad_builder d) (fd_chunk_index d) (fd_frame_buf d) with
        | Ok pt => Continue (next_frame d pt)
        | Err e => Return d (Ready (Err e))
        end
      else
        match poll_read (fd_inner d) (fd_frame_target d - length (fd_frame_buf d)) with
        | (inner, Pending) => Return (set_input d inner (fd_frame_buf d) (fd_done d)) Pending
        | (inner, Ready (Err e)) =>
            Return (set_input d inner (fd_frame_buf d) (fd_done d)) (Ready (Err e))
        | (inner, Ready (Ok [])) =>
            match fd_frame_buf d with
            | [] => Return (set_input d inner [] true) (Ready (Ok []))
            | buf => Return (set_input d inner buf (fd_done d)) (Ready (Err truncated_frame))
            end
        | (inner, Ready (Ok bs)) =>
            Continue (set_input d inner (fd_frame_buf d ++ bs) (fd_done d))
        end
  end.

Fixpoint decryptor_loop (fuel : nat) d (cap : nat)
    : option (FrameDecryptor R * Poll (result io_error bytes)) :=
  match fuel with
  | O => None
  | S fuel =>
      match decryptor_step d cap with
      | Continue d => decryptor_loop fuel d cap
      | Return d p => Some (d, p)
      end
  end.

(** Every turn that continues fills the frame or moves to the next one. *)
Definition turns_left d : nat :=
  (fd_plaintext_size d - fd_chunk_index d) * (fd_chunk_size d + 30)
  + (fd_frame_target d - length (fd_frame_buf d)).

Definition decryptor_poll d (cap : nat) : FrameDecryptor R * Poll (result io_error bytes) :=
  default (d, Pending) (decryptor_loop (S (turns_left d)) d cap).

Global Instance decryptor_reader : AsyncRead (FrameDecryptor R) := decryptor_poll.

(** [FrameDecryptor::preflight]: [read(&mut probe)] polls with room for one
    byte until the answer is ready; [None] when [fuel] polls were not enough. *)
Fixpoint poll_until_ready (fuel : nat) d (cap : nat) : option (FrameDecryptor R * result io_error bytes) :=
  match fuel with
  | O => None
  | S fuel =>
      match decryptor_poll d cap with
      | (d, Pending) => poll_until_ready fuel d cap
      | (d, Ready r) => Some (d, r)
      end
  end.

Definition preflight (fuel : nat) d : option (FrameDecryptor R * result io_error unit) :=
  if (fd_plaintext_size d =? 0) || (fd_remaining d =? 0) then Some (d, Ok tt)
  else
    match poll_until_ready fuel d 1 with
    | None => None
    | Some (d', Err e) => Some (d', Err e)
    | Some (d', Ok []) => Some (d', Err truncated_object)
    | Some (d', Ok _) =>
        Some (set_cursor d' (fd_out_pos d) (fd_skip_bytes d') (fd_remaining d), Ok tt)
    end.
End decryptor.

(** ** The reference: decryption of a ciphertext stream *)

(** How many frames an object has. *)
Definition frame_count (plaintext_size chunk_size : nat) : nat :=
  (plaintext_size + (chunk_size - 1)) / chunk_size.

(** What a reader of the ciphertext [c], ending with [e], can deliver: [n]
    frames from [idx] on, dropping [skip] bytes and then keeping [remaining]. *)
Section dec_frames.
Context `{Aead} (cipher : bytes) (aad : nat -> bytes) (plaintext_size chunk_size : nat).

Fixpoint dec_frames (n idx skip remaining : nat) (c : bytes) (e : stream_end)
    : bytes * stream_end :=
  match n with
  | O => ([], Eof)
  | S n =>
      if remaining =? 0 then ([], Eof)
      else
        let target := frame_target_for plaintext_size chunk_size idx in
        if length c <? target then
          match e, c with
          | Fail x, _ => ([], Fail x)
          | Eof, [] => ([], Eof)
          | Eof, _ => ([], Fail truncated_frame)
          end
        else
          match open_frame cipher aad idx (take target c) with
          | Err x => ([], Fail x)
          | Ok pt =>
              let served := take remaining (drop skip pt) in
              let rest := dec_frames n (S idx) (skip - length pt) (remaining - length served)
                            (drop target c) e in
              (served ++ fst rest, snd rest)
          end
  end.
End dec_frames.

Lemma frame_target_le size cs idx : frame_target_for size cs idx <= cs + 28.
Proof. unfold frame_target_for. case_match; lia. Qed.

Lemma frame_target_zero size cs idx :
  frame_target_for size cs idx = 0 <-> size <= idx * cs.
Proof. unfold frame_target_for. destruct (Nat.leb_spec size (idx * cs)); lia. Qed.

Lemma frame_count_le size cs idx : 0 < cs -> frame_count size cs <= idx <-> size <= idx * cs.
Proof.
  intros Hc. unfold frame_count.
  pose proof (Nat.div_mod_eq (size + (cs - 1)) cs). pose proof (Nat.mod_upper_bound (size + (cs - 1)) cs).
  split; intros; nia.
Qed.

Lemma frame_count_chunks cs (data : bytes) : 0 < cs -> length (chunks cs data) = frame_count (length data) cs.
Proof.
  intros Hc. apply Nat.le_antisymm.
  - apply Nat.nlt_ge. intros Hlt%chunks_lt; [|done].
    pose proof (frame_count_le (length data) cs (frame_count (length data) cs) Hc). lia.
  - apply frame_count_le; [done|]. apply Nat.nlt_ge. intros Hlt%chunks_lt; [lia|done].
Qed.

Section decryptor_spec.
Context `{Aead} {R : Type} `{!AsyncRead R} `{!ReaderSpec R}.
Implicit Types d : FrameDecryptor R.

(** What is still to be served from the output buffer. *)
Definition pending d : bytes :=
  take (fd_remaining d) (drop (fd_skip_bytes d) (drop (fd_out_pos d) (fd_out_buf d))).
(** The skip and the budget that are left for the frames to come. *)
Definition skip_left d : nat := fd_skip_bytes d - (length (fd_out_buf d) - fd_out_pos d).
Definition remaining_left d : nat := fd_remaining d - length (pending d).

Definition frames_left d : nat :=
  frame_count (fd_plaintext_size d) (fd_chunk_size d) - fd_chunk_index d.

Record decryptor_wf d : Prop := {
  wf_chunk : 0 < fd_chunk_size d;
  wf_filled : length (fd_frame_buf d) <= fd_frame_target d;
  wf_target : fd_done d = false ->
    fd_frame_target d = frame_target_for (fd_plaintext_size d) (fd_chunk_size d) (fd_chunk_index d);
}.

Definition future d (c : bytes) (e : stream_end) : bytes * stream_end :=
  if fd_done d then ([], Eof)
  else dec_frames (fd_cipher d) (fd_aad_builder d) (fd_plaintext_size d) (fd_chunk_size d)
         (frames_left d) (fd_chunk_index d) (skip_left d) (remaining_left d)
         (fd_frame_buf d ++ c) e.

Definition decryptor_reads d (out : bytes) (e : stream_end) : Prop :=
  decryptor_wf d /\
  exists c ce, reads (fd_inner d) c ce /\
    out = pending d ++ fst (future d c ce) /\ e = snd (future d c ce).

Lemma apply_skip_same d :
  pending (apply_skip d) = pending d /\ skip_left (apply_skip d) = skip_left d /\
  remaining_left (apply_skip d) = remaining_left d.
Proof.
  assert (P : pending (apply_skip d) = pending d).
  { unfold pending, apply_skip. cbn -[take drop]. f_equal. rewrite !drop_drop.
    destruct (decide (fd_skip_bytes d <= length (fd_out_buf d) - fd_out_pos d)).
    - f_equal. lia.
    - rewrite !drop_ge by lia. done. }
  split; [done|]. split; [unfold skip_left; cbn; lia|].
  unfold remaining_left. by rewrite P.
Qed.

Lemma future_ext d d' c e :
  fd_cipher d' = fd_cipher d -> fd_aad_builder d' = fd_aad_builder d ->
  fd_plaintext_size d' = fd_plaintext_size d -> fd_chunk_size d' = fd_chunk_size d ->
  fd_chunk_index d' = fd_chunk_index d -> fd_frame_buf d' = fd_frame_buf d ->
  fd_done d' = fd_done d -> skip_left d' = skip_left d -> remaining_left d' = remaining_left d ->
  future d' c e = future d c e.
Proof. unfold future, frames_left. by intros -> -> -> -> -> -> -> -> ->. Qed.

(** Serving takes a prefix of what is pending and nothing else changes. *)
Lemma serve_spec d cap d' r :
  0 < cap -> serve d cap = (d', r) ->
  fd_inner d' = fd_inner d /\ (forall c e, future d' c e = future d c e) /\
  (decryptor_wf d -> decryptor_wf d') /\ turns_left d' = turns_left d /\
  match r with
  | Some bs => bs <> [] /\ length bs <= cap /\ pending d = bs ++ pending d'
  | None => pending d = [] /\ pending d' = [] /\
            (fd_remaining d' = 0 \/ skip_left d' = fd_skip_bytes d')
  end.
Proof.
  intros Hcap. destruct (apply_skip_same d) as (P & S & L). unfold serve.
  destruct (Nat.ltb_spec (fd_out_pos d) (length (fd_out_buf d))) as [Hpos|Hpos].
  2:{ intros [= <- <-]. assert (pending d = []).
      { unfold pending. by rewrite (drop_ge (fd_out_buf d)), drop_nil, take_nil by lia. }
      split_and!; try done. right. unfold skip_left. lia. }
  set (d1 := apply_skip d) in *.
  assert (Hpos1 : fd_skip_bytes d1 = 0 \/ fd_out_pos d1 = length (fd_out_buf d1)) by (cbn; lia).
  assert (Hlen : length (fd_out_buf d1) = length (fd_out_buf d)) by done.
  assert (Hwf : decryptor_wf d -> decryptor_wf d1) by by intros [].
  assert (Hin : fd_inner d1 = fd_inner d) by done.
  assert (Hf : forall c e, future d1 c e = future d c e) by by intros; apply future_ext.
  assert (Ht : turns_left d1 = turns_left d) by done.
  clearbody d1. rewrite <-P, <-Hlen.
  destruct ((_ <? _) && _) eqn:E1; bool_to_prop.
  - destruct Hpos1 as [Hs|]; [|lia]. rewrite (proj2 (Nat.ltb_lt 0 _)) by lia.
    intros [= <- <-]. set (avail := Nat.min _ cap).
    assert (Hav : 0 < avail <= cap /\ avail <= fd_remaining d1 /\
                  avail <= length (fd_out_buf d1) - fd_out_pos d1) by (subst avail; lia).
    clearbody avail.
    assert (Hp : pending d1 = take avail (drop (fd_out_pos d1) (fd_out_buf d1)) ++
              pending (set_cursor d1 (fd_out_pos d1 + avail) (fd_skip_bytes d1) (fd_remaining d1 - avail))).
    { unfold pending. cbn -[take drop]. rewrite Hs, !drop_0, <-drop_drop.
      set (l := drop (fd_out_pos d1) (fd_out_buf d1)).
      replace (fd_remaining d1) with (avail + (fd_remaining d1 - avail)) at 1 by lia.
      rewrite <-(take_drop avail l) at 1. rewrite take_app_add'; [done|].
      subst l. rewrite length_take, length_drop. lia. }
    split_and!; try done.
    + intros c e. rewrite <-Hf. apply future_ext; try done.
      * unfold skip_left. cbn. lia.
      * unfold remaining_left. apply (f_equal length) in Hp.
        rewrite length_app, length_take, length_drop in Hp. rewrite Hp.
        change (fd_remaining (set_cursor d1 (fd_out_pos d1 + avail) (fd_skip_bytes d1) (fd_remaining d1 - avail)))
          with (fd_remaining d1 - avail). lia.
    + intros Hd. by destruct (Hwf Hd).
    + intros Hnil%(f_equal length). rewrite length_take, length_drop in Hnil. cbn in Hnil. lia.
    + rewrite length_take. lia.
  - intros [= <- <-].
    assert (pending d1 = [] /\ (fd_remaining d1 = 0 \/ skip_left d1 = fd_skip_bytes d1)) as [Hp Hs].
    { apply andb_false_iff in E1. unfold pending, skip_left. destruct E1 as [E1|E1]; bool_to_prop.
      - rewrite (drop_ge (fd_out_buf d1)), drop_nil, take_nil by lia. split; [done|lia].
      - replace (fd_remaining d1) with 0 by lia. rewrite take_0. auto. }
    by split_and!.
Qed.

Definition step_ok (d : FrameDecryptor R) (cap : nat) (out : bytes) (e : stream_end)
    (s : step (FrameDecryptor R) (Poll (result io_error bytes))) : Prop :=
  match s with
  | Continue d' =>
      decryptor_reads d' out e /\ turns_left d' < turns_left d /\
      patience (fd_inner d') <= patience (fd_inner d)
  | Return d' Pending => decryptor_reads d' out e /\ patience (fd_inner d') < patience (fd_inner d)
  | Return d' (Ready (Ok bs)) =>
      patience (fd_inner d') <= patience (fd_inner d) /\ length bs <= cap /\
      (exists out', out = bs ++ out' /\ decryptor_reads d' out' e) /\
      (bs = [] -> out = [] /\ e = Eof)
  | Return d' (Ready (Err x)) => out = [] /\ e = Fail x
  end.

(** The frame in the buffer is complete: decrypt it. *)
Lemma open_step d cap c ce :
  decryptor_wf d -> fd_done d = false -> fd_remaining d <> 0 ->
  fd_frame_target d <> 0 -> length (fd_frame_buf d) = fd_frame_target d ->
  pending d = [] -> skip_left d = fd_skip_bytes d -> reads (fd_inner d) c ce ->
  step_ok d cap (fst (future d c ce)) (snd (future d c ce))
    (match open_frame (fd_cipher d) (fd_aad_builder d) (fd_chunk_index d) (fd_frame_buf d) with
     | Ok pt => Continue (next_frame d pt)
     | Err e => Return d (Ready (Err e))
     end).
Proof.
  intros [Hc Hf Ht] Hdone Hrem Htz Hfull Hp Hs Hr. specialize (Ht Hdone).
  assert (Hlt : fd_chunk_index d * fd_chunk_size d < fd_plaintext_size d).
  { apply Nat.nle_gt. by rewrite <-frame_target_zero, <-Ht. }
  assert (Hn : exists n, frames_left d = S n /\
            frame_count (fd_plaintext_size d) (fd_chunk_size d) - S (fd_chunk_index d) = n).
  { unfold frames_left. exists (frame_count (fd_plaintext_size d) (fd_chunk_size d) - S (fd_chunk_index d)).
    split; [|done]. pose proof (frame_count_le (fd_plaintext_size d) _ (fd_chunk_index d) Hc). lia. }
  destruct Hn as (n & Hn & Hn').
  assert (Hrl : remaining_left d = fd_remaining d) by (unfold remaining_left; rewrite Hp; cbn; lia).
  unfold future at 1 2. rewrite Hdone, Hn, Hs, Hrl. cbn [dec_frames].
  rewrite (proj2 (Nat.eqb_neq _ _) Hrem), <-Ht, <-Hfull.
  rewrite (proj2 (Nat.ltb_ge _ _)) by (rewrite length_app; lia).
  rewrite take_app_length, drop_app_length.
  destruct (open_frame _ _ _ _) as [pt|x]; cbn [fst snd step_ok]; [|done].
  split_and!; [|unfold turns_left; cbn [next_frame fd_plaintext_size fd_chunk_size fd_chunk_index fd_frame_buf fd_frame_target]|done].
  - split; [by constructor; cbn; [|lia|]|].
    exists c, ce. split; [done|]. unfold future, frames_left, skip_left, remaining_left, pending.
    cbn -[take drop dec_frames frame_count]. rewrite Hdone, Hn', drop_0, Nat.sub_0_r. done.
  - rewrite Hfull, Nat.sub_diag. cbn [length].
    pose proof (frame_target_le (fd_plaintext_size d) (fd_chunk_size d) (S (fd_chunk_index d))).
    assert (fd_chunk_index d < fd_plaintext_size d) by nia. nia.
Qed.

(** More ciphertext is needed. *)
Lemma fill_step d cap c ce :
  decryptor_wf d -> fd_done d = false -> fd_remaining d <> 0 ->
  length (fd_frame_buf d) < fd_frame_target d ->
  pending d = [] -> reads (fd_inner d) c ce ->
  step_ok d cap (fst (future d c ce)) (snd (future d c ce))
    (match poll_read (fd_inner d) (fd_frame_target d - length (fd_frame_buf d)) with
     | (inner, Pending) => Return (set_input d inner (fd_frame_buf d) (fd_done d)) Pending
     | (inner, Ready (Err e)) =>
         Return (set_input d inner (fd_frame_buf d) (fd_done d)) (Ready (Err e))
     | (inner, Ready (Ok [])) =>
         match fd_frame_buf d with
         | [] => Return (set_input d inner [] true) (Ready (Ok []))
         | buf => Return (set_input d inner buf (fd_done d)) (Ready (Err truncated_frame))
         end
     | (inner, Ready (Ok bs)) =>
         Continue (set_input d inner (fd_frame_buf d ++ bs) (fd_done d))
     end).
Proof.
  intros [Hc Hf Ht] Hdone Hrem Hroom Hp Hr. specialize (Ht Hdone).
  assert (Hrl : remaining_left d = fd_remaining d) by (unfold remaining_left; rewrite Hp; cbn; lia).
  assert (Hshort : forall e, length (fd_frame_buf d ++ []) < fd_frame_target d ->
    future d [] e = match e, fd_frame_buf d with
                    | Fail x, _ => ([], Fail x) | Eof, [] => ([], Eof)
                    | Eof, _ => ([], Fail truncated_frame) end).
  { intros e. rewrite app_nil_r. intros _. unfold future. rewrite Hdone, app_nil_r, Hrl.
    assert (fd_chunk_index d * fd_chunk_size d < fd_plaintext_size d).
    { apply Nat.nle_gt. rewrite <-frame_target_zero, <-Ht. lia. }
    pose proof (frame_count_le (fd_plaintext_size d) _ (fd_chunk_index d) Hc).
    destruct (frames_left d) as [|n] eqn:Hn; [unfold frames_left in Hn; lia|].
    cbn [dec_frames]. rewrite (proj2 (Nat.eqb_neq _ _) Hrem), <-Ht, (proj2 (Nat.ltb_lt _ _)) by done.
    by destruct e, (fd_frame_buf d). }
  rewrite app_nil_r in Hshort.
  pose proof (reads_step _ c ce (fd_frame_target d - length (fd_frame_buf d)) Hr ltac:(lia)) as S.
  destruct (poll_read _ _) as [inner [|[bs|x]]].
  - destruct S as [Hr' Hpat]. split; [|done]. split; [by constructor|].
    exists c, ce. split; [done|]. by unfold pending in *; cbn -[take drop]; rewrite Hp.
  - destruct S as (Hpat & Hlen & (c' & -> & Hr') & He). destruct bs as [|b bs].
    + destruct (He eq_refl) as [Hc' ->]. cbn in Hc'. subst c'. cbn [app]. rewrite Hshort by done.
      destruct (fd_frame_buf d) eqn:Eb; [|by split].
      split_and!; try done; [cbn; lia|].
      exists []. split; [done|]. split; [by constructor; cbn; [|lia|]|].
      exists [], Eof. split; [done|]. unfold future. cbn -[take drop]. by unfold pending in *; cbn -[take drop]; rewrite Hp.
    + split_and!; [|unfold turns_left; cbn in *; rewrite length_app; cbn; lia|done].
      split; [constructor; cbn -[length]; [done|rewrite length_app; lia|done]|].
      exists c', ce. split; [done|]. unfold pending in *. cbn -[take drop]. rewrite Hp.
      unfold future. cbn [set_input fd_frame_buf fd_done]. rewrite <-app_assoc. done.
  - destruct S as [-> ->]. by rewrite Hshort.
Qed.

Lemma decryptor_step_spec d cap out e :
  0 < cap -> decryptor_reads d out e -> step_ok d cap out e (decryptor_step d cap).
Proof.
  intros Hcap (Hwf & c & ce & Hr & -> & ->). unfold decryptor_step.
  destruct (serve d cap) as [d' r] eqn:E.
  destruct (serve_spec d cap d' r Hcap E) as (Hi & Hf & Hwf' & Htl & Hs).
  specialize (Hwf' Hwf). rewrite <-Hf. destruct r as [bs|].
  - destruct Hs as (Hbs & Hlen & ->). cbn. rewrite Hi. split_and!; [done..| |done].
    exists (pending d' ++ fst (future d' c ce)). split; [by rewrite app_assoc|].
    split; [done|]. exists c, ce. by rewrite Hi.
  - destruct Hs as (-> & Hp & Hs). cbn [app].
    assert (Hend : pending d' ++ fst (future d' c ce) = [] /\ snd (future d' c ce) = Eof ->
                   step_ok d cap (fst (future d' c ce)) (snd (future d' c ce))
                     (Return d' (Ready (Ok [])))).
    { rewrite Hp. cbn [app]. intros [H1 H2]. cbn. rewrite Hi. split_and!; [done|lia| |done].
      exists []. split; [by rewrite H1|]. split; [done|]. exists c, ce. by rewrite Hi, Hp. }
    rewrite Hp in Hend.
    destruct (fd_done d') eqn:Hd; [apply Hend; unfold future; by rewrite Hd|].
    destruct (Nat.eqb_spec (fd_remaining d') 0) as [Hr0|Hr0]; cbn [orb].
    { apply Hend. unfold future, remaining_left. rewrite Hd, Hr0.
      by destruct (frames_left d'). }
    destruct Hs as [|Hs]; [done|].
    destruct (Nat.eqb_spec (fd_frame_target d') 0) as [Ht0|Ht0].
    { apply Hend. pose proof Hwf' as [Hc _ Ht]. rewrite (Ht Hd) in Ht0.
      apply frame_target_zero in Ht0. unfold future. rewrite Hd.
      replace (frames_left d') with 0; [done|]. unfold frames_left.
      pose proof (frame_count_le (fd_plaintext_size d') _ (fd_chunk_index d') Hc). lia. }
    rewrite <-Hi in Hr. assert (Hok : forall s, step_ok d' cap (fst (future d' c ce)) (snd (future d' c ce)) s ->
      step_ok d cap (fst (future d' c ce)) (snd (future d' c ce)) s).
    { intros s. unfold step_ok. by rewrite Hi, Htl. }
    apply Hok. destruct (Nat.eqb_spec (length (fd_frame_buf d')) (fd_frame_target d')).
    + by apply open_step.
    + rewrite <-Hd. apply fill_step; try done. destruct Hwf'. lia.
Qed.

(** The loop ends within [turns_left] turns, and its answer meets the
    contract of a reader. *)
Lemma decryptor_loop_spec fuel d cap out e :
  0 < cap -> decryptor_reads d out e -> turns_left d < fuel ->
  exists d' p, decryptor_loop fuel d cap = Some (d', p) /\
    match p with
    | Pending => decryptor_reads d' out e /\ patience (fd_inner d') < patience (fd_inner d)
    | Ready (Ok bs) =>
        patience (fd_inner d') <= patience (fd_inner d) /\ length bs <= cap /\
        (exists out', out = bs ++ out' /\ decryptor_reads d' out' e) /\
        (bs = [] -> out = [] /\ e = Eof)
    | Ready (Err x) => out = [] /\ e = Fail x
    end.
Proof.
  intros Hcap. revert d. induction fuel as [|fuel IH]; intros d Hd Hf; [lia|].
  cbn [decryptor_loop]. pose proof (decryptor_step_spec d cap out e Hcap Hd) as S.
  destruct (decryptor_step d cap) as [d'|d' p].
  - destruct S as (Hd' & Ht & Hp). destruct (IH d' Hd') as (d2 & p & -> & HP); [lia|].
    exists d2, p. split; [done|]. destruct p as [|[bs|x]]; [|destruct HP|done].
    + destruct HP. split; [done|lia].
    + split; [lia|done].
  - exists d', p. split; [done|]. by destruct p as [|[]].
Qed.

Global Program Instance decryptor_reader_spec : ReaderSpec (FrameDecryptor R) := {
  reads := decryptor_reads;
  patience d := patience (fd_inner d);
}.
Next Obligation.
  intros d out e cap Hd Hcap. unfold poll_read, decryptor_reader, decryptor_poll.
  destruct (decryptor_loop_spec (S (turns_left d)) d cap out e) as (d' & p & -> & HP); [done..|lia|].
  cbn. by destruct p as [|[]].
Qed.

(** The stream of a fresh decryptor. *)
Lemma for_range_internal_reads inner key size cs start rem skip aad c ce :
  0 < cs -> reads inner c ce ->
  let r := dec_frames key aad size cs (frame_count size cs - start) start skip rem c ce in
  reads (for_range_internal inner key size cs start rem skip aad) (fst r) (snd r).
Proof.
  intros Hc Hr. cbn zeta. split.
  - constructor; cbn; [done| |by intros ->]. lia.
  - assert (Hp : pending (for_range_internal inner key size cs start rem skip aad) = []).
    { unfold pending. cbn -[take]. by rewrite drop_nil, take_nil. }
    exists c, ce. split; [done|]. unfold future, skip_left, remaining_left, frames_left. rewrite Hp.
    cbn -[dec_frames frame_count]. rewrite !Nat.sub_0_r.
    destruct ((size =? 0) || (rem =? 0)) eqn:E; [|done].
    apply orb_true_iff in E as [->%Nat.eqb_eq| ->%Nat.eqb_eq].
    + replace (frame_count 0 cs - start) with 0; [done|].
      pose proof (frame_count_le 0 cs start Hc). lia.
    + by destruct (frame_count size cs - start).
Qed.

Lemma poll_until_ready_spec d out e :
  decryptor_reads d out e ->
  exists d' r, poll_until_ready (S (patience (fd_inner d))) d 1 = Some (d', r) /\
    match r with
    | Ok bs => length bs <= 1 /\
        (exists out', out = bs ++ out' /\ decryptor_reads d' out' e) /\
        (bs = [] -> out = [] /\ e = Eof)
    | Err x => out = [] /\ e = Fail x
    end.
Proof.
  remember (S (patience (fd_inner d))) as fuel eqn:Hf.
  assert (Hf' : patience (fd_inner d) < fuel) by lia. clear Hf. revert d Hf'.
  induction fuel as [|fuel IH]; intros d Hf Hd; [lia|]. cbn [poll_until_ready].
  pose proof (reads_step d out e 1 Hd ltac:(lia)) as S. unfold poll_read, decryptor_reader in S.
  destruct (decryptor_poll d 1) as [d' [|[bs|x]]].
  - destruct S as [Hd' Hp]. cbn in Hp. apply IH; [lia|done].
  - exists d', (Ok bs). split; [done|]. destruct S as (_ & ? & ? & ?). by split.
  - exists d', (Err x). by split.
Qed.

(** *** Preflight *)

(** Nothing of the output buffer has been consumed. *)
Definition unread d : Prop := fd_out_pos d = 0 /\ fd_skip_bytes d = 0.

Lemma serve_unread d cap :
  0 < cap -> unread d ->
  match serve d cap with
  | (d', Some _) => set_cursor d' 0 (fd_skip_bytes d') (fd_remaining d) = d
  | (d', None) => d' = d
  end.
Proof.
  intros Hcap [Hp Hs]. destruct d as [? ? ? ? ? ? skip rem ? ? out pos ?]. cbn in Hp, Hs. subst.
  destruct out as [|b out]; [done|]. destruct rem as [|rem], cap as [|cap]; done.
Qed.

Lemma unread_step d cap :
  0 < cap -> unread d ->
  match decryptor_step d cap with
  | Continue d' | Return d' Pending => unread d' /\ fd_remaining d' = fd_remaining d
  | Return d' (Ready (Ok (_ :: _))) => set_cursor d' 0 (fd_skip_bytes d') (fd_remaining d) = d
  | _ => True
  end.
Proof.
  intros Hcap Hu. unfold decryptor_step. pose proof (serve_unread d cap Hcap Hu) as Hv.
  destruct (serve d cap) as [d' [[|b bs]|]]; [done|done|]. subst d'. destruct Hu as [Hp Hs].
  destruct (fd_done d || _ || _); [done|].
  destruct (_ =? _).
  - by destruct (open_frame _ _ _ _); [split_and!|].
  - destruct (poll_read _ _) as [inner [|[[|b bs]|x]]]; [by split_and!|by destruct (fd_frame_buf d)|by split_and!|done].
Qed.

Lemma unread_loop fuel d cap out e :
  0 < cap -> unread d -> decryptor_reads d out e ->
  match decryptor_loop fuel d cap with
  | Some (d', Pending) => unread d' /\ fd_remaining d' = fd_remaining d
  | Some (d', Ready (Ok (_ :: _))) =>
      decryptor_reads (set_cursor d' 0 (fd_skip_bytes d') (fd_remaining d)) out e
  | _ => True
  end.
Proof.
  intros Hcap. revert d. induction fuel as [|fuel IH]; intros d Hu Hd; [done|]. cbn [decryptor_loop].
  pose proof (unread_step d cap Hcap Hu) as S. pose proof (decryptor_step_spec d cap out e Hcap Hd) as S'.
  destruct (decryptor_step d cap) as [d'|d' p].
  - destruct S as [Hu' <-], S' as [Hd' _]. by apply IH.
  - destruct p as [|[[|b bs]|x]]; [done|done| |done]. by rewrite S.
Qed.

Lemma unread_until_ready fuel d out e :
  unread d -> decryptor_reads d out e ->
  match poll_until_ready fuel d 1 with
  | Some (d', Ok (_ :: _)) =>
      decryptor_reads (set_cursor d' 0 (fd_skip_bytes d') (fd_remaining d)) out e
  | _ => True
  end.
Proof.
  revert d. induction fuel as [|fuel IH]; intros d Hu Hd; [done|]. cbn [poll_until_ready].
  unfold decryptor_poll.
  destruct (decryptor_loop_spec (S (turns_left d)) d 1 out e) as (d' & p & Hl & HP); [lia|done|lia|].
  pose proof (unread_loop (S (turns_left d)) d 1 out e ltac:(lia) Hu Hd) as HU. rewrite Hl in HU |- *. cbn.
  destruct p as [|[[|b bs]|x]]; [|done..].
  destruct HU as [Hu' <-], HP as [Hd' _]. by apply IH.
Qed.

(** Preflight on a decryptor of a whole object. *)
Lemma preflight_spec d out e :
  unread d -> decryptor_reads d out e -> fd_plaintext_size d <> 0 -> fd_remaining d <> 0 ->
  exists d' r, preflight (S (patience (fd_inner d))) d = Some (d', r) /\
    match out, e with
    | [], Eof => r = Err truncated_object
    | [], Fail x => r = Err x
    | _ :: _, _ => r = Ok tt /\ decryptor_reads d' out e
    end.
Proof.
  intros Hu Hd Hs Hr. unfold preflight.
  rewrite (proj2 (Nat.eqb_neq _ _) Hs), (proj2 (Nat.eqb_neq _ _) Hr). cbn [orb].
  destruct (poll_until_ready_spec d out e Hd) as (d' & r & E & HR).
  pose proof (unread_until_ready (S (patience (fd_inner d))) d out e Hu Hd) as HU.
  rewrite E in HU |- *. destruct r as [[|b bs]|x].
  - destruct HR as (_ & _ & He). destruct (He eq_refl) as [-> ->]. by eexists _, _.
  - destruct HR as (_ & (out' & -> & _) & _). eexists _, _. split; [done|].
    cbn. destruct Hu as [-> _]. by split.
  - destruct HR as [-> ->]. by eexists _, _.
Qed.
End decryptor_spec.

(** ** The encryption loop writes the frames of the body *)

Section writer_spec.
Context `{Aead} (frame_size : nat) (cipher prefix : bytes) (aad : nat -> bytes).
Hypothesis frame_size_pos : 0 < frame_size.
Implicit Types w : frame_writer.

Lemma write_encrypted_frame_eq writer i p a :
  write_encrypted_frame writer cipher prefix i p a =
  (f ← encrypt_frame_to_vec cipher prefix i p a; Ok (writer ++ f)).
Proof.
  unfold write_encrypted_frame, encrypt_frame_to_vec.
  destruct (make_frame_nonce prefix i) as [n|]; cbn; [|done].
  destruct (seal cipher n p a) as [c|]; cbn; [|done]. by rewrite app_assoc.
Qed.

(** What the writer will have produced once [tail] has come and the partial
    frame is flushed. *)
Definition written_with w (tail : bytes) : result StorageError bytes :=
  rest ← encrypt_chunks cipher prefix aad (fw_chunk_index w)
           (chunks frame_size (fw_frame_buf w ++ tail));
  Ok (fw_written w ++ rest).

Lemma write_full_frames_spec fuel w :
  length (fw_frame_buf w) <= fuel ->
  match write_full_frames frame_size cipher prefix aad fuel w with
  | Ok w' => length (fw_frame_buf w') < frame_size /\
             forall tail, written_with w' tail = written_with w tail
  | Err x => forall tail, written_with w tail = Err x
  end.
Proof.
  revert w. induction fuel as [|fuel IH]; intros w Hf; cbn [write_full_frames].
  { split; [lia|done]. }
  destruct (Nat.leb_spec frame_size (length (fw_frame_buf w))) as [Hle|Hlt]; [|done].
  assert (Hw : forall tail, written_with w tail =
    (f ← encrypt_frame_to_vec cipher prefix (fw_chunk_index w)
           (take frame_size (fw_frame_buf w)) (aad (fw_chunk_index w));
     written_with (mk_frame_writer (drop frame_size (fw_frame_buf w)) (S (fw_chunk_index w))
                     (fw_written w ++ f)) tail)).
  { intros tail. unfold written_with. cbn [fw_frame_buf fw_chunk_index fw_written].
    rewrite <-(take_drop frame_size (fw_frame_buf w)) at 1. rewrite <-app_assoc.
    rewrite chunks_app by (try rewrite length_take; lia). cbn [encrypt_chunks].
    destruct (encrypt_frame_to_vec _ _ _ _ _) as [f|]; cbn; [|done].
    destruct (encrypt_chunks _ _ _ _ _) as [r|]; cbn; [|done]. by rewrite app_assoc. }
  rewrite write_encrypted_frame_eq.
  destruct (encrypt_frame_to_vec _ _ _ _ _) as [f|]; cbn [mbind result_bind] in *; [|done].
  specialize (IH (mk_frame_writer (drop frame_size (fw_frame_buf w)) (S (fw_chunk_index w)) (fw_written w ++ f))).
  destruct (write_full_frames _ _ _ _ _ _) as [w'|x].
  - destruct IH as [Hl IH]; [cbn; rewrite length_drop; lia|]. split; [done|].
    intros tail. by rewrite IH, Hw.
  - intros tail. rewrite Hw. apply IH. cbn. rewrite length_drop. lia.
Qed.

Lemma push_plaintext_spec w piece :
  match push_plaintext frame_size cipher prefix aad w piece with
  | Ok w' => length (fw_frame_buf w') < frame_size /\
             forall tail, written_with w' tail = written_with w (piece ++ tail)
  | Err x => forall tail, written_with w (piece ++ tail) = Err x
  end.
Proof.
  assert (E : forall tail, written_with w (piece ++ tail) = written_with
      (mk_frame_writer (fw_frame_buf w ++ piece) (fw_chunk_index w) (fw_written w)) tail).
  { intros tail. unfold written_with. cbn [fw_frame_buf fw_chunk_index fw_written].
    by rewrite <-app_assoc. }
  unfold push_plaintext. pose proof (write_full_frames_spec (length (fw_frame_buf w ++ piece))
    (mk_frame_writer (fw_frame_buf w ++ piece) (fw_chunk_index w) (fw_written w)) ltac:(done)) as S.
  destruct (write_full_frames _ _ _ _ _ _) as [w'|x].
  - destruct S as [Hl S]. split; [done|]. intros tail. by rewrite S, E.
  - intros tail. by rewrite E, S.
Qed.

Lemma flush_partial_frame_eq w :
  length (fw_frame_buf w) < frame_size ->
  flush_partial_frame cipher prefix aad w = written_with w [].
Proof.
  intros Hlt. unfold flush_partial_frame, written_with. rewrite app_nil_r.
  destruct (fw_frame_buf w) as [|b buf] eqn:E.
  { cbn. by rewrite app_nil_r. }
  rewrite write_encrypted_frame_eq, chunks_small by (done || lia). cbn [encrypt_chunks].
  destruct (encrypt_frame_to_vec _ _ _ _ _) as [f|]; cbn; [|done]. by rewrite app_nil_r.
Qed.

(** However the body is cut into pieces, the frames are those of the body. *)
Lemma encryption_loop_spec pieces :
  (w ← fold_result (push_plaintext frame_size cipher prefix aad) (mk_frame_writer [] 0 []) pieces;
   flush_partial_frame cipher prefix aad w)
  = encrypt_chunks cipher prefix aad 0 (chunks frame_size (concat pieces)).
Proof.
  assert (G : forall w, length (fw_frame_buf w) < frame_size ->
    (w ← fold_result (push_plaintext frame_size cipher prefix aad) w pieces;
     flush_partial_frame cipher prefix aad w) = written_with w (concat pieces)).
  { induction pieces as [|p pieces IH]; intros w Hw; cbn [fold_result concat].
    - by apply flush_partial_frame_eq.
    - pose proof (push_plaintext_spec w p) as S.
      destruct (push_plaintext _ _ _ _ _ _) as [w'|x]; cbn [mbind result_bind].
      + destruct S as [Hw' <-]. by apply IH.
      + by rewrite S. }
  rewrite G by done. unfold written_with. cbn [fw_frame_buf fw_chunk_index fw_written app].
  by destruct (encrypt_chunks _ _ _ _ _).
Qed.
End writer_spec.

(** ** Decryption undoes encryption *)

Section roundtrip.
Context `{AeadSpec} (cipher prefix : bytes) (aad : nat -> bytes).

(** The prefix has one of the two lengths and the index fits the nonce. *)
Definition nonce_format (i : nat) : Prop :=
  (length prefix = 4 /\ (Z.of_nat i < 2 ^ 64)%Z) \/ (length prefix = 8 /\ (Z.of_nat i <= u32_max)%Z).

Lemma sealed_frame i p f :
  nonce_format i -> encrypt_frame_to_vec cipher prefix i p (aad i) = Ok f ->
  length f = length p + 28 /\ open_frame cipher aad i f = Ok p.
Proof.
  intros Hi Hf. unfold encrypt_frame_to_vec in Hf.
  apply result_bind_ok in Hf as (n & Hn & Hf). apply result_bind_ok in Hf as (c & Hc & [= <-]).
  apply ok_or_ok in Hc. pose proof (make_frame_nonce_length _ _ _ Hn) as Ln.
  pose proof (seal_length _ _ _ _ _ Hc) as Lc. split; [rewrite length_app; lia|].
  unfold open_frame. rewrite (proj2 (Nat.ltb_ge _ _)) by (rewrite length_app; lia).
  rewrite take_app_length', drop_app_length' by done.
  apply open_seal in Hc. rewrite Hc.
  assert (Hidx : (from_le_bytes (drop 4 n) =? Z.of_nat i)%Z = true \/
                 (from_le_bytes (drop 8 n) =? Z.of_nat i)%Z = true).
  { rewrite !Z.eqb_eq. destruct (make_frame_nonce_ok _ _ _ Hn) as [[L ->]|(L & Hu & ->)].
    - left. rewrite drop_app_length' by done. apply from_to_le_bytes_small.
      unfold nonce_format in Hi. change (256 ^ Z.of_nat 8)%Z with (2 ^ 64)%Z. unfold u32_max in Hi. lia.
    - right. rewrite drop_app_length' by done. apply from_to_le_bytes_small.
      unfold u32_max in Hu. change (256 ^ Z.of_nat 4)%Z with (2 ^ 32)%Z. lia. }
  by destruct Hidx as [-> | ->]; rewrite ?andb_false_r.
Qed.

Lemma encrypt_frame_total i p :
  nonce_format i -> (Z.of_nat (length p) <= 2 ^ 36)%Z -> (Z.of_nat (length (aad i)) <= 2 ^ 36)%Z ->
  exists f, encrypt_frame_to_vec cipher prefix i p (aad i) = Ok f.
Proof.
  intros Hi Hp Ha. unfold encrypt_frame_to_vec.
  assert (exists n, make_frame_nonce prefix i = Ok n) as [n Hn].
  { unfold make_frame_nonce. destruct Hi as [[-> _]|[-> Hi]]; [by eexists|].
    rewrite (proj2 (Z.ltb_ge _ _)) by done. by eexists. }
  rewrite Hn. cbn. destruct (seal_total cipher n p (aad i)) as [c Hc]; [|done..|].
  { by eapply make_frame_nonce_length. }
  rewrite Hc. by eexists.
Qed.

Lemma nonce_format_le i j : i <= j -> nonce_format j -> nonce_format i.
Proof. unfold nonce_format. lia. Qed.

(** The first frame and the rest. *)
Lemma encrypt_chunks_step cs i data ct :
  0 < cs -> data <> [] -> nonce_format i ->
  encrypt_chunks cipher prefix aad i (chunks cs data) = Ok ct ->
  exists f rest, ct = f ++ rest /\ length f = length (take cs data) + 28 /\
    open_frame cipher aad i f = Ok (take cs data) /\
    encrypt_frame_to_vec cipher prefix i (take cs data) (aad i) = Ok f /\
    encrypt_chunks cipher prefix aad (S i) (chunks cs (drop cs data)) = Ok rest.
Proof.
  intros Hc Hd Hi Hct. rewrite chunks_step in Hct by done. cbn [encrypt_chunks] in Hct.
  apply result_bind_ok in Hct as (f & Hf & Hct). apply result_bind_ok in Hct as (rest & Hr & [= <-]).
  destruct (sealed_frame _ _ _ Hi Hf) as [Hl Ho]. by exists f, rest.
Qed.

Lemma encrypt_chunks_total cs i data :
  0 < cs -> (Z.of_nat cs <= 2 ^ 36)%Z -> (forall j, (Z.of_nat (length (aad j)) <= 2 ^ 36)%Z) ->
  nonce_format (i + frame_count (length data) cs) ->
  exists ct, encrypt_chunks cipher prefix aad i (chunks cs data) = Ok ct.
Proof.
  intros Hc Hc' Ha. remember (length data) as m eqn:Hm. revert i data Hm.
  induction m as [m IH] using lt_wf_ind. intros i data -> Hn.
  destruct (decide (data = [])) as [->|Hd]; [by eexists|].
  rewrite chunks_step by done. cbn [encrypt_chunks].
  assert (L : 0 < length data) by (destruct data; [done|cbn; lia]).
  assert (Hcount : S (frame_count (length (drop cs data)) cs) <= frame_count (length data) cs).
  { destruct (frame_count (length data) cs) as [|n] eqn:En.
    - pose proof (frame_count_le (length data) cs 0 Hc). lia.
    - apply le_n_S. apply frame_count_le; [done|]. rewrite length_drop.
      pose proof (frame_count_le (length data) cs (S n) Hc). lia. }
  destruct (encrypt_frame_total i (take cs data)) as [f ->].
  { eapply nonce_format_le; [|exact Hn]. lia. }
  { rewrite length_take. lia. }
  { done. }
  destruct (IH (length (drop cs data))) with (i := S i) (data := drop cs data) as [rest ->].
  { rewrite length_drop. lia. }
  { done. }
  { eapply nonce_format_le; [|exact Hn]. lia. }
  by eexists.
Qed.

(** The ciphertext of the first [k] full chunks, and of the rest. *)
Lemma encrypt_chunks_split cs k i data ct :
  0 < cs -> k * cs <= length data -> nonce_format (i + k) ->
  encrypt_chunks cipher prefix aad i (chunks cs data) = Ok ct ->
  encrypt_chunks cipher prefix aad i (chunks cs (take (k * cs) data)) = Ok (take (k * (cs + 28)) ct) /\
  encrypt_chunks cipher prefix aad (i + k) (chunks cs (drop (k * cs) data)) = Ok (drop (k * (cs + 28)) ct).
Proof.
  intros Hc. revert i data ct. induction k as [|k IH]; intros i data ct Hk Hn Hct.
  { rewrite Nat.add_0_r. by split. }
  assert (Hd : data <> []) by (intros ->; cbn in Hk; lia).
  destruct (encrypt_chunks_step cs i data ct Hc Hd) as (f & rest & -> & Hl & _ & Hf & Hr); [|done|].
  { eapply nonce_format_le; [|exact Hn]. lia. }
  assert (Htake : length (take cs data) = cs) by (rewrite length_take; cbn in Hk; lia).
  assert (E : S k * (cs + 28) = length f + k * (cs + 28)) by lia.
  destruct (IH (S i) (drop cs data) rest) as [IH1 IH2]; [| |done|].
  { rewrite length_drop. cbn in Hk. lia. }
  { eapply nonce_format_le; [|exact Hn]. lia. }
  rewrite E, take_app_add, drop_app_add. split.
  - replace (take (S k * cs) data) with (take cs data ++ take (k * cs) (drop cs data)).
    + rewrite chunks_app by done. cbn [encrypt_chunks]. by rewrite Hf, IH1.
    + by rewrite take_take_drop.
  - rewrite drop_drop in IH2. by rewrite Nat.add_succ_r.
Qed.

Lemma encrypt_chunks_length i l ct :
  (forall j, j < length l -> nonce_format (i + j)) ->
  encrypt_chunks cipher prefix aad i l = Ok ct -> length ct = length (concat l) + 28 * length l.
Proof.
  revert i ct. induction l as [|p l IH]; intros i ct Hn Hct; [by injection Hct as <-|].
  cbn [encrypt_chunks] in Hct. apply result_bind_ok in Hct as (f & Hf & Hct).
  apply result_bind_ok in Hct as (rest & Hr & [= <-]).
  destruct (sealed_frame i p f) as [Hl _]; [rewrite <-(Nat.add_0_r i); apply Hn; cbn; lia|done|].
  rewrite (length_app f), (IH _ _) with (2 := Hr).
  - cbn. rewrite length_app. lia.
  - intros j Hj. rewrite Nat.add_succ_comm. apply Hn. cbn. lia.
Qed.

(** Decryption of the frames of [data], with any skip and budget.  The frames
    may be all those of the object, or only whole ones from its beginning. *)
Lemma dec_encrypted_prefix cs size i data ct skip rem :
  0 < cs -> data = [] \/ i * cs + length data = size \/ (i * cs + length data <= size /\ exists m, length data = m * cs) ->
  nonce_format (frame_count size cs) ->
  encrypt_chunks cipher prefix aad i (chunks cs data) = Ok ct ->
  dec_frames cipher aad size cs (frame_count size cs - i) i skip rem ct Eof =
    (take rem (drop skip data), Eof).
Proof.
  intros Hc Hs Hn. remember (length data) as l eqn:Hl0. revert i data ct skip rem Hl0 Hs.
  induction l as [l IH] using lt_wf_ind. intros i data ct skip rem -> Hs Hct.
  pose proof (frame_count_le size cs i Hc) as Hi.
  destruct (decide (data = [])) as [->|Hd].
  { injection Hct as <-. rewrite drop_nil, take_nil.
    destruct (frame_count size cs - i) as [|n] eqn:En; [done|]. cbn [dec_frames length].
    destruct (rem =? 0); [done|]. destruct (Nat.ltb_spec 0 (frame_target_for size cs i)) as [|Ht]; [done|].
    apply Nat.le_0_r, frame_target_zero in Ht. lia. }
  assert (L : 0 < length data) by (destruct data; [done|cbn; lia]).
  destruct Hs as [|Hs]; [done|].
  destruct (encrypt_chunks_step cs i data ct Hc Hd) as (f & rest & -> & Hl & Ho & _ & Hr); [|done|].
  { eapply nonce_format_le; [|exact Hn]. lia. }
  replace (frame_count size cs - i) with (S (frame_count size cs - S i)) by lia. cbn [dec_frames].
  destruct (Nat.eqb_spec rem 0) as [->|Hrem]; [done|].
  assert (Hfull : (exists m, length data = m * cs) -> cs <= length data) by (intros [[|m] Hm]; lia).
  assert (Ht : frame_target_for size cs i = length f).
  { unfold frame_target_for. rewrite (proj2 (Nat.leb_gt _ _)) by lia. rewrite Hl, length_take.
    destruct Hs as [Hs|[Hs Hm]]; [lia|]. specialize (Hfull Hm). lia. }
  rewrite Ht, (proj2 (Nat.ltb_ge _ _)) by (rewrite length_app; lia).
  rewrite take_app_length, drop_app_length, Ho.
  rewrite (IH (length (drop cs data))) with (data := drop cs data); [|rewrite length_drop; lia|done| |done].
  - cbn [fst snd]. by rewrite <-slice_app, take_drop.
  - destruct (decide (length data <= cs)) as [Hle|Hgt]; [left; by apply drop_ge|right].
    rewrite length_drop. destruct Hs as [Hs|[Hs [m Hm]]]; [lia|right].
    split; [lia|]. exists (m - 1). rewrite Hm, Nat.mul_sub_distr_r. lia.
Qed.

Lemma dec_encrypted cs size i data ct skip rem :
  0 < cs -> size = i * cs + length data -> nonce_format (frame_count size cs) ->
  encrypt_chunks cipher prefix aad i (chunks cs data) = Ok ct ->
  dec_frames cipher aad size cs (frame_count size cs - i) i skip rem ct Eof =
    (take rem (drop skip data), Eof).
Proof. intros. apply dec_encrypted_prefix; auto. Qed.

(** A decryption that delivers everything it was asked for has consumed
    frames sealed under the key, each for its own index. *)
Lemma dec_frames_authentic cs size n idx c e out :
  0 < cs -> n = frame_count size cs - idx ->
  dec_frames cipher aad size cs n idx 0 (size - idx * cs) c e = (out, Eof) ->
  length out = size - idx * cs ->
  exists frames rest,
    length frames = n /\
    c = concat (map (fun f => f.1.1 ++ f.1.2) frames) ++ rest /\
    out = concat (map snd frames) /\
    (forall i nonce ct pt, frames !! i = Some (nonce, ct, pt) ->
       length nonce = 12 /\
       (from_le_bytes (drop 4 nonce) = Z.of_nat (idx + i) \/
        from_le_bytes (drop 8 nonce) = Z.of_nat (idx + i)) /\
       seal cipher nonce pt (aad (idx + i)) = Some ct).
Proof.
  intros Hc. revert idx c out. induction n as [|n IH]; intros idx c out Hn Hd Hlen.
  { injection Hd as <-. exists [], c. by split_and!. }
  pose proof (frame_count_le size cs idx Hc) as Hi. cbn [dec_frames] in Hd.
  destruct (Nat.eqb_spec (size - idx * cs) 0) as [|Hrem]; [lia|].
  destruct (Nat.ltb_spec (length c) (frame_target_for size cs idx)) as [Hlt|Hge].
  { destruct e, c; simplify_eq; cbn in Hlen; lia. }
  destruct (open_frame _ _ _ _) as [pt|] eqn:Ho; [|done]. injection Hd as <- Hend.
  unfold open_frame in Ho. set (f := take (frame_target_for size cs idx) c) in *.
  assert (Lf : length f = frame_target_for size cs idx) by (subst f; rewrite length_take; lia).
  assert (Ht : frame_target_for size cs idx = 28 + (size - idx * cs) `min` cs).
  { unfold frame_target_for. rewrite (proj2 (Nat.leb_gt _ _)) by lia. lia. }
  destruct (Nat.ltb_spec (length f) 12); [lia|].
  destruct (negb _ && negb _) eqn:Eidx; [done|]. apply ok_or_ok, open_seal in Ho.
  pose proof (seal_length _ _ _ _ _ Ho) as Lpt. rewrite length_drop in Lpt.
  assert (Hserved : take (size - idx * cs) (drop 0 pt) = pt) by (rewrite drop_0, take_ge; [done|lia]).
  rewrite Hserved in *. rewrite length_app in Hlen.
  replace (0 - length pt) with 0 in * by lia.
  assert (Hrest : size - idx * cs - length pt = size - S idx * cs) by lia.
  rewrite Hrest in *.
  destruct (IH (S idx) (drop (frame_target_for size cs idx) c)
    (fst (dec_frames cipher aad size cs n (S idx) 0 (size - S idx * cs)
            (drop (frame_target_for size cs idx) c) e))) as (frames & rest & Hl & Hcat & Hout & Hfr).
  { lia. }
  { rewrite <-Hend at 1. apply surjective_pairing. }
  { lia. }
  exists ((take 12 f, drop 12 f, pt) :: frames), rest. split_and!.
  - cbn. lia.
  - cbn. rewrite take_drop, <-app_assoc, <-Hcat. subst f. by rewrite take_drop.
  - cbn. by rewrite Hout at 1.
  - intros [|i] nonce ct pt' Hlk; cbn in Hlk.
    + injection Hlk as <- <- <-. rewrite Nat.add_0_r, length_take. split_and!; [lia| |done].
      apply andb_false_iff in Eidx as [E|E]; apply negb_false_iff, Z.eqb_eq in E; auto.
    + rewrite <-Nat.add_succ_comm. by eapply Hfr.
Qed.
End roundtrip.

(** [put_object]'s encryption: the loop over the body, then the last frame. *)
Definition encrypt_body `{Aead} {R} `{AsyncRead R} (frame_size cap : nat) (cipher prefix : bytes)
    (aad : nat -> bytes) (fuel : nat) (body : R) : option (result StorageError bytes) :=
  match pump cap map_read_quota_error (push_plaintext frame_size cipher prefix aad) fuel (mk_frame_writer [] 0 []) body with
  | Some (Ok w) => Some (flush_partial_frame cipher prefix aad w)
  | Some (Err e) => Some (Err e)
  | None => None
  end.

Section theorems.
Context `{AeadSpec} {R : Type} `{!AsyncRead R} `{!ReaderSpec R} {B : Type} `{!AsyncRead B} `{!ReaderSpec B}.

Lemma encrypt_body_ok fs cap k prefix aad body data ct fuel :
  0 < fs -> 0 < cap -> reads body data Eof ->
  encrypt_chunks k prefix aad 0 (chunks fs data) = Ok ct ->
  length data + patience body < fuel ->
  encrypt_body fs cap k prefix aad fuel body = Some (Ok ct).
Proof.
  intros Hf Hc Hb Hct Hfuel. unfold encrypt_body.
  destruct (pump_reads cap map_read_quota_error (push_plaintext fs k prefix aad) fuel (mk_frame_writer [] 0 []) body data Eof)
    as (pieces & <- & ->); [done..|].
  rewrite <-encryption_loop_spec in Hct by done.
  by destruct (fold_result _ _ _); cbn in *; rewrite ?Hct.
Qed.

(** Decrypting what was encrypted, for a slice or the whole object. *)
Lemma decrypt_reads fs k prefix aad data ct :
  0 < fs -> nonce_format prefix (frame_count (length data) fs) ->
  encrypt_chunks k prefix aad 0 (chunks fs data) = Ok ct ->
  (forall (inner : R) offset len, offset <= length data ->
     reads inner (drop (ciphertext_offset fs offset) ct) Eof ->
     reads (for_range inner k (length data) fs offset len aad) (take len (drop offset data)) Eof) /\
  (forall inner : R, reads inner ct Eof ->
     reads (decryptor_new inner k (length data) fs aad) data Eof).
Proof.
  intros Hfs Hn Hct. split.
  - intros inner off len Hoff Hin.
    pose proof (Nat.div_mod_eq off fs) as Hdm. pose proof (Nat.mod_upper_bound off fs) as Hmod.
    set (start := off / fs) in *.
    assert (Hstart : start * fs <= length data) by lia.
    assert (Hfc : start <= frame_count (length data) fs).
    { destruct start as [|s]; [lia|]. pose proof (frame_count_le (length data) fs s Hfs). nia. }
    destruct (encrypt_chunks_split k prefix aad fs start 0 data ct) as [_ Hd]; [done|done| |done|].
    { by eapply nonce_format_le. }
    assert (D : dec_frames k aad (length data) fs (frame_count (length data) fs - start) start (off mod fs) len
                  (drop (ciphertext_offset fs off) ct) Eof = (take len (drop off data), Eof)).
    { change (ciphertext_offset fs off) with (start * (fs + 28)). cbn [Nat.add] in Hd.
      rewrite (dec_encrypted k prefix aad fs (length data) start (drop (start * fs) data)); try done.
      - rewrite drop_drop. do 3 f_equal. lia.
      - rewrite length_drop. lia. }
    pose proof (for_range_internal_reads inner k (length data) fs start len (off mod fs) aad _ _ Hfs Hin) as Hr.
    cbn zeta in Hr. by rewrite D in Hr.
  - intros inner Hin.
    pose proof (for_range_internal_reads inner k (length data) fs 0 (length data) 0 aad _ _ Hfs Hin) as Hr.
    cbn zeta in Hr. rewrite Nat.sub_0_r in Hr.
    pose proof (dec_encrypted k prefix aad fs (length data) 0 data ct 0 (length data)) as D.
    rewrite Nat.sub_0_r in D. rewrite D in Hr by done. cbn [fst snd] in Hr.
    by rewrite drop_0, take_ge in Hr.
Qed.

(** C24: encrypt then decrypt, on any slice.  Whatever the pieces in which the
    body arrives, the encryption loop succeeds, and a decryptor placed at
    [ciphertext_offset] of the frames it wrote reads exactly the requested
    slice of the body, with any buffers and however the ciphertext arrives;
    the whole-object decryptor reads the whole body. *)
Theorem frame_roundtrip fs cap k prefix aad (body : B) data :
  0 < fs -> (Z.of_nat fs <= 2 ^ 36)%Z -> 0 < cap -> reads body data Eof ->
  (forall i, (Z.of_nat (length (aad i)) <= 2 ^ 36)%Z) ->
  nonce_format prefix (frame_count (length data) fs) ->
  exists ct, encrypt_body fs cap k prefix aad (S (length data + patience body)) body = Some (Ok ct) /\
    (forall (inner : R) offset len, offset <= length data ->
       reads inner (drop (ciphertext_offset fs offset) ct) Eof ->
       reads (for_range inner k (length data) fs offset len aad) (take len (drop offset data)) Eof) /\
    (forall inner : R, reads inner ct Eof ->
       reads (decryptor_new inner k (length data) fs aad) data Eof).
Proof.
  intros Hfs Hfs' Hcap Hb Ha Hn.
  destruct (encrypt_chunks_total k prefix aad fs 0 data) as [ct Hct]; [done..|].
  exists ct. split; [by apply encrypt_body_ok with data; [..|lia]|].
  by eapply decrypt_reads.
Qed.

(** C26: whatever the ciphertext, reading through the decryptor to the end
    returns exactly what the frame-by-frame reference says, for every choice
    of buffer sizes, so every poll terminates. *)
Theorem decryptor_refines_reference (inner : R) k size fs offset len aad c e cap :
  0 < fs -> (forall i, 0 < cap i) -> reads inner c e ->
  let r := dec_frames k aad size fs (frame_count size fs - offset / fs) (offset / fs)
             (offset mod fs) len c e in
  drain (S (length (fst r) + patience inner)) cap 0 (for_range inner k size fs offset len aad) = Some r.
Proof.
  intros Hf Hc Hr. cbn zeta.
  pose proof (for_range_internal_reads inner k size fs (offset / fs) len (offset mod fs) aad c e Hf Hr) as Hd.
  cbn zeta in Hd. rewrite (drain_reads_fuel cap _ 0 _ _ _ Hc Hd); [by destruct (dec_frames _ _ _ _ _ _ _ _ _ _)|].
  cbn. lia.
Qed.

(** C25: a whole-object read that delivers all the plaintext bytes is
    authentic: the ciphertext starts with one frame per chunk, in order, each
    sealed under the object's key with the associated data of its own
    position, and the bytes delivered are those sealed. *)
Theorem complete_read_is_authentic (inner : R) k size fs aad c e cap fuel out :
  0 < fs -> (forall i, 0 < cap i) -> reads inner c e ->
  drain fuel cap 0 (decryptor_new inner k size fs aad) = Some (out, Eof) ->
  length out = size ->
  exists frames rest,
    length frames = frame_count size fs /\
    c = concat (map (fun f => f.1.1 ++ f.1.2) frames) ++ rest /\
    out = concat (map snd frames) /\
    (forall i nonce ct pt, frames !! i = Some (nonce, ct, pt) ->
       length nonce = 12 /\
       (from_le_bytes (drop 4 nonce) = Z.of_nat i \/ from_le_bytes (drop 8 nonce) = Z.of_nat i) /\
       seal k nonce pt (aad i) = Some ct).
Proof.
  intros Hf Hc Hr Hd Hl.
  pose proof (for_range_internal_reads inner k size fs 0 size 0 aad c e Hf Hr) as Hd'. cbn zeta in Hd'.
  apply (drain_reads_unique cap fuel 0 _ _ _ _ Hc Hd') in Hd. rewrite Nat.sub_0_r in Hd.
  apply (dec_frames_authentic k aad fs size (frame_count size fs) 0 c e); [done|lia| |cbn; lia].
  rewrite Nat.sub_0_r. rewrite Hd. apply surjective_pairing.
Qed.

(** The decryptor accepts a ciphertext cut at a frame boundary: it reads
    the plaintext of the frames that are left and then reports the end of the
    stream, not an error. *)
Theorem truncation_at_frame_boundary_is_silent (inner : R) fs k prefix aad data ct kept :
  0 < fs -> kept * fs <= length data -> nonce_format prefix (frame_count (length data) fs) ->
  encrypt_chunks k prefix aad 0 (chunks fs data) = Ok ct ->
  reads inner (take (kept * (fs + 28)) ct) Eof ->
  reads (decryptor_new inner k (length data) fs aad) (take (kept * fs) data) Eof.
Proof.
  intros Hf Hk Hn Hct Hr.
  destruct (encrypt_chunks_split k prefix aad fs kept 0 data ct) as [Ht _]; [done|done| |done|].
  { eapply nonce_format_le; [|exact Hn]. destruct kept as [|s]; [lia|].
    pose proof (frame_count_le (length data) fs s Hf). nia. }
  pose proof (for_range_internal_reads inner k (length data) fs 0 (length data) 0 aad _ _ Hf Hr) as Hd.
  cbn zeta in Hd.
  rewrite (dec_encrypted_prefix k prefix aad fs (length data) 0 (take (kept * fs) data)) in Hd; try done.
  - cbn [fst snd] in Hd. rewrite drop_0, take_ge in Hd; [done|]. rewrite length_take. lia.
  - right. right. rewrite length_take. split; [lia|]. exists kept. lia.
Qed.

(** [preflight] before a whole-object read either reports the error the
    read would have met at its first byte, or leaves the stream as it was. *)
Theorem preflight_keeps_the_stream (inner : R) k size fs aad c ce :
  0 < fs -> 0 < size -> reads inner c ce ->
  let r := dec_frames k aad size fs (frame_count size fs) 0 0 size c ce in
  exists d' res,
    preflight (S (patience inner)) (decryptor_new inner k size fs aad) = Some (d', res) /\
    match r with
    | ([], Eof) => res = Err truncated_object
    | ([], Fail x) => res = Err x
    | (out, e) => res = Ok tt /\ reads d' out e
    end.
Proof.
  intros Hf Hs Hr. cbn zeta.
  pose proof (for_range_internal_reads inner k size fs 0 size 0 aad c ce Hf Hr) as Hd. cbn zeta in Hd.
  rewrite Nat.sub_0_r in Hd. destruct (dec_frames _ _ _ _ _ _ _ _ _ _) as [out e].
  destruct (preflight_spec (decryptor_new inner k size fs aad) out e) as (d' & res & E & P);
    [done|done|cbn; lia|cbn; lia|].
  exists d', res. split; [done|]. by destruct out.
Qed.
End theorems.

(** Within one object no two frames share a nonce: distinct frame indices
    give distinct nonces under the same prefix, and an index that does not fit
    the 8-byte-prefix format is refused instead of wrapping. *)
Theorem frame_nonces_distinct prefix i j n :
  (Z.of_nat i < 2 ^ 64)%Z -> (Z.of_nat j < 2 ^ 64)%Z -> make_frame_nonce prefix i = Ok n ->
  (make_frame_nonce prefix j = Ok n -> i = j) /\
  (length prefix = 8 -> (u32_max < Z.of_nat j)%Z -> is_err (make_frame_nonce prefix j) = true).
Proof.
  intros Hi Hj Hn. split; [revert Hn|].
  2:{ intros L Hj'. unfold make_frame_nonce. by rewrite L, (proj2 (Z.ltb_lt _ _) Hj'). }
  intros [[L ->]|(L & Hi' & ->)]%make_frame_nonce_ok [[L' E]|(L' & Hj' & E)]%make_frame_nonce_ok;
    try lia; apply app_inv_head, to_le_bytes_inj in E; unfold u32_max in *;
    rewrite ?Z.pow_mul_r in *; cbn in *; lia.
Qed.

Lemma as_bytes_app s t : as_bytes (s +:+ t) = as_bytes s ++ as_bytes t.
Proof. induction s as [|c s IH]; [done|]. rewrite str_app_cons. cbn. by f_equal. Qed.

Global Instance as_bytes_inj : Inj (=) (=) as_bytes.
Proof.
  intros s t E. apply (f_equal String.string_of_list_byte) in E.
  by rewrite !String.string_of_list_byte_of_string in E.
Qed.

(** A field ends at the first NUL. *)
Lemma nul_terminated_inj (l1 l2 r1 r2 : bytes) :
  (x00 ∉ l1) -> (x00 ∉ l2) -> l1 ++ x00 :: r1 = l2 ++ x00 :: r2 -> l1 = l2 /\ r1 = r2.
Proof.
  revert l2. induction l1 as [|a l1 IH]; intros [|b l2]; cbn.
  - by intros _ _ [= ->].
  - intros _ N [= <- _]. by destruct N; left.
  - intros N _ [= -> _]. by destruct N; left.
  - intros [_ N1]%not_elem_of_cons [_ N2]%not_elem_of_cons [= <- E].
    by destruct (IH l2) as [-> ->].
Qed.

Definition no_nul (s : string) : Prop := x00 ∉ as_bytes s.

(** The associated data binds a frame to its object: two frames with the
    same associated data belong to the same bucket, key, version and index,
    unless SHA-256 has been made to collide. *)
Theorem frame_aad_binds sha256 b k v i b' k' v' i' :
  no_nul b -> no_nul b' -> no_nul k -> no_nul k' ->
  no_nul (default "" v) -> no_nul (default "" v') ->
  (Z.of_nat i < 2 ^ 64)%Z -> (Z.of_nat i' < 2 ^ 64)%Z ->
  build_frame_aad sha256 b k v i = build_frame_aad sha256 b' k' v' i' ->
  (b = b' /\ k = k' /\ default "" v = default "" v' /\ i = i') \/
  (exists x y, x <> y /\ sha256 x = sha256 y).
Proof.
  intros Nb Nb' Nk Nk' Nv Nv' Hi Hi' E. unfold build_frame_aad in E.
  destruct (decide (frame_aad_input b k v i = frame_aad_input b' k' v' i')) as [Eq|Ne]; [left|by eauto].
  unfold frame_aad_input in Eq. cbn [app] in Eq.
  apply nul_terminated_inj in Eq as [->%(inj as_bytes) Eq]; [|done..].
  apply nul_terminated_inj in Eq as [->%(inj as_bytes) Eq]; [|done..].
  apply nul_terminated_inj in Eq as [->%(inj as_bytes) Eq]; [|done..].
  split_and!; [done..|]. apply to_le_bytes_inj in Eq; [lia| |];
    change (256 ^ Z.of_nat 8)%Z with (2 ^ 64)%Z; lia.
Qed.

(** ** The theorems at concrete inputs *)

Import Toy.

Module Witness.
Definition key : bytes := [x2a].
Definition prefix : bytes := [x01; x02; x03; x04].
Definition aad (i : nat) : bytes := to_le_bytes 8 (Z.of_nat i).
Definition data : bytes := [x61; x62; x63; x64; x65].
Definition ct : bytes :=
  match encrypt_chunks key prefix aad 0 (chunks 2 data) with Ok c => c | Err _ => [] end.
Definition served (c : bytes) : source := mk_source c Eof [Wait; Give 7; Give 40; Wait].

Lemma format i : (Z.of_nat i < 2 ^ 64)%Z -> nonce_format prefix i.
Proof. by left. Qed.
End Witness.

Lemma frame_roundtrip_witness :
  exists ct,
    encrypt_body 2 4 Witness.key Witness.prefix Witness.aad 8 (Witness.served Witness.data) = Some (Ok ct) /\
    reads (for_range (Witness.served (drop (ciphertext_offset 2 3) ct)) Witness.key 5 2 3 2 Witness.aad)
      [x64; x65] Eof /\
    reads (decryptor_new (Witness.served ct) Witness.key 5 2 Witness.aad) Witness.data Eof.
Proof.
  destruct (frame_roundtrip (R := source) 2 4 Witness.key Witness.prefix Witness.aad
              (Witness.served Witness.data) Witness.data) as (ct & E & Hrange & Hall).
  - lia.
  - lia.
  - lia.
  - by split.
  - intros i. unfold Witness.aad. rewrite length_to_le_bytes. lia.
  - apply Witness.format. vm_compute. reflexivity.
  - exists ct. split; [exact E|]. split.
    + apply (Hrange (Witness.served (drop (ciphertext_offset 2 3) ct)) 3 2); [cbn; lia|by split].
    + apply Hall. by split.
Defined.

Lemma decryptor_refines_reference_witness :
  drain 7 (fun n => S n) 0
    (for_range (Witness.served (drop 30 Witness.ct)) Witness.key 5 2 3 2 Witness.aad)
  = Some ([x64; x65], Eof).
Proof.
  pose proof (decryptor_refines_reference (Witness.served (drop 30 Witness.ct)) Witness.key 5 2 3 2
    Witness.aad (drop 30 Witness.ct) Eof (fun n => S n)) as T.
  vm_compute in T. vm_compute. apply T; [lia|intros; lia|by split].
Defined.

Lemma complete_read_is_authentic_witness :
  exists frames rest, length frames = 3 /\
    Witness.ct = concat (map (fun f : bytes * bytes * bytes => f.1.1 ++ f.1.2) frames) ++ rest /\
    Witness.data = concat (map snd frames).
Proof.
  destruct (complete_read_is_authentic (Witness.served Witness.ct) Witness.key 5 2 Witness.aad
              Witness.ct Eof (fun _ => 3) 10 Witness.data) as (frames & rest & H1 & H2 & H3 & _).
  - lia.
  - intros; lia.
  - by split.
  - vm_compute. reflexivity.
  - reflexivity.
  - exists frames, rest. split; [exact H1|]. split; [exact H2|exact H3].
Defined.

Lemma truncation_at_frame_boundary_is_silent_witness :
  reads (decryptor_new (Witness.served (take 60 Witness.ct)) Witness.key 5 2 Witness.aad)
    [x61; x62; x63; x64] Eof.
Proof.
  apply (truncation_at_frame_boundary_is_silent (Witness.served (take 60 Witness.ct)) 2 Witness.key
           Witness.prefix Witness.aad Witness.data Witness.ct 2).
  - lia.
  - cbn. lia.
  - apply Witness.format. vm_compute. reflexivity.
  - vm_compute. reflexivity.
  - by split.
Defined.

Lemma preflight_keeps_the_stream_witness :
  exists d' res,
    preflight 3 (decryptor_new (Witness.served Witness.ct) Witness.key 5 2 Witness.aad) = Some (d', res) /\
    res = Ok tt /\ reads d' Witness.data Eof.
Proof.
  destruct (preflight_keeps_the_stream (Witness.served Witness.ct) Witness.key 5 2 Witness.aad
              Witness.ct Eof) as (d' & res & E & P); [lia|lia|by split|].
  exists d', res. split; [exact E|]. vm_compute in P. exact P.
Defined.

Lemma frame_nonces_distinct_witness :
  (make_frame_nonce Witness.prefix 8 = make_frame_nonce Witness.prefix 7 -> 7 = 8) /\
  is_err (make_frame_nonce (replicate 8 x00) (Z.to_nat 7)) = false.
Proof.
  split; [|vm_compute; reflexivity]. intros E.
  apply (frame_nonces_distinct Witness.prefix 7 8 (Witness.prefix ++ to_le_bytes 8 7)); [lia|lia| |];
    [vm_compute; reflexivity|].
  rewrite E. vm_compute. reflexivity.
Defined.

Lemma frame_aad_binds_witness :
  ("b" = "b" /\ "k" = "k" /\ "" = "" /\ 1 = 1) \/ (exists x y : bytes, x <> y /\ x = y).
Proof.
  assert (N : forall c, c <> x00 -> x00 ∉ [c]) by (intros c Hc E%list_elem_of_singleton; by apply Hc).
  apply (frame_aad_binds (fun x => x) "b" "k" None 1 "b" "k" (Some "") 1);
    try (apply N; discriminate); try (intros E; by apply elem_of_nil in E); try lia.
  reflexivity.
Defined.
