(* ===== verification/ErasureCode.v ===== *)
(** * The erasure code

    The [reed-solomon-erasure] crate is not in the repository: [ReedSolomon]
    lists the calls the storage and cluster layers make, [ReedSolomonSpec] what
    they rely on, and [Xor] is a concrete code with one parity shard. *)

From stdpp Require Import base list numbers strings.
From Stdlib Require Import ZArith Lia Strings.Byte.
From S2P Require Import Prelude Bytes.

Local Open Scope nat_scope.

(** [ReedSolomon::new(k, m)], [encode] of [k + m] shards (the last [m] are
    overwritten) and [reconstruct] of the missing shards; the error of the
    crate is kept as its message. *)
Class ReedSolomon : Type := {
  rs_new : nat -> nat -> result string unit;
  rs_encode : nat -> nat -> list bytes -> result string (list bytes);
  rs_reconstruct : nat -> nat -> list (option bytes) -> result string (list (option bytes));
}.

(** A list of shards with some missing. *)
Definition shards_of (shards : list (option bytes)) (full : list bytes) : Prop :=
  Forall2 (fun s x => s = None \/ s = Some x) shards full.

Definition present {A} (l : list (option A)) : nat := length (filter is_Some l).

Class ReedSolomonSpec `{ReedSolomon} : Prop := {
  rs_encode_ok k m n all :
    rs_new k m = Ok tt -> 0 < n -> length all = k + m -> Forall (fun s => length s = n) all ->
    exists parity, rs_encode k m all = Ok (take k all ++ parity) /\
      length parity = m /\ Forall (fun s => length s = n) parity;
  rs_reconstruct_ok k m n all full shards :
    rs_new k m = Ok tt -> 0 < n -> length all = k + m -> Forall (fun s => length s = n) all ->
    rs_encode k m all = Ok full -> shards_of shards full -> k <= present shards ->
    rs_reconstruct k m shards = Ok (map Some full);
}.

Lemma shards_of_length shards full : shards_of shards full -> length shards = length full.
Proof. apply Forall2_length. Qed.

Lemma present_cons {A} (x : option A) l :
  present (x :: l) = (if x is Some _ then 1 else 0) + present l.
Proof.
  unfold present. destruct x; [rewrite filter_cons_True by by eexists|rewrite filter_cons_False by by intros []]; done.
Qed.

Lemma present_le {A} (l : list (option A)) : present l <= length l.
Proof. induction l as [|[x|] l IH]; [done|..]; rewrite present_cons; cbn in *; lia. Qed.

(** With every shard present there is nothing to guess. *)
Lemma shards_of_all shards full :
  shards_of shards full -> length full <= present shards -> shards = map Some full.
Proof.
  induction 1 as [|s x shards full Hs Hss IH]; [done|]. rewrite present_cons.
  pose proof (present_le shards). pose proof (shards_of_length _ _ Hss). cbn in *.
  destruct s as [y|]; [|lia]. destruct Hs as [|[= ->]]; [done|]. intros. by rewrite IH by lia.
Qed.

(** With one missing, it is at one position. *)
Lemma shards_of_one_missing shards full :
  shards_of shards full -> S (present shards) = length full ->
  exists l x r, full = l ++ x :: r /\ shards = map Some l ++ None :: map Some r.
Proof.
  induction 1 as [|s x shards full Hs Hss IH]; [done|]. rewrite present_cons. cbn.
  pose proof (shards_of_length _ _ Hss).
  destruct s as [y|]; intros Hp.
  - destruct Hs as [|[= ->]]; [done|]. destruct IH as (l & z & r & -> & ->); [lia|].
    by exists (x :: l), z, r.
  - exists [], x, full. rewrite (shards_of_all shards full) by (done || lia). done.
Qed.

(** ** A code with one parity shard *)

Module Xor.
Definition byte_xor (a b : byte) : byte := byte_of_Z (Z.lxor (Z_of_byte a) (Z_of_byte b)).

Lemma Z_of_byte_xor a b : Z_of_byte (byte_xor a b) = Z.lxor (Z_of_byte a) (Z_of_byte b).
Proof.
  unfold byte_xor. rewrite Z_of_byte_of_Z. apply Z.mod_small.
  pose proof (Z_of_byte_bounds a). pose proof (Z_of_byte_bounds b).
  split; [apply Z.lxor_nonneg; lia|].
  destruct (decide (Z.lxor (Z_of_byte a) (Z_of_byte b) = 0%Z)) as [->|Hne]; [lia|].
  assert (H1 : (Z.log2 (Z_of_byte a) < 8)%Z) by (pose proof (Z.log2_le_mono (Z_of_byte a) 255); change (Z.log2 255) with 7%Z in *; lia).
  assert (H2 : (Z.log2 (Z_of_byte b) < 8)%Z) by (pose proof (Z.log2_le_mono (Z_of_byte b) 255); change (Z.log2 255) with 7%Z in *; lia).
  change 256%Z with (2 ^ 8)%Z. apply Z.log2_lt_pow2.
  - assert (0 <= Z.lxor (Z_of_byte a) (Z_of_byte b))%Z by (apply Z.lxor_nonneg; lia). lia.
  - pose proof (Z.log2_lxor (Z_of_byte a) (Z_of_byte b)). lia.
Qed.

Definition vxor (l k : bytes) : bytes := zip_with byte_xor l k.
Definition parity (n : nat) (l : list bytes) : bytes := foldr vxor (replicate n x00) l.

Definition xor_new (k m : nat) : result string unit :=
  if decide (0 < k /\ m = 1) then Ok tt else Err "unsupported".

#[export] Instance xor_code : ReedSolomon := {|
  rs_new := xor_new;
  rs_encode k m all :=
    Ok (take k all ++ [parity (length (default [] (head all))) (take k all)]);
  rs_reconstruct k m shards :=
    let got := omap id shards in
    let lost := parity (length (default [] (head got))) got in
    Ok (map (fun s => Some (default lost s)) shards)
|}.

Lemma vxor_comm l k : vxor l k = vxor k l.
Proof.
  revert k. induction l as [|a l IH]; intros [|b k]; cbn; try done. f_equal; [|apply IH].
  apply (inj Z_of_byte). by rewrite !Z_of_byte_xor, Z.lxor_comm.
Qed.
Lemma vxor_assoc l k j : vxor l (vxor k j) = vxor (vxor l k) j.
Proof.
  revert k j. induction l as [|a l IH]; intros [|b k] [|c j]; cbn; try done. f_equal; [|apply IH].
  apply (inj Z_of_byte). by rewrite !Z_of_byte_xor, Z.lxor_assoc.
Qed.
Lemma vxor_cancel l k : length l <= length k -> vxor l (vxor l k) = take (length l) k.
Proof.
  revert k. induction l as [|a l IH]; intros [|b k]; cbn; try done; try lia.
  intros. f_equal; [|apply IH; lia].
  apply (inj Z_of_byte). by rewrite !Z_of_byte_xor, <-Z.lxor_assoc, Z.lxor_nilpotent, Z.lxor_0_l.
Qed.
Lemma length_vxor l k n : length l = n -> length k = n -> length (vxor l k) = n.
Proof. intros. unfold vxor. rewrite length_zip_with. lia. Qed.

Lemma length_parity n l : Forall (fun s => length s = n) l -> length (parity n l) = n.
Proof.
  induction 1; cbn; [apply length_replicate|]. by apply length_vxor.
Qed.

Lemma parity_middle n l x r :
  Forall (fun s => length s = n) (l ++ x :: r) ->
  parity n (l ++ x :: r) = vxor x (parity n (l ++ r)).
Proof.
  induction l as [|y l IH]; [done|]. cbn [app]. rewrite Forall_cons. intros [Hy Hl].
  change (vxor y (parity n (l ++ x :: r)) = vxor x (vxor y (parity n (l ++ r)))).
  by rewrite IH, !vxor_assoc, (vxor_comm y x) by done.
Qed.

(** The parity shard makes the whole xor to nothing, so any shard is the xor
    of the others. *)
Lemma parity_lost n data l x r :
  Forall (fun s => length s = n) data ->
  data ++ [parity n data] = l ++ x :: r -> parity n (l ++ r) = x.
Proof.
  intros Hd E.
  assert (Hall : Forall (fun s => length s = n) (l ++ x :: r)).
  { rewrite <-E. apply Forall_app. split; [done|]. by repeat constructor; apply length_parity. }
  destruct r as [|z r _] using rev_ind.
  - apply app_inj_tail in E as [-> <-]. by rewrite app_nil_r.
  - rewrite app_comm_cons, app_assoc in E. apply app_inj_tail in E as [-> <-].
    assert (Hx : length x = n).
    { apply Forall_app in Hd as [_ Hd]. by apply Forall_cons in Hd as [? _]. }
    assert (Hlr : Forall (fun s => length s = n) (l ++ r)).
    { apply Forall_app in Hd as [? Hd]. apply Forall_cons in Hd as [_ ?]. by apply Forall_app. }
    pose proof (length_parity n _ Hlr) as Hp.
    rewrite parity_middle, app_assoc by done.
    rewrite (parity_middle n (l ++ r) _ []).
    + rewrite app_nil_r, (vxor_comm x), vxor_comm, vxor_cancel by lia. apply take_ge. lia.
    + apply Forall_app. split; [done|]. repeat constructor. by apply length_vxor.
Qed.

Lemma omap_map_Some {A} (l : list A) : omap id (map Some l) = l.
Proof. induction l; cbn; by f_equal. Qed.

#[export] Instance xor_spec : ReedSolomonSpec.
Proof.
  assert (Hm : forall k m, xor_new k m = Ok tt -> 0 < k /\ m = 1).
  { intros k m. unfold xor_new. by case_decide. }
  assert (Hhead : forall n (l : list bytes), Forall (fun s => length s = n) l -> l <> [] ->
            length (default [] (head l)) = n).
  { by intros n ? [|x l Hx Hl] ?. }
  split.
  - intros k m n all [Hk ->]%Hm Hn Hl Hall. eexists. split; [done|]. split; [done|].
    repeat constructor. rewrite (Hhead n) by (done || by destruct all; [cbn in Hl; lia|]).
    apply length_parity. by apply Forall_take.
  - intros k m n all full shards [Hk ->]%Hm Hn Hl Hall [= <-] Hs Hp. cbn. f_equal.
    rewrite (Hhead n all) in * by (done || by destruct all; [cbn in Hl; lia|]).
    set (data := take k all) in *.
    assert (Hd : Forall (fun s => length s = n) data) by by apply Forall_take.
    assert (Ld : length data = k) by (subst data; rewrite length_take; lia).
    pose proof (shards_of_length _ _ Hs) as Ls. pose proof (present_le shards).
    rewrite length_app in Ls. cbn in Ls.
    destruct (decide (present shards = S k)) as [Hfull|].
    + apply shards_of_all in Hs as ->; [|rewrite length_app; cbn; lia].
      rewrite map_map. done.
    + destruct (shards_of_one_missing shards (data ++ [parity n data])) as (l & x & r & E & ->);
        [done|rewrite length_app; cbn; lia|].
      rewrite E. rewrite omap_app. cbn. rewrite !omap_map_Some.
      assert (Hlr : Forall (fun s => length s = n) (l ++ r) /\ l ++ r <> []).
      { assert (Hall' : Forall (fun s => length s = n) (l ++ x :: r)).
        { rewrite <-E. apply Forall_app. split; [done|]. by repeat constructor; apply length_parity. }
        apply Forall_app in Hall' as [? [_ ?]%Forall_cons]. split; [by apply Forall_app|].
        intros Hnil%(f_equal length). apply (f_equal length) in E.
        rewrite !length_app in *. cbn in *. lia. }
      destruct Hlr as [Hlr Hne]. rewrite (Hhead n) by done.
      rewrite (parity_lost n data l x r) by done.
      rewrite map_app. cbn. rewrite !map_map, !map_app. done.
Qed.
End Xor.
