(* ===== verification/ChunkReader.v ===== *)
(** * The verified chunk reader

    [maxio-storage/src/chunk_reader.rs]: reading an erasure-coded object from
    its chunk files, each checked against the manifest's SHA-256 and rebuilt
    from parity when it is missing or corrupt.

    [sha256_hex] is a parameter; [chunks_dir i] is the
    outcome of reading the file named [{i:06}] of the chunk directory. *)

From stdpp Require Import base list numbers strings pretty.
From Stdlib Require Import ZArith Lia Strings.Byte.
From S2P Require Import Prelude Bytes Reader Types Crypto ErasureCode.

Local Open Scope maxio_scope.
Local Open Scope nat_scope.

(** [hex::encode(Sha256::digest(data))]. *)
Class Sha256Hex : Type := sha256_hex : bytes -> string.

Definition chunk_dir : Type := nat -> result io_error bytes.

(** [x as u32] of an index. *)
Definition as_u32 (n : nat) : nat := Z.to_nat (Z.of_nat n mod 2 ^ 32).

Definition invalid_data (msg : string) : io_error := mk_io_error InvalidData msg.

Section load.
Context `{Sha256Hex} `{ReedSolomon}.

(** The direct read of a chunk, with its size and checksum checks. *)
Definition read_and_verify (dir : chunk_dir) (i : nat) (info : ChunkInfo) : result io_error bytes :=
  data ← map_err (fun e => mk_io_error (io_error_kind e)
                    ("failed to read chunk " +:+ pretty i +:+ ": " +:+ io_message e)) (dir i);
  if negb (Z.of_nat (length data) =? ci_size info)%Z then
    Err (invalid_data ("chunk " +:+ pretty i +:+ " size mismatch: expected "
           +:+ pretty (ci_size info) +:+ ", got " +:+ pretty (length data)))
  else if bool_decide (sha256_hex data = ci_sha256 info) then Ok data
  else Err (invalid_data ("checksum mismatch on chunk " +:+ pretty i +:+ ": expected "
              +:+ ci_sha256 info +:+ ", got " +:+ sha256_hex data)).

(** One shard for the decoder: [None] when unreadable or corrupt, padded to
    the shard size otherwise. *)
Definition load_shard (dir : chunk_dir) (shard_size i : nat) (info : ChunkInfo) : option bytes :=
  match dir i with
  | Ok data => if bool_decide (sha256_hex data = ci_sha256 info)
               then Some (resize shard_size x00 data) else None
  | Err _ => None
  end.

(** [for i in 0..total_shards { shards.push(...) }]. *)
Fixpoint load_shards (dir : chunk_dir) (manifest : ChunkManifest) (shard_size : nat) (indices : list nat)
    : result io_error (list (option bytes)) :=
  match indices with
  | [] => Ok []
  | i :: indices =>
      info ← ok_or (cm_chunks manifest !! i)
               (invalid_data ("manifest missing shard " +:+ pretty i +:+ " ("
                  +:+ pretty (length (cm_chunks manifest)) +:+ " entries)"));
      rest ← load_shards dir manifest shard_size indices;
      Ok (load_shard dir shard_size i info :: rest)
  end.

(** Indexing the shards panics past their end. *)
Definition try_reconstruct_data_chunk (dir : chunk_dir) (manifest : ChunkManifest) (target : nat)
    : exec (result io_error bytes) :=
  let k := Z.to_nat (cm_chunk_count manifest) in
  let m := Z.to_nat (default 0%Z (cm_parity_shards manifest)) in
  let shard_size := Z.to_nat (default (cm_chunk_size manifest) (cm_shard_size manifest)) in
  try _ := map_err (fun e => mk_io_error Other ("RS init error: " +:+ e)) (rs_new k m) in
  try shards := load_shards dir manifest shard_size (seq 0 (k + m)) in
  if present shards <? k then
    Ret (Err (invalid_data ("too many missing/corrupt shards: only " +:+ pretty (present shards)
           +:+ " of " +:+ pretty k +:+ " required shards available ("
           +:+ pretty (k + m - present shards) +:+ " missing)")))
  else
    try shards := map_err (fun e => mk_io_error Other ("RS reconstruction failed: " +:+ e))
                    (rs_reconstruct k m shards) in
    match shards !! target, cm_chunks manifest !! target with
    | Some (Some reconstructed), Some info => Ret (Ok (take (Z.to_nat (ci_size info)) reconstructed))
    | Some None, _ => Ret (Err (mk_io_error Other "reconstruction produced None for target shard"))
    | _, _ => Panic
    end.

(** The data of a chunk, as [load_chunk_sync] finds it. *)
Definition load_chunk (dir : chunk_dir) (manifest : ChunkManifest) (i : nat)
    : exec (result io_error bytes) :=
  try info := ok_or (cm_chunks manifest !! i)
           (invalid_data ("manifest missing chunk " +:+ pretty i +:+ " ("
              +:+ pretty (length (cm_chunks manifest)) +:+ " entries)")) in
  match read_and_verify dir i info with
  | Ok data => Ret (Ok data)
  | Err original_err =>
      if (0 <? default 0 (cm_parity_shards manifest))%Z
      then try_reconstruct_data_chunk dir manifest i
      else Ret (Err original_err)
  end.
End load.

Inductive ReaderState : Type := NeedLoad | Serving | Done.

Record VerifiedChunkReader : Type := mk_VerifiedChunkReader {
  cr_chunks_dir : chunk_dir;
  cr_manifest : ChunkManifest;
  cr_current_chunk : nat;
  cr_end_chunk : nat;
  cr_skip_bytes : nat;
  cr_remaining : nat;
  cr_buf : bytes;
  cr_buf_pos : nat;
  cr_state : ReaderState;
}.

(** [VerifiedChunkReader::new]. *)
Definition chunk_reader_new (dir : chunk_dir) (manifest : ChunkManifest) : VerifiedChunkReader :=
  let total := Z.to_nat (cm_total_size manifest) in
  mk_VerifiedChunkReader dir manifest 0 (Z.to_nat (cm_chunk_count manifest) - 1) 0 total [] 0
    (if total =? 0 then Done else NeedLoad).

(** [with_range]; a zero chunk size makes the divisions panic. *)
Definition with_range (dir : chunk_dir) (manifest : ChunkManifest) (offset len : nat)
    : exec VerifiedChunkReader :=
  if (len =? 0) || (cm_total_size manifest =? 0)%Z then
    Ret (mk_VerifiedChunkReader dir manifest 0 0 0 0 [] 0 Done)
  else
    let chunk_size := Z.to_nat (cm_chunk_size manifest) in
    if chunk_size =? 0 then Panic
    else Ret (mk_VerifiedChunkReader dir manifest (as_u32 (offset / chunk_size))
                (as_u32 ((offset + len - 1) / chunk_size)) (offset mod chunk_size) len [] 0 NeedLoad).

Section reader.
Context `{Sha256Hex} `{ReedSolomon}.
Implicit Types r : VerifiedChunkReader.

Definition set_serving r (data : bytes) : VerifiedChunkReader :=
  mk_VerifiedChunkReader (cr_chunks_dir r) (cr_manifest r) (cr_current_chunk r) (cr_end_chunk r)
    0 (cr_remaining r) data (cr_skip_bytes r) Serving.
Definition set_state r (current : nat) (s : ReaderState) : VerifiedChunkReader :=
  mk_VerifiedChunkReader (cr_chunks_dir r) (cr_manifest r) current (cr_end_chunk r)
    (cr_skip_bytes r) (cr_remaining r) (cr_buf r) (cr_buf_pos r) s.
Definition consume r (n : nat) : VerifiedChunkReader :=
  let remaining := cr_remaining r - n in
  mk_VerifiedChunkReader (cr_chunks_dir r) (cr_manifest r) (cr_current_chunk r) (cr_end_chunk r)
    (cr_skip_bytes r) remaining (cr_buf r) (cr_buf_pos r + n)
    (if remaining =? 0 then Done else cr_state r).

Definition load_chunk_sync r : exec (result io_error VerifiedChunkReader) :=
  match load_chunk (cr_chunks_dir r) (cr_manifest r) (cr_current_chunk r) with
  | Panic => Panic
  | Ret (Ok data) => Ret (Ok (set_serving r data))
  | Ret (Err e) => Ret (Err e)
  end.

(** [VerifiedChunkReader::preflight]. *)
Definition chunk_preflight r : exec (result io_error VerifiedChunkReader) :=
  match cr_state r with Done => Ret (Ok r) | _ => load_chunk_sync r end.

(** One turn of the loop of [poll_read]; the slice of the buffer panics when
    the position is past its end. *)
Definition chunk_step r (cap : nat) : exec (step VerifiedChunkReader (Poll (result io_error bytes))) :=
  match cr_state r with
  | Done => Ret (Return r (Ready (Ok [])))
  | NeedLoad =>
      if (cr_end_chunk r <? cr_current_chunk r) || (cr_remaining r =? 0) then
        Ret (Return (set_state r (cr_current_chunk r) Done) (Ready (Ok [])))
      else
        match load_chunk_sync r with
        | Panic => Panic
        | Ret (Err e) => Ret (Return r (Ready (Err e)))
        | Ret (Ok r) => Ret (Continue r)
        end
  | Serving =>
      if length (cr_buf r) <? cr_buf_pos r then Panic
      else
        match drop (cr_buf_pos r) (cr_buf r) with
        | [] => Ret (Continue (set_state r (S (cr_current_chunk r)) NeedLoad))
        | available =>
            let to_copy := Nat.min (Nat.min (length available) cap) (cr_remaining r) in
            Ret (Return (consume r to_copy) (Ready (Ok (take to_copy available))))
        end
  end.

Fixpoint chunk_loop (fuel : nat) r (cap : nat)
    : exec (option (VerifiedChunkReader * Poll (result io_error bytes))) :=
  match fuel with
  | O => Ret None
  | S fuel =>
      match chunk_step r cap with
      | Panic => Panic
      | Ret (Continue r) => chunk_loop fuel r cap
      | Ret (Return r p) => Ret (Some (r, p))
      end
  end.

(** A chunk is loaded, served, and left behind. *)
Definition turns_to_end r : nat :=
  let n := cr_end_chunk r + 1 - cr_current_chunk r in
  match cr_state r with Done => 0 | NeedLoad => 2 * n | Serving => Nat.max 1 (2 * n - 1) end.

(** A panic unwinds through the task that polls; to the interface of readers
    it is an error.  Well-formed readers do not panic ([chunk_loop_spec]). *)
Definition panicked : io_error := mk_io_error Other "range start index out of range for slice".

Definition chunk_poll r (cap : nat) : VerifiedChunkReader * Poll (result io_error bytes) :=
  match chunk_loop (S (turns_to_end r)) r cap with
  | Ret (Some x) => x
  | Ret None => (r, Pending)
  | Panic => (r, Ready (Err panicked))
  end.

(** The reference: the chunks from [c] on, dropping [skip] bytes of the first
    and keeping [remaining]. *)
Fixpoint chunk_stream (dir : chunk_dir) (manifest : ChunkManifest) (n c skip remaining : nat)
    : bytes * stream_end :=
  match n with
  | O => ([], Eof)
  | S n =>
      if remaining =? 0 then ([], Eof)
      else
        match load_chunk dir manifest c with
        | Panic => ([], Fail panicked)
        | Ret (Err e) => ([], Fail e)
        | Ret (Ok data) =>
            if length data <? skip then ([], Fail panicked)
            else
              let served := take remaining (drop skip data) in
              let rest := chunk_stream dir manifest n (S c) 0 (remaining - length served) in
              (served ++ fst rest, snd rest)
        end
  end.

(** What is left to deliver in a given state. *)
Definition stream r : bytes * stream_end :=
  match cr_state r with
  | Done => ([], Eof)
  | NeedLoad =>
      chunk_stream (cr_chunks_dir r) (cr_manifest r) (cr_end_chunk r + 1 - cr_current_chunk r)
        (cr_current_chunk r) (cr_skip_bytes r) (cr_remaining r)
  | Serving =>
      if length (cr_buf r) <? cr_buf_pos r then ([], Fail panicked)
      else
        let served := take (cr_remaining r) (drop (cr_buf_pos r) (cr_buf r)) in
        let rest := chunk_stream (cr_chunks_dir r) (cr_manifest r) (cr_end_chunk r - cr_current_chunk r)
                      (S (cr_current_chunk r)) (cr_skip_bytes r) (cr_remaining r - length served) in
        (served ++ fst rest, snd rest)
  end.

Lemma chunk_stream_done dir manifest n c skip : chunk_stream dir manifest n c skip 0 = ([], Eof).
Proof. by destruct n. Qed.

Lemma stream_load r data :
  cr_current_chunk r <= cr_end_chunk r -> cr_remaining r <> 0 ->
  load_chunk (cr_chunks_dir r) (cr_manifest r) (cr_current_chunk r) = Ret (Ok data) ->
  cr_state r = NeedLoad -> stream (set_serving r data) = stream r.
Proof.
  intros Hc Hr Hl Hs. unfold stream. rewrite Hs. cbn -[chunk_stream].
  replace (cr_end_chunk r + 1 - cr_current_chunk r) with (S (cr_end_chunk r - cr_current_chunk r)) by lia.
  cbn [chunk_stream]. rewrite Hl, (proj2 (Nat.eqb_neq _ _) Hr). done.
Qed.

(** One turn keeps what is left to deliver and gets closer to an answer. *)
Lemma chunk_step_spec r cap :
  0 < cap ->
  match chunk_step r cap with
  | Panic => stream r = ([], Fail panicked)
  | Ret (Continue r') => stream r' = stream r /\ turns_to_end r' < turns_to_end r
  | Ret (Return r' (Ready (Ok bs))) =>
      length bs <= cap /\ stream r = (bs ++ fst (stream r'), snd (stream r')) /\
      (bs = [] -> stream r = ([], Eof))
  | Ret (Return r' (Ready (Err e))) => stream r = ([], Fail e)
  | Ret (Return r' Pending) => False
  end.
Proof.
  intros Hcap. unfold chunk_step. destruct (cr_state r) eqn:Hs.
  - destruct (Nat.ltb_spec (cr_end_chunk r) (cr_current_chunk r)) as [Hlt|Hle];
      [|destruct (Nat.eqb_spec (cr_remaining r) 0) as [Hz|Hz]]; cbn [orb].
    1,2: unfold stream; rewrite Hs; cbn -[chunk_stream];
      assert (Hend : chunk_stream (cr_chunks_dir r) (cr_manifest r) (cr_end_chunk r + 1 - cr_current_chunk r)
                       (cr_current_chunk r) (cr_skip_bytes r) (cr_remaining r) = ([], Eof))
        by (rewrite ?Hz; apply chunk_stream_done ||
            (replace (cr_end_chunk r + 1 - cr_current_chunk r) with 0 by lia; done));
      rewrite Hend; split_and!; done || lia.
    unfold load_chunk_sync.
    destruct (load_chunk _ _ _) as [[data|e]|] eqn:Hl.
    + split; [by apply stream_load|]. unfold turns_to_end. rewrite Hs. cbn. lia.
    + unfold stream. rewrite Hs.
      replace (cr_end_chunk r + 1 - cr_current_chunk r) with (S (cr_end_chunk r - cr_current_chunk r)) by lia.
      cbn [chunk_stream]. by rewrite Hl, (proj2 (Nat.eqb_neq _ _) Hz).
    + unfold stream. rewrite Hs.
      replace (cr_end_chunk r + 1 - cr_current_chunk r) with (S (cr_end_chunk r - cr_current_chunk r)) by lia.
      cbn [chunk_stream]. by rewrite Hl, (proj2 (Nat.eqb_neq _ _) Hz).
  - destruct (Nat.ltb_spec (length (cr_buf r)) (cr_buf_pos r)) as [Hlt|Hle].
    { unfold stream. by rewrite Hs, (proj2 (Nat.ltb_lt _ _) Hlt). }
    unfold stream. rewrite Hs, (proj2 (Nat.ltb_ge _ _) Hle).
    destruct (drop (cr_buf_pos r) (cr_buf r)) as [|b l] eqn:Hd.
    + rewrite take_nil. cbn -[chunk_stream]. rewrite Nat.sub_0_r.
      replace (cr_end_chunk r + 1 - S (cr_current_chunk r)) with (cr_end_chunk r - cr_current_chunk r) by lia.
      split; [by destruct (chunk_stream _ _ _ _ _ _)|].
      unfold turns_to_end. rewrite Hs. cbn. lia.
    + set (av := b :: l) in *. set (n := Nat.min (Nat.min (length av) cap) (cr_remaining r)).
      assert (Hl : length av = length (cr_buf r) - cr_buf_pos r) by (rewrite <-Hd; apply length_drop).
      assert (Hav : 0 < length av) by (subst av; cbn; lia).
      assert (Hn : n <= length av /\ n <= cap /\ n <= cr_remaining r /\ (n = 0 -> cr_remaining r = 0))
        by (subst n; lia).
      clearbody n av.
      split_and!.
      * rewrite length_take. lia.
      * destruct (Nat.eq_dec (cr_remaining r - n) 0) as [Hz|Hz].
        -- assert (n = cr_remaining r) as -> by lia. unfold consume. rewrite Hz. cbn -[chunk_stream take].
           rewrite length_take, Nat.min_l, Nat.sub_diag, chunk_stream_done by lia. done.
        -- unfold consume. rewrite (proj2 (Nat.eqb_neq _ _) Hz). cbn -[chunk_stream take drop Nat.ltb].
           rewrite Hs, (proj2 (Nat.ltb_ge _ _)) by lia.
           rewrite <-drop_drop, Hd. cbn -[chunk_stream take drop Nat.ltb].
           assert (Ht : take (cr_remaining r) av = take n av ++ take (cr_remaining r - n) (drop n av)).
           { rewrite <-(take_drop n av) at 1. rewrite take_app, take_take, length_take.
             f_equal; [f_equal; lia|f_equal; lia]. }
           rewrite Ht, length_app, <-app_assoc, length_take, Nat.min_l by lia.
           rewrite Nat.sub_add_distr. done.
      * intros Hnil%(f_equal length). rewrite length_take in Hnil. cbn [length] in Hnil.
        replace (cr_remaining r) with 0 by lia. rewrite take_0. cbn [length app].
        rewrite chunk_stream_done. done.
  - unfold stream. rewrite Hs. split_and!; [cbn; lia|done|done].
Qed.

Lemma chunk_loop_spec fuel r cap :
  0 < cap -> turns_to_end r < fuel ->
  match chunk_loop fuel r cap with
  | Panic => stream r = ([], Fail panicked)
  | Ret None => False
  | Ret (Some (r', Ready (Ok bs))) =>
      length bs <= cap /\ stream r = (bs ++ fst (stream r'), snd (stream r')) /\
      (bs = [] -> stream r = ([], Eof))
  | Ret (Some (r', Ready (Err e))) => stream r = ([], Fail e)
  | Ret (Some (r', Pending)) => False
  end.
Proof.
  intros Hcap. revert r. induction fuel as [|fuel IH]; intros r Hf; [lia|]. cbn [chunk_loop].
  pose proof (chunk_step_spec r cap Hcap) as S.
  destruct (chunk_step r cap) as [[r'|r' p]|]; [|by destruct p as [|[]]|done].
  destruct S as [<- Ht]. apply IH. lia.
Qed.

Global Instance chunk_reader : AsyncRead VerifiedChunkReader := chunk_poll.

(** The chunk reader never waits: its files are read synchronously. *)
Global Program Instance chunk_reader_spec : ReaderSpec VerifiedChunkReader := {
  reads r out e := stream r = (out, e);
  patience _ := 0;
}.
Next Obligation.
  intros r out e cap Hr Hcap. unfold poll_read, chunk_reader, chunk_poll.
  pose proof (chunk_loop_spec (S (turns_to_end r)) r cap Hcap ltac:(lia)) as S.
  destruct (chunk_loop (Datatypes.S (turns_to_end r)) r cap) as [[[r' [|[bs|x]]]|]|]; try done.
  - destruct S as (Hl & Hst & Hnil). rewrite Hr in Hst, Hnil. injection Hst as -> ->.
    split_and!; [done|done| |].
    + exists (fst (stream r')). split; [done|]. by destruct (stream r').
    + intros ->. by injection (Hnil eq_refl) as -> ->.
  - rewrite Hr in S. by injection S as -> ->.
  - cbn. rewrite Hr in S. by injection S as -> ->.
Qed.
End reader.

(** ** Chunks survive the loss of as many shards as there is parity *)

Lemma filter_length_all {A} (P : A -> Prop) `{!forall x, Decision (P x)} (l : list A) :
  length l <= length (filter P l) -> Forall P l.
Proof.
  induction l as [|x l IH]; [done|]. rewrite filter_cons. cbn. intros Hl.
  pose proof (length_filter P l). case_decide; cbn in Hl; [|lia].
  constructor; [done|apply IH; lia].
Qed.

Section recovery.
Context `{Sha256Hex} `{ReedSolomonSpec}.

(** The manifest describes the data chunks [cs] and the parity shards [ps]. *)
Record manifest_of (manifest : ChunkManifest) (cs ps : list bytes) : Prop := {
  mo_chunks : Forall2 (fun info d => ci_size info = Z.of_nat (length d) /\ ci_sha256 info = sha256_hex d)
                (cm_chunks manifest) (cs ++ ps);
  mo_count : cm_chunk_count manifest = Z.of_nat (length cs);
  mo_parity : default 0%Z (cm_parity_shards manifest) = Z.of_nat (length ps);
  mo_code : ps <> [] ->
    let shard_size := Z.to_nat (default (cm_chunk_size manifest) (cm_shard_size manifest)) in
    rs_new (length cs) (length ps) = Ok tt /\ 0 < shard_size /\
    Forall (fun d => length d <= shard_size) cs /\ Forall (fun d => length d = shard_size) ps /\
    exists blank, length blank = length ps /\ Forall (fun d => length d = shard_size) blank /\
      rs_encode (length cs) (length ps) (map (resize shard_size x00) cs ++ blank) =
        Ok (map (resize shard_size x00) cs ++ ps);
}.

(** A shard is intact when its file holds what was written; [intact dir all]
    counts them.  A directory is [honest] when no other content has the
    checksum of the original. *)
Definition intact (dir : chunk_dir) (all : list bytes) : nat :=
  length (filter (fun x => dir x.1 = Ok x.2) (imap pair all)).

Definition honest (dir : chunk_dir) (all : list bytes) : Prop :=
  forall i d d', all !! i = Some d -> dir i = Ok d' -> sha256_hex d' = sha256_hex d -> d' = d.

Lemma load_shards_ok dir manifest cs ps ss :
  manifest_of manifest cs ps -> honest dir (cs ++ ps) ->
  exists shards,
    load_shards dir manifest ss (seq 0 (length cs + length ps)) = Ok shards /\
    shards_of shards (map (resize ss x00) (cs ++ ps)) /\ present shards = intact dir (cs ++ ps).
Proof.
  intros [Hchunks _ _ _] Hh. rewrite <-length_app. unfold intact.
  assert (G : forall l j, (forall i d, l !! i = Some d -> (cs ++ ps) !! (j + i) = Some d) ->
    exists shards, load_shards dir manifest ss (seq j (length l)) = Ok shards /\
      shards_of shards (map (resize ss x00) l) /\
      present shards = length (filter (fun x : nat * bytes => dir x.1 = Ok x.2) (imap (fun i d => (j + i, d)) l))).
  { induction l as [|d l IH]; intros j Hl; [exists []; split_and!; by try constructor|].
    destruct (IH (S j)) as (shards & Hs & Hof & Hp).
    { intros i d' Hi. rewrite Nat.add_succ_comm. by apply Hl. }
    pose proof (Hl 0 d eq_refl) as Hd. rewrite Nat.add_0_r in Hd.
    destruct (Forall2_lookup_r _ _ _ _ _ Hchunks Hd) as (info & Hinfo & _ & Hsha).
    exists (load_shard dir ss j info :: shards). cbn [length seq load_shards map imap].
    rewrite Hinfo, Hs. cbn [ok_or mbind result_bind]. split; [done|].
    assert (Himap : imap ((λ i d0, (j + i, d0)) ∘ S) l = imap (λ i d0, (S j + i, d0)) l).
    { apply imap_ext. intros i x _. cbn. f_equal. lia. }
    rewrite Himap, Nat.add_0_r, present_cons, filter_cons. cbn [fst snd].
    unfold load_shard. destruct (dir j) as [d'|e] eqn:Hj.
    - destruct (bool_decide (sha256_hex d' = ci_sha256 info)) eqn:E.
      + apply bool_decide_eq_true in E. rewrite Hsha in E. pose proof (Hh _ _ _ Hd Hj E) as ->.
        rewrite decide_True by done. split; [constructor; [by right|done]|]. cbn. by rewrite Hp.
      + apply bool_decide_eq_false in E. rewrite decide_False by (intros [= ->]; congruence).
        split; [constructor; [by left|done]|]. done.
    - rewrite decide_False by done. split; [constructor; [by left|done]|]. done. }
  destruct (G (cs ++ ps) 0) as (shards & ? & ? & ?); [done|]. by exists shards.
Qed.

Lemma reconstruct_ok dir manifest cs ps i d :
  manifest_of manifest cs ps -> honest dir (cs ++ ps) -> ps <> [] ->
  length cs <= intact dir (cs ++ ps) -> cs !! i = Some d ->
  try_reconstruct_data_chunk dir manifest i = Ret (Ok d).
Proof.
  intros Hm Hh Hps Hk Hi. unfold try_reconstruct_data_chunk.
  set (ss := Z.to_nat (default (cm_chunk_size manifest) (cm_shard_size manifest))).
  destruct (load_shards_ok dir manifest cs ps ss Hm Hh) as (shards & Hl & Hof & Hp).
  destruct Hm as [Hchunks Hcount Hpar Hcode]. rewrite Hcount, Hpar, !Nat2Z.id.
  destruct (Hcode Hps) as (Hnew & Hss & Hcs & Hpl & blank & Hb1 & Hb2 & Henc). fold ss in Hss, Hcs, Hpl, Hb2, Henc.
  rewrite Hnew. cbn [map_err try_bind]. rewrite Hl. cbn [try_bind].
  rewrite Hp, (proj2 (Nat.ltb_ge _ _) Hk).
  assert (Hps' : map (resize ss x00) ps = ps).
  { apply list_eq. intros j. rewrite list_lookup_fmap. destruct (ps !! j) as [p|] eqn:E; [|done].
    cbn. f_equal. apply resize_all_alt. symmetry. by eapply Forall_lookup_1 in Hpl. }
  rewrite map_app, Hps' in Hof.
  rewrite (rs_reconstruct_ok (length cs) (length ps) ss (map (resize ss x00) cs ++ blank)
             (map (resize ss x00) cs ++ ps)); try done.
  - cbn [map_err try_bind].
    rewrite list_lookup_fmap, lookup_app_l by (rewrite length_map; by eapply lookup_lt_Some).
    rewrite list_lookup_fmap, Hi. cbn.
    destruct (Forall2_lookup_r _ _ _ i d Hchunks) as (info & Hinfo & Hsize & _).
    { by rewrite lookup_app_l by (by eapply lookup_lt_Some). }
    rewrite Hinfo, Hsize, Nat2Z.id. do 2 f_equal.
    rewrite resize_ge by (by eapply Forall_lookup_1 in Hcs). by rewrite take_app_length.
  - rewrite length_app, length_map. lia.
  - apply Forall_app. split; [|done]. apply Forall_map, Forall_true. intros. apply length_resize.
  - lia.
Qed.

(** Every data chunk is found, from its file or from the other shards. *)
Lemma load_chunk_ok dir manifest cs ps i d :
  manifest_of manifest cs ps -> honest dir (cs ++ ps) ->
  length cs <= intact dir (cs ++ ps) -> cs !! i = Some d ->
  load_chunk dir manifest i = Ret (Ok d).
Proof.
  intros Hm Hh Hk Hi. unfold load_chunk.
  assert (Hi' : (cs ++ ps) !! i = Some d) by (by rewrite lookup_app_l by (by eapply lookup_lt_Some)).
  destruct (Forall2_lookup_r _ _ _ _ _ (mo_chunks _ _ _ Hm) Hi') as (info & Hinfo & Hsize & Hsha).
  rewrite Hinfo. cbn [ok_or try_bind].
  assert (Hv : read_and_verify dir i info = Ok d \/
               (dir i <> Ok d /\ exists e, read_and_verify dir i info = Err e)).
  { unfold read_and_verify. destruct (dir i) as [d'|e] eqn:Hd; cbn [map_err mbind result_bind].
    2:{ right. by eauto. }
    destruct (bool_decide (sha256_hex d' = ci_sha256 info)) eqn:E.
    - apply bool_decide_eq_true in E. rewrite Hsha in E.
      pose proof (Hh _ _ _ Hi' Hd E) as ->. rewrite Hsize, Z.eqb_refl. by left.
    - apply bool_decide_eq_false in E. right. split; [intros [= ->]; congruence|].
      destruct (negb _); by eauto. }
  destruct Hv as [->|[Hne [e ->]]]; [done|].
  destruct (decide (ps = [])) as [->|Hps].
  - exfalso. rewrite app_nil_r in *. apply Hne.
    assert (Hall : Forall (fun x : nat * bytes => dir x.1 = Ok x.2) (imap pair cs)).
    { refine (filter_length_all _ _ _). rewrite length_imap. exact Hk. }
    eapply Forall_lookup_1 in Hall; [|apply list_lookup_imap_Some; by eauto]. done.
  - rewrite (mo_parity _ _ _ Hm), (proj2 (Z.ltb_lt _ _)) by (destruct ps; [done|cbn; lia]).
    by eapply reconstruct_ok.
Qed.

(** Whatever happened to the directory, a data chunk is either found as it
    was written or reported as an error. *)
Lemma load_chunk_safe dir manifest cs ps i d :
  manifest_of manifest cs ps -> honest dir (cs ++ ps) -> cs !! i = Some d ->
  load_chunk dir manifest i = Ret (Ok d) \/ exists e, load_chunk dir manifest i = Ret (Err e).
Proof.
  intros Hm Hh Hi. destruct (decide (length cs <= intact dir (cs ++ ps))) as [Hk|Hk].
  { left. by eapply load_chunk_ok. }
  unfold load_chunk.
  assert (Hi' : (cs ++ ps) !! i = Some d) by (by rewrite lookup_app_l by (by eapply lookup_lt_Some)).
  destruct (Forall2_lookup_r _ _ _ _ _ (mo_chunks _ _ _ Hm) Hi') as (info & Hinfo & Hsize & Hsha).
  rewrite Hinfo. cbn [ok_or try_bind]. unfold read_and_verify.
  assert (Hrec : try_reconstruct_data_chunk dir manifest i = Ret (Ok d) \/
                 exists e, try_reconstruct_data_chunk dir manifest i = Ret (Err e)).
  { right. unfold try_reconstruct_data_chunk.
    destruct (load_shards_ok dir manifest cs ps
      (Z.to_nat (default (cm_chunk_size manifest) (cm_shard_size manifest))) Hm Hh)
      as (shards & Hl & _ & Hp).
    rewrite (mo_count _ _ _ Hm), (mo_parity _ _ _ Hm), !Nat2Z.id.
    destruct (rs_new _ _); cbn [map_err try_bind]; [|by eauto].
    rewrite Hl. cbn [try_bind]. rewrite Hp, (proj2 (Nat.ltb_lt _ _)) by lia. by eauto. }
  destruct (dir i) as [d'|e] eqn:Hd; cbn [map_err mbind result_bind].
  - destruct (negb _); [case_match; [done|by eauto]|].
    destruct (bool_decide _) eqn:E; [|case_match; [done|by eauto]].
    apply bool_decide_eq_true in E. rewrite Hsha in E. left. by rewrite (Hh _ _ _ Hi' Hd E).
  - case_match; [done|by eauto].
Qed.
End recovery.
