(* ===== verification/ChunkWriter.v ===== *)
(** * Writing erasure-coded objects

    The chunking of [put_object_chunked] and the parity computation
    [compute_and_write_parity_from] of [filesystem/object_io.rs], with
    [write_chunk_file] of [filesystem/common.rs], and the round trip with the
    verified reader.  A chunk directory under construction is a finite map from
    the index in the file name to the content; writing to it succeeds. *)

From stdpp Require Import base list gmap numbers strings pretty.
From Stdlib Require Import ZArith Lia Strings.Byte.
From S2P Require Import Prelude Bytes Reader Types Quota Crypto ErasureCode ChunkReader.

Local Open Scope nat_scope.

(** Reading back what was written. *)
Definition file_missing : io_error := mk_io_error NotFound "No such file or directory (os error 2)".
Definition dir_of (files : gmap nat bytes) : chunk_dir := fun i => ok_or (files !! i) file_missing.

Section writer.
Context `{Sha256Hex} `{ReedSolomon}.

Definition write_chunk_file (files : gmap nat bytes) (index : nat) (data : bytes)
    : gmap nat bytes * ChunkInfo :=
  (<[index := data]> files,
   mk_ChunkInfo (Z.of_nat index) (Z.of_nat (length data)) (sha256_hex data) Data).

Definition into_parity (c : ChunkInfo) : ChunkInfo :=
  mk_ChunkInfo (ci_index c) (ci_size c) (ci_sha256 c) Parity.

(** [chunk_buf], [chunk_index], the directory and [chunks]. *)
Record chunk_writer : Type := mk_chunk_writer {
  cw_chunk_buf : bytes;
  cw_chunk_index : nat;
  cw_files : gmap nat bytes;
  cw_chunks : list ChunkInfo;
}.

Definition chunk_writer_new : chunk_writer := mk_chunk_writer [] 0 ∅ [].

(** [while chunk_buf.len() >= self.chunk_size { ... }]. *)
Fixpoint write_full_chunks (chunk_size fuel : nat) (w : chunk_writer) : chunk_writer :=
  match fuel with
  | S fuel =>
      if chunk_size <=? length (cw_chunk_buf w) then
        let '(files, ci) := write_chunk_file (cw_files w) (cw_chunk_index w)
                              (take chunk_size (cw_chunk_buf w)) in
        write_full_chunks chunk_size fuel
          (mk_chunk_writer (drop chunk_size (cw_chunk_buf w)) (S (cw_chunk_index w)) files
             (cw_chunks w ++ [ci]))
      else w
  | O => w
  end.

Definition push_chunk_data (chunk_size : nat) (w : chunk_writer) (piece : bytes) : chunk_writer :=
  let buf := cw_chunk_buf w ++ piece in
  write_full_chunks chunk_size (length buf)
    (mk_chunk_writer buf (cw_chunk_index w) (cw_files w) (cw_chunks w)).

(** The remaining partial chunk, and one empty chunk for an empty object. *)
Definition finish_chunks (w : chunk_writer) : gmap nat bytes * list ChunkInfo :=
  let '(files, chunks) :=
    match cw_chunk_buf w with
    | [] => (cw_files w, cw_chunks w)
    | buf => let '(files, ci) := write_chunk_file (cw_files w) (cw_chunk_index w) buf in
             (files, cw_chunks w ++ [ci])
    end in
  match chunks with
  | [] => let '(files, ci) := write_chunk_file files 0 [] in (files, [ci])
  | _ => (files, chunks)
  end.

(** Reading the data shards back, padded. *)
Fixpoint read_data_shards (files : gmap nat bytes) (shard_size : nat) (data_chunks : list ChunkInfo)
    : result StorageError (list bytes) :=
  match data_chunks with
  | [] => Ok []
  | ci :: l =>
      data ← map_err Io (dir_of files (Z.to_nat (ci_index ci)));
      rest ← read_data_shards files shard_size l;
      Ok (resize shard_size x00 data :: rest)
  end.

(** [for i in 0..m { ... }]: parity shards from index [i] on. *)
Fixpoint write_parity (files : gmap nat bytes) (i : nat) (parity : list bytes)
    : gmap nat bytes * list ChunkInfo :=
  match parity with
  | [] => (files, [])
  | shard :: parity =>
      let '(files, ci) := write_chunk_file files i shard in
      let '(files, infos) := write_parity files (S i) parity in
      (files, into_parity ci :: infos)
  end.

Definition compute_and_write_parity_from (chunk_size parity_shards : nat) (files : gmap nat bytes)
    (data_chunks : list ChunkInfo) : result StorageError (gmap nat bytes * list ChunkInfo) :=
  let k := length data_chunks in
  let m := parity_shards in
  if 255 <? k + m then
    Err (InvalidKey ("too many shards: " +:+ pretty k +:+ " data + " +:+ pretty m
           +:+ " parity = " +:+ pretty (k + m) +:+ " > 255 (GF(2^8) limit). Increase --chunk-size"))
  else
    data_shards ← read_data_shards files chunk_size data_chunks;
    let all_shards := data_shards ++ replicate m (replicate chunk_size x00) in
    _ ← map_err (fun e => InvalidKey ("Reed-Solomon init error: " +:+ e)) (rs_new k m);
    all_shards ← map_err (fun e => InvalidKey ("Reed-Solomon encode error: " +:+ e))
                   (rs_encode k m all_shards);
    Ok (write_parity files k (take m (drop k all_shards))).

(** The end of [put_object_chunked]: parity, then the manifest. *)
Definition finish_ec_object (chunk_size parity_shards total_size : nat) (plaintext_size : option nat)
    (w : chunk_writer) : result StorageError (gmap nat bytes * ChunkManifest) :=
  let '(files, chunks) := finish_chunks w in
  let data_chunk_count := length chunks in
  let has_parity := (0 <? parity_shards) && (0 <? total_size) in
  '(files, chunks) ← (if has_parity then
      '(files, parity_infos) ← compute_and_write_parity_from chunk_size parity_shards files chunks;
      Ok (files, chunks ++ parity_infos)
    else Ok (files, chunks));
  Ok (files,
      mk_ChunkManifest (if has_parity then 2 else 1)%Z (Z.of_nat total_size) (Z.of_nat chunk_size)
        (Z.of_nat data_chunk_count) chunks
        (if has_parity then Some (Z.of_nat parity_shards) else None)
        (if has_parity then Some (Z.of_nat chunk_size) else None)
        (Z.of_nat <$> plaintext_size)).

(** The data path of [put_object_chunked]: the loop over the body's pieces,
    then the above. *)
Definition write_ec_object {R} `{AsyncRead R} (chunk_size parity_shards cap fuel : nat) (body : R)
    : option (result StorageError (gmap nat bytes * ChunkManifest)) :=
  match pump cap map_read_quota_error
          (fun '(total, w) piece => Ok (total + length piece, push_chunk_data chunk_size w piece))
          fuel (0, chunk_writer_new) body with
  | Some (Ok (total, w)) => Some (finish_ec_object chunk_size parity_shards total None w)
  | Some (Err e) => Some (Err e)
  | None => None
  end.
End writer.

(** ** What has been written *)

Section writer_spec.
Context `{Sha256Hex} `{ReedSolomonSpec}.

Definition data_info (i : nat) (d : bytes) : ChunkInfo :=
  mk_ChunkInfo (Z.of_nat i) (Z.of_nat (length d)) (sha256_hex d) Data.

(** The directory holds the shards [l], in order, and nothing else. *)
Definition holds (files : gmap nat bytes) (l : list bytes) : Prop := forall i, files !! i = l !! i.

Record written (w : chunk_writer) (l : list bytes) : Prop := {
  wr_files : holds (cw_files w) l;
  wr_index : cw_chunk_index w = length l;
  wr_chunks : cw_chunks w = imap data_info l;
}.

Lemma holds_snoc files l d : holds files l -> holds (<[length l := d]> files) (l ++ [d]).
Proof.
  intros Hf i. destruct (decide (i = length l)) as [->|Hi].
  - by rewrite lookup_insert_eq, list_lookup_middle.
  - rewrite lookup_insert_ne, Hf by done.
    destruct (decide (i < length l)) as [|Hge]; [by rewrite lookup_app_l|].
    rewrite !lookup_ge_None_2; [done| |lia]. rewrite length_app. cbn. lia.
Qed.

Lemma write_full_chunks_spec cz fuel w l :
  0 < cz -> written w l -> length (cw_chunk_buf w) <= fuel ->
  exists l', let w' := write_full_chunks cz fuel w in
    written w' l' /\ length (cw_chunk_buf w') < cz /\
    forall tail, l' ++ chunks cz (cw_chunk_buf w' ++ tail) = l ++ chunks cz (cw_chunk_buf w ++ tail).
Proof.
  intros Hcz. revert w l. induction fuel as [|fuel IH]; intros w l Hw Hf; cbn [write_full_chunks].
  { exists l. split_and!; [done|lia|done]. }
  destruct (Nat.leb_spec cz (length (cw_chunk_buf w))) as [Hle|Hlt]; [|by exists l].
  destruct Hw as [Hfiles Hidx Hch]. cbn [write_chunk_file].
  destruct (IH (mk_chunk_writer (drop cz (cw_chunk_buf w)) (S (cw_chunk_index w))
                  (<[cw_chunk_index w:=take cz (cw_chunk_buf w)]> (cw_files w))
                  (cw_chunks w ++ [data_info (cw_chunk_index w) (take cz (cw_chunk_buf w))]))
               (l ++ [take cz (cw_chunk_buf w)])) as (l' & Hw' & Hl' & Ht).
  - constructor; cbn [cw_files cw_chunk_index cw_chunks].
    + rewrite Hidx. by apply holds_snoc.
    + rewrite length_app. cbn. lia.
    + rewrite imap_app, Hch, Hidx. cbn. by rewrite Nat.add_0_r.
  - cbn. rewrite length_drop. lia.
  - exists l'. split_and!; [done..|]. intros tail. rewrite Ht. cbn [cw_chunk_buf].
    rewrite <-(take_drop cz (cw_chunk_buf w)) at 3. rewrite <-!app_assoc.
    by rewrite (chunks_app cz (take cz (cw_chunk_buf w))) by (try rewrite length_take; lia).
Qed.

(** The loop over the pieces of a body. *)
Lemma chunking_loop_spec cz total w l pieces :
  0 < cz -> written w l -> length (cw_chunk_buf w) < cz ->
  exists w' l',
    fold_result (E := StorageError)
      (fun '(total, w) piece => Ok (total + length piece, push_chunk_data cz w piece)) (total, w) pieces
    = Ok (total + length (concat pieces), w') /\
    written w' l' /\ length (cw_chunk_buf w') < cz /\
    l' ++ chunks cz (cw_chunk_buf w') = l ++ chunks cz (cw_chunk_buf w ++ concat pieces).
Proof.
  intros Hcz. revert total w l. induction pieces as [|p pieces IH]; intros total w l Hw Hb.
  { exists w, l. cbn. rewrite Nat.add_0_r, app_nil_r. done. }
  cbn [fold_result]. destruct (write_full_chunks_spec cz (length (cw_chunk_buf w ++ p))
    (mk_chunk_writer (cw_chunk_buf w ++ p) (cw_chunk_index w) (cw_files w) (cw_chunks w)) l)
    as (l1 & Hw1 & Hb1 & Ht1); [done|by destruct Hw|done|].
  destruct (IH (total + length p) (push_chunk_data cz w p) l1) as (w' & l' & Hfold & Hw' & Hb' & Ht'); [exact Hw1|exact Hb1|].
  exists w', l'. cbn [mbind result_bind]. rewrite Hfold. split_and!; [|done..|].
  - cbn [concat]. rewrite length_app. do 2 f_equal. lia.
  - rewrite Ht'. unfold push_chunk_data. rewrite Ht1. cbn [cw_chunk_buf concat]. by rewrite <-app_assoc.
Qed.

(** The data chunks of an object: at least one, even if empty. *)
Definition data_chunks (cz : nat) (data : bytes) : list bytes :=
  match chunks cz data with [] => [[]] | l => l end.

Lemma finish_chunks_spec cz w l data :
  0 < cz -> written w l -> length (cw_chunk_buf w) < cz ->
  l ++ chunks cz (cw_chunk_buf w) = chunks cz data ->
  exists files, finish_chunks w = (files, imap data_info (data_chunks cz data)) /\
    holds files (data_chunks cz data).
Proof.
  intros Hcz [Hf Hi Hc] Hb Hl. unfold finish_chunks, data_chunks. rewrite <-Hl, Hc, Hi.
  destruct (cw_chunk_buf w) as [|b buf] eqn:E.
  - rewrite chunks_nil, app_nil_r. destruct l as [|d l]; [|by eexists].
    eexists. split; [done|]. apply (holds_snoc (cw_files w) [] []). done.
  - rewrite chunks_small by (done || lia). cbn [write_chunk_file].
    assert (Hs : imap data_info l ++ [data_info (length l) (b :: buf)] = imap data_info (l ++ [b :: buf])).
    { rewrite imap_app. cbn. by rewrite Nat.add_0_r. }
    exists (<[length l := b :: buf]> (cw_files w)). unfold data_info at 2 in Hs. rewrite Hs.
    destruct l as [|d l]; cbn; (split; [reflexivity|]).
    + by apply (holds_snoc (cw_files w) []).
    + by apply (holds_snoc (cw_files w) (d :: l)).
Qed.

Lemma read_data_shards_ok files ss j l :
  (forall i d, l !! i = Some d -> files !! (j + i) = Some d) ->
  read_data_shards files ss (imap (fun i d => data_info (j + i) d) l) = Ok (map (resize ss x00) l).
Proof.
  revert j. induction l as [|d l IH]; intros j Hl; [done|].
  cbn [imap read_data_shards map]. rewrite Nat.add_0_r.
  unfold dir_of at 1. cbn [data_info ci_index]. rewrite Nat2Z.id.
  rewrite <-(Nat.add_0_r j) at 1. rewrite (Hl 0 d eq_refl). cbn [ok_or map_err mbind result_bind].
  rewrite (imap_ext _ (fun i d => data_info (S j + i) d)) by (intros; cbn; by rewrite Nat.add_succ_r).
  rewrite IH; [done|]. intros i d' Hi. rewrite Nat.add_succ_comm. by apply Hl.
Qed.

Lemma write_parity_spec files l parity :
  holds files l ->
  exists files', write_parity files (length l) parity =
      (files', imap (fun i d => into_parity (data_info (length l + i) d)) parity) /\
    holds files' (l ++ parity).
Proof.
  revert files l. induction parity as [|d parity IH]; intros files l Hl.
  { exists files. by rewrite app_nil_r. }
  destruct (IH (<[length l := d]> files) (l ++ [d])) as (files' & Hw & Hh); [by apply holds_snoc|].
  exists files'. cbn [write_parity write_chunk_file imap].
  rewrite length_app in Hw. cbn [length] in Hw. rewrite Nat.add_1_r in Hw. rewrite Hw, Nat.add_0_r.
  rewrite <-app_assoc in Hh. split; [|done]. do 2 f_equal.
  apply imap_ext. intros. cbn. by rewrite Nat.add_succ_r.
Qed.

Lemma compute_parity_spec cz m files cs :
  0 < cz -> length cs + m <= 255 -> rs_new (length cs) m = Ok tt -> holds files cs ->
  exists files' ps,
    compute_and_write_parity_from cz m files (imap data_info cs) =
      Ok (files', imap (fun i d => into_parity (data_info (length cs + i) d)) ps) /\
    holds files' (cs ++ ps) /\ length ps = m /\ Forall (fun d => length d = cz) ps /\
    exists blank, length blank = m /\ Forall (fun d => length d = cz) blank /\
      rs_encode (length cs) m (map (resize cz x00) cs ++ blank) = Ok (map (resize cz x00) cs ++ ps).
Proof.
  intros Hcz Hk Hnew Hh. unfold compute_and_write_parity_from. rewrite length_imap.
  rewrite (proj2 (Nat.ltb_ge _ _) Hk).
  assert (Hrd : read_data_shards files cz (imap data_info cs) = Ok (map (resize cz x00) cs)).
  { apply (read_data_shards_ok files cz 0 cs). intros i d Hi. by rewrite Hh. }
  rewrite Hrd. cbn [mbind result_bind]. rewrite Hnew. cbn [map_err].
  set (blank := replicate m (replicate cz x00)).
  assert (Hb : length blank = m /\ Forall (fun d : bytes => length d = cz) blank).
  { split; [apply length_replicate|]. apply Forall_replicate, length_replicate. }
  assert (Hall : Forall (fun d => length d = cz) (map (resize cz x00) cs ++ blank)).
  { apply Forall_app. split; [|apply Hb]. apply Forall_map, Forall_true. intros. apply length_resize. }
  destruct (rs_encode_ok (length cs) m cz (map (resize cz x00) cs ++ blank)) as (ps & He & Hl & Hps); try done.
  { rewrite length_app, length_map. by destruct Hb as [-> _]. }
  assert (Hlm : length (map (resize cz x00) cs) = length cs) by apply length_map.
  rewrite take_app_length' in He by done.
  rewrite He. cbn [map_err mbind result_bind]. rewrite drop_app_length' by done.
  rewrite take_ge by lia.
  destruct (write_parity_spec files cs ps Hh) as (files' & -> & Hh').
  exists files', ps. split_and!; try done. exists blank. by split_and!; [apply Hb..|].
Qed.

Lemma infos_describe (f : nat -> bytes -> ChunkInfo) l :
  (forall i d, ci_size (f i d) = Z.of_nat (length d) /\ ci_sha256 (f i d) = sha256_hex d) ->
  Forall2 (fun info d => ci_size info = Z.of_nat (length d) /\ ci_sha256 info = sha256_hex d) (imap f l) l.
Proof.
  revert f. induction l as [|d l IH]; intros f Hf; cbn; constructor; [done|]. apply IH. intros; apply Hf.
Qed.

Lemma data_chunks_length cz data :
  0 < cz -> Forall (fun d => length d <= cz) (data_chunks cz data).
Proof.
  intros Hcz. unfold data_chunks. destruct (chunks cz data) as [|c l] eqn:E.
  { repeat constructor. cbn. lia. }
  rewrite <-E. apply Forall_lookup. intros i d Hi.
  apply chunks_lookup_length in Hi as [-> _]; lia.
Qed.

(** The manifest of a finished object describes what was written. *)
Lemma finish_ec_object_spec cz m pt w l data :
  0 < cz -> written w l -> length (cw_chunk_buf w) < cz ->
  l ++ chunks cz (cw_chunk_buf w) = chunks cz data ->
  (0 < m -> 0 < length data ->
     length (data_chunks cz data) + m <= 255 /\ rs_new (length (data_chunks cz data)) m = Ok tt) ->
  exists files manifest ps,
    finish_ec_object cz m (length data) pt w = Ok (files, manifest) /\
    manifest_of manifest (data_chunks cz data) ps /\ holds files (data_chunks cz data ++ ps) /\
    length ps = (if length data =? 0 then 0 else m) /\
    cm_total_size manifest = Z.of_nat (length data) /\ cm_chunk_size manifest = Z.of_nat cz /\
    cm_plaintext_size manifest = Z.of_nat <$> pt.
Proof.
  intros Hcz Hw Hb Hl Hk. unfold finish_ec_object.
  destruct (finish_chunks_spec cz w l data) as (files & -> & Hh); [done..|].
  set (cs := data_chunks cz data) in *. rewrite length_imap.
  destruct ((0 <? m) && (0 <? length data)) eqn:Ep; bool_to_prop.
  - destruct Hk as [Hk Hnew]; [done..|].
    destruct (compute_parity_spec cz m files cs) as (files' & ps & -> & Hh' & Hlp & Hps & Hcode); [done..|].
    cbn [mbind result_bind].
    eexists _, _, ps. split; [reflexivity|]. split_and!; try done.
    + constructor; cbn [cm_chunks cm_chunk_count cm_parity_shards cm_shard_size cm_chunk_size default].
      * apply Forall2_app; by apply infos_describe.
      * done.
      * by rewrite Hlp.
      * intros _. cbn. rewrite Nat2Z.id, Hlp. split_and!; try done. by apply data_chunks_length.
    + rewrite (proj2 (Nat.eqb_neq _ _)); lia.
  - cbn [mbind result_bind]. eexists _, _, []. split; [reflexivity|]. rewrite app_nil_r. split_and!; try done.
    + constructor; cbn [cm_chunks cm_chunk_count cm_parity_shards]; try done.
      rewrite app_nil_r. by apply infos_describe.
    + apply andb_false_iff in Ep. cbn.
      destruct (Nat.eqb_spec (length data) 0); [done|]. destruct Ep; bool_to_prop; lia.
Qed.
End writer_spec.

(** ** Reading an object back *)

Section readback.
Context `{Sha256Hex} `{ReedSolomonSpec}.

Lemma chunk_stream_ok dir manifest cs n c skip rem :
  (forall i d, cs !! i = Some d -> load_chunk dir manifest i = Ret (Ok d)) ->
  c + n <= length cs -> (n <> 0 -> skip <= length (default [] (cs !! c))) ->
  chunk_stream dir manifest n c skip rem = (take rem (drop skip (concat (take n (drop c cs)))), Eof).
Proof.
  intros Hload. revert c skip rem. induction n as [|n IH]; intros c skip rem Hn Hskip.
  { rewrite take_0. cbn [concat]. by rewrite drop_nil, take_nil. }
  cbn [chunk_stream]. destruct (Nat.eqb_spec rem 0) as [->|Hrem]; [done|].
  destruct (lookup_lt_is_Some_2 cs c) as [d Hd]; [lia|].
  rewrite (Hload _ _ Hd), (drop_S cs d c Hd). rewrite Hd in Hskip. cbn in Hskip.
  rewrite (proj2 (Nat.ltb_ge _ _)) by (apply Hskip; lia).
  rewrite IH by lia. cbn [take concat fst snd].
  rewrite slice_app. do 3 f_equal. rewrite (proj2 (Nat.sub_0_le skip (length d))); [done|]. apply Hskip. lia.
Qed.

Lemma concat_data_chunks cz data : 0 < cz -> concat (data_chunks cz data) = data.
Proof.
  intros Hcz. unfold data_chunks. destruct (chunks cz data) as [|c l] eqn:E.
  - rewrite <-(concat_chunks cz data), E by done. done.
  - rewrite <-E. by apply concat_chunks.
Qed.

Lemma data_chunks_nonempty cz data : data <> [] -> 0 < cz -> data_chunks cz data = chunks cz data.
Proof. intros Hd Hcz. unfold data_chunks. by rewrite chunks_step. Qed.

Lemma whole_object_stream dir manifest cz data ps :
  0 < cz -> manifest_of manifest (data_chunks cz data) ps ->
  cm_total_size manifest = Z.of_nat (length data) ->
  (forall i d, data_chunks cz data !! i = Some d -> load_chunk dir manifest i = Ret (Ok d)) ->
  stream (chunk_reader_new dir manifest) = (data, Eof).
Proof.
  intros Hcz Hm Ht Hload. unfold stream, chunk_reader_new. cbn -[chunk_stream].
  rewrite Ht, (mo_count _ _ _ Hm), !Nat2Z.id.
  destruct (Nat.eqb_spec (length data) 0) as [E|E]; [by destruct data|].
  assert (Hlen : length (data_chunks cz data) <> 0).
  { unfold data_chunks. by destruct (chunks cz data). }
  rewrite (chunk_stream_ok dir manifest (data_chunks cz data)); [|done|lia|lia].
  rewrite !drop_0. do 2 f_equal. rewrite (take_ge (data_chunks cz data)) by lia.
  rewrite concat_data_chunks by done. apply take_ge. lia.
Qed.

Lemma range_stream dir manifest cz data ps off len :
  0 < cz -> manifest_of manifest (data_chunks cz data) ps ->
  cm_total_size manifest = Z.of_nat (length data) -> cm_chunk_size manifest = Z.of_nat cz ->
  (Z.of_nat (length data) < 2 ^ 32 * Z.of_nat cz)%Z ->
  (forall i d, data_chunks cz data !! i = Some d -> load_chunk dir manifest i = Ret (Ok d)) ->
  off + len <= length data ->
  exists r, with_range dir manifest off len = Ret r /\ stream r = (take len (drop off data), Eof).
Proof.
  intros Hcz Hm Ht Hc Hbound Hload Hr. unfold with_range. rewrite Ht, Hc, Nat2Z.id.
  destruct (Nat.eqb_spec len 0) as [->|Hlen]; [by eexists|].
  destruct (Z.eqb_spec (Z.of_nat (length data)) 0) as [|Hne]; [lia|]. cbn [orb].
  rewrite (proj2 (Nat.eqb_neq _ _)) by lia. eexists. split; [done|].
  assert (Hd : data <> []) by (by intros ->).
  rewrite data_chunks_nonempty in Hload by done.
  assert (Hu32 : forall x, x < length data -> as_u32 (x / cz) = x / cz).
  { intros x Hx. unfold as_u32. rewrite Z.mod_small; [by rewrite Nat2Z.id|].
    rewrite Nat2Z.inj_div. split; [apply Z.div_pos; lia|].
    apply Z.div_lt_upper_bound; [lia|]. lia. }
  unfold stream. cbn -[chunk_stream]. rewrite !Hu32 by lia.
  set (s := off / cz). set (e := (off + len - 1) / cz).
  pose proof (Nat.div_mod_eq off cz) as Hs. pose proof (Nat.mod_upper_bound off cz) as Hsm.
  pose proof (Nat.div_mod_eq (off + len - 1) cz) as He. pose proof (Nat.mod_upper_bound (off + len - 1) cz) as Hem.
  fold s in Hs. fold e in He.
  assert (Hse : s <= e) by (apply Nat.Div0.div_le_mono; lia).
  assert (Hel : e < length (chunks cz data)) by (apply chunks_lt; lia).
  rewrite (chunk_stream_ok dir manifest (chunks cz data)); [|done|lia|].
  - rewrite drop_chunks, concat_take_chunks by done. f_equal.
    replace ((e + 1 - s) * cz) with (off mod cz + ((e + 1 - s) * cz - off mod cz)) by nia.
    rewrite <-take_drop_commute, take_take, drop_drop.
    replace (s * cz + off mod cz) with off by lia. f_equal. nia.
  - intros _. destruct (lookup_lt_is_Some_2 (chunks cz data) s) as [d Hd']; [lia|].
    rewrite Hd'. cbn. apply chunks_lookup_length in Hd' as [-> ?]; [|done]. nia.
Qed.

Lemma chunk_stream_safe dir manifest cs n c skip rem :
  (forall i d, cs !! i = Some d ->
     load_chunk dir manifest i = Ret (Ok d) \/ exists e, load_chunk dir manifest i = Ret (Err e)) ->
  c + n <= length cs -> (n <> 0 -> skip <= length (default [] (cs !! c))) ->
  let full := take rem (drop skip (concat (take n (drop c cs)))) in
  let r := chunk_stream dir manifest n c skip rem in
  r = (full, Eof) \/ exists x, snd r = Fail x /\ fst r `prefix_of` full.
Proof.
  intros Hload. cbn zeta. revert c skip rem. induction n as [|n IH]; intros c skip rem Hn Hskip.
  { left. rewrite take_0. cbn [concat]. by rewrite drop_nil, take_nil. }
  cbn [chunk_stream]. destruct (Nat.eqb_spec rem 0) as [->|Hrem]; [by left|].
  destruct (lookup_lt_is_Some_2 cs c) as [d Hd]; [lia|].
  destruct (Hload _ _ Hd) as [-> | [x ->]]; [|right; exists x; split; [done|apply prefix_nil]].
  rewrite (drop_S cs d c Hd). rewrite Hd in Hskip. cbn in Hskip.
  rewrite (proj2 (Nat.ltb_ge _ _)) by (apply Hskip; lia). cbn [take concat].
  rewrite slice_app, (proj2 (Nat.sub_0_le skip (length d))) by (apply Hskip; lia).
  destruct (IH (S c) 0 (rem - length (take rem (drop skip d)))) as [-> | (x & -> & Hp)]; [lia|lia| |].
  - by left.
  - right. exists x. split; [done|]. by apply prefix_app.
Qed.
End readback.

(** C27: an erasure-coded object survives the loss or corruption of as many
    shards as it has parity.  [put_object_chunked] cuts the body, however it
    arrives, into chunks and writes them with their parity; as long as any [k]
    of the [k + m] files are intact, and no corrupt file collides with a
    checksum, the verified reader delivers the whole body, and any range of it
    on a range read, with any buffers. *)
Theorem ec_object_survives `{Sha256Hex} `{ReedSolomonSpec} {B} `{!AsyncRead B} `{!ReaderSpec B}
    cz m cap (body : B) data :
  0 < cz -> 0 < cap -> reads body data Eof ->
  (Z.of_nat (length data) < 2 ^ 32 * Z.of_nat cz)%Z ->
  (0 < m -> 0 < length data ->
     length (data_chunks cz data) + m <= 255 /\ rs_new (length (data_chunks cz data)) m = Ok tt) ->
  exists files manifest all,
    write_ec_object cz m cap (S (length data + patience body)) body = Some (Ok (files, manifest)) /\
    holds files all /\
    length all = length (data_chunks cz data) + (if length data =? 0 then 0 else m) /\
    forall dir, honest dir all -> length (data_chunks cz data) <= intact dir all ->
      reads (chunk_reader_new dir manifest) data Eof /\
      forall off len, off + len <= length data ->
        exists r, with_range dir manifest off len = Ret r /\ reads r (take len (drop off data)) Eof.
Proof.
  intros Hcz Hcap Hb Hbound Hk. unfold write_ec_object.
  destruct (pump_reads cap map_read_quota_error
    (fun '(total, w) piece => Ok (total + length piece, push_chunk_data cz w piece))
    (S (length data + patience body)) (0, chunk_writer_new) body data Eof)
    as (pieces & <- & ->); [done|done|lia|].
  destruct (chunking_loop_spec cz 0 chunk_writer_new [] pieces) as (w & l & -> & Hw & Hbuf & Hl);
    [done|by split; [intros i; apply lookup_empty| |]|cbn; lia|].
  destruct (finish_ec_object_spec cz m None w l (concat pieces))
    as (files & manifest & ps & Hfin & Hm & Hh & Hlen & Ht & Hc & _); [done..|].
  exists files, manifest, (data_chunks cz (concat pieces) ++ ps).
  split; [by rewrite <-Hfin|]. split; [done|]. split; [rewrite length_app; lia|].
  intros dir Hhon Hint. split.
  - apply (whole_object_stream dir manifest cz (concat pieces) ps); try done.
    intros. by eapply load_chunk_ok.
  - intros off len Hol. apply (range_stream dir manifest cz (concat pieces) ps); try done.
    intros. by eapply load_chunk_ok.
Qed.

(** C28: damage is never served as data.  Whatever happened to the files of an
    object (short of a checksum collision), reading it back delivers the body,
    or a prefix of it followed by an error. *)
Theorem ec_read_is_never_wrong `{Sha256Hex} `{ReedSolomonSpec} dir manifest cz data ps out e :
  0 < cz -> manifest_of manifest (data_chunks cz data) ps ->
  cm_total_size manifest = Z.of_nat (length data) -> honest dir (data_chunks cz data ++ ps) ->
  reads (chunk_reader_new dir manifest) out e ->
  (out = data /\ e = Eof) \/ (out `prefix_of` data /\ exists x, e = Fail x).
Proof.
  intros Hcz Hm Ht Hh Hr. cbn in Hr. unfold stream, chunk_reader_new in Hr. cbn -[chunk_stream] in Hr.
  rewrite Ht, (mo_count _ _ _ Hm), !Nat2Z.id in Hr.
  destruct (Nat.eqb_spec (length data) 0) as [E|E].
  { injection Hr as <- <-. left. by destruct data. }
  assert (Hlen : length (data_chunks cz data) <> 0).
  { unfold data_chunks. by destruct (chunks cz data). }
  destruct (chunk_stream_safe dir manifest (data_chunks cz data) (length (data_chunks cz data) - 1 + 1 - 0)
    0 0 (length data)) as [Hs|(x & Hx & Hp)].
  - intros. by eapply load_chunk_safe.
  - lia.
  - lia.
  - left. rewrite Hr in Hs. injection Hs as -> ->.
    rewrite !drop_0, (take_ge (data_chunks cz data)), concat_data_chunks, take_ge by (done || lia). done.
  - right. rewrite Hr in Hx, Hp. cbn in Hx, Hp. subst e. split; [|by exists x].
    rewrite !drop_0, (take_ge (data_chunks cz data)), concat_data_chunks, take_ge in Hp by (done || lia). done.
Qed.

(** ** The theorems at concrete inputs *)

(** Losing one file leaves all the other shards intact. *)
Lemma intact_but_one dir all j : (forall i d, all !! i = Some d -> i <> j -> dir i = Ok d) -> length all <= S (intact dir all).
Proof.
  intros Hd. unfold intact.
  assert (G : forall l o, (forall i d, l !! i = Some d -> o + i <> j -> dir (o + i) = Ok d) ->
    length l <= (if j <? o then 0 else 1) +
      length (filter (fun x : nat * bytes => dir x.1 = Ok x.2) (imap (fun i d => (o + i, d)) l))).
  { induction l as [|d l IH]; intros o Hl; [cbn; lia|]. cbn [imap length].
    rewrite (imap_ext _ (fun i d => (S o + i, d))) by (intros; cbn; f_equal; lia).
    specialize (IH (S o) ltac:(intros i d' Hi; rewrite Nat.add_succ_comm; by apply Hl)).
    pose proof (Hl 0 d eq_refl) as Hd0. rewrite Nat.add_0_r in *. rewrite filter_cons. cbn [fst snd].
    destruct (decide (o = j)) as [->|Hne].
    - rewrite (proj2 (Nat.ltb_lt j (S j))) in IH by lia. rewrite Nat.ltb_irrefl.
      case_decide; cbn [length]; lia.
    - rewrite decide_True by (by apply Hd0).
      cbn [length]. destruct (Nat.ltb_spec j o), (Nat.ltb_spec j (S o)); lia. }
  exact (G all 0 Hd).
Qed.
Lemma intact_delete files all j :
  holds files all -> length all <= S (intact (dir_of (delete j files)) all).
Proof.
  intros Hh. apply (intact_but_one _ _ j). intros i d Hi Hj. unfold dir_of. by rewrite lookup_delete_ne, Hh, Hi.
Qed.

Import ErasureCode.Xor.

Module EcWitness.
#[export] Instance toy_sha : Sha256Hex := String.string_of_list_byte.

Lemma toy_honest dir all : honest dir all.
Proof.
  intros i d d' _ _ E. apply (f_equal String.list_byte_of_string) in E.
  by rewrite !String.list_byte_of_string_of_list_byte in E.
Qed.

Definition data : bytes := [x61; x62; x63; x64; x65].
End EcWitness.
Import EcWitness.

Lemma ec_object_survives_witness :
  exists files manifest,
    write_ec_object 2 1 3 6 (mk_source EcWitness.data Eof []) = Some (Ok (files, manifest)) /\
    reads (chunk_reader_new (dir_of (delete 1 files)) manifest) EcWitness.data Eof.
Proof.
  destruct (ec_object_survives 2 1 3 (mk_source EcWitness.data Eof []) EcWitness.data)
    as (files & manifest & all & E & Hh & Hl & Hd).
  - lia.
  - lia.
  - by split.
  - cbn. lia.
  - intros _ _. split; [cbn; lia|reflexivity].
  - exists files, manifest. split; [exact E|]. apply Hd; [apply EcWitness.toy_honest|].
    pose proof (intact_delete files all 1 Hh) as Hi. cbn in Hl |- *. lia.
Defined.

Lemma ec_read_is_never_wrong_witness :
  let manifest := mk_ChunkManifest 1 5 2 3
    [mk_ChunkInfo 0 2 "ab" Data; mk_ChunkInfo 1 2 "cd" Data; mk_ChunkInfo 2 1 "e" Data] None None None in
  let dir := fun i => match i with 0 => Ok [x61; x62] | _ => Ok [x63; x65] end in
  let r := stream (chunk_reader_new dir manifest) in
  (r.1 = EcWitness.data /\ r.2 = Eof) \/ (r.1 `prefix_of` EcWitness.data /\ exists x, r.2 = Fail x).
Proof.
  intros manifest dir r.
  apply (ec_read_is_never_wrong dir manifest 2 EcWitness.data [] r.1 r.2).
  - lia.
  - constructor; [|reflexivity|reflexivity|by intros []]. repeat constructor.
  - reflexivity.
  - apply EcWitness.toy_honest.
  - cbn. apply surjective_pairing.
Defined.
