(* ===== verification/EncryptedEc.v ===== *)
(** * Encrypted, erasure-coded objects

    The encrypt-then-chunk loop of [put_object_chunked_encrypted] in
    [filesystem/object_io.rs], and the read path of [get_object] and
    [get_object_range] for such objects: a frame decryptor over a verified
    chunk reader. *)

From stdpp Require Import base list gmap numbers strings pretty.
From Stdlib Require Import ZArith Lia Strings.Byte.
From S2P Require Import Prelude Bytes Reader Types Quota Crypto ErasureCode ChunkReader ChunkWriter.

Local Open Scope nat_scope.

Section writer.
Context `{Sha256Hex} `{Aead}.
Context (frame_size chunk_size : nat) (cipher prefix : bytes) (aad : nat -> bytes).

(** The variables of the loop. [ew_chunks] holds [chunk_buf],
    [chunk_index], the directory and [chunks]. *)
Record ec_writer : Type := mk_ec_writer {
  ew_plaintext_size : nat;
  ew_ct_size : nat;
  ew_frame_index : nat;
  ew_frame_buf : bytes;
  ew_chunks : chunk_writer;
}.

(** [while chunk_buf.len() >= self.chunk_size], counting the bytes drained. *)
Fixpoint drain_full_chunks (fuel ct_size : nat) (w : chunk_writer) : nat * chunk_writer :=
  match fuel with
  | S fuel =>
      if chunk_size <=? length (cw_chunk_buf w) then
        let chunk_data := take chunk_size (cw_chunk_buf w) in
        let '(files, ci) := write_chunk_file (cw_files w) (cw_chunk_index w) chunk_data in
        drain_full_chunks fuel (ct_size + length chunk_data)
          (mk_chunk_writer (drop chunk_size (cw_chunk_buf w)) (S (cw_chunk_index w)) files
             (cw_chunks w ++ [ci]))
      else (ct_size, w)
  | O => (ct_size, w)
  end.

Definition extend_chunk_buf (w : chunk_writer) (ct : bytes) : chunk_writer :=
  mk_chunk_writer (cw_chunk_buf w ++ ct) (cw_chunk_index w) (cw_files w) (cw_chunks w).

(** [while frame_buf.len() >= FRAME_CHUNK_SIZE]. *)
Fixpoint push_full_frames (fuel : nat) (w : ec_writer) : result StorageError ec_writer :=
  match fuel with
  | S fuel =>
      if frame_size <=? length (ew_frame_buf w) then
        ct ← encrypt_frame_to_vec cipher prefix (ew_frame_index w)
               (take frame_size (ew_frame_buf w)) (aad (ew_frame_index w));
        let cw := extend_chunk_buf (ew_chunks w) ct in
        let '(ct_size, cw) := drain_full_chunks (length (cw_chunk_buf cw)) (ew_ct_size w) cw in
        push_full_frames fuel
          (mk_ec_writer (ew_plaintext_size w) ct_size (S (ew_frame_index w))
             (drop frame_size (ew_frame_buf w)) cw)
      else Ok w
  | O => Ok w
  end.

Definition push_body (w : ec_writer) (piece : bytes) : result StorageError ec_writer :=
  let buf := ew_frame_buf w ++ piece in
  push_full_frames (length buf)
    (mk_ec_writer (ew_plaintext_size w + length piece) (ew_ct_size w) (ew_frame_index w) buf (ew_chunks w)).

(** The end of the body: the partial frame, the full chunks, the remainder. *)
Definition flush_body (w : ec_writer) : result StorageError (nat * chunk_writer) :=
  cw ← match ew_frame_buf w with
       | [] => Ok (ew_chunks w)
       | buf => ct ← encrypt_frame_to_vec cipher prefix (ew_frame_index w) buf (aad (ew_frame_index w));
                Ok (extend_chunk_buf (ew_chunks w) ct)
       end;
  let '(ct_size, cw) := drain_full_chunks (length (cw_chunk_buf cw)) (ew_ct_size w) cw in
  Ok (ct_size + length (cw_chunk_buf cw), cw).

Definition write_encrypted_ec_object `{ReedSolomon} {R} `{AsyncRead R} (parity_shards cap fuel : nat) (body : R)
    : option (result StorageError (gmap nat bytes * ChunkManifest)) :=
  match pump cap map_read_quota_error push_body fuel (mk_ec_writer 0 0 0 [] chunk_writer_new) body with
  | Some (Ok w) =>
      Some ('(ct_size, cw) ← flush_body w;
            finish_ec_object chunk_size parity_shards ct_size (Some (ew_plaintext_size w)) cw)
  | Some (Err e) => Some (Err e)
  | None => None
  end.

Hypothesis frame_size_pos : 0 < frame_size.
Hypothesis chunk_size_pos : 0 < chunk_size.

Lemma drain_full_chunks_eq fuel ct_size w :
  drain_full_chunks fuel ct_size w =
  (ct_size + (length (cw_chunk_buf w) - length (cw_chunk_buf (write_full_chunks chunk_size fuel w))),
   write_full_chunks chunk_size fuel w) /\
  length (cw_chunk_buf (write_full_chunks chunk_size fuel w)) <= length (cw_chunk_buf w).
Proof.
  revert ct_size w. induction fuel as [|fuel IH]; intros ct_size w; cbn [drain_full_chunks write_full_chunks].
  { split; [f_equal; lia|done]. }
  destruct (Nat.leb_spec chunk_size (length (cw_chunk_buf w))) as [Hle|Hlt]; [|split; [f_equal; lia|done]].
  cbn [write_chunk_file]. match goal with |- context [drain_full_chunks fuel ?c ?x] =>
    destruct (IH c x) as [-> Hl] end.
  cbn [cw_chunk_buf] in Hl. rewrite length_drop in Hl. split; [|lia].
  f_equal. cbn [cw_chunk_buf]. generalize dependent (length (cw_chunk_buf (write_full_chunks chunk_size fuel
    (mk_chunk_writer (drop chunk_size (cw_chunk_buf w)) (S (cw_chunk_index w))
       (<[cw_chunk_index w:=take chunk_size (cw_chunk_buf w)]> (cw_files w))
       (cw_chunks w ++ [mk_ChunkInfo (Z.of_nat (cw_chunk_index w))
          (Z.of_nat (length (take chunk_size (cw_chunk_buf w))))
          (sha256_hex (take chunk_size (cw_chunk_buf w))) Data]))))).
  intros n Hn. rewrite length_take, length_drop. lia.
Qed.

(** The loop's invariant: [ct] is the ciphertext produced so far, [l] the
    chunks written, and the bytes still in [chunk_buf] are its tail. *)
Record ec_written (w : ec_writer) (ct : bytes) (l : list bytes) : Prop := {
  ec_chunks : written (ew_chunks w) l;
  ec_small : length (cw_chunk_buf (ew_chunks w)) < chunk_size;
  ec_tail : forall tail, l ++ chunks chunk_size (cw_chunk_buf (ew_chunks w) ++ tail) = chunks chunk_size (ct ++ tail);
  ec_size : ew_ct_size w + length (cw_chunk_buf (ew_chunks w)) = length ct;
}.

Lemma drain_spec w ct l more :
  ec_written w ct l ->
  exists l' ct_size cw,
    let buf := extend_chunk_buf (ew_chunks w) more in
    drain_full_chunks (length (cw_chunk_buf buf)) (ew_ct_size w) buf = (ct_size, cw) /\
    written cw l' /\ length (cw_chunk_buf cw) < chunk_size /\
    (forall tail, l' ++ chunks chunk_size (cw_chunk_buf cw ++ tail) = chunks chunk_size ((ct ++ more) ++ tail)) /\
    ct_size + length (cw_chunk_buf cw) = length (ct ++ more).
Proof.
  intros [Hw Hs Ht Hsz]. cbn zeta.
  set (buf := extend_chunk_buf (ew_chunks w) more).
  destruct (write_full_chunks_spec chunk_size (length (cw_chunk_buf buf)) buf l chunk_size_pos)
    as (l' & Hw' & Hs' & Ht'); [by destruct Hw|done|].
  destruct (drain_full_chunks_eq (length (cw_chunk_buf buf)) (ew_ct_size w) buf) as [-> Hle].
  exists l'. eexists _, _. split; [done|]. split; [done|]. split; [done|]. split.
  - intros tail. rewrite Ht'. subst buf. cbn [extend_chunk_buf cw_chunk_buf].
    by rewrite <-!app_assoc, Ht.
  - subst buf. cbn [extend_chunk_buf cw_chunk_buf] in *. rewrite !length_app in *. lia.
Qed.

(** What will have been written once [tail] has come. *)
Definition ciphertext_with (w : ec_writer) (ct tail : bytes) : result StorageError bytes :=
  rest ← encrypt_chunks cipher prefix aad (ew_frame_index w) (chunks frame_size (ew_frame_buf w ++ tail));
  Ok (ct ++ rest).

Lemma push_full_frames_spec fuel w ct l :
  ec_written w ct l -> length (ew_frame_buf w) <= fuel ->
  match push_full_frames fuel w with
  | Ok w' => exists ct' l', ec_written w' ct' l' /\ length (ew_frame_buf w') < frame_size /\
      ew_plaintext_size w' = ew_plaintext_size w /\
      forall tail, ciphertext_with w' ct' tail = ciphertext_with w ct tail
  | Err x => forall tail, ciphertext_with w ct tail = Err x
  end.
Proof.
  revert w ct l. induction fuel as [|fuel IH]; intros w ct l Hw Hf; cbn [push_full_frames].
  { exists ct, l. split_and!; [done|lia|done|done]. }
  destruct (Nat.leb_spec frame_size (length (ew_frame_buf w))) as [Hle|Hlt]; [|by exists ct, l].
  assert (Hstep : forall tail, ciphertext_with w ct tail =
    (f ← encrypt_frame_to_vec cipher prefix (ew_frame_index w) (take frame_size (ew_frame_buf w))
           (aad (ew_frame_index w));
     rest ← encrypt_chunks cipher prefix aad (S (ew_frame_index w))
              (chunks frame_size (drop frame_size (ew_frame_buf w) ++ tail));
     Ok ((ct ++ f) ++ rest))).
  { intros tail. unfold ciphertext_with.
    rewrite <-(take_drop frame_size (ew_frame_buf w)) at 1. rewrite <-app_assoc.
    rewrite chunks_app by (try rewrite length_take; lia). cbn [encrypt_chunks].
    destruct (encrypt_frame_to_vec _ _ _ _ _) as [f|]; cbn; [|done].
    destruct (encrypt_chunks _ _ _ _ _) as [r|]; cbn; [|done]. by rewrite app_assoc. }
  destruct (encrypt_frame_to_vec _ _ _ _ _) as [f|x]; cbn [mbind result_bind] in Hstep |- *; [|done].
  destruct (drain_spec w ct l f Hw) as (l1 & ct_size & cw & Hd & Hw1 & Hs1 & Ht1 & Hsz1).
  cbn zeta in Hd. rewrite Hd.
  set (w1 := mk_ec_writer _ _ _ _ _).
  specialize (IH w1 (ct ++ f) l1 ltac:(by constructor)). 
  assert (Hlen : length (ew_frame_buf w1) <= fuel) by (cbn; rewrite length_drop; lia).
  specialize (IH Hlen). destruct (push_full_frames fuel w1) as [w'|x].
  - destruct IH as (ct' & l' & ? & ? & ? & Heq). exists ct', l'. split_and!; [done..|].
    intros tail. by rewrite Heq, Hstep.
  - intros tail. rewrite Hstep. apply IH.
Qed.

Lemma push_body_loop pieces w ct l :
  ec_written w ct l -> length (ew_frame_buf w) < frame_size ->
  match fold_result push_body w pieces with
  | Ok w' => exists ct' l', ec_written w' ct' l' /\ length (ew_frame_buf w') < frame_size /\
      ew_plaintext_size w' = ew_plaintext_size w + length (concat pieces) /\
      ciphertext_with w' ct' [] = ciphertext_with w ct (concat pieces)
  | Err x => ciphertext_with w ct (concat pieces) = Err x
  end.
Proof.
  revert w ct l. induction pieces as [|p pieces IH]; intros w ct l Hw Hf.
  { exists ct, l. cbn. split_and!; [done|done|lia|done]. }
  cbn [fold_result concat]. unfold push_body at 2.
  set (w0 := mk_ec_writer _ _ _ _ _).
  assert (Hw0 : ec_written w0 ct l) by by destruct Hw.
  assert (E : forall tail, ciphertext_with w0 ct tail = ciphertext_with w ct (p ++ tail)).
  { intros tail. unfold ciphertext_with. cbn. by rewrite <-app_assoc. }
  pose proof (push_full_frames_spec (length (ew_frame_buf w ++ p)) w0 ct l Hw0 ltac:(done)) as S.
  destruct (push_full_frames _ _) as [w1|x]; cbn [mbind result_bind].
  - destruct S as (ct1 & l1 & Hw1 & Hf1 & Hp1 & Heq1). specialize (IH w1 ct1 l1 Hw1 Hf1).
    destruct (fold_result push_body w1 pieces) as [w'|x].
    + destruct IH as (ct' & l' & ? & ? & Hp & Heq). exists ct', l'. split_and!; [done|done| |].
      * rewrite Hp, Hp1, length_app. cbn. lia.
      * by rewrite Heq, Heq1, E.
    + by rewrite <-E, <-Heq1.
  - by rewrite <-E.
Qed.

Lemma flush_body_spec w ct l :
  ec_written w ct l -> length (ew_frame_buf w) < frame_size ->
  match ciphertext_with w ct [] with
  | Ok ct' => exists cw l', flush_body w = Ok (length ct', cw) /\ written cw l' /\
      length (cw_chunk_buf cw) < chunk_size /\
      l' ++ chunks chunk_size (cw_chunk_buf cw) = chunks chunk_size ct'
  | Err x => flush_body w = Err x
  end.
Proof.
  intros Hw Hf. unfold ciphertext_with, flush_body. rewrite app_nil_r.
  assert (G : forall f, exists cw l', 
    (let '(ct_size, cw) := drain_full_chunks (length (cw_chunk_buf (extend_chunk_buf (ew_chunks w) f)))
                             (ew_ct_size w) (extend_chunk_buf (ew_chunks w) f) in
     Ok (E := StorageError) (ct_size + length (cw_chunk_buf cw), cw)) = Ok (length (ct ++ f), cw) /\
    written cw l' /\ length (cw_chunk_buf cw) < chunk_size /\
    l' ++ chunks chunk_size (cw_chunk_buf cw) = chunks chunk_size (ct ++ f)).
  { intros f. destruct (drain_spec w ct l f Hw) as (l1 & ct_size & cw & Hd & Hw1 & Hs1 & Ht1 & Hsz1).
    cbn zeta in Hd. rewrite Hd. exists cw, l1. split_and!; [by rewrite Hsz1|done|done|].
    specialize (Ht1 []). by rewrite !app_nil_r in Ht1. }
  destruct (ew_frame_buf w) as [|b buf] eqn:E.
  - cbn [chunks encrypt_chunks length chunks_fuel mbind result_bind]. rewrite app_nil_r.
    specialize (G []). unfold extend_chunk_buf in G. rewrite !app_nil_r in G. by destruct (ew_chunks w).
  - rewrite chunks_small by (done || lia). cbn [encrypt_chunks].
    destruct (encrypt_frame_to_vec _ _ _ _ _) as [f|x]; cbn [mbind result_bind]; [|done].
    rewrite app_nil_r. apply G.
Qed.
End writer.

(** An encrypted, erasure-coded object survives the loss of as many shards
    as it has parity, and reads back in the clear.  The body is encrypted frame
    by frame and the ciphertext cut into chunks with parity, the frames not
    aligned with the chunks; as long as any [k] of the [k + m] files are intact
    (and no corrupt file collides with a checksum), the frame decryptor over
    the verified chunk reader delivers the whole body, and any slice of it on a
    range read. *)
Theorem encrypted_ec_object_survives `{Sha256Hex} `{ReedSolomonSpec} `{AeadSpec}
    {B} `{!AsyncRead B} `{!ReaderSpec B} fs cz m cap key prefix aad (body : B) data :
  0 < fs -> (Z.of_nat fs <= 2 ^ 36)%Z -> 0 < cz -> 0 < cap -> reads body data Eof ->
  (forall i, (Z.of_nat (length (aad i)) <= 2 ^ 36)%Z) ->
  nonce_format prefix (frame_count (length data) fs) ->
  (forall ct, length ct = length data + 28 * frame_count (length data) fs ->
     (Z.of_nat (length ct) < 2 ^ 32 * Z.of_nat cz)%Z /\
     (0 < m -> 0 < length ct ->
        length (data_chunks cz ct) + m <= 255 /\ rs_new (length (data_chunks cz ct)) m = Ok tt)) ->
  exists files manifest all k,
    write_encrypted_ec_object fs cz key prefix aad m cap (S (length data + patience body)) body
      = Some (Ok (files, manifest)) /\
    holds files all /\ length all = k + (if length data =? 0 then 0 else m) /\
    cm_plaintext_size manifest = Some (Z.of_nat (length data)) /\
    forall dir, honest dir all -> k <= intact dir all ->
      reads (decryptor_new (chunk_reader_new dir manifest) key (length data) fs aad) data Eof /\
      forall off len, off <= length data ->
        let ct_offset := ciphertext_offset fs off in
        exists r, with_range dir manifest ct_offset (Z.to_nat (cm_total_size manifest) - ct_offset) = Ret r /\
          reads (for_range r key (length data) fs off len aad) (take len (drop off data)) Eof.
Proof.
  intros Hfs Hfs' Hcz Hcap Hb Ha Hn Hk.
  destruct (encrypt_chunks_total key prefix aad fs 0 data) as [ct Hct]; [done..|].
  assert (Hlen : length ct = length data + 28 * frame_count (length data) fs).
  { rewrite <-frame_count_chunks, <-(concat_chunks fs data) at 1 by done.
    eapply encrypt_chunks_length; [|exact Hct].
    intros j Hj. rewrite frame_count_chunks in Hj by done. eapply nonce_format_le; [|exact Hn]. cbn. lia. }
  destruct (Hk ct Hlen) as [Hbound Hcode].
  destruct (decrypt_reads (R := VerifiedChunkReader) fs key prefix aad data ct) as [Hrange Hall]; [done..|].
  unfold write_encrypted_ec_object.
  destruct (pump_reads cap map_read_quota_error (push_body fs cz key prefix aad)
    (S (length data + patience body)) (mk_ec_writer 0 0 0 [] chunk_writer_new) body data Eof)
    as (pieces & Hpieces & ->); [done|done|lia|].
  assert (Hw0 : ec_written cz (mk_ec_writer 0 0 0 [] chunk_writer_new) [] []).
  { constructor; [|cbn; lia|done|done]. split; [intros i; apply lookup_empty| |]; done. }
  pose proof (push_body_loop fs cz key prefix aad Hfs Hcz pieces _ [] [] Hw0 ltac:(cbn; lia)) as Hloop.
  rewrite Hpieces in Hloop. unfold ciphertext_with at 2 in Hloop. cbn [ew_frame_index ew_frame_buf app] in Hloop.
  unfold ciphertext_with at 2 in Hloop. cbn [ew_frame_index ew_frame_buf app] in Hloop.
  rewrite Hct in Hloop. cbn [mbind result_bind] in Hloop.
  destruct (fold_result _ _ pieces) as [w|x]; [|done].
  destruct Hloop as (ct' & l & Hw & Hf & Hp & Heq).
  pose proof (flush_body_spec fs cz key prefix aad Hfs Hcz w ct' l Hw Hf) as Hflush.
  rewrite Heq in Hflush. destruct Hflush as (cw & l' & -> & Hw' & Hs' & Hl').
  cbn [mbind result_bind].
  destruct (finish_ec_object_spec cz m (Some (ew_plaintext_size w)) cw l' ct)
    as (files & manifest & ps & Hfin & Hm & Hh & Hlps & Ht & Hc & Hpt); [done..|].
  exists files, manifest, (data_chunks cz ct ++ ps), (length (data_chunks cz ct)).
  split; [by rewrite Hfin|]. split; [done|]. split.
  { rewrite length_app, Hlps. f_equal.
    destruct (Nat.eqb_spec (length ct) 0), (Nat.eqb_spec (length data) 0); try lia.
    pose proof (frame_count_le (length data) fs 0 Hfs). lia. }
  split; [rewrite Hpt, Hp; done|].
  intros dir Hhon Hint.
  assert (Hload : forall i d, data_chunks cz ct !! i = Some d -> load_chunk dir manifest i = Ret (Ok d)).
  { intros. by eapply load_chunk_ok. }
  split.
  - apply Hall. by apply (whole_object_stream dir manifest cz ct ps).
  - intros off len Hoff. cbn zeta. rewrite Ht, Nat2Z.id.
    assert (Hco : ciphertext_offset fs off <= length ct).
    { unfold ciphertext_offset, FRAME_OVERHEAD. rewrite Hlen.
      pose proof (Nat.div_mod_eq off fs). pose proof (Nat.mod_upper_bound off fs).
      assert (off / fs <= frame_count (length data) fs); [|nia].
      destruct (off / fs) as [|q] eqn:E; [lia|].
      pose proof (frame_count_le (length data) fs q Hfs). nia. }
    destruct (range_stream dir manifest cz ct ps (ciphertext_offset fs off) (length ct - ciphertext_offset fs off))
      as (r & Hr & Hs); try done; [lia|].
    exists r. split; [done|]. apply Hrange; [done|].
    rewrite take_ge in Hs; [done|]. rewrite length_drop. lia.
Qed.

Import Crypto.Toy ErasureCode.Xor EcWitness.

Lemma encrypted_ec_object_survives_witness :
  exists files manifest,
    write_encrypted_ec_object 2 40 Witness.key Witness.prefix Witness.aad 1 3 6
      (mk_source EcWitness.data Eof []) = Some (Ok (files, manifest)) /\
    reads (decryptor_new (chunk_reader_new (dir_of (delete 0 files)) manifest) Witness.key 5 2 Witness.aad)
      EcWitness.data Eof.
Proof.
  destruct (encrypted_ec_object_survives 2 40 1 3 Witness.key Witness.prefix Witness.aad
              (mk_source EcWitness.data Eof []) EcWitness.data)
    as (files & manifest & all & k & E & Hh & Hl & _ & Hd).
  - lia.
  - lia.
  - lia.
  - lia.
  - by split.
  - intros i. unfold Witness.aad. rewrite length_to_le_bytes. lia.
  - apply Witness.format. vm_compute. reflexivity.
  - intros ct Hct. change (length ct = 89) in Hct. split; [lia|]. intros _ _.
    assert (Hk : length (data_chunks 40 ct) = 3).
    { rewrite data_chunks_nonempty by (lia || (intros ->; done)).
      rewrite frame_count_chunks by lia. by rewrite Hct. }
    rewrite Hk. split; [lia|reflexivity].
  - exists files, manifest. split; [exact E|]. apply Hd; [apply EcWitness.toy_honest|].
    pose proof (intact_delete files all 0 Hh) as Hi. cbn in Hl. lia.
Defined.
