(* ===== verification/MetadataIndex.v ===== *)
(** * The metadata index

    [maxio-storage/src/metadata_index.rs]: the SQLite cache behind
    [ListObjects].  The table [object_index], with primary key
    [(bucket, object_key)], is a finite map; a row's [meta_json] is the record
    it was serialised from.  [LIKE ... ESCAPE] is SQLite's: [%] matches any
    sequence, [_] any character, and letters match regardless of ASCII case. *)

From stdpp Require Import base list gmap sets sorting strings.
From Stdlib Require Import Lia Ascii.
From S2P Require Import Prelude Bytes Reader Types.

Local Open Scope nat_scope.

Definition index : Type := gmap (string * string) ObjectMeta.

Definition index_remove_row (idx : index) (bucket key : string) : index := delete (bucket, key) idx.

Definition index_upsert_row (idx : index) (bucket : string) (meta : ObjectMeta) : index :=
  if om_is_delete_marker meta then index_remove_row idx bucket (om_key meta)
  else <[(bucket, om_key meta) := meta]> idx.

Definition index_remove_bucket (idx : index) (bucket : string) : index :=
  filter (fun '(bk, _) => bk.1 <> bucket) idx.

Definition index_count_bucket (idx : index) (bucket : string) : nat :=
  size (filter (fun '(bk, _) => bk.1 = bucket) idx).

(** ** Patterns *)

Definition escape_like_prefix (prefix : string) : list ascii :=
  concat (map (fun ch =>
    if decide (ch = "%"%char \/ ch = "_"%char \/ ch = "\"%char) then ["\"%char; ch] else [ch])
    (chars prefix)) ++ ["%"%char].

Definition same_letter (c d : ascii) : bool :=
  bool_decide (to_ascii_lowercase c = to_ascii_lowercase d).

Fixpoint like (p : list ascii) : list ascii -> bool :=
  match p with
  | [] => fun s => match s with [] => true | _ => false end
  | c :: p' =>
      if decide (c = "%"%char) then
        fix any s := like p' s || match s with [] => false | _ :: s => any s end
      else if decide (c = "\"%char) then
        match p' with
        | [] => fun _ => false
        | e :: p'' => fun s => match s with [] => false | d :: s => same_letter e d && like p'' s end
        end
      else if decide (c = "_"%char) then
        fun s => match s with [] => false | _ :: s => like p' s end
      else fun s => match s with [] => false | d :: s => same_letter c d && like p' s end
  end.

(** ** Queries *)

Definition key_le (a b : ObjectMeta) : Prop := String.leb (om_key a) (om_key b) = true.
Global Instance key_le_dec a b : Decision (key_le a b).
Proof. unfold key_le. apply _. Defined.

Definition index_rows (idx : index) (sel : string * string -> bool) : list ObjectMeta :=
  merge_sort key_le (map snd (filter (fun '(bk, _) => sel bk = true) (map_to_list idx))).

Definition index_list (idx : index) (bucket prefix : string) : list ObjectMeta :=
  if decide (prefix = "") then index_rows idx (fun bk => bool_decide (bk.1 = bucket))
  else index_rows idx (fun bk => bool_decide (bk.1 = bucket)
                                 && like (escape_like_prefix prefix) (chars bk.2)).

(** One transaction: delete the bucket's rows, insert the objects; a repeated
    key violates the primary key and rolls back. *)
Definition unique_error : StorageError :=
  InvalidKey "metadata index: UNIQUE constraint failed: object_index.bucket, object_index.object_key".

Definition index_rebuild_bucket (idx : index) (bucket : string) (objects : list ObjectMeta)
    : result StorageError index :=
  fold_result (fun idx meta =>
    if om_is_delete_marker meta then Ok idx
    else match idx !! (bucket, om_key meta) with
         | Some _ => Err unique_error
         | None => Ok (<[(bucket, om_key meta) := meta]> idx)
         end) (index_remove_bucket idx bucket) objects.

(** ** The prefix pattern *)

Definition lower (s : string) : list ascii := map to_ascii_lowercase (chars s).

Lemma like_any s : like ["%"%char] s = true.
Proof. cbn [like]. rewrite decide_True by done. by induction s as [|c s IH]. Qed.

Lemma like_escape_prefix prefix s :
  like (escape_like_prefix prefix) s = true <-> lower prefix `prefix_of` map to_ascii_lowercase s.
Proof.
  unfold escape_like_prefix, lower. revert s.
  induction (chars prefix) as [|c p IH]; intros s.
  { cbn [map concat app]. rewrite like_any. split; [intros _; apply prefix_nil|done]. }
  cbn [map concat]. rewrite <-app_assoc.
  assert (Hstep : like ((if decide (c = "%"%char \/ c = "_"%char \/ c = "\"%char) then ["\"%char; c] else [c])
      ++ concat (map (fun ch => if decide (ch = "%"%char \/ ch = "_"%char \/ ch = "\"%char)
                        then ["\"%char; ch] else [ch]) p) ++ ["%"%char]) s =
    match s with
    | [] => false
    | d :: s => same_letter c d && like (concat (map (fun ch =>
        if decide (ch = "%"%char \/ ch = "_"%char \/ ch = "\"%char) then ["\"%char; ch] else [ch]) p) ++ ["%"%char]) s
    end).
  { case_decide as D; [done|]. cbn [app like].
    rewrite (decide_False (P := c = "%"%char)), (decide_False (P := c = "\"%char)),
      (decide_False (P := c = "_"%char)) by tauto. done. }
  rewrite Hstep. destruct s as [|d s].
  { split; [done|]. intros Hp%prefix_nil_inv. done. }
  rewrite andb_true_iff, IH. unfold same_letter. rewrite bool_decide_eq_true. cbn [map].
  split.
  - intros [-> Hp]. by apply prefix_cons.
  - intros Hp. split; [by eapply prefix_cons_inv_1|by eapply prefix_cons_inv_2].
Qed.

Lemma index_rows_spec idx sel m :
  m ∈ index_rows idx sel <-> exists bk, idx !! bk = Some m /\ sel bk = true.
Proof.
  unfold index_rows. rewrite (merge_sort_Permutation key_le), list_elem_of_fmap. split.
  - intros ([bk m'] & -> & [Hs Hin%elem_of_map_to_list]%list_elem_of_filter). by exists bk.
  - intros (bk & Hm & Hs). exists (bk, m). split; [done|].
    apply list_elem_of_filter. split; [done|by apply elem_of_map_to_list].
Qed.

(** Listing from the index returns exactly the rows of the bucket whose key
    starts with the prefix when the case of ASCII letters is ignored: prefixes
    holding [%], [_] or a backslash are taken literally, but a prefix also
    selects keys that differ from it in case. *)
Theorem index_list_spec (idx : index) bucket prefix m :
  m ∈ index_list idx bucket prefix <->
  exists key, idx !! (bucket, key) = Some m /\ lower prefix `prefix_of` lower key.
Proof.
  unfold index_list. case_decide as D; rewrite index_rows_spec; split.
  - intros ([b k] & Hm & Hb%bool_decide_eq_true). cbn in Hb. subst b prefix.
    exists k. split; [done|apply prefix_nil].
  - intros (k & Hm & _). exists (bucket, k). split; [done|]. by apply bool_decide_eq_true.
  - intros ([b k] & Hm & [Hb%bool_decide_eq_true Hl]%andb_true_iff). cbn in Hb, Hl. subst b.
    exists k. split; [done|]. by apply like_escape_prefix.
  - intros (k & Hm & Hl). exists (bucket, k). split; [done|]. cbn.
    rewrite bool_decide_eq_true_2 by done. by apply like_escape_prefix.
Qed.
