(* ===== verification/FileSystem.v ===== *)
(** * The file system

    The calls of [std::fs] and [tokio::fs] the storage layer makes, on a tree
    of directories and files without links.  A path is the string the code
    builds with [join] and [format!]; the operating system walks its
    components, so [.], empty components and [..] mean what they mean there.

    A JSON file is kept as the value it was written from ([content]); reading
    it back through serde is the class [Serde]. *)

From stdpp Require Import base list gmap sets numbers strings pretty.
From Stdlib Require Import ZArith Lia Ascii Strings.Byte.
From S2P Require Import Prelude Bytes Reader Types.

Local Open Scope nat_scope.

(** The name of a file or directory: its components from the root. *)
Abbreviation location := (list string).

(** What a file holds: bytes, or the JSON of a record. *)
Inductive content : Type :=
| Raw (b : bytes)
| ObjectJson (m : ObjectMeta)
| BucketJson (m : BucketMeta)
| ManifestJson (m : ChunkManifest)
| UploadJson (m : MultipartUploadMeta)
| PartJson (m : PartMeta).

(** serde_json: parsing what a file holds as a record, and the bytes of a file.
    Parsing what was serialised from a record gives it back. *)
Class Serde : Type := {
  parse_object : content -> result string ObjectMeta;
  parse_bucket : content -> result string BucketMeta;
  parse_manifest : content -> result string ChunkManifest;
  parse_upload : content -> result string MultipartUploadMeta;
  parse_part : content -> result string PartMeta;
  file_bytes : content -> bytes;
}.
Class SerdeSpec `{Serde} : Prop := {
  parse_object_json m : parse_object (ObjectJson m) = Ok m;
  parse_bucket_json m : parse_bucket (BucketJson m) = Ok m;
  parse_manifest_json m : parse_manifest (ManifestJson m) = Ok m;
  parse_upload_json m : parse_upload (UploadJson m) = Ok m;
  parse_part_json m : parse_part (PartJson m) = Ok m;
  file_bytes_raw b : file_bytes (Raw b) = b;
}.

(** An instance that reads records only from their own JSON. *)
Module ToySerde.
Definition not_json : string := "expected value at line 1 column 1".
#[export] Instance toy_serde : Serde := {|
  parse_object c := match c with ObjectJson m => Ok m | _ => Err not_json end;
  parse_bucket c := match c with BucketJson m => Ok m | _ => Err not_json end;
  parse_manifest c := match c with ManifestJson m => Ok m | _ => Err not_json end;
  parse_upload c := match c with UploadJson m => Ok m | _ => Err not_json end;
  parse_part c := match c with PartJson m => Ok m | _ => Err not_json end;
  file_bytes c := match c with Raw b => b | _ => [] end
|}.
#[export] Instance toy_serde_spec : SerdeSpec.
Proof. by split. Qed.
End ToySerde.

Record tree : Type := mk_tree {
  t_files : gmap location content;
  t_dirs : gset location;
}.

(** ** Paths *)

(** [Path::join]: an absolute argument replaces the path; a separator is added
    where there is none. *)
Definition join (p q : string) : string :=
  if starts_with q "/" then q
  else if decide (p = "") then q
  else if ends_with p "/" then p +:+ q
  else p +:+ "/" +:+ q.

(** [Path::components] of a relative or absolute path: repeated separators and
    [.] disappear, except for a [.] at the start. *)
Inductive component : Type := RootDir | CurDir | ParentDir | Normal (name : string).

Global Instance component_eq_dec : EqDecision component.
Proof. solve_decision. Defined.

Definition component_of (s : string) : list component :=
  if decide (s = "") then [] else if decide (s = ".") then []
  else if decide (s = "..") then [ParentDir] else [Normal s].

Definition components (p : string) : list component :=
  match split_char "/"%char p with
  | [] => []
  | s :: rest =>
      (if decide (s = "") then match p with EmptyString => [] | _ => [RootDir] end
       else if decide (s = ".") then [CurDir] else component_of s)
      ++ concat (map component_of rest)
  end.

(** ** Name resolution *)

Definition fs_error (k : io_kind) (msg : string) : io_error := mk_io_error k msg.
Definition enoent : io_error := fs_error NotFound "No such file or directory (os error 2)".
Definition eexist : io_error := fs_error AlreadyExists "File exists (os error 17)".
Definition enotdir : io_error := fs_error NotADirectory "Not a directory (os error 20)".
Definition eisdir : io_error := fs_error IsADirectory "Is a directory (os error 21)".
Definition enotempty : io_error := fs_error DirectoryNotEmpty "Directory not empty (os error 39)".

Definition einval : io_error := fs_error Other "Invalid argument (os error 22)".

Definition parent_of (l : location) : location := take (length l - 1) l.

(** Each step needs the place reached so far to be a directory; the last one
    may not exist yet. *)
Fixpoint walk (t : tree) (cur : location) (names : list string) : result io_error location :=
  match names with
  | [] => Ok cur
  | c :: names =>
      if decide (cur ∈ t_dirs t) then
        if decide (c = "" \/ c = ".") then walk t cur names
        else if decide (c = "..") then walk t (parent_of cur) names
        else walk t (cur ++ [c]) names
      else if decide (is_Some (t_files t !! cur)) then Err enotdir
      else Err enoent
  end.

Definition resolve (t : tree) (p : string) : result io_error location :=
  walk t [] (split_char "/"%char p).

(** ** Calls *)

Definition is_dir (t : tree) (p : string) : bool :=
  match resolve t p with Ok l => bool_decide (l ∈ t_dirs t) | Err _ => false end.

(** [Path::exists]. *)
Definition exists_path (t : tree) (p : string) : bool :=
  match resolve t p with
  | Ok l => bool_decide (l ∈ t_dirs t) || bool_decide (is_Some (t_files t !! l))
  | Err _ => false
  end.

(** [fs::try_exists]: only a missing file is [false]. *)
Definition try_exists (t : tree) (p : string) : result io_error bool :=
  match resolve t p with
  | Ok l => Ok (bool_decide (l ∈ t_dirs t) || bool_decide (is_Some (t_files t !! l)))
  | Err e => if decide (io_error_kind e = NotFound) then Ok false else Err e
  end.

Definition fs_read (t : tree) (p : string) : result io_error content :=
  l ← resolve t p;
  match t_files t !! l with
  | Some b => Ok b
  | None => if decide (l ∈ t_dirs t) then Err eisdir else Err enoent
  end.

Definition fs_write (t : tree) (p : string) (b : content) : tree * result io_error unit :=
  match resolve t p with
  | Err e => (t, Err e)
  | Ok l =>
      if decide (l ∈ t_dirs t) then (t, Err eisdir)
      else (mk_tree (<[l := b]> (t_files t)) (t_dirs t), Ok tt)
  end.

Definition fs_create_dir (t : tree) (p : string) : tree * result io_error unit :=
  match resolve t p with
  | Err e => (t, Err e)
  | Ok l =>
      if decide (l ∈ t_dirs t \/ is_Some (t_files t !! l)) then (t, Err eexist)
      else (mk_tree (t_files t) ({[l]} ∪ t_dirs t), Ok tt)
  end.

(** [fs::create_dir_all]: the walk, creating what is missing. *)
Fixpoint create_walk (t : tree) (cur : location) (names : list string) : tree * result io_error unit :=
  if decide (is_Some (t_files t !! cur)) then (t, Err enotdir)
  else
    let t := mk_tree (t_files t) ({[cur]} ∪ t_dirs t) in
    match names with
    | [] => (t, Ok tt)
    | c :: names =>
        if decide (c = "" \/ c = ".") then create_walk t cur names
        else if decide (c = "..") then create_walk t (parent_of cur) names
        else create_walk t (cur ++ [c]) names
    end.
Definition fs_create_dir_all (t : tree) (p : string) : tree * result io_error unit :=
  create_walk t [] (split_char "/"%char p).

Definition fs_remove_file (t : tree) (p : string) : tree * result io_error unit :=
  match resolve t p with
  | Err e => (t, Err e)
  | Ok l =>
      match t_files t !! l with
      | Some _ => (mk_tree (delete l (t_files t)) (t_dirs t), Ok tt)
      | None => (t, Err (if decide (l ∈ t_dirs t) then eisdir else enoent))
      end
  end.

(** What is strictly below [l]. *)
Definition below (l k : location) : Prop := l `prefix_of` k /\ k <> l.
Global Instance below_dec l k : Decision (below l k).
Proof. unfold below. apply _. Defined.

Definition empty_dir (t : tree) (l : location) : bool :=
  bool_decide (filter (fun '(k, _) => below l k) (t_files t) = ∅)
  && bool_decide (filter (fun k => below l k) (t_dirs t) = ∅).

Definition fs_remove_dir (t : tree) (p : string) : tree * result io_error unit :=
  match resolve t p with
  | Err e => (t, Err e)
  | Ok l =>
      if decide (l ∈ t_dirs t) then
        if empty_dir t l then (mk_tree (t_files t) (t_dirs t ∖ {[l]}), Ok tt)
        else (t, Err enotempty)
      else (t, Err (if decide (is_Some (t_files t !! l)) then enotdir else enoent))
  end.

Definition remove_tree (t : tree) (l : location) : tree :=
  mk_tree (filter (fun '(k, _) => ~ l `prefix_of` k) (t_files t))
    (filter (fun k => ~ l `prefix_of` k) (t_dirs t)).

(** The last component of the path is [.]: the directory cannot be unlinked
    under that name, but what is in it can. *)
Definition ends_in_dot (p : string) : bool := bool_decide (last (split_char "/"%char p) = Some ".").
Definition clear_tree (t : tree) (l : location) : tree :=
  mk_tree (filter (fun '(k, _) => ~ below l k) (t_files t)) (filter (fun k => ~ below l k) (t_dirs t)).

Definition fs_remove_dir_all (t : tree) (p : string) : tree * result io_error unit :=
  match resolve t p with
  | Err e => (t, Err e)
  | Ok l =>
      if decide (l ∈ t_dirs t) then
        if ends_in_dot p then (clear_tree t l, Err einval) else (remove_tree t l, Ok tt)
      else (t, Err (if decide (is_Some (t_files t !! l)) then enotdir else enoent))
  end.

(** [fs::rename]: a file replaces a file; a directory moves with all it holds
    onto a free name or an empty directory outside it. *)
Definition rebase (a b k : location) : location := b ++ drop (length a) k.
Definition move_tree (t : tree) (a b : location) : tree :=
  let moved := filter (fun '(k, _) => a `prefix_of` k) (t_files t) in
  mk_tree (list_to_map (map (fun '(k, v) => (rebase a b k, v)) (map_to_list moved))
             ∪ filter (fun '(k, _) => ~ a `prefix_of` k) (t_files t))
    (list_to_set (map (rebase a b) (elements (filter (fun k => a `prefix_of` k) (t_dirs t))))
       ∪ filter (fun k => ~ a `prefix_of` k) (t_dirs t)).

Definition fs_rename (t : tree) (p q : string) : tree * result io_error unit :=
  match resolve t p, resolve t q with
  | Err e, _ => (t, Err e)
  | _, Err e => (t, Err e)
  | Ok a, Ok b =>
      match t_files t !! a with
      | Some v =>
          if decide (b ∈ t_dirs t) then (t, Err eisdir)
          else (mk_tree (<[b := v]> (delete a (t_files t))) (t_dirs t), Ok tt)
      | None =>
          if decide (a ∈ t_dirs t) then
            if decide (a = b) then (t, Ok tt)
            else if decide (below a b) then (t, Err einval)
            else if decide (is_Some (t_files t !! b)) then (t, Err enotdir)
            else if decide (b ∈ t_dirs t) then
              if empty_dir t b then (move_tree t a b, Ok tt) else (t, Err enotempty)
            else (move_tree t a b, Ok tt)
          else (t, Err enoent)
      end
  end.

Definition fs_copy (t : tree) (p q : string) : tree * result io_error unit :=
  match fs_read t p with
  | Err e => (t, Err e)
  | Ok b => fs_write t q b
  end.

(** [fs::read_dir]: the names in a directory, with whether each is a
    directory. *)
Definition child_of (l k : location) : option string :=
  if decide (l `prefix_of` k /\ length k = S (length l)) then last k else None.

Definition fs_read_dir (t : tree) (p : string) : result io_error (list (string * bool)) :=
  l ← resolve t p;
  if decide (l ∈ t_dirs t) then
    Ok (omap (fun k => (., true) <$> child_of l k) (elements (t_dirs t))
        ++ omap (fun k => (., false) <$> child_of l k) (map fst (map_to_list (t_files t))))
  else Err (if decide (is_Some (t_files t !! l)) then enotdir else enoent).
