(* ===== verification/Paths.v ===== *)
(** * Paths and locations

    What a path names when it holds no [..] component ([names]), how the calls
    of [FileSystem] act on that location, and the path functions of
    [std::path] the storage layer uses. *)

From stdpp Require Import base list gmap sets numbers strings pretty.
From Stdlib Require Import ZArith Lia Ascii Strings.Byte.
From S2P Require Import Prelude Bytes Reader Types FileSystem.

Local Open Scope nat_scope.

(** [trim_end_matches('/')]. *)
Fixpoint trim_slashes (l : list ascii) : list ascii :=
  match l with c :: l' => if decide (c = "/"%char) then trim_slashes l' else l | [] => [] end.
Definition trim_end_slashes (s : string) : string := of_chars (rev (trim_slashes (rev (chars s)))).

(** [Path::parent] and [Path::file_name]. *)
Fixpoint unsplit (l : list string) : string :=
  match l with [] => "" | [s] => s | s :: l => s +:+ "/" +:+ unsplit l end.
Definition component_string (c : component) : string :=
  match c with RootDir => "" | CurDir => "." | ParentDir => ".." | Normal n => n end.
Definition path_parent (p : string) : option string :=
  match rev (components p) with
  | [] => None
  | [RootDir] => None
  | [_; RootDir] => Some "/"
  | _ :: front => Some (unsplit (map component_string (rev front)))
  end.
Definition path_file_name (p : string) : option string :=
  match last (components p) with Some (Normal n) => Some n | _ => None end.

(** [str::strip_suffix]. *)
Definition strip_suffix (s p : string) : option string :=
  (fun r => of_chars (rev (chars r))) <$> strip_prefix (of_chars (rev (chars p))) (of_chars (rev (chars s))).

Lemma strip_suffix_Some s p r : strip_suffix s p = Some r <-> s = r +:+ p.
Proof.
  unfold strip_suffix. rewrite fmap_Some. setoid_rewrite strip_prefix_Some. split.
  - intros (x & E & ->). apply (inj chars). apply (f_equal chars) in E.
    rewrite !chars_app, !chars_of_chars in *. apply (f_equal (@rev _)) in E.
    by rewrite rev_app_distr, !rev_involutive in E.
  - intros ->. exists (of_chars (rev (chars r))). split; [|by rewrite chars_of_chars, rev_involutive, of_chars_chars].
    apply (inj chars). by rewrite !chars_app, !chars_of_chars, rev_app_distr.
Qed.

(** ** Splitting *)

Lemma split_char_cons c s : exists w ws, split_char c s = w :: ws.
Proof. destruct s as [|a s]; cbn; [by eauto|]. case_decide; [by eauto|]. destruct (split_char c s); eauto. Qed.

Lemma split_char_app c s t : split_char c (s +:+ String c t) = split_char c s ++ split_char c t.
Proof.
  induction s as [|a s IH].
  - rewrite str_app_nil. cbn. by rewrite decide_True.
  - rewrite str_app_cons. cbn. rewrite IH. case_decide; [done|].
    destruct (split_char_cons c s) as (w & ws & ->). done.
Qed.

Lemma split_char_no c s : contains_char c s = false -> split_char c s = [s].
Proof.
  unfold contains_char. rewrite bool_decide_eq_false.
  induction s as [|a s IH]; cbn; [done|]. rewrite not_elem_of_cons. intros [Ha Hs].
  rewrite decide_False by done. by rewrite IH.
Qed.

Lemma split_char_pieces c s w : w ∈ split_char c s -> contains_char c w = false.
Proof.
  unfold contains_char. rewrite bool_decide_eq_false. revert w.
  induction s as [|a s IH]; intros w; cbn.
  - intros ->%list_elem_of_singleton. cbn. by intros ?%elem_of_nil.
  - case_decide as D.
    + intros [->|Hw]%elem_of_cons; [cbn; by intros ?%elem_of_nil|by apply IH].
    + destruct (split_char_cons c s) as (v & ws & E). rewrite E in IH |- *.
      intros [->|Hw]%elem_of_cons; [|apply IH; by right].
      cbn. rewrite not_elem_of_cons. split; [by intros ->|]. apply IH. by left.
Qed.

Lemma unsplit_cons s s' l : unsplit (s :: s' :: l) = s +:+ String "/" (unsplit (s' :: l)).
Proof. done. Qed.

Lemma split_unsplit c l : l <> [] -> Forall (fun s => contains_char c s = false) l ->
  c = "/"%char -> split_char c (unsplit l) = l.
Proof.
  intros Hn Hf ->. induction l as [|s l IH]; [done|]. apply Forall_cons in Hf as [Hs Hf].
  destruct l as [|s' l]; [by apply split_char_no|].
  rewrite unsplit_cons, split_char_app, split_char_no, IH by done. done.
Qed.

(** Appending a suffix without separator changes the last piece. *)
Lemma split_char_suffix c s t : contains_char c t = false ->
  exists front w, split_char c s = front ++ [w] /\ split_char c (s +:+ t) = front ++ [w +:+ t].
Proof.
  intros Ht. induction s as [|a s IH].
  - exists [], "". rewrite str_app_nil. split; [done|]. by apply split_char_no.
  - rewrite str_app_cons. cbn. destruct IH as (f & w & E1 & E2). rewrite E1, E2.
    case_decide; [by exists ("" :: f), w|].
    destruct f as [|v f]; cbn; [by exists [], (String a w)|by exists (String a v :: f), w].
Qed.

(** ** The location a path names *)

Definition blank (c : string) : Prop := c = "" \/ c = ".".
Global Instance blank_dec c : Decision (blank c).
Proof. unfold blank. apply _. Defined.

Definition names (p : string) : location := filter (fun c => ~ blank c) (split_char "/" p).
Definition plain (p : string) : Prop := ".." ∉ split_char "/" p.

Lemma str_app_assoc a b c : (a +:+ b) +:+ c = a +:+ (b +:+ c).
Proof. apply (inj chars). by rewrite !chars_app, app_assoc. Qed.

(** The pieces of a joined path, blanks aside. *)
Lemma split_join p q : starts_with q "/" = false ->
  exists l, split_char "/" (join p q) = l ++ split_char "/" q /\
    filter (fun c => ~ blank c) l = names p /\ (".." ∈ l <-> ".." ∈ split_char "/" p).
Proof.
  intros Hq. unfold join, names. rewrite Hq. case_decide as D; [subst|case_match eqn:Es].
  - exists []. split_and!; [done|done|]. cbn. split; [by intros ?%elem_of_nil|by intros ?%list_elem_of_singleton].
  - apply ends_with_spec in Es as [r ->]. change (r +:+ "/") with (r +:+ String "/" "").
    exists (split_char "/"%char r). rewrite split_char_app, filter_app. split_and!.
    + rewrite str_app_assoc. change (String "/" "" +:+ q) with (String "/" q).
      by rewrite split_char_app.
    + cbn. by rewrite app_nil_r.
    + rewrite elem_of_app. cbn. split; [by left|by intros [?|?%list_elem_of_singleton]].
  - exists (split_char "/"%char p). change ("/" +:+ q) with (String "/" q). by rewrite split_char_app.
Qed.

Lemma names_join p q : starts_with q "/" = false -> names (join p q) = names p ++ names q.
Proof.
  intros Hq. destruct (split_join p q Hq) as (l & E & Hn & _).
  unfold names at 1. by rewrite E, filter_app, Hn.
Qed.
Lemma plain_join p q : starts_with q "/" = false -> plain (join p q) <-> plain p /\ plain q.
Proof.
  intros Hq. destruct (split_join p q Hq) as (l & E & _ & Hd).
  unfold plain. rewrite E, elem_of_app, Hd. tauto.
Qed.

Lemma names_segment s : contains_char "/" s = false -> ~ blank s -> names s = [s].
Proof. intros Hs Hb. unfold names. rewrite split_char_no by done. by rewrite filter_cons_True. Qed.
Lemma plain_segment s : contains_char "/" s = false -> s <> ".." -> plain s.
Proof. intros Hs Hd. unfold plain. rewrite split_char_no by done. rewrite list_elem_of_singleton. congruence. Qed.

Lemma starts_with_slash_segment s : contains_char "/" s = false -> starts_with s "/" = false.
Proof.
  intros Hs. apply not_true_is_false. intros [r ->]%starts_with_spec.
  change ("/" +:+ r) with (String "/" r) in Hs. unfold contains_char in Hs.
  rewrite bool_decide_eq_false in Hs. apply Hs. cbn. by left.
Qed.

(** Components, when blanks are dropped, are the names. *)
Lemma components_names p : filter (fun c => ~ blank c) (map component_string (components p)) = names p.
Proof.
  assert (H1 : forall s, filter (fun c => ~ blank c) (map component_string (component_of s))
                        = filter (fun c => ~ blank c) [s]).
  { intros s. unfold component_of. repeat case_decide; subst; try done;
      cbn; repeat (case_decide || done); unfold blank in *; tauto. }
  unfold components, names. destruct (split_char_cons "/"%char p) as (w & ws & ->).
  rewrite map_app, filter_app. change (w :: ws) with ([w] ++ ws). rewrite filter_app. f_equal.
  - case_decide as D; [|case_decide as D'; [by subst|apply H1]].
    subst w. by destruct p.
  - induction ws as [|v ws IH]; [done|]. cbn [map concat]. rewrite map_app, filter_app, IH, H1.
    by rewrite <-filter_app.
Qed.

(** Only the first component may be blank. *)
Lemma components_tail p c cs : components p = c :: cs ->
  Forall (fun c => ~ blank (component_string c)) cs.
Proof.
  assert (H1 : forall s, Forall (fun c => ~ blank (component_string c)) (component_of s)).
  { intros s. unfold component_of, blank. repeat case_decide; subst; repeat constructor; cbn; intuition congruence. }
  assert (H2 : forall l, Forall (fun c => ~ blank (component_string c)) (concat (map component_of l))).
  { intros l. induction l; cbn; [done|]. by apply Forall_app_2. }
  unfold components. destruct (split_char "/"%char p) as [|w ws]; [done|]. intros E.
  assert (exists l1, l1 ++ concat (map component_of ws) = c :: cs /\
            (Forall (fun c => ~ blank (component_string c)) l1 \/ length l1 <= 1)) as (l1 & E1 & Hl).
  { eexists. split; [exact E|]. repeat case_decide; [destruct p; cbn; auto..|auto| left; apply H1]. }
  destruct l1 as [|x l1]; cbn in E1.
  - specialize (H2 ws). rewrite E1 in H2. by apply Forall_cons in H2 as [_ ?].
  - injection E1 as -> <-. apply Forall_app_2; [|done].
    destruct Hl as [Hl|Hl]; [by apply Forall_cons in Hl as [_ ?]|]. destruct l1; [done|cbn in Hl; lia].
Qed.

Lemma component_string_no_slash p : Forall (fun s => contains_char "/" s = false) (map component_string (components p)).
Proof.
  assert (H1 : forall s, contains_char "/" s = false ->
    Forall (fun s => contains_char "/" s = false) (map component_string (component_of s))).
  { intros s Hs. unfold component_of. repeat case_decide; subst; repeat constructor; done. }
  unfold components. pose proof (split_char_pieces "/"%char p) as Hp.
  destruct (split_char "/"%char p) as [|w ws]; [by constructor|].
  rewrite map_app. apply Forall_app_2.
  - repeat case_decide; [destruct p; repeat constructor..|by repeat constructor|].
    apply H1, Hp. by left.
  - assert (Hws : forall v, v ∈ ws -> contains_char "/" v = false) by (intros v Hv; apply Hp; by right).
    clear Hp. induction ws as [|v ws IH]; cbn; [constructor|]. rewrite map_app. apply Forall_app_2.
    + apply H1, Hws. by left.
    + apply IH. intros u Hu. apply Hws. by right.
Qed.

Lemma names_unsplit l : Forall (fun s => contains_char "/" s = false) l ->
  names (unsplit l) = filter (fun c => ~ blank c) l.
Proof.
  intros Hl. destruct l as [|s l]; [done|]. unfold names. by rewrite split_unsplit.
Qed.

(** Components hold no [..] that the path does not. *)
Lemma components_plain p : plain p -> ".." ∉ map component_string (components p).
Proof.
  assert (H1 : forall s, ".." ∈ map component_string (component_of s) -> s = "..").
  { intros s. unfold component_of. repeat case_decide; subst; cbn; try by intros ?%elem_of_nil.
    all: by intros Hin%list_elem_of_singleton. }
  unfold plain, components. destruct (split_char "/"%char p) as [|w ws]; [by intros _ ?%elem_of_nil|].
  rewrite not_elem_of_cons, map_app, elem_of_app. intros [Hw Hws] [Hin|Hin].
  - revert Hin. repeat case_decide; [destruct p; cbn|cbn|intros Hin%H1; by apply Hw].
    + by intros ?%elem_of_nil.
    + by intros ?%list_elem_of_singleton.
    + by intros ?%list_elem_of_singleton.
  - apply Hws. clear Hw Hws. induction ws as [|v ws IH]; cbn in Hin; [by apply elem_of_nil in Hin|].
    rewrite map_app, elem_of_app in Hin. destruct Hin as [->%H1|Hin]; [by left|right; by apply IH].
Qed.

Lemma plain_unsplit l : Forall (fun s => contains_char "/" s = false) l -> ".." ∉ l -> plain (unsplit l).
Proof.
  intros Hl Hd. destruct l as [|s l]; [|unfold plain; by rewrite split_unsplit].
  unfold plain. cbn. by intros ?%list_elem_of_singleton.
Qed.

(** The parent of a path names the parent location. *)
Lemma names_path_parent p : names p <> [] ->
  exists q, path_parent p = Some q /\ names q = take (length (names p) - 1) (names p) /\
    (plain p -> plain q).
Proof.
  rewrite <-components_names. intros Hn. unfold path_parent.
  pose proof (component_string_no_slash p) as Hs. pose proof (components_plain p) as Hd.
  destruct (components p) as [|c0 cs0] eqn:Ec; [done|].
  pose proof (components_tail p c0 cs0 Ec) as Ht. clear Ec.
  destruct cs0 as [|c cs _] using rev_ind.
  { cbn [map] in Hn |- *. rewrite filter_cons in Hn |- *. case_decide as D; [|done].
    destruct c0; [by destruct D; left|exists "";
      (split_and!; [done|done|intros _; unfold plain; cbn; by intros ?%list_elem_of_singleton])..]. }
  apply Forall_app in Ht as [_ [Hc _]%Forall_cons]. cbn [app] in Hn, Hs |- *.
  rewrite app_comm_cons, map_app, Forall_app in Hs. destruct Hs as [Hs _].
  rewrite app_comm_cons, map_app, filter_app in Hn |- *. rewrite rev_unit.
  assert (filter (fun c => ~ blank c) (map component_string [c]) = [component_string c]) as ->.
  { cbn [map]. by rewrite filter_cons_True. }
  rewrite length_app, Nat.add_sub, take_app_length.
  assert (Hgen : names (unsplit (map component_string (rev (rev (c0 :: cs))))) =
    filter (fun c => ~ blank c) (map component_string (c0 :: cs))).
  { rewrite rev_involutive. by apply names_unsplit. }
  assert (Hpl : plain p -> plain (unsplit (map component_string (rev (rev (c0 :: cs)))))).
  { rewrite rev_involutive. intros Hp. apply plain_unsplit; [done|]. intros Hin.
    apply (Hd Hp). rewrite app_comm_cons, map_app. apply elem_of_app. by left. }
  destruct (rev (c0 :: cs)) as [|c1 [|c2 r]] eqn:Er.
  - apply (f_equal (@length _)) in Er. by rewrite length_rev in Er.
  - assert (c1 = c0 /\ cs = []) as [-> ->].
    { apply (f_equal (@rev _)) in Er. rewrite rev_involutive in Er. cbn in Er. by injection Er as -> ->. }
    destruct c0; [exists "/"|eexists; (split_and!; [by destruct c|exact Hgen|exact Hpl])..].
    split_and!; [by destruct c|done|]. intros _. unfold plain. cbn.
    by intros [?|?%list_elem_of_singleton]%elem_of_cons.
  - eexists. split_and!; [by destruct c, c1|exact Hgen|exact Hpl].
Qed.

(** ** Resolution *)

Section resolution.
Context (t : tree).

Lemma walk_names cur l r :
  ".." ∉ l -> walk t cur l = Ok r -> r = cur ++ filter (fun c => ~ blank c) l.
Proof.
  revert cur. induction l as [|c l IH]; intros cur; cbn [walk].
  { intros _ [= <-]. by rewrite filter_nil, app_nil_r. }
  rewrite not_elem_of_cons. intros [Hc Hl].
  case_decide; [|by case_decide]. case_decide as Db.
  - rewrite filter_cons_False by (unfold blank; tauto). by apply IH.
  - rewrite decide_False by congruence. rewrite filter_cons_True by (unfold blank; tauto).
    intros ->%IH; [|done]. by rewrite <-app_assoc.
Qed.

Lemma resolve_names p l : plain p -> resolve t p = Ok l -> l = names p.
Proof. intros Hp Hr. by apply (walk_names [] _ _ Hp). Qed.

(** More directories only help. *)
Lemma walk_mono t' cur l r : t_dirs t ⊆ t_dirs t' -> walk t cur l = Ok r -> walk t' cur l = Ok r.
Proof.
  intros Hd. revert cur. induction l as [|c l IH]; intros cur; cbn [walk]; [done|].
  case_decide; [|by case_decide]. rewrite (decide_True (P := cur ∈ t_dirs t')) by (by apply Hd).
  repeat case_decide; apply IH.
Qed.

(** A resolved location has its parent among the directories. *)
Lemma walk_parent cur l r : walk t cur l = Ok r -> ".." ∉ l -> r <> cur ->
  parent_of r ∈ t_dirs t.
Proof.
  revert cur. induction l as [|c l IH]; intros cur; cbn [walk]; [by intros [= <-]|].
  rewrite not_elem_of_cons. intros Hw [Hc Hl] Hne. case_decide as Hd; [|by case_decide].
  case_decide; [by eapply IH|]. rewrite decide_False in Hw by congruence.
  destruct (decide (r = cur ++ [c])) as [->|Hr]; [|by eapply IH].
  unfold parent_of. by rewrite length_app, Nat.add_sub, take_app_length.
Qed.
End resolution.

Lemma resolve_mono t t' p l : t_dirs t ⊆ t_dirs t' -> resolve t p = Ok l -> resolve t' p = Ok l.
Proof. apply walk_mono. Qed.

(** ** Places

    A path spells the entry [s] of the directory [P] when its last piece is [s]
    and the others, blanks aside, are [P]. *)
Definition at_place (path : string) (P : location) (s : string) : Prop :=
  exists l, split_char "/" path = l ++ [s] /\ filter (fun c => ~ blank c) l = P /\
    (".." ∉ l) /\ ~ blank s /\ s <> "..".

(** The way to the entries of [P] exists. *)
Definition reach (t : tree) (P : location) : Prop := forall d, d `prefix_of` P -> d ∈ t_dirs t.

Lemma at_place_names path P s : at_place path P s -> plain path /\ names path = P ++ [s].
Proof.
  intros (l & E & Hl & Hd & Hb & Hs). unfold plain, names. rewrite E. split.
  - rewrite elem_of_app. by intros [?|?%list_elem_of_singleton].
  - rewrite filter_app, Hl. f_equal. by rewrite filter_cons_True.
Qed.

Lemma at_place_join q P s : plain q -> names q = P -> contains_char "/" s = false ->
  ~ blank s -> s <> ".." -> at_place (join q s) P s.
Proof.
  intros Hp Hn Hc Hb Hs. destruct (split_join q s (starts_with_slash_segment s Hc)) as (l & E & Hl & Hd).
  exists l. rewrite E, split_char_no by done. split_and!; try done; [by rewrite Hl|by rewrite Hd].
Qed.

(** A relative path below a directory. *)
Lemma at_place_below q B key F s : plain q -> names q = B -> starts_with key "/" = false ->
  at_place key F s -> at_place (join q key) (B ++ F) s.
Proof.
  intros Hp Hn Hk (l' & E' & Hl' & Hd' & Hb & Hs). destruct (split_join q key Hk) as (l & E & Hl & Hd).
  exists (l ++ l'). rewrite E, E', app_assoc, filter_app, Hl, Hl', Hn. split_and!; try done.
  rewrite elem_of_app, Hd. by intros [?|?].
Qed.

(** A suffix without separator changes the last piece. *)
Lemma at_place_suffix key F s t : contains_char "/" t = false -> at_place key F s ->
  ~ blank (s +:+ t) -> s +:+ t <> ".." -> at_place (key +:+ t) F (s +:+ t).
Proof.
  intros Ht (l & E & Hl & Hd & _ & _) Hb Hs. destruct (split_char_suffix "/"%char key t Ht) as (f & v & E1 & E2).
  rewrite E in E1. apply app_inj_2 in E1 as [<- [= <-]]; [|done].
  exists l. by rewrite E2.
Qed.

Lemma at_place_parent path P s : at_place path P s ->
  exists q, path_parent path = Some q /\ names q = P /\ plain q.
Proof.
  intros Ha%at_place_names. destruct Ha as [Hp Hn].
  destruct (names_path_parent path) as (q & Hq & Hnq & Hpq).
  { rewrite Hn. by destruct P. }
  exists q. split_and!; [done| |auto].
  by rewrite Hnq, Hn, length_app, Nat.add_sub, take_app_length.
Qed.

Lemma walk_place t cur l s :
  (".." ∉ l) -> ~ blank s -> s <> ".." ->
  (forall d, cur `prefix_of` d -> d `prefix_of` cur ++ filter (fun c => ~ blank c) l -> d ∈ t_dirs t) ->
  walk t cur (l ++ [s]) = Ok (cur ++ filter (fun c => ~ blank c) l ++ [s]).
Proof.
  intros Hl Hb Hs. revert cur. induction l as [|c l IH]; intros cur Hd; cbn [app walk].
  - rewrite decide_True by (apply Hd; [done|by rewrite filter_nil, app_nil_r]).
    rewrite decide_False by exact Hb. by rewrite decide_False.
  - apply not_elem_of_cons in Hl as [Hc Hl].
    rewrite decide_True by (apply Hd; [done|by apply prefix_app_r]).
    case_decide as D.
    + rewrite filter_cons_False in Hd |- * by (unfold blank; tauto). by apply IH.
    + rewrite decide_False by congruence.
      rewrite filter_cons_True in Hd |- * by (unfold blank; tauto).
      rewrite IH; [by rewrite <-app_assoc|done|].
      intros d H1 H2. apply Hd; [by eapply prefix_app_l|]. by rewrite <-app_assoc in H2.
Qed.

(** A walk among existing directories. *)
Lemma walk_all t l cur : ".." ∉ l ->
  (forall d, cur `prefix_of` d -> d `prefix_of` cur ++ filter (fun c => ~ blank c) l -> d ∈ t_dirs t) ->
  walk t cur l = Ok (cur ++ filter (fun c => ~ blank c) l).
Proof.
  revert cur. induction l as [|c l IH]; intros cur Hd Hr; cbn [walk]; [by rewrite filter_nil, app_nil_r|].
  apply not_elem_of_cons in Hd as [Hc Hd].
  rewrite decide_True by (apply Hr; [done|by apply prefix_app_r]). case_decide as B.
  - rewrite filter_cons_False in Hr |- * by (unfold blank; tauto). by apply IH.
  - rewrite decide_False by congruence. rewrite filter_cons_True in Hr |- * by (unfold blank; tauto).
    rewrite IH; [by rewrite <-app_assoc|done|]. intros d H1 H2. apply Hr; [by eapply prefix_app_l|].
    by rewrite <-app_assoc in H2.
Qed.

Lemma resolve_place t path P s : at_place path P s -> reach t P -> resolve t path = Ok (P ++ [s]).
Proof.
  intros (l & E & Hl & Hd & Hb & Hs) Hr. unfold resolve. rewrite E, walk_place; [by rewrite Hl|done..|].
  intros d _. rewrite Hl. apply Hr.
Qed.

Lemma prefix_step (cur d rest : location) c :
  cur `prefix_of` d -> d `prefix_of` cur ++ c :: rest -> d <> cur -> cur ++ [c] `prefix_of` d.
Proof.
  intros [k ->] H2 Hne. apply prefix_app_inv in H2. apply prefix_app.
  destruct k as [|c' k]; [by rewrite app_nil_r in Hne|].
  pose proof (prefix_cons_inv_1 _ _ _ _ H2) as ->. apply prefix_cons, prefix_nil.
Qed.

(** Conversely, a file is read only where the way to it exists. *)
Lemma walk_reach t cur l r : walk t cur l = Ok r -> ".." ∉ l ->
  forall d, cur `prefix_of` d -> d `prefix_of` r -> d <> r -> d ∈ t_dirs t.
Proof.
  revert cur. induction l as [|c l IH]; intros cur; cbn [walk].
  { intros [= <-] _ d H1 H2 H3. exfalso. apply H3. by apply (anti_symm prefix). }
  rewrite not_elem_of_cons. intros Hw [Hc Hl] d H1 H2 H3. case_decide as Hd; [|by case_decide].
  case_decide; [by eapply IH|]. rewrite decide_False in Hw by congruence.
  destruct (decide (d = cur)) as [->|Hne]; [done|]. eapply IH; [done..| |done|done].
  pose proof (walk_names t (cur ++ [c]) l r Hl Hw) as ->.
  rewrite <-app_assoc in H2. by eapply prefix_step.
Qed.

Lemma resolve_reach t path P s : at_place path P s -> resolve t path = Ok (P ++ [s]) -> reach t P.
Proof.
  intros Ha Hr d Hd. pose proof (at_place_names path P s Ha) as [Hp _].
  eapply (walk_reach t [] _ _ Hr Hp); [apply prefix_nil|by apply prefix_app_r|].
  intros ->. apply prefix_length in Hd. rewrite length_app in Hd. cbn in Hd. lia.
Qed.

(** ** The calls, by location *)

Lemma fs_read_ok t p c : plain p ->
  fs_read t p = Ok c <-> resolve t p = Ok (names p) /\ t_files t !! names p = Some c.
Proof.
  intros Hp. unfold fs_read. cbn. split.
  - destruct (resolve t p) as [l|e] eqn:Er; [|done]. cbn.
    rewrite (resolve_names t p l Hp Er) in *. destruct (t_files t !! names p); [|by case_decide].
    by intros [= <-].
  - intros [-> Hf]. cbn. by rewrite Hf.
Qed.

Lemma is_dir_absent t p : plain p -> names p ∉ t_dirs t -> is_dir t p = false.
Proof.
  intros Hp Hd. unfold is_dir. destruct (resolve t p) as [l|e] eqn:E; [|done].
  apply resolve_names in E as ->; [|done]. by apply bool_decide_eq_false.
Qed.

Definition with_file (t : tree) (l : location) (c : content) : tree :=
  mk_tree (<[l := c]> (t_files t)) (t_dirs t).
Definition without_file (t : tree) (l : location) : tree :=
  mk_tree (delete l (t_files t)) (t_dirs t).

Lemma fs_write_effect t p c t' r : plain p -> fs_write t p c = (t', r) ->
  (t' = t /\ is_err r = true) \/
  (r = Ok tt /\ t' = with_file t (names p) c /\ resolve t p = Ok (names p) /\ (names p ∉ t_dirs t)).
Proof.
  intros Hp. unfold fs_write. destruct (resolve t p) as [l|e] eqn:Er; [|intros [= <- <-]; by left].
  rewrite (resolve_names t p l Hp Er) in *.
  case_decide; intros [= <- <-]; [by left|right]. done.
Qed.

Lemma fs_remove_file_effect t p t' r : plain p -> fs_remove_file t p = (t', r) ->
  (t' = t /\ is_err r = true) \/ (r = Ok tt /\ t' = without_file t (names p)).
Proof.
  intros Hp. unfold fs_remove_file. destruct (resolve t p) as [l|e] eqn:Er; [|intros [= <- <-]; by left].
  rewrite (resolve_names t p l Hp Er) in *.
  case_match; intros [= <- <-]; [by right|by left].
Qed.

Lemma fs_rename_file_effect t p q t' r : plain p -> plain q -> names p ∉ t_dirs t ->
  fs_rename t p q = (t', r) ->
  (t' = t /\ is_err r = true) \/
  (exists v, r = Ok tt /\ t_files t !! names p = Some v /\ resolve t q = Ok (names q) /\
     (names q ∉ t_dirs t) /\ t' = with_file (without_file t (names p)) (names q) v).
Proof.
  intros Hp Hq Hd. unfold fs_rename.
  destruct (resolve t p) as [a|e] eqn:Ea; [|intros [= <- <-]; by left].
  destruct (resolve t q) as [b|e] eqn:Eb; [|intros [= <- <-]; by left].
  rewrite (resolve_names t p a Hp Ea), (resolve_names t q b Hq Eb) in *.
  destruct (t_files t !! names p) as [v|]; [|rewrite decide_False by done; intros [= <- <-]; by left].
  case_decide; intros [= <- <-]; [by left|right]. by exists v.
Qed.

(** [create_dir_all] only adds directories on the way. *)
Lemma create_walk_effect t cur l t' r : ".." ∉ l -> create_walk t cur l = (t', r) ->
  t_files t' = t_files t /\ t_dirs t ⊆ t_dirs t' /\
  (forall d, d ∈ t_dirs t' -> d ∈ t_dirs t \/ d `prefix_of` cur ++ filter (fun c => ~ blank c) l) /\
  (r = Ok tt -> forall d, cur `prefix_of` d -> d `prefix_of` cur ++ filter (fun c => ~ blank c) l ->
     d ∈ t_dirs t').
Proof.
  revert t cur. induction l as [|c l IH]; intros t cur; cbn [create_walk].
  - intros _. case_decide; intros [= <- <-]; cbn [t_files t_dirs].
    + split_and!; [done|done|by left|done].
    + rewrite filter_nil, app_nil_r. split_and!; [done|apply union_subseteq_r| |].
      2:{ intros _ d H1 H2. apply elem_of_union_l, elem_of_singleton. by apply (anti_symm prefix). }
      intros d [->%elem_of_singleton|Hd]%elem_of_union; [by right|by left].
  - rewrite not_elem_of_cons. intros [Hc Hl]. case_decide.
    { intros [= <- <-]. split_and!; [done|done|by left|done]. }
    intros Hw.
    assert (exists cur', create_walk (mk_tree (t_files t) ({[cur]} ∪ t_dirs t)) cur' l = (t', r) /\
      cur' ++ filter (fun c => ~ blank c) l = cur ++ filter (fun c => ~ blank c) (c :: l) /\
      (cur' = cur \/ cur' = cur ++ [c])) as (cur' & Hw' & Heq & Hcur).
    { case_decide as Db.
      - exists cur. rewrite filter_cons_False by (unfold blank; tauto). auto.
      - rewrite decide_False in Hw by congruence. exists (cur ++ [c]).
        rewrite filter_cons_True, <-app_assoc by (unfold blank; tauto). auto. }
    apply IH in Hw' as (Hf & Hd & Hn & Hr); [|done]. rewrite Heq in Hn, Hr.
    cbn [t_files t_dirs] in *. split_and!; [done|etrans; [apply union_subseteq_r|exact Hd]| |].
    2:{ intros Hok d H1 H2. destruct (decide (d = cur)) as [->|Hne]; [apply Hd, elem_of_union_l, elem_of_singleton_2; done|].
        apply (Hr Hok d); [|done]. destruct Hcur as [->| ->]; [done|].
        rewrite <-Heq, <-app_assoc in H2. by eapply prefix_step. }
    intros d [[->%elem_of_singleton|Hd']%elem_of_union|Hd']%Hn; [|by left|by right].
    right. by apply prefix_app_r.
Qed.

Lemma fs_create_dir_all_effect t p t' r : plain p -> fs_create_dir_all t p = (t', r) ->
  t_files t' = t_files t /\ t_dirs t ⊆ t_dirs t' /\
  (forall d, d ∈ t_dirs t' -> d ∈ t_dirs t \/ d `prefix_of` names p) /\
  (r = Ok tt -> reach t' (names p)).
Proof.
  intros Hp Hc. destruct (create_walk_effect t [] (split_char "/"%char p) t' r Hp Hc) as (? & ? & ? & Hr).
  split_and!; try done. intros Hok d Hd. apply (Hr Hok d); [apply prefix_nil|done].
Qed.
