(* ===== verification/World.v ===== *)
(** * The world of the storage backend

    The operations of [FilesystemStorage] run in [M E]: from a [world] (the file
    tree, the optional metadata index, a tick) to a world and a [Result].  The
    state reached is kept when an operation fails, as on disk.  Clocks, UUIDs and
    random bytes are read from [Environment] at the current tick, which every
    such read advances.  [Crates] are the digests and encodings of third-party
    crates.

    [pure_step m] says that [m] changes no file (hint database [maxio_pure]);
    [triple P m Q R] that from [P] it answers in [Q] or fails in [R]. *)

From stdpp Require Import base list gmap sets numbers strings pretty.
From Stdlib Require Import ZArith Lia Ascii Strings.Byte.
From S2P Require Import Prelude Bytes Reader Types MetadataIndex FileSystem.

Local Open Scope nat_scope.

(** What the process reads from outside at tick [n].  Instants ([now] and the
    result of [parse_rfc3339]) are numbers of nanoseconds since the epoch. *)
Class Environment : Type := {
  uuid_v4 : nat -> string;
  version_id_at : nat -> string;
  now_string : nat -> string;
  now : nat -> Z;
  today : nat -> string;
  now_plus_days : nat -> Z -> string;
  parse_rfc3339 : string -> option Z;
  random_bytes : nat -> nat -> bytes;
  available_disk_bytes : nat -> option Z;
}.

(** UUIDs are path segments that never repeat; the generator fills the
    buffer it is given. *)
Class EnvironmentSpec `{Environment} : Prop := {
  uuid_v4_inj n m : uuid_v4 n = uuid_v4 m -> n = m;
  uuid_v4_segment n : contains_char "/" (uuid_v4 n) = false;
  random_bytes_length n size : length (random_bytes n size) = size;
}.

(** The digest and encoding crates. *)
Class Crates : Type := {
  sha256 : bytes -> bytes;
  md5 : bytes -> bytes;
  hmac_sha256 : bytes -> bytes -> bytes;
  checksum_digest : ChecksumAlgorithm -> bytes -> bytes;
  hex_encode : bytes -> string;
  b64_encode : bytes -> string;
  b64_decode : string -> option bytes;
}.
Class CratesSpec `{Crates} : Prop := {
  b64_decode_encode b : b64_decode (b64_encode b) = Some b;
  sha256_length b : length (sha256 b) = 32;
  hmac_sha256_length k b : length (hmac_sha256 k b) = 32;
  hex_encode_nonempty b : b <> [] -> hex_encode b <> "";
  hex_encode_length b : String.length (hex_encode b) = 2 * length b;
  hex_encode_digits b : Forall (fun c => c ∈ chars "0123456789abcdef") (chars (hex_encode b));
}.

Record world : Type := mk_world {
  w_tree : tree;
  w_index : option index;
  w_tick : nat;
}.

(** ** The monad *)

Definition M (E A : Type) : Type := world -> world * result E A.

Global Instance M_ret {E} : MRet (M E) := fun A a w => (w, Ok a).
Global Instance M_bind {E} : MBind (M E) := fun A B f m w =>
  match m w with (w, Ok a) => f a w | (w, Err e) => (w, Err e) end.

Definition fail {E A} (e : E) : M E A := fun w => (w, Err e).
Definition lift {E A} (r : result E A) : M E A := fun w => (w, r).
Definition get_tree {E} : M E tree := fun w => (w, Ok (w_tree w)).

Definition with_tree (w : world) (t : tree) : world := mk_world t (w_index w) (w_tick w).

(** A call that changes the tree; [?] turns its error into [StorageError::Io]. *)
Definition call {A} (f : tree -> tree * result io_error A) : M StorageError A := fun w =>
  let '(t, r) := f (w_tree w) in (with_tree w t, map_err Io r).

(** [let _ = f();] *)
Definition ignore {E A} (f : tree -> tree * result io_error A) : M E unit := fun w =>
  let '(t, _) := f (w_tree w) in (with_tree w t, Ok tt).

Definition query {A} (f : tree -> result io_error A) : M StorageError A := fun w =>
  (w, map_err Io (f (w_tree w))).

Definition tick {E} : M E nat := fun w => (mk_world (w_tree w) (w_index w) (S (w_tick w)), Ok (w_tick w)).

Definition update_index {E} (f : index -> index) : M E unit := fun w =>
  (mk_world (w_tree w) (f <$> w_index w) (w_tick w), Ok tt).

(** A step written on the world itself. *)
Definition on_world {E A} (f : world -> world * result E A) : M E A := f.

(** A guard: [if b { return Err(e); }]. *)
Definition fail_if {E} (b : bool) (e : E) : M E unit := if b then fail e else mret tt.

Lemma M_bind_ok {E A B} (m : M E A) (f : A -> M E B) w w' b :
  (m ≫= f) w = (w', Ok b) <-> exists a w1, m w = (w1, Ok a) /\ f a w1 = (w', Ok b).
Proof.
  unfold mbind, M_bind. destruct (m w) as [w1 [a|e]]; split; [by eauto|by intros (? & ? & [= <- <-] & ?)|done|].
  by intros (? & ? & ? & _).
Qed.

Lemma run_ok {E A B} (m : M E A) (f : A -> M E B) w w1 a : m w = (w1, Ok a) -> (m ≫= f) w = f a w1.
Proof. intros Hm. unfold mbind, M_bind. by rewrite Hm. Qed.
Lemma run_err {E A B} (m : M E A) (f : A -> M E B) w w1 e : m w = (w1, Err e) -> (m ≫= f) w = (w1, Err e).
Proof. intros Hm. unfold mbind, M_bind. by rewrite Hm. Qed.
Lemma run_lift {E A B} (r : result E A) (f : A -> M E B) w a : r = Ok a -> (lift r ≫= f) w = f a w.
Proof. by intros ->. Qed.


(** ** Steps that touch no file *)

Create HintDb maxio_pure.

Definition pure_step {E A} (m : M E A) : Prop := forall w w' r, m w = (w', r) ->
  w_tree w' = w_tree w /\ w_index w' = w_index w /\ w_tick w <= w_tick w'.

Lemma pure_bind {E A B} (m : M E A) (f : A -> M E B) :
  pure_step m -> (forall a, pure_step (f a)) -> pure_step (m ≫= f).
Proof.
  intros Hm Hf w w' r. unfold mbind, M_bind. destruct (m w) as [w1 [a|e]] eqn:Em.
  - intros Hr. apply Hf in Hr as (-> & -> & ?). apply Hm in Em as (-> & -> & ?). split_and!; [done..|lia].
  - intros [= <- <-]. by apply Hm in Em.
Qed.
Lemma pure_lift {E A} (x : result E A) : pure_step (lift x).
Proof. by intros w w' r [= <- <-]. Qed.
Lemma pure_ret {E A} (a : A) : pure_step (mret a : M E A).
Proof. by intros w w' r [= <- <-]. Qed.
Lemma pure_fail {E A} (e : E) : pure_step (fail e : M E A).
Proof. by intros w w' r [= <- <-]. Qed.
Lemma pure_tick {E} : pure_step (tick : M E nat).
Proof. intros w w' r [= <- <-]. cbn. split_and!; [done..|lia]. Qed.
Lemma pure_query {A} (f : tree -> result io_error A) : pure_step (query f).
Proof. by intros w w' r [= <- <-]. Qed.
Lemma pure_get_tree {E} : pure_step (get_tree : M E tree).
Proof. by intros w w' r [= <- <-]. Qed.
Lemma pure_fail_if {E} b (e : E) : pure_step (fail_if b e).
Proof. destruct b; [apply pure_fail|apply pure_ret]. Qed.
#[export] Hint Resolve pure_bind pure_lift pure_ret pure_fail pure_tick pure_query pure_get_tree
  pure_fail_if : maxio_pure.

(** ** Triples

    From a world in [P], [m] answers in [Q] or fails in [R]. *)
Definition triple {E A} (P : world -> Prop) (m : M E A) (Q : A -> world -> Prop) (R : world -> Prop) : Prop :=
  forall w, P w -> match m w with (w', Ok a) => Q a w' | (w', Err _) => R w' end.

Section triples.
Context {E A B : Type}.
Implicit Types P R : world -> Prop.

Lemma triple_bind P (m : M E A) (f : A -> M E B) Q Q' R :
  triple P m Q' R -> (forall a, triple (Q' a) (f a) Q R) -> triple P (m ≫= f) Q R.
Proof.
  intros Hm Hf w Hw. specialize (Hm w Hw). unfold mbind, M_bind.
  destruct (m w) as [w1 [a|e]]; [by apply Hf|done].
Qed.
Lemma triple_ret P (a : A) Q R : (forall w, P w -> Q a w) -> triple P (mret a : M E A) Q R.
Proof. intros Hq w Hw. by apply Hq. Qed.
Lemma triple_fail P (e : E) (Q : A -> world -> Prop) R : (forall w, P w -> R w) -> triple P (fail e) Q R.
Proof. intros Hr w Hw. by apply Hr. Qed.
Lemma triple_lift P (x : result E A) Q R :
  (forall w, P w -> R w) -> (forall a w, P w -> x = Ok a -> Q a w) -> triple P (lift x) Q R.
Proof. intros Hr Hq w Hw. cbn. destruct x; eauto. Qed.
Lemma triple_conseq P P' (m : M E A) (Q Q' : A -> world -> Prop) R R' :
  triple P' m Q' R' -> (forall w, P w -> P' w) -> (forall a w, Q' a w -> Q a w) ->
  (forall w, R' w -> R w) -> triple P m Q R.
Proof.
  intros Hm Hp Hq Hr w Hw. specialize (Hm w (Hp w Hw)).
  destruct (m w) as [w' [a|e]]; auto.
Qed.
(** A step that touches no file keeps what does not look at the tick's value. *)
Lemma triple_pure P (m : M E A) :
  pure_step m ->
  (forall w w', P w -> w_tree w' = w_tree w -> w_index w' = w_index w -> w_tick w <= w_tick w' -> P w') ->
  triple P m (fun _ => P) P.
Proof.
  intros Hm Hp w Hw. destruct (m w) as [w' r] eqn:Em. apply Hm in Em as (? & ? & ?).
  destruct r; by eapply Hp.
Qed.
End triples.

Lemma lift_ok {E A} (x : result E A) w w' a : lift x w = (w', Ok a) <-> x = Ok a /\ w' = w.
Proof. unfold lift. split; [by intros [= -> ->]|by intros [-> ->]]. Qed.
Lemma fail_if_ok {E} b (e : E) w w' a : fail_if b e w = (w', Ok a) <-> b = false /\ w' = w.
Proof. destruct a, b; cbn; split; [done|by intros []|by intros [= ->]|by intros [_ ->]]. Qed.

(** ** Bytes of a witness *)

Module ToyWorld.
#[export] Instance toy_environment : Environment := {|
  uuid_v4 n := of_chars (replicate n "u"%char);
  version_id_at n := "v" +:+ pretty n;
  now_string n := "t" +:+ pretty n;
  now n := Z.of_nat n;
  today n := "2026-01-01";
  now_plus_days n d := "later";
  parse_rfc3339 s := if decide (s = "later") then Some 1000000%Z else None;
  random_bytes n size := replicate size (byte_of_Z (Z.of_nat n));
  available_disk_bytes n := Some 1000000%Z
|}.
#[export] Instance toy_environment_spec : EnvironmentSpec.
Proof.
  split.
  - intros n m E. change (of_chars (replicate n "u"%char) = of_chars (replicate m "u"%char)) in E.
    apply (f_equal chars) in E. rewrite !chars_of_chars in E.
    apply (f_equal length) in E. by rewrite !length_replicate in E.
  - intros n. unfold contains_char. rewrite bool_decide_eq_false. cbn. rewrite chars_of_chars.
    by intros [[=] _]%elem_of_replicate.
  - intros n size. apply length_replicate.
Qed.
(** Hexadecimal digits. *)
Definition hex_digit (n : nat) : ascii := default "0"%char (String.get n "0123456789abcdef").
Definition hex_value (c : ascii) : option nat := String.index 0 (String (to_ascii_lowercase c) "") "0123456789abcdef".
Definition hexadecimal : bytes -> string :=
  foldr (fun b s => let n := Byte.to_nat b in String (hex_digit (n / 16)) (String (hex_digit (n mod 16)) s)) "".
Fixpoint of_hexadecimal (s : string) : bytes :=
  match s with
  | String a (String b rest) =>
      default x00 (Byte.of_nat (16 * default 0 (hex_value a) + default 0 (hex_value b))) :: of_hexadecimal rest
  | _ => []
  end.
Lemma of_hexadecimal_hexadecimal l : of_hexadecimal (hexadecimal l) = l.
Proof. induction l as [|b l IH]; [done|]. destruct b; exact (f_equal (cons _) IH). Qed.
#[export] Instance toy_crates : Crates := {|
  sha256 b := take 32 (b ++ replicate 32 x00);
  md5 b := take 16 (b ++ replicate 16 x00);
  hmac_sha256 k b := take 32 (take 16 k ++ take 16 (rev b) ++ replicate 32 x00);
  checksum_digest a b := b;
  hex_encode := hexadecimal;
  b64_encode := String.string_of_list_byte;
  b64_decode s := Some (String.list_byte_of_string s)
|}.
#[export] Instance toy_crates_spec : CratesSpec.
Proof.
  split.
  - intros b. cbn. f_equal. apply String.list_byte_of_string_of_list_byte.
  - intros b. unfold sha256, toy_crates. rewrite length_take, length_app, length_replicate. lia.
  - intros k b. unfold hmac_sha256, toy_crates. rewrite length_take, !length_app, length_replicate. lia.
  - intros [|x b]; [done|]. by intros _.
  - intros b. induction b as [|x b IH]; [done|]. change (hex_encode (x :: b)) with (hexadecimal (x :: b)).
    cbn [hexadecimal foldr String.length length]. change (foldr _ "" b) with (hexadecimal b). change (hexadecimal b) with (hex_encode b). rewrite IH. lia.
  - intros b. induction b as [|x b IH]; [by constructor|]. change (hex_encode (x :: b)) with (hexadecimal (x :: b)).
    cbn [hexadecimal foldr chars]. constructor; [|constructor; [|exact IH]]; destruct x; apply (bool_decide_unpack _); vm_compute; exact I.
Qed.
End ToyWorld.
