(* ===== verification/TreeOk.v ===== *)
(** * The tree stays well formed

    [tree_ok]: what is in the tree is in a directory, no name is both a file and
    a directory, and names are single path segments.  Every call of
    [FileSystem], and so every operation built from calls, keeps it ([keeps],
    hint database [maxio_keeps]). *)

From stdpp Require Import base list gmap sets numbers strings pretty.
From Stdlib Require Import ZArith Lia Ascii Strings.Byte.
From S2P Require Import Prelude Bytes Reader Types MetadataIndex FileSystem Paths World.

Local Open Scope nat_scope.

Definition segment (s : string) : Prop := contains_char "/" s = false /\ ~ blank s /\ s <> "..".

Definition present (t : tree) (l : location) : Prop := l ∈ t_dirs t \/ is_Some (t_files t !! l).

Record tree_ok (t : tree) : Prop := {
  to_parent l : present t l -> l = [] \/ parent_of l ∈ t_dirs t;
  to_disjoint l : l ∈ t_dirs t -> t_files t !! l = None;
  to_names l : present t l -> Forall segment l;
}.

Lemma parent_of_snoc (l : location) s : parent_of (l ++ [s]) = l.
Proof. unfold parent_of. rewrite length_app. cbn. by rewrite Nat.add_sub, take_app_length. Qed.
Lemma parent_of_prefix (l : location) : parent_of l `prefix_of` l.
Proof. unfold parent_of. exists (drop (length l - 1) l). by rewrite take_drop. Qed.
Lemma parent_of_names (l : location) : Forall segment l -> Forall segment (parent_of l).
Proof. intros Hl. by apply Forall_take. Qed.

(** ** Where a path leads *)

(** A place one may reach: well-named, in a directory. *)
Definition reachable (t : tree) (l : location) : Prop :=
  Forall segment l /\ (l = [] \/ parent_of l ∈ t_dirs t).

Lemma reachable_parent t l : tree_ok t -> l ∈ t_dirs t -> reachable t (parent_of l).
Proof.
  intros Hok Hl. split; [apply parent_of_names; apply (to_names t Hok); by left|].
  destruct (to_parent t Hok l) as [-> |Hp]; [by left|by left|].
  apply (to_parent t Hok). by left.
Qed.

Lemma reachable_child t l s : l ∈ t_dirs t -> Forall segment l -> segment s -> reachable t (l ++ [s]).
Proof.
  intros Hl Hs Hseg. split; [apply Forall_app; split; [done|by constructor]|].
  right. by rewrite parent_of_snoc.
Qed.

Lemma piece_segment s : contains_char "/" s = false -> ~ (s = "" \/ s = ".") -> s <> ".." -> segment s.
Proof. by intros. Qed.

Lemma walk_reachable t cur l r :
  tree_ok t -> reachable t cur -> Forall (fun s => contains_char "/" s = false) l ->
  walk t cur l = Ok r -> reachable t r /\ (r ∈ t_dirs t \/ r <> [] \/ l = []).
Proof.
  intros Hok. revert cur. induction l as [|c l IH]; intros cur Hc Hl; cbn [walk].
  { intros [= <-]. split; [done|]. by right; right. }
  apply Forall_cons in Hl as [Hs Hl]. destruct (decide (cur ∈ t_dirs t)) as [Hin|]; [|by case_decide].
  intros Hw.
  assert (Hres : forall next, reachable t next -> (l = [] -> r = next -> r ∈ t_dirs t \/ r <> []) ->
    walk t next l = Ok r -> reachable t r /\ (r ∈ t_dirs t \/ r <> [] \/ c :: l = [])).
  { intros next Hn Hlast Hwn. destruct (IH next Hn Hl Hwn) as [Hr [?|[?| ->]]]; split; auto.
    destruct Hlast as [?|?]; [done|by injection Hwn|by left|by right; left]. }
  case_decide as D1; [|case_decide as D2].
  - apply (Hres cur); [done| |done]. intros _ ->. by left.
  - apply (Hres (parent_of cur)); [by apply reachable_parent| |done]. intros _ ->.
    destruct (to_parent t Hok cur) as [-> |Hp]; [by left|by left|by left].
  - apply (Hres (cur ++ [c])); [| |done].
    + apply reachable_child; [done|apply (to_names t Hok); by left|by apply piece_segment].
    + intros _ ->. right. by destruct cur.
Qed.

Lemma resolve_reachable t p l :
  tree_ok t -> resolve t p = Ok l -> reachable t l /\ (l ∈ t_dirs t \/ l <> []).
Proof.
  intros Hok Hr. unfold resolve in Hr. apply walk_reachable in Hr as [Hl Hor].
  - split; [done|]. destruct Hor as [?|[?|E]]; [by left|by right|].
    destruct (split_char_cons "/" p) as (w & ws & E'). congruence.
  - done.
  - split; [done|by left].
  - apply Forall_forall. intros s. apply split_char_pieces.
Qed.

(** A place in the tree, seen from a larger or smaller tree. *)
Lemma tree_ok_same t files dirs :
  t_files t = files -> t_dirs t = dirs -> tree_ok t -> tree_ok (mk_tree files dirs).
Proof. intros <- <-. by destruct t. Qed.

(** ** The calls *)

Definition keeps_tree {A} (f : tree -> tree * result io_error A) : Prop := forall t, tree_ok t -> tree_ok (fst (f t)).

Lemma write_keeps p c : keeps_tree (fun t => fs_write t p c).
Proof.
  intros t Hok. unfold fs_write. destruct (resolve t p) as [l|e] eqn:E; [|done].
  case_decide as D; [done|]. cbn.
  destruct (resolve_reachable t p l Hok E) as [[Hs Hp] [?|Hn]]; [done|].
  destruct Hp as [->|Hp]; [done|]. split.
  - intros k [Hk|[c' Hk]]; [apply (to_parent t Hok); by left|]. cbn in Hk.
    apply lookup_insert_Some in Hk as [[<- _]|[_ Hk]]; [by right|].
    apply (to_parent t Hok). by right.
  - intros k Hk. cbn in *. rewrite lookup_insert_ne by congruence. by apply (to_disjoint t Hok).
  - intros k [Hk|[c' Hk]]; [apply (to_names t Hok); by left|]. cbn in Hk.
    apply lookup_insert_Some in Hk as [[<- _]|[_ Hk]]; [done|].
    apply (to_names t Hok). by right.
Qed.

(** Adding a directory in a directory, where there is nothing. *)
Lemma add_dir_ok t l :
  tree_ok t -> reachable t l -> t_files t !! l = None -> tree_ok (mk_tree (t_files t) ({[l]} ∪ t_dirs t)).
Proof.
  intros Hok [Hs Hp] Hf. split.
  - intros k [Hk|Hk]; cbn in *.
    + apply elem_of_union in Hk as [->%elem_of_singleton|Hk]; [destruct Hp as [?|?]; [by left|right; set_solver]|].
      destruct (to_parent t Hok k) as [?|?]; [by left|by left|right; set_solver].
    + destruct (to_parent t Hok k) as [?|?]; [by right|by left|right; set_solver].
  - intros k. cbn. rewrite elem_of_union, elem_of_singleton. intros [->|Hk]; [done|by apply (to_disjoint t Hok)].
  - intros k [Hk|Hk]; cbn in *; [|apply (to_names t Hok); by right].
    apply elem_of_union in Hk as [->%elem_of_singleton|Hk]; [done|]. apply (to_names t Hok). by left.
Qed.

Lemma create_dir_keeps p : keeps_tree (fun t => fs_create_dir t p).
Proof.
  intros t Hok. unfold fs_create_dir. destruct (resolve t p) as [l|e] eqn:E; [|done].
  case_decide as D; [done|]. cbn. apply add_dir_ok; [done|by eapply resolve_reachable|].
  apply eq_None_not_Some. tauto.
Qed.

Lemma create_walk_keeps t cur l :
  tree_ok t -> reachable t cur -> Forall (fun s => contains_char "/" s = false) l ->
  tree_ok (fst (create_walk t cur l)).
Proof.
  revert t cur. induction l as [|c l IH]; intros t cur Hok Hc Hl; cbn [create_walk]; case_decide as D; try done;
    apply eq_None_not_Some in D; pose proof (add_dir_ok t cur Hok Hc D) as Hok'; [done|].
  apply Forall_cons in Hl as [Hs Hl]. set (t' := mk_tree _ _) in *.
  assert (Hin : cur ∈ t_dirs t') by (cbn; set_solver).
  case_decide as D1; [|case_decide as D2]; apply IH; try done.
  - destruct Hc as [Hn [?|Hp]]; split; [done|by left|done|right; cbn; set_solver].
  - by apply reachable_parent.
  - apply reachable_child; [done|apply Hc|by apply piece_segment].
Qed.
Lemma create_dir_all_keeps p : keeps_tree (fun t => fs_create_dir_all t p).
Proof.
  intros t Hok. apply create_walk_keeps; [done|split; [done|by left]|].
  apply Forall_forall. intros s. apply split_char_pieces.
Qed.

(** Taking away part of the tree, closed under what is below. *)
Lemma shrink_ok t files dirs :
  tree_ok t -> files ⊆ t_files t -> dirs ⊆ t_dirs t ->
  (forall l, l ∈ dirs \/ is_Some (files !! l) -> l <> [] -> parent_of l ∈ t_dirs t -> parent_of l ∈ dirs) ->
  tree_ok (mk_tree files dirs).
Proof.
  intros Hok Hf Hd Hc.
  assert (Hpres : forall k, present (mk_tree files dirs) k -> present t k).
  { intros k [Hk|[c Hk]]; [left; by apply Hd|right]. exists c. by eapply lookup_weaken. }
  split.
  - intros k Hk. destruct (decide (k = [])) as [?|Hne]; [by left|right]. cbn.
    apply Hc; [done|done|].
    destruct (to_parent t Hok k (Hpres k Hk)) as [?|?]; done.
  - intros k Hk. cbn in *. destruct (files !! k) as [c|] eqn:E; [|done].
    assert (t_files t !! k = Some c) by (by eapply lookup_weaken).
    rewrite (to_disjoint t Hok) in *; [done|]. by apply Hd.
  - intros k Hk. by apply (to_names t Hok), Hpres.
Qed.

Lemma remove_file_keeps p : keeps_tree (fun t => fs_remove_file t p).
Proof.
  intros t Hok. unfold fs_remove_file. destruct (resolve t p) as [l|e]; [|done].
  destruct (t_files t !! l); [|done]. cbn. apply (shrink_ok t); [done|apply (delete_subseteq (t_files t) l)|done|by intros].
Qed.

Lemma empty_dir_spec t l k : empty_dir t l = true -> below l k -> ~ present t k.
Proof.
  unfold empty_dir. rewrite andb_true_iff, !bool_decide_eq_true. intros [Hf Hd] Hb [Hk|[c Hk]].
  - assert (k ∈ filter (fun k => below l k) (t_dirs t)) by (by apply elem_of_filter). set_solver.
  - assert (Hl : filter (fun '(k, _) => below l k) (t_files t) !! k = Some c) by (by apply map_lookup_filter_Some).
    by rewrite Hf in Hl.
Qed.

Lemma below_parent (l : location) : l <> [] -> below (parent_of l) l.
Proof.
  intros Hn. split; [apply parent_of_prefix|]. intros E. apply (f_equal length) in E. revert E.
  unfold parent_of. rewrite length_take. destruct l; [done|]. cbn. lia.
Qed.

Lemma remove_dir_keeps p : keeps_tree (fun t => fs_remove_dir t p).
Proof.
  intros t Hok. unfold fs_remove_dir. destruct (resolve t p) as [l|e]; [|done].
  case_decide as D; [|done]. destruct (empty_dir t l) eqn:E; [|done]. cbn.
  apply (shrink_ok t); [done|done|set_solver|]. intros k Hk Hne Hp.
  apply elem_of_difference. split; [done|]. intros Heq%elem_of_singleton.
  apply (empty_dir_spec t l k E); [rewrite <-Heq; by apply below_parent|].
  destruct Hk as [Hk|Hk]; [left; set_solver|by right].
Qed.

Lemma remove_tree_ok t l : tree_ok t -> tree_ok (remove_tree t l).
Proof.
  intros Hok. apply (shrink_ok t); [done|apply map_filter_subseteq|intros k; rewrite elem_of_filter; tauto|].
  intros k Hk Hne Hp. apply elem_of_filter. split; [|done]. intros Hl.
  assert (Hkl : l `prefix_of` k) by (etrans; [exact Hl|apply parent_of_prefix]).
  destruct Hk as [Hk|[c Hk]].
  - by apply elem_of_filter in Hk as [Hk _].
  - by apply map_lookup_filter_Some in Hk as [_ Hk].
Qed.
Lemma clear_tree_ok t l : tree_ok t -> tree_ok (clear_tree t l).
Proof.
  intros Hok. apply (shrink_ok t); [done|apply map_filter_subseteq|intros k; rewrite elem_of_filter; tauto|].
  intros k Hk Hne Hp. apply elem_of_filter. split; [|done]. intros Hb.
  assert (Hkl : below l k).
  { destruct Hb as [Hl Hnl]. split; [by etrans; [|apply parent_of_prefix]|].
    intros ->. apply Hnl, (anti_symm prefix); [apply parent_of_prefix|done]. }
  destruct Hk as [Hk|[c Hk]].
  - by apply elem_of_filter in Hk as [Hk _].
  - by apply map_lookup_filter_Some in Hk as [_ Hk].
Qed.
Lemma remove_dir_all_keeps p : keeps_tree (fun t => fs_remove_dir_all t p).
Proof.
  intros t Hok. unfold fs_remove_dir_all. destruct (resolve t p) as [l|e]; [|done].
  case_decide; [|done]. destruct (ends_in_dot p); [by apply clear_tree_ok|by apply remove_tree_ok].
Qed.

Lemma copy_keeps p q : keeps_tree (fun t => fs_copy t p q).
Proof. intros t Hok. unfold fs_copy. destruct (fs_read t p); [by apply write_keeps|done]. Qed.

(** ** Moving a directory *)

(** Everything above something present is a directory. *)
Lemma present_above t l r : tree_ok t -> r <> [] -> present t (l ++ r) -> l ∈ t_dirs t.
Proof.
  intros Hok. induction r as [|s r IH] using rev_ind; [done|]. intros _ Hp.
  rewrite app_assoc in Hp. destruct (to_parent t Hok _ Hp) as [E|E].
  - by apply app_nil in E as [_ ?].
  - rewrite parent_of_snoc in E. destruct (decide (r = [])) as [->|Hr]; [by rewrite app_nil_r in E|].
    apply IH; [done|by left].
Qed.

Lemma rebase_app (a b r : location) : rebase a b (a ++ r) = b ++ r.
Proof. unfold rebase. by rewrite drop_app_length. Qed.

Lemma move_tree_dirs t a b k :
  k ∈ t_dirs (move_tree t a b) <->
  (exists r, k = b ++ r /\ a ++ r ∈ t_dirs t) \/ (k ∈ t_dirs t /\ ~ a `prefix_of` k).
Proof.
  unfold move_tree. cbn. rewrite elem_of_union, elem_of_list_to_set, list_elem_of_fmap, elem_of_filter.
  split.
  - intros [(x & -> & Hx)|[Ha Hk]]; [left|by right].
    apply elem_of_elements, elem_of_filter in Hx as [[r ->] Hx]. exists r. by rewrite rebase_app.
  - intros [(r & -> & Hr)|[Ha Hk]]; [left|by right].
    exists (a ++ r). rewrite rebase_app. split; [done|]. apply elem_of_elements, elem_of_filter.
    split; [by eexists|done].
Qed.

Lemma move_tree_files t a b k c :
  t_files (move_tree t a b) !! k = Some c ->
  (exists r, k = b ++ r /\ t_files t !! (a ++ r) = Some c) \/ (t_files t !! k = Some c /\ ~ a `prefix_of` k).
Proof.
  unfold move_tree. cbn. intros [Hl|[_ Hl]]%lookup_union_Some_raw.
  - left. apply elem_of_list_to_map_2, list_elem_of_fmap in Hl as ([x v] & [= -> ->] & Hx).
    apply elem_of_map_to_list, map_lookup_filter_Some in Hx as [Hx [r ->]].
    exists r. by rewrite rebase_app.
  - right. by apply map_lookup_filter_Some in Hl.
Qed.

Lemma move_tree_ok t a b :
  tree_ok t -> a ∈ t_dirs t -> reachable t b -> a <> b -> ~ below a b -> t_files t !! b = None ->
  (b ∈ t_dirs t -> empty_dir t b = true) -> tree_ok (move_tree t a b).
Proof.
  intros Hok Ha [Hbs Hbp] Hne Hnb Hbf Hbe.
  assert (Hab : ~ a `prefix_of` b) by (intros Hp; apply Hnb; split; [done|congruence]).
  assert (Hclear : forall r, r <> [] -> ~ present t (b ++ r)).
  { intros r Hr Hp. assert (Hb : b ∈ t_dirs t) by (by eapply present_above).
    apply (empty_dir_spec t b (b ++ r) (Hbe Hb)); [|done]. split; [by eexists|].
    intros E. rewrite <-(app_nil_r b) in E at 2. by apply app_inj_1 in E as [_ ?]. }
  assert (Hmoved : forall k, present (move_tree t a b) k ->
    (exists r, k = b ++ r /\ present t (a ++ r)) \/ (present t k /\ ~ a `prefix_of` k)).
  { intros k [Hk|[c Hk]]; [apply move_tree_dirs in Hk|apply move_tree_files in Hk];
      destruct Hk as [(r & -> & Hr)|[Hk Hp]];
      [left; exists r; split; [done|by left]|right; split; [by left|done]
      |left; exists r; split; [done|right; by eexists]|right; split; [right; by eexists|done]]. }
  split.
  - intros k [(r & -> & Hr)|[Hk Hp]]%Hmoved.
    + destruct r as [|s r _] using rev_ind.
      * rewrite app_nil_r. destruct Hbp as [?|Hbp]; [by left|right]. apply move_tree_dirs. right.
        split; [done|]. intros Hp. apply Hab. etrans; [exact Hp|apply parent_of_prefix].
      * right. rewrite app_assoc, parent_of_snoc. apply move_tree_dirs. left. exists r. split; [done|].
        apply (present_above t (a ++ r) [s] Hok); [done|by rewrite <-app_assoc].
    + destruct (to_parent t Hok k Hk) as [?|Hpk]; [by left|right]. apply move_tree_dirs. right.
      split; [done|]. intros Hp'. apply Hp. etrans; [exact Hp'|apply parent_of_prefix].
  - intros k Hk. destruct (t_files (move_tree t a b) !! k) as [c|] eqn:E; [exfalso|done].
    apply move_tree_files in E. apply move_tree_dirs in Hk.
    destruct E as [(r & -> & Hr)|[Hf Hp]], Hk as [(r' & E & Hr')|[Hd Hp']].
    + apply app_inj_1 in E as [_ <-]; [|done]. rewrite (to_disjoint t Hok (a ++ r)) in Hr; done.
    + destruct (decide (r = [])) as [->|Hrn].
      * rewrite app_nil_r, (to_disjoint t Hok a) in Hr; done.
      * apply (Hclear r Hrn). by left.
    + subst k. destruct (decide (r' = [])) as [->|Hrn].
      * rewrite app_nil_r in Hf. congruence.
      * apply (Hclear r' Hrn). right. by eexists.
    + rewrite (to_disjoint t Hok k) in Hf; done.
  - intros k [(r & -> & Hr)|[Hk _]]%Hmoved; [|by apply (to_names t Hok)].
    apply (to_names t Hok), Forall_app in Hr as [_ Hr]. by apply Forall_app.
Qed.

Lemma rename_keeps p q : keeps_tree (fun t => fs_rename t p q).
Proof.
  intros t Hok. unfold fs_rename. destruct (resolve t p) as [a|e] eqn:Ea; [|done].
  destruct (resolve t q) as [b|e] eqn:Eb; [|done].
  destruct (resolve_reachable t q b Hok Eb) as [Hb Hbn].
  destruct (t_files t !! a) as [v|] eqn:Ef.
  - case_decide as D; [done|]. destruct Hbn as [?|Hbn]; [done|]. cbn.
    assert (Hw : tree_ok (mk_tree (<[b:=v]> (t_files t)) (t_dirs t))).
    { pose proof (write_keeps q v t Hok) as Hw. unfold fs_write in Hw. rewrite Eb, decide_False in Hw by done. exact Hw. }
    destruct (decide (a = b)) as [->|Hne].
    { by rewrite insert_delete_eq. }
    rewrite <-delete_insert_ne by done.
    apply (shrink_ok _ _ _ Hw); [apply delete_subseteq|done|by intros].
  - case_decide as Da; [|done]. case_decide as Dab; [done|]. case_decide as Dbe; [done|].
    case_decide as Dbf; [done|]. apply eq_None_not_Some in Dbf.
    case_decide as Dbd; [destruct (empty_dir t b) eqn:E; [|done]|]; by apply move_tree_ok.
Qed.

(** ** Operations *)

Create HintDb maxio_keeps.

Definition keeps {E A} (m : M E A) : Prop := forall w, tree_ok (w_tree w) -> tree_ok (w_tree (fst (m w))).

Section keeps.
Context {E A B : Type}.

Lemma keep_bind (m : M E A) (f : A -> M E B) : keeps m -> (forall a, keeps (f a)) -> keeps (m ≫= f).
Proof.
  intros Hm Hf w Hw. unfold mbind, M_bind. specialize (Hm w Hw).
  destruct (m w) as [w1 [a|e]]; [by apply Hf|done].
Qed.
Lemma keep_pure (m : M E A) : pure_step m -> keeps m.
Proof. intros Hp w Hw. destruct (m w) as [w' r] eqn:Em. apply Hp in Em as (Ht & _). cbn. by rewrite Ht. Qed.
Lemma keep_ignore (f : tree -> tree * result io_error A) : keeps_tree f -> keeps (ignore f : M E unit).
Proof. intros Hf w Hw. specialize (Hf _ Hw). unfold ignore. by destruct (f (w_tree w)). Qed.
Lemma keep_index (f : index -> index) : keeps (update_index f : M E unit).
Proof. by intros w Hw. Qed.
End keeps.

Lemma keep_call {A} (f : tree -> tree * result io_error A) : keeps_tree f -> keeps (call f).
Proof. intros Hf w Hw. specialize (Hf _ Hw). unfold call. by destruct (f (w_tree w)). Qed.

Section pure.
Context {E A : Type}.
Lemma keep_lift (x : result E A) : keeps (lift x). Proof. apply keep_pure, pure_lift. Qed.
Lemma keep_ret (a : A) : keeps (mret a : M E A). Proof. apply keep_pure, pure_ret. Qed.
Lemma keep_fail (e : E) : keeps (fail e : M E A). Proof. apply keep_pure, pure_fail. Qed.
Lemma keep_fail_if b (e : E) : keeps (fail_if b e). Proof. apply keep_pure, pure_fail_if. Qed.
Lemma keep_tick : keeps (tick : M E nat). Proof. apply keep_pure, pure_tick. Qed.
Lemma keep_get_tree : keeps (get_tree : M E tree). Proof. apply keep_pure, pure_get_tree. Qed.
End pure.
Lemma keep_query {A} (f : tree -> result io_error A) : keeps (query f).
Proof. apply keep_pure, pure_query. Qed.

#[export] Hint Resolve keep_bind keep_lift keep_ret keep_fail keep_fail_if keep_tick keep_get_tree keep_query
  keep_call keep_ignore keep_index write_keeps create_dir_keeps create_dir_all_keeps remove_file_keeps
  remove_dir_keeps remove_dir_all_keeps copy_keeps rename_keeps : maxio_keeps.

(** Through the conditionals and matches of an operation. *)
Ltac keeps :=
  repeat first
    [ progress (cbv zeta)
    | match goal with
      | |- keeps (mbind _ _) => apply keep_bind; [|intros]
      | |- keeps (match ?x with _ => _ end) => destruct x
      | |- keeps (let '_ := ?x in _) => destruct x
      end
    | solve [eauto with maxio_keeps] ].

(** ** Deciding it, on a concrete tree *)

Global Instance segment_dec s : Decision (segment s).
Proof. unfold segment. apply _. Defined.

Definition tree_okb (t : tree) : bool :=
  forallb (fun l => (bool_decide (l = []) || bool_decide (parent_of l ∈ t_dirs t)) && bool_decide (Forall segment l))
    (elements (t_dirs t) ++ map fst (map_to_list (t_files t)))
  && forallb (fun l => bool_decide (t_files t !! l = None)) (elements (t_dirs t)).

Lemma tree_okb_ok t : tree_okb t = true -> tree_ok t.
Proof.
  unfold tree_okb. rewrite andb_true_iff, !forallb_forall. intros [Hall Hdis].
  assert (Hp : forall l, present t l -> (l = [] \/ parent_of l ∈ t_dirs t) /\ Forall segment l).
  { intros l Hl. specialize (Hall l). rewrite andb_true_iff, orb_true_iff, !bool_decide_eq_true in Hall.
    apply Hall, list_elem_of_In, elem_of_app. destruct Hl as [Hl|[c Hl]]; [left; by apply elem_of_elements|right].
    apply list_elem_of_fmap. exists (l, c). split; [done|by apply elem_of_map_to_list]. }
  split.
  - intros l Hl. by apply Hp.
  - intros l Hl. specialize (Hdis l). rewrite bool_decide_eq_true in Hdis.
    apply Hdis. by apply list_elem_of_In, elem_of_elements.
  - intros l Hl. by apply Hp.
Qed.

(** ** Calls below directories that are there *)

Lemma at_place_no_slash path P s : at_place path P s -> contains_char "/" s = false.
Proof. intros (l & E & _). apply (split_char_pieces "/"%char path). rewrite E. apply elem_of_app. right. by left. Qed.

Lemma create_walk_there t cur l : ".." ∉ l ->
  (forall d, cur `prefix_of` d -> d `prefix_of` cur ++ filter (fun c => ~ blank c) l -> d ∈ t_dirs t /\ t_files t !! d = None) ->
  create_walk t cur l = (t, Ok tt).
Proof.
  assert (Hsame : forall c, c ∈ t_dirs t -> mk_tree (t_files t) ({[c]} ∪ t_dirs t) = t).
  { intros c Hc. destruct t as [files dirs]. cbn in *. f_equal. set_solver. }
  revert cur. induction l as [|c l IH]; intros cur Hd Hr; cbn [create_walk];
    (destruct (Hr cur) as [Hc Hf]; [done|by apply prefix_app_r|]); rewrite Hf, decide_False, Hsame by (done || by intros []); [done|].
  apply not_elem_of_cons in Hd as [Hne Hd]. case_decide as B.
  - rewrite filter_cons_False in Hr by (unfold blank; tauto). by apply IH.
  - rewrite decide_False by congruence. rewrite filter_cons_True in Hr by (unfold blank; tauto).
    apply IH; [done|]. intros d H1 H2. apply Hr; [by eapply prefix_app_l|]. by rewrite <-app_assoc in H2.
Qed.
Lemma create_dir_all_there t q P : tree_ok t -> plain q -> names q = P -> reach t P -> fs_create_dir_all t q = (t, Ok tt).
Proof.
  intros Hok Hp Hn Hr. apply create_walk_there; [done|]. intros d _ Hd. fold (names q) in Hd. rewrite Hn in Hd.
  split; [by apply Hr|]. apply (to_disjoint t Hok). by apply Hr.
Qed.

Lemma with_file_ok t l c : tree_ok t -> l <> [] -> reach t (parent_of l) -> Forall segment l -> l ∉ t_dirs t -> tree_ok (with_file t l c).
Proof.
  intros Hok Hne Hr Hs Hd. split.
  - intros k [Hk|Hk]; [apply (to_parent t Hok); by left|]. cbn in Hk. destruct (decide (k = l)) as [->|Hn].
    + right. by apply Hr.
    + rewrite lookup_insert_ne in Hk by done. apply (to_parent t Hok). by right.
  - intros k Hk. cbn in *. rewrite lookup_insert_ne by congruence. by apply (to_disjoint t Hok).
  - intros k [Hk|Hk]; [apply (to_names t Hok); by left|]. cbn in Hk. destruct (decide (k = l)) as [->|Hn]; [done|].
    rewrite lookup_insert_ne in Hk by done. apply (to_names t Hok). by right.
Qed.

Lemma create_parent_there path P s w : tree_ok (w_tree w) -> at_place path P s -> reach (w_tree w) P ->
  match path_parent path with Some q => fs_create_dir_all (w_tree w) q = (w_tree w, Ok tt) | None => True end.
Proof.
  intros Hok Ha Hr. destruct (at_place_parent _ _ _ Ha) as (q & -> & Hn & Hp). by apply (create_dir_all_there _ q P).
Qed.
Lemma fs_write_there t path P s c : at_place path P s -> reach t P -> P ++ [s] ∉ t_dirs t ->
  fs_write t path c = (with_file t (P ++ [s]) c, Ok tt).
Proof. intros Ha Hr Hd. unfold fs_write. rewrite (resolve_place _ _ _ _ Ha Hr). by rewrite decide_False. Qed.
Lemma at_place_segment path P s : at_place path P s -> segment s.
Proof. intros Ha. pose proof (at_place_no_slash _ _ _ Ha). by destruct Ha as (l & _ & _ & _ & ? & ?). Qed.
(** A file at a place keeps the tree well formed. *)
Lemma with_place_ok t path P s c : tree_ok t -> at_place path P s -> reach t P -> P ++ [s] ∉ t_dirs t ->
  tree_ok (with_file t (P ++ [s]) c).
Proof.
  intros Hok Ha Hr Hd. apply with_file_ok; [done|by destruct P|by rewrite parent_of_snoc| |done].
  apply Forall_app. split; [apply (to_names t Hok); left; by apply Hr|]. constructor; [|constructor]. by eapply at_place_segment.
Qed.
