(* ===== verification/Keyring.v ===== *)
(** * Master keys

    [maxio-storage/src/keys.rs] and [kms.rs]: the SSE-S3 keyring (bootstrap,
    loading with or without an operator's master key, rotation, wrapping and
    unwrapping of data keys) and the local KMS backend.

    AES-256-GCM is [Aead]; the digests and base64 are [Crates].  Random bytes
    are arguments; the keyring file is what reading and parsing it gave. *)

From stdpp Require Import base list gmap sets numbers strings pretty.
From Stdlib Require Import ZArith Lia Ascii Strings.Byte.
From S2P Require Import Prelude Bytes Reader Types Quota Crypto MetadataIndex FileSystem World.

Local Open Scope nat_scope.

Record KeyEntryJson : Type := mk_KeyEntryJson {
  ke_id : string;
  ke_key_b64 : string;
  ke_created_at : string;
  ke_active : bool;
}.
Abbreviation KeyringFile := (list KeyEntryJson).

(** What reading [.maxio-keys.json] gave: no file, an I/O error, a text that
    does not parse, or the entries. *)
Inductive keyring_file : Type :=
| Missing
| ReadError (msg : string)
| Malformed (msg : string)
| Parsed (kr : KeyringFile).

Record Keyring : Type := mk_Keyring { kr_keys : gmap string bytes; kr_active_id : string }.

Section keyring.
Context `{Crates} `{Aead}.

(** [Keyring::is_usable]. *)
Definition is_usable (k : Keyring) : bool := bool_decide (kr_keys k <> ∅).

Definition key_id_from_bytes (key : bytes) : string := hex_encode (take 8 (sha256 key)).

Definition decode_32 (s : string) : result string bytes :=
  raw ← ok_or (b64_decode s) "bad base64";
  if length raw =? 32 then Ok raw
  else Err ("expected 32 bytes, got " +:+ pretty (length raw)).

(** [keys.entry(id).or_insert(kb)] and [keys.insert(id, kb)] over the entries
    whose key decodes. *)
Definition merge_entry (keys : gmap string bytes) (entry : KeyEntryJson) : gmap string bytes :=
  match decode_32 (ke_key_b64 entry) with
  | Ok kb => match keys !! ke_id entry with Some _ => keys | None => <[ke_id entry := kb]> keys end
  | Err _ => keys
  end.
Definition load_entry (acc : gmap string bytes * option string) (entry : KeyEntryJson)
    : gmap string bytes * option string :=
  let '(keys, found_active) := acc in
  match decode_32 (ke_key_b64 entry) with
  | Ok kb => (<[ke_id entry := kb]> keys, if ke_active entry then Some (ke_id entry) else found_active)
  | Err _ => (keys, found_active)
  end.

(** The operator's key: active, with the file's keys for reading. *)
Definition load_with_master (mk : string) (file : keyring_file) : result string Keyring :=
  raw ← ok_or (b64_decode mk) "MAXIO_MASTER_KEY must be base64-encoded 32 bytes";
  if negb (length raw =? 32) then Err "MAXIO_MASTER_KEY must be exactly 32 bytes when decoded"
  else
    let id := key_id_from_bytes raw in
    let keys := {[ id := raw ]} in
    Ok (mk_Keyring match file with
                   | Parsed kr => fold_left merge_entry kr keys
                   | _ => keys
                   end id).

(** The keyring file, bootstrapped with [new_key] when it cannot be read; the
    second component is what is then written to it. *)
Definition bootstrap (new_key : bytes) (created_at : string) : KeyringFile :=
  [mk_KeyEntryJson (key_id_from_bytes new_key) (b64_encode new_key) created_at true].
Definition load_from_entries (kr : KeyringFile) : result string Keyring :=
  let '(keys, found_active) := fold_left load_entry kr (∅, None) in
  active_id ← ok_or found_active "Keyring file has no active key";
  Ok (mk_Keyring keys active_id).
Definition load_from_file (file : keyring_file) (new_key : bytes) (created_at : string)
    : result string (Keyring * option KeyringFile) :=
  match file with
  | Malformed e => Err ("Failed to parse keyring file: " +:+ e)
  | Parsed kr => k ← load_from_entries kr; Ok (k, None)
  | Missing | ReadError _ =>
      let kr := bootstrap new_key created_at in
      k ← load_from_entries kr; Ok (k, Some kr)
  end.

(** [Keyring::load]. *)
Definition load (master_key_b64 : option string) (file : keyring_file) (new_key : bytes) (created_at : string)
    : result string (Keyring * option KeyringFile) :=
  match master_key_b64 with
  | Some mk => k ← load_with_master mk file; Ok (k, None)
  | None => load_from_file file new_key created_at
  end.

(** ** Wrapping *)

Definition get_key (k : Keyring) (key_id : string) : result string bytes :=
  ok_or (kr_keys k !! key_id)
    ("Key '" +:+ key_id +:+ "' not found in keyring; object may be unrecoverable — check your MAXIO_MASTER_KEY or keyring file").

Definition wrap_dek (k : Keyring) (key_id : string) (dek nonce : bytes) : result string (bytes * bytes) :=
  master ← get_key k key_id;
  wrapped ← ok_or (seal master nonce dek (as_bytes key_id)) "DEK wrapping failed";
  Ok (wrapped, nonce).

(** With the key id as associated data, or without for older keys. *)
Definition unwrap_dek (k : Keyring) (key_id : string) (wrapped nonce : bytes) : result string bytes :=
  master ← get_key k key_id;
  plaintext ← ok_or (match open master nonce wrapped (as_bytes key_id) with
                     | Some p => Some p
                     | None => open master nonce wrapped []
                     end) "DEK unwrapping failed: authentication error";
  if length plaintext =? 32 then Ok plaintext
  else Err ("Unwrapped DEK has wrong length: " +:+ pretty (length plaintext)).

(** ** The keyring file *)

Record KeyMetadata : Type := mk_KeyMetadata { km_id : string; km_created_at : string; km_active : bool }.

Definition list_metadata (file : keyring_file) : result string (list KeyMetadata) :=
  match file with
  | Missing => Ok []
  | ReadError e => Err e
  | Malformed e => Err ("Failed to parse keyring file: " +:+ e)
  | Parsed kr => Ok (map (fun e => mk_KeyMetadata (ke_id e) (ke_created_at e) (ke_active e)) kr)
  end.

Record RotateResult : Type := mk_RotateResult {
  rr_new_active_id : string;
  rr_previous_active_id : option string;
  rr_total_keys : nat;
}.

Definition demote (e : KeyEntryJson) : KeyEntryJson :=
  mk_KeyEntryJson (ke_id e) (ke_key_b64 e) (ke_created_at e) false.

(** [rotate]: the new file and the answer. *)
Definition rotate (file : keyring_file) (new_key : bytes) (created_at : string)
    : result string (KeyringFile * RotateResult) :=
  kr ← match file with
       | Parsed kr => Ok kr
       | Malformed e => Err ("Failed to parse keyring file: " +:+ e)
       | Missing | ReadError _ => Ok []
       end;
  let previous_active := (fun p => ke_id p.2) <$> list_find (fun e => ke_active e = true) kr in
  let kr := map demote kr in
  let new_id := key_id_from_bytes new_key in
  if existsb (fun e => bool_decide (ke_id e = new_id)) kr then
    Err ("keyring rotate: generated key id " +:+ new_id +:+ " already present (extremely unlikely)")
  else
    let kr := kr ++ [mk_KeyEntryJson new_id (b64_encode new_key) created_at true] in
    Ok (kr, mk_RotateResult new_id previous_active (length kr)).

(** ** The local KMS *)

Inductive KmsError : Type := NotConfigured | InvalidMasterKey (msg : string) | OperationFailed (msg : string).

Record GeneratedDataKey : Type := mk_GeneratedDataKey {
  gd_plaintext : bytes;
  gd_ciphertext : bytes;
  gd_wrap_nonce : bytes;
  gd_kms_key_id : string;
}.

Definition kms_error_to_string (e : KmsError) : string :=
  match e with
  | NotConfigured => "KMS not configured: set MAXIO_KMS_MASTER_KEY"
  | InvalidMasterKey msg => "invalid KMS master key: " +:+ msg
  | OperationFailed msg => "KMS operation failed: " +:+ msg
  end.

(** [trait KmsBackend]: the operations, random bytes given. *)
Record KmsBackend : Type := mk_KmsBackend {
  generate_data_key : option string -> bytes -> bytes -> result KmsError GeneratedDataKey;
  decrypt_data_key : string -> bytes -> bytes -> result KmsError bytes;
}.

Definition DEFAULT_LOCAL_KMS_KEY_ID : string := "maxio-local-kms".

Record LocalKmsBackend : Type := mk_LocalKmsBackend { lk_master_key : bytes; lk_default_key_id : string }.

(** [trim] of ASCII white space. *)
Fixpoint trim_start (l : list ascii) : list ascii :=
  match l with
  | c :: l' => if decide (c ∈ [" "%char; "009"%char; "010"%char; "011"%char; "012"%char; "013"%char])
               then trim_start l' else l
  | [] => []
  end.
Definition trim (s : string) : string := of_chars (rev (trim_start (rev (trim_start (chars s))))).

Definition from_master_key_b64 (b64_key : string) : result KmsError LocalKmsBackend :=
  raw ← ok_or (b64_decode (trim b64_key)) (InvalidMasterKey "must be base64");
  if length raw =? 32 then Ok (mk_LocalKmsBackend raw DEFAULT_LOCAL_KMS_KEY_ID)
  else Err (InvalidMasterKey "decoded key must be exactly 32 bytes").

Definition local_generate (k : LocalKmsBackend) (key_id : option string) (plaintext wrap_nonce : bytes)
    : result KmsError GeneratedDataKey :=
  let kms_key_id := match key_id with
                    | Some s => if decide (s = "") then lk_default_key_id k else s
                    | None => lk_default_key_id k
                    end in
  ciphertext ← ok_or (seal (lk_master_key k) wrap_nonce plaintext (as_bytes kms_key_id))
                 (OperationFailed "DEK wrap failed");
  Ok (mk_GeneratedDataKey plaintext ciphertext wrap_nonce kms_key_id).

Definition local_decrypt (k : LocalKmsBackend) (kms_key_id : string) (ciphertext nonce : bytes)
    : result KmsError bytes :=
  plaintext ← ok_or (open (lk_master_key k) nonce ciphertext (as_bytes kms_key_id))
                (OperationFailed "DEK unwrap failed");
  if length plaintext =? 32 then Ok plaintext
  else Err (OperationFailed ("unwrapped DEK length " +:+ pretty (length plaintext) +:+ " != 32")).

Definition local_kms (k : LocalKmsBackend) : KmsBackend := mk_KmsBackend (local_generate k) (local_decrypt k).

(** [load_from_env]: the variable, when set. *)
Definition load_from_env (var : option string) : result KmsError (option KmsBackend) :=
  match var with
  | Some v => if decide (trim v = "") then Ok None
              else k ← from_master_key_b64 v; Ok (Some (local_kms k))
  | None => Ok None
  end.
End keyring.

(** ** Wrapping and unwrapping *)

Section spec.
Context `{CratesSpec} `{AeadSpec}.

Lemma as_bytes_length s : length (as_bytes s) = String.length s.
Proof. unfold as_bytes. induction s as [|c s IH]; cbn; [done|]. by f_equal. Qed.

(** Two keyrings in which a key id names the same key. *)
Definition shares (k k' : Keyring) (key_id : string) : Prop :=
  kr_keys k !! key_id <> None /\ kr_keys k' !! key_id = kr_keys k !! key_id.

Lemma unwrap_wrap k k' key_id dek nonce wrapped n :
  length dek = 32 -> shares k k' key_id -> wrap_dek k key_id dek nonce = Ok (wrapped, n) ->
  unwrap_dek k' key_id wrapped n = Ok dek.
Proof.
  intros Hl [_ Hs]. unfold wrap_dek, unwrap_dek, get_key. rewrite Hs.
  destruct (kr_keys k !! key_id) as [master|]; cbn; [|done].
  destruct (seal master nonce dek (as_bytes key_id)) as [c|] eqn:Es; cbn; [|done].
  intros [= -> ->]. apply open_seal in Es. by rewrite Es; cbn; rewrite Hl.
Qed.

Lemma wrap_total k key_id dek nonce :
  kr_keys k !! key_id <> None -> length dek = 32 -> length nonce = 12 ->
  (Z.of_nat (String.length key_id) <= 2 ^ 36)%Z ->
  is_ok (wrap_dek k key_id dek nonce) = true.
Proof.
  intros Hk Hd Hn Hid. unfold wrap_dek, get_key.
  destruct (kr_keys k !! key_id) as [master|]; cbn; [|done].
  destruct (seal_total master nonce dek (as_bytes key_id)) as [c ->]; [done|lia| |done].
  by rewrite as_bytes_length.
Qed.

(** ** Files of keys *)

(** Every key decodes and no id occurs twice. *)
Record file_ok (kr : KeyringFile) : Prop := {
  fo_nodup : NoDup (map ke_id kr);
  fo_decodes e : e ∈ kr -> is_ok (decode_32 (ke_key_b64 e)) = true;
}.

Lemma load_entries_other l a id :
  id ∉ map ke_id l -> (fold_left load_entry l a).1 !! id = a.1 !! id.
Proof.
  revert a. induction l as [|e l IH]; intros a Hn; [done|]. cbn in *. rewrite not_elem_of_cons in Hn.
  rewrite IH by tauto. destruct a as [keys f]. unfold load_entry.
  destruct (decode_32 (ke_key_b64 e)); [|done]. cbn. rewrite lookup_insert_ne; [done|].
  intros E. by apply (proj1 Hn).
Qed.

(** Loading gives every id of the file its key. *)
Lemma load_entries_lookup kr acc e kb :
  NoDup (map ke_id kr) -> e ∈ kr -> decode_32 (ke_key_b64 e) = Ok kb ->
  (fold_left load_entry kr acc).1 !! ke_id e = Some kb.
Proof.
  revert acc. induction kr as [|x kr IH]; intros acc Hnd Hx Hd; [by apply elem_of_nil in Hx|].
  cbn [map fold_left] in *. apply NoDup_cons in Hnd as [Hne Hnd].
  apply elem_of_cons in Hx as [<-|Hx]; [|by apply IH].
  rewrite load_entries_other by done. destruct acc as [keys f]. unfold load_entry. rewrite Hd. cbn.
  apply lookup_insert_eq.
Qed.

(** The last active entry is the active key. *)
Lemma load_entries_active kr acc :
  (forall e, e ∈ kr -> is_ok (decode_32 (ke_key_b64 e)) = true) ->
  (fold_left load_entry kr acc).2 =
  match last (filter (fun e => ke_active e = true) kr) with
  | Some e => Some (ke_id e)
  | None => acc.2
  end.
Proof.
  revert acc. induction kr as [|x kr IH]; intros acc Hd; [done|]. cbn [fold_left].
  rewrite IH by (intros e He; apply Hd; by right).
  specialize (Hd x ltac:(by left)). destruct acc as [keys f]. unfold load_entry.
  destruct (decode_32 (ke_key_b64 x)) as [kb|]; [|done]. cbn [snd].
  destruct (ke_active x) eqn:Ea.
  - rewrite filter_cons_True by done. destruct (filter _ kr) as [|y l]; [done|]. rewrite last_cons_cons.
    destruct (last (y :: l)) eqn:El; [done|by apply last_None in El].
  - rewrite filter_cons_False by (by rewrite Ea). done.
Qed.

Lemma map_demote_ids kr : map ke_id (map demote kr) = map ke_id kr.
Proof. rewrite map_map. by apply map_ext. Qed.

Lemma rotate_inv kr nk c kr' rr :
  rotate (Parsed kr) nk c = Ok (kr', rr) ->
  kr' = map demote kr ++ [mk_KeyEntryJson (key_id_from_bytes nk) (b64_encode nk) c true] /\
  rr_new_active_id rr = key_id_from_bytes nk /\ (key_id_from_bytes nk ∉ map ke_id kr) /\
  rr_total_keys rr = S (length kr).
Proof.
  unfold rotate. cbn. destruct (existsb _ _) eqn:Ex; [done|]. intros [= <- <-]. cbn.
  split_and!; [done|done| |rewrite length_app, length_map; cbn; lia].
  intros Hin. rewrite <-map_demote_ids in Hin. apply list_elem_of_fmap in Hin as (e & Hid & He).
  assert (existsb (fun e => bool_decide (ke_id e = key_id_from_bytes nk)) (map demote kr) = true) as Ht.
  { apply existsb_exists. exists e. split; [by apply list_elem_of_In|by apply bool_decide_eq_true]. }
  by rewrite Ht in Ex.
Qed.

Lemma rotate_file_ok kr nk c kr' rr :
  file_ok kr -> length nk = 32 -> rotate (Parsed kr) nk c = Ok (kr', rr) -> file_ok kr'.
Proof.
  intros [Hn Hd] Hl (-> & _ & Hnew & _)%rotate_inv. split.
  - rewrite map_app, map_demote_ids. apply NoDup_app. split_and!; [done| |apply NoDup_singleton].
    intros x Hx ->%list_elem_of_singleton. done.
  - intros e [(x & -> & Hx)%list_elem_of_fmap| ->%list_elem_of_singleton]%elem_of_app; [exact (Hd x Hx)|].
    cbn. unfold decode_32. rewrite b64_decode_encode. cbn. by rewrite Hl.
Qed.

Lemma rotate_keeps_entry kr nk c kr' rr e :
  rotate (Parsed kr) nk c = Ok (kr', rr) -> e ∈ kr -> demote e ∈ kr'.
Proof.
  intros (-> & _)%rotate_inv He. apply elem_of_app. left. apply list_elem_of_fmap. by exists e.
Qed.

Lemma load_from_entries_ok kr k :
  load_from_entries kr = Ok k ->
  kr_keys k = (fold_left load_entry kr (∅, None)).1 /\
  Some (kr_active_id k) = (fold_left load_entry kr (∅, None)).2.
Proof.
  unfold load_from_entries. destruct (fold_left _ _ _) as [keys [a|]]; cbn; [|done]. by intros [= <-].
Qed.

(** Any number of rotations. *)
Inductive rotations : KeyringFile -> KeyringFile -> Prop :=
| rotations_refl kr : rotations kr kr
| rotations_step kr nk c kr1 rr kr2 :
    length nk = 32 -> rotate (Parsed kr) nk c = Ok (kr1, rr) -> rotations kr1 kr2 -> rotations kr kr2.

Lemma rotations_keep kr kr2 e :
  rotations kr kr2 -> file_ok kr -> e ∈ kr ->
  file_ok kr2 /\ exists a, mk_KeyEntryJson (ke_id e) (ke_key_b64 e) (ke_created_at e) a ∈ kr2.
Proof.
  intros Hr. revert e. induction Hr as [kr|kr nk c kr1 rr kr2 Hl Hrot _ IH]; intros e Hok He.
  - split; [done|]. exists (ke_active e). by destruct e.
  - apply (IH (demote e)); [by eapply rotate_file_ok|by eapply rotate_keeps_entry].
Qed.

(** A file with an active entry keeps one, so it loads. *)
Lemma rotations_load kr kr2 :
  rotations kr kr2 -> file_ok kr ->
  is_Some (last (filter (fun e => ke_active e = true) kr)) ->
  exists k2, load_from_entries kr2 = Ok k2.
Proof.
  intros Hr. induction Hr as [kr|kr nk c kr1 rr kr2 Hl Hrot _ IH]; intros Hok [e He].
  - unfold load_from_entries. pose proof (load_entries_active kr (∅, None) (fo_decodes kr Hok)) as Ha.
    rewrite He in Ha. destruct (fold_left _ _ _) as [keys f]. cbn in Ha. subst f. by eexists.
  - apply IH; [by eapply rotate_file_ok|]. apply rotate_inv in Hrot as (-> & _).
    rewrite filter_app, filter_cons_True by done. eexists. apply last_snoc.
Qed.

(** A data key wrapped under the keyring of a file is still unwrapped, to
    the same key, by the keyring loaded after any number of rotations, and
    loading succeeds. *)
Theorem rotation_keeps_data_keys kr k kr2 key_id dek nonce wrapped n :
  file_ok kr -> load_from_entries kr = Ok k -> rotations kr kr2 ->
  length dek = 32 -> key_id ∈ map ke_id kr ->
  wrap_dek k key_id dek nonce = Ok (wrapped, n) ->
  exists k2, load_from_entries kr2 = Ok k2 /\ unwrap_dek k2 key_id wrapped n = Ok dek.
Proof.
  intros Hok Hk Hr Hl (e & -> & He)%list_elem_of_fmap Hw.
  destruct (rotations_keep kr kr2 e Hr Hok He) as [Hok2 [a He2]].
  assert (exists k2, load_from_entries kr2 = Ok k2) as [k2 Hk2].
  { apply (rotations_load kr kr2 Hr Hok). apply load_from_entries_ok in Hk as [_ Ha].
    rewrite load_entries_active in Ha by apply Hok. by destruct (last _). }
  exists k2. split; [done|]. eapply unwrap_wrap; [done| |exact Hw].
  pose proof (fo_decodes kr Hok e He) as Hd. destruct (decode_32 (ke_key_b64 e)) as [kb|] eqn:Ed; [|done].
  apply load_from_entries_ok in Hk as [Hk _], Hk2 as [Hk2 _]. unfold shares. rewrite Hk, Hk2.
  rewrite (load_entries_lookup kr _ e kb) by (done || by apply Hok).
  by rewrite (load_entries_lookup kr2 _ _ kb (fo_nodup _ Hok2) He2 Ed).
Qed.

(** An I/O error on the keyring file, whatever its cause, is taken for a
    missing file: starting up or rotating answers with success and a file
    that holds nothing but a fresh key, so every key that was in it is lost;
    listing the keys reports the same error instead. *)
Theorem read_error_replaces_keyring msg new_key created_at :
  length new_key = 32 ->
  let id := key_id_from_bytes new_key in
  let fresh := [mk_KeyEntryJson id (b64_encode new_key) created_at true] in
  load None (ReadError msg) new_key created_at = Ok (mk_Keyring {[ id := new_key ]} id, Some fresh) /\
  rotate (ReadError msg) new_key created_at = Ok (fresh, mk_RotateResult id None 1) /\
  list_metadata (ReadError msg) = Err msg.
Proof.
  intros Hl. cbn zeta. split_and!; [|done|done].
  unfold load, load_from_file, bootstrap, load_from_entries. cbn [fold_left load_entry ke_key_b64 ke_active ke_id].
  unfold decode_32. rewrite b64_decode_encode. cbn. by rewrite Hl.
Qed.

(** The local KMS gives back the data key it generated. *)
Lemma kms_roundtrip k key_id plaintext nonce g :
  length plaintext = 32 -> local_generate k key_id plaintext nonce = Ok g ->
  gd_plaintext g = plaintext /\
  local_decrypt k (gd_kms_key_id g) (gd_ciphertext g) (gd_wrap_nonce g) = Ok plaintext.
Proof.
  intros Hl. unfold local_generate. cbn. destruct (seal _ _ _ _) as [c|] eqn:Es; cbn; [|done].
  intros [= <-]. cbn. split; [done|].
  unfold local_decrypt. apply open_seal in Es. rewrite Es. cbn. by rewrite Hl.
Qed.
End spec.

(** ** Witnesses *)

Import ToyWorld Crypto.Toy.

Module Witness.
Definition old_key : bytes := replicate 32 x41.
Definition new_key : bytes := replicate 32 x42.
Definition file0 : KeyringFile := bootstrap old_key "t0".
Definition file1 : KeyringFile := map demote file0 ++ bootstrap new_key "t1".
Definition ring0 : Keyring := mk_Keyring {[ "4141414141414141" := old_key ]} "4141414141414141".
Definition dek : bytes := replicate 32 x07.
Definition nonce : bytes := replicate 12 x01.
End Witness.

Lemma rotation_keeps_data_keys_witness :
  exists wrapped n k2,
    wrap_dek Witness.ring0 "4141414141414141" Witness.dek Witness.nonce = Ok (wrapped, n) /\
    load_from_entries Witness.file1 = Ok k2 /\ unwrap_dek k2 "4141414141414141" wrapped n = Ok Witness.dek.
Proof.
  destruct (wrap_dek Witness.ring0 "4141414141414141" Witness.dek Witness.nonce) as [[wrapped n]|e] eqn:E;
    [|vm_compute in E; discriminate].
  destruct (rotation_keeps_data_keys Witness.file0 Witness.ring0 Witness.file1 "4141414141414141"
              Witness.dek Witness.nonce wrapped n) as (k2 & E1 & E2).
  - split.
    + apply NoDup_singleton.
    + intros e ->%list_elem_of_singleton. vm_compute. reflexivity.
  - vm_compute. reflexivity.
  - apply (rotations_step _ Witness.new_key "t1" Witness.file1 (mk_RotateResult "4242424242424242" (Some "4141414141414141") 2));
      [reflexivity|vm_compute; reflexivity|apply rotations_refl].
  - reflexivity.
  - vm_compute. left.
  - exact E.
  - exists wrapped, n, k2. done.
Defined.

Lemma read_error_replaces_keyring_witness :
  load None (ReadError "Input/output error (os error 5)") Witness.new_key "t1"
  = Ok (mk_Keyring {[ "4242424242424242" := Witness.new_key ]} "4242424242424242",
        Some [mk_KeyEntryJson "4242424242424242" (b64_encode Witness.new_key) "t1" true]).
Proof.
  destruct (read_error_replaces_keyring "Input/output error (os error 5)" Witness.new_key "t1" eq_refl)
    as [E _].
  change (key_id_from_bytes Witness.new_key) with "4242424242424242" in E. exact E.
Defined.
