(* ===== verification/Storage.v ===== *)
(** * The storage backend: configuration, paths, keys, buckets

    [maxio-storage/src/filesystem/mod.rs], with the key checks and temporary
    names of [common.rs]. *)

From stdpp Require Import base list gmap sets numbers strings pretty.
From Stdlib Require Import ZArith Lia Ascii Strings.Byte.
From S2P Require Import Prelude IpAddr Glob Policy Bytes Reader Types Quota Crypto MetadataIndex FileSystem Paths World Keyring.

Local Open Scope nat_scope.

(** ** Configuration and paths *)

Record FilesystemStorage : Type := mk_FilesystemStorage {
  st_data_root : string;
  st_buckets_dir : string;
  st_erasure_coding : bool;
  st_chunk_size : nat;
  st_parity_shards : nat;
  st_keyring : Keyring;
  st_kms : option KmsBackend;
  st_quota : QuotaLimits;
}.

Section paths.
Context (st : FilesystemStorage).

Definition bucket_dir (bucket : string) : string := join (st_buckets_dir st) bucket.
Definition bucket_meta_path (bucket : string) : string := join (bucket_dir bucket) ".bucket.json".

Definition object_path (bucket key : string) : string :=
  if ends_with key "/" then join (join (bucket_dir bucket) (trim_end_slashes key)) ".folder"
  else join (bucket_dir bucket) key.

Definition meta_path (bucket key : string) : string :=
  if ends_with key "/" then join (join (bucket_dir bucket) (trim_end_slashes key)) ".folder.meta.json"
  else join (bucket_dir bucket) (key +:+ ".meta.json").

Definition ec_dir (bucket key : string) : string := join (bucket_dir bucket) (key +:+ ".ec").
Definition manifest_path (bucket key : string) : string := join (ec_dir bucket key) "manifest.json".
Definition uploads_dir (bucket : string) : string := join (bucket_dir bucket) ".uploads".
Definition upload_dir (bucket upload_id : string) : string := join (uploads_dir bucket) upload_id.
Definition upload_meta_path (bucket upload_id : string) : string := join (upload_dir bucket upload_id) ".meta.json".
Definition part_path (bucket upload_id : string) (n : Z) : string := join (upload_dir bucket upload_id) (pretty n).
Definition part_meta_path (bucket upload_id : string) (n : Z) : string :=
  join (upload_dir bucket upload_id) (pretty n +:+ ".meta.json").

Definition versions_dir (bucket key : string) : string :=
  join (join (join (bucket_dir bucket) (default "" (path_parent key))) ".versions")
    (default key (path_file_name key)).
Definition version_data_path (bucket key version_id : string) : string :=
  join (versions_dir bucket key) (version_id +:+ ".data").
Definition version_meta_path (bucket key version_id : string) : string :=
  join (versions_dir bucket key) (version_id +:+ ".meta.json").
Definition version_ec_path (bucket key version_id : string) : string :=
  join (versions_dir bucket key) (version_id +:+ ".ec").
End paths.

(** ** Keys *)

Definition is_reserved_segment (name : string) : bool :=
  ends_with name ".meta.json" || ends_with name ".ec"
  || bool_decide (name = ".bucket.json") || bool_decide (name = ".uploads")
  || bool_decide (name = ".versions") || bool_decide (name = ".folder")
  || starts_with name ".maxio-tmp-".

Definition validate_component (c : component) : result StorageError unit :=
  match c with
  | ParentDir => Err (InvalidKey "Key must not contain '..' path components")
  | RootDir => Err (InvalidKey "Key must not be an absolute path")
  | Normal name =>
      if is_reserved_segment name then
        Err (InvalidKey ("Key segment '" +:+ name +:+ "' collides with an internal storage name"))
      else Ok tt
  | CurDir => Ok tt
  end.

Definition validate_key (key : string) : result StorageError unit :=
  if decide (key = "") then Err (InvalidKey "Key must not be empty")
  else if 1024 <? String.length key then Err (InvalidKey "Key must not exceed 1024 bytes")
  else for_each validate_component (components key).

Definition validate_upload_id (upload_id : string) : result StorageError unit :=
  if decide (upload_id = "") then Err (UploadNotFound upload_id)
  else if contains_char "/" upload_id || contains_char "\" upload_id || contains_str ".." upload_id
  then Err (UploadNotFound upload_id)
  else Ok tt.

(** [fs::read_to_string(path)] with a not-found error of the caller's, then
    [serde_json::from_str]. *)
Definition read_json {A} (path : string) (parse : content -> result string A) (missing : StorageError)
    : M StorageError A := fun w =>
  match fs_read (w_tree w) path with
  | Err e => (w, Err (if decide (io_error_kind e = NotFound) then missing else Io e))
  | Ok c => (w, map_err Json (parse c))
  end.

Section buckets.
Context `{Environment} `{Serde} (st : FilesystemStorage).

Definition temp_sibling_path (path : string) : M StorageError string :=
  n ← tick;
  mret (join (default "." (path_parent path)) (".maxio-tmp-" +:+ uuid_v4 n)).

Definition read_bucket_meta (bucket : string) : M StorageError BucketMeta :=
  _ ← lift (validate_bucket_name bucket);
  read_json (bucket_meta_path st bucket) parse_bucket (NotFoundError bucket).

(** The pattern of the bucket settings: read [.bucket.json], change it, write
    it back. *)
Definition update_bucket_meta (bucket : string) (f : BucketMeta -> BucketMeta) : M StorageError unit :=
  meta ← read_bucket_meta bucket;
  call (fun t => fs_write t (bucket_meta_path st bucket) (BucketJson (f meta))).

Definition get_bucket_meta (bucket : string) : M StorageError BucketMeta := read_bucket_meta bucket.

Definition effective_erasure_coding (bucket : string) : M StorageError bool :=
  if negb (st_erasure_coding st) then mret false
  else meta ← read_bucket_meta bucket; mret (default true (bm_erasure_coding meta)).

Definition create_bucket (meta : BucketMeta) : M StorageError bool :=
  _ ← lift (validate_bucket_name (bm_name meta));
  let dir := bucket_dir st (bm_name meta) in
  on_world (fun w =>
    match fs_create_dir (w_tree w) dir with
    | (t, Ok _) =>
        match fs_write t (join dir ".bucket.json") (BucketJson meta) with
        | (t, Ok _) => (with_tree w t, Ok true)
        | (t, Err e) => (with_tree w (fst (fs_remove_dir t dir)), Err (Io e))
        end
    | (t, Err e) =>
        (with_tree w t, if decide (io_error_kind e = AlreadyExists) then Ok false else Err (Io e))
    end).

Definition head_bucket (name : string) : M StorageError bool :=
  _ ← lift (validate_bucket_name name);
  query (fun t => try_exists t (bucket_meta_path st name)).

(** [has_real_objects]: a data file, a [.folder] marker or a chunk directory at
    any depth.  [fuel] bounds the depth of the tree. *)
Definition internal_name (name : string) : bool :=
  bool_decide (name = ".bucket.json") || bool_decide (name = ".uploads")
  || bool_decide (name = ".versions") || ends_with name ".meta.json".

Fixpoint has_real_objects (fuel : nat) (t : tree) (dir : string) : result io_error bool :=
  match fuel with
  | O => Ok false
  | S fuel =>
      entries ← fs_read_dir t dir;
      (fix go l :=
        match l with
        | [] => Ok false
        | (name, ft) :: l =>
            if internal_name name then go l
            else if (ft : bool) && ends_with name ".ec" then Ok true
            else if ft : bool then
              b ← has_real_objects fuel t (join dir name);
              if b : bool then Ok true else go l
            else Ok true
        end) entries
  end.

(** [purge_empty_bucket]. *)
Fixpoint purge_empty_bucket (fuel : nat) (dir : string) (t : tree) : tree * result io_error unit :=
  match fuel with
  | O => (t, Ok tt)
  | S fuel =>
      match fs_read_dir t dir with
      | Err e => (t, Err e)
      | Ok entries =>
          (fix go l t :=
            match l with
            | [] => (t, Ok tt)
            | (name, ft) :: l =>
                let path := join dir name in
                let '(t, r) :=
                  if internal_name name then
                    if ft : bool then fs_remove_dir_all t path else fs_remove_file t path
                  else if ft : bool then
                    match purge_empty_bucket fuel path t with
                    | (t, Ok _) => fs_remove_dir t path
                    | (t, Err e) => (t, Err e)
                    end
                  else (t, Ok tt) in
                match r with Ok _ => go l t | Err e => (t, Err e) end
            end) entries t
      end
  end.

Definition tree_depth (t : tree) : nat := S (size (t_dirs t)).

Definition delete_bucket (name : string) : M StorageError bool :=
  _ ← lift (validate_bucket_name name);
  let dir := bucket_dir st name in
  there ← query (fun t => try_exists t dir);
  if negb there then mret false
  else
    real ← query (fun t => has_real_objects (tree_depth t) t dir);
    _ ← fail_if real BucketNotEmpty;
    _ ← call (fun t => purge_empty_bucket (tree_depth t) dir t);
    on_world (fun w =>
      match fs_remove_dir (w_tree w) dir with
      | (t, Ok _) => (with_tree w t, Ok true)
      | (t, Err e) =>
          (with_tree w t,
           Err (if decide (io_error_kind e = DirectoryNotEmpty) then BucketNotEmpty else Io e))
      end).
End buckets.

Lemma pure_read_json {A} path (parse : content -> result string A) missing :
  pure_step (read_json path parse missing).
Proof. intros w w' r. unfold read_json. by destruct (fs_read _ _); intros [= <- <-]. Qed.
Lemma pure_read_bucket_meta `{Serde} st bucket : pure_step (read_bucket_meta st bucket).
Proof. apply pure_bind; [apply pure_lift|intros _; apply pure_read_json]. Qed.
#[export] Hint Resolve pure_read_json pure_read_bucket_meta : maxio_pure.

(** ** Valid keys are relative paths of ordinary names *)

Lemma in_component_of c s : c ∈ component_of s -> s = component_string c /\ (c = ParentDir \/ c = Normal s /\ s <> "..").
Proof.
  unfold component_of. repeat case_decide; subst; try by intros ?%elem_of_nil.
  - intros ->%list_elem_of_singleton. auto.
  - intros ->%list_elem_of_singleton. auto.
Qed.

Lemma in_component_of_rest c l : c ∈ concat (map component_of l) -> exists s, s ∈ l /\ c ∈ component_of s.
Proof.
  induction l as [|s l IH]; cbn; [by intros ?%elem_of_nil|].
  rewrite elem_of_app. intros [H|H]; [exists s; split; [by left|done]|].
  destruct (IH H) as (s' & ? & ?). exists s'. split; [by right|done].
Qed.

Lemma component_normal p n : Normal n ∈ components p -> n <> "..".
Proof.
  unfold components. destruct (split_char "/"%char p) as [|w ws]; [by intros ?%elem_of_nil|].
  rewrite elem_of_app. intros [H|(s & _ & H)%in_component_of_rest].
  - revert H. repeat case_decide; [destruct p; (by intros ?%elem_of_nil) || by intros [=]%list_elem_of_singleton
      |by intros [=]%list_elem_of_singleton|].
    intros [_ [?|[[= <-] ?]]]%in_component_of; done.
  - by apply in_component_of in H as [_ [?|[[= <-] ?]]].
Qed.

Lemma components_root p r : p = String "/" r -> RootDir ∈ components p.
Proof.
  intros ->. unfold components. cbn. destruct (split_char_cons "/"%char r) as (w & ws & ->).
  cbn. by left.
Qed.

Record valid_key (key : string) : Prop := {
  vk_plain : plain key;
  vk_relative : starts_with key "/" = false;
  vk_names s : s ∈ names key -> is_reserved_segment s = false;
}.

Lemma validate_key_ok key : validate_key key = Ok tt -> valid_key key.
Proof.
  unfold validate_key. case_decide; [done|]. case_match; [done|]. rewrite for_each_ok, Forall_forall.
  intros Hc.
  assert (Hnames : forall s, s ∈ names key -> is_reserved_segment s = false /\ s <> "..").
  { intros s Hs. rewrite <-components_names in Hs. apply list_elem_of_filter in Hs as [Hb Hs].
    apply list_elem_of_fmap in Hs as (c & -> & Hin). pose proof (Hc c Hin) as Hv.
    destruct c as [| | |n]; cbn in Hv; try done.
    split; [by cbn; destruct (is_reserved_segment n)|]. by apply (component_normal key). }
  split.
  - unfold plain. intros Hd. apply (proj2 (Hnames ".." ltac:(
      unfold names; apply list_elem_of_filter; split; [by intros [?|?]|done]))). done.
  - apply not_true_is_false. intros [r E]%starts_with_spec.
    pose proof (Hc RootDir (components_root key r E)) as Hv. done.
  - intros s Hs. by apply Hnames.
Qed.

(** A key that names an object rather than a folder, and whose last piece is
    not [.]. *)
Definition object_key (key : string) : Prop :=
  validate_key key = Ok tt /\ exists l s, split_char "/" key = l ++ [s] /\ ~ blank s.

Lemma object_key_place key : object_key key ->
  exists F s, at_place key F s /\ Forall (fun s => is_reserved_segment s = false) (F ++ [s]) /\
    starts_with key "/" = false.
Proof.
  intros [Hv (l & s & E & Hb)]. apply validate_key_ok in Hv as [Hp Hr Hn].
  exists (filter (fun c => ~ blank c) l), s.
  unfold plain in Hp. rewrite E, elem_of_app, list_elem_of_singleton in Hp.
  assert (En : names key = filter (fun c => ~ blank c) l ++ [s]).
  { unfold names. by rewrite E, filter_app, (filter_cons_True _ s). }
  split_and!; [|by rewrite <-En; apply Forall_forall|done].
  exists l. split_and!; try done; [tauto|]. intros ->. tauto.
Qed.

(** ** Where an object lives *)

Definition temp_prefix : string := ".maxio-tmp-".

(** The configured directory is a plain path without temporary names. *)
Record storage_ok (st : FilesystemStorage) : Prop := {
  so_plain : plain (st_buckets_dir st);
  so_temp : Forall (fun s => starts_with s temp_prefix = false) (names (st_buckets_dir st));
}.

Lemma reserved_not_temp s : is_reserved_segment s = false -> starts_with s temp_prefix = false.
Proof. unfold is_reserved_segment. by intros [_ ?]%orb_false_iff. Qed.

Lemma sidecar_not_temp s : starts_with s temp_prefix = false -> starts_with (s +:+ ".meta.json") temp_prefix = false.
Proof.
  intros Hs. apply not_true_is_false. intros Ht. revert Hs. apply not_false_iff_true.
  unfold starts_with, temp_prefix in *.
  do 11 (destruct s as [|? s]; [by vm_compute in Ht|]). 
  rewrite !bool_decide_eq_true in *. revert Ht. rewrite !str_app_cons. cbn.
  repeat (case_decide; [|by intros []]). intros _. by eexists.
Qed.

Lemma alphanumeric_not_temp a r : is_ascii_alphanumeric a = true -> starts_with (String a r) temp_prefix = false.
Proof.
  intros Ha. apply not_true_is_false. intros [k E]%starts_with_spec. unfold temp_prefix in E.
  rewrite str_app_cons in E. injection E as -> _. done.
Qed.

Section place.
Context (st : FilesystemStorage) (bucket : string).
Hypothesis Hst : storage_ok st.
Hypothesis Hbucket : validate_bucket_name bucket = Ok tt.

(** The location of a bucket's directory. *)
Definition bucket_location : location := names (st_buckets_dir st) ++ [bucket].

Lemma bucket_dir_place : at_place (bucket_dir st bucket) (names (st_buckets_dir st)) bucket.
Proof.
  destruct (valid_bucket_name_segment bucket Hbucket) as (Hc & a & r & Er & Ha & Hd & Hd').
  apply at_place_join; [apply Hst|done|done| |done]. intros [?|?]; [by subst|done].
Qed.

Lemma bucket_location_not_temp : Forall (fun s => starts_with s temp_prefix = false) bucket_location.
Proof.
  destruct (valid_bucket_name_segment bucket Hbucket) as (_ & a & r & Er & Ha & _).
  apply Forall_app. split; [apply Hst|]. constructor; [rewrite Er; by apply alphanumeric_not_temp|constructor].
Qed.

Lemma bucket_meta_place : at_place (bucket_meta_path st bucket) bucket_location ".bucket.json".
Proof.
  destruct (at_place_names _ _ _ bucket_dir_place) as [Hp Hn].
  apply at_place_join; [done|done|done| |done]. by intros [?|?].
Qed.

Lemma object_place key : object_key key ->
  exists F s, let P := bucket_location ++ F in
    at_place (object_path st bucket key) P s /\
    at_place (meta_path st bucket key) P (s +:+ ".meta.json") /\
    at_place (ec_dir st bucket key) P (s +:+ ".ec") /\
    ends_with key "/" = false /\
    Forall (fun s => is_reserved_segment s = false) (F ++ [s]) /\
    Forall (fun s => starts_with s temp_prefix = false) (P ++ [s; s +:+ ".meta.json"]).
Proof.
  intros Hk. destruct (object_key_place key Hk) as (F & s & Ha & Hf & Hr). exists F, s. cbn zeta.
  destruct (at_place_names _ _ _ bucket_dir_place) as [Hp Hn].
  assert (He : ends_with key "/" = false).
  { apply not_true_is_false. intros [r ->]%ends_with_spec. destruct Ha as (l & E & _ & _ & Hb & _).
    change (r +:+ "/") with (r +:+ String "/" "") in E. rewrite split_char_app in E.
    apply app_inj_2 in E as [_ [= <-]]; [|done]. apply Hb. by left. }
  assert (Hsuf : forall t, contains_char "/" t = false -> t <> "" -> t <> "." ->
    ~ blank (s +:+ t) /\ starts_with (key +:+ t) "/" = false -> s +:+ t <> ".." ->
    at_place (join (bucket_dir st bucket) (key +:+ t)) (bucket_location ++ F) (s +:+ t)).
  { intros t Ht _ _ [Hb Hs] Hd. apply at_place_below; [done..|]. by apply at_place_suffix. }
  assert (Hnorel : forall t, starts_with (key +:+ t) "/" = false).
  { intros t. destruct key as [|c k]; [by destruct Hk|]. apply not_true_is_false.
    intros [r E]%starts_with_spec. rewrite str_app_cons in E. injection E as -> _.
    revert Hr. apply not_false_iff_true. apply starts_with_spec. by exists k. }
  unfold object_path, meta_path, ec_dir. rewrite He. split_and!; try done.
  - by apply at_place_below.
  - apply Hsuf; try done; [split; [|done]|].
    + intros [E|E]; apply (f_equal (fun s => length (chars s))) in E; rewrite chars_app, length_app in E; cbn in E; lia.
    + intros E; apply (f_equal (fun s => length (chars s))) in E; rewrite chars_app, length_app in E; cbn in E; lia.
  - destruct Ha as (l & _ & _ & _ & Hb & _). apply Hsuf; try done; [split; [|done]|].
    + intros [E|E]; apply (f_equal (fun s => length (chars s))) in E; rewrite chars_app, length_app in E; cbn in E; lia.
    + intros E; apply (f_equal (fun s => length (chars s))) in E; rewrite chars_app, length_app in E; cbn in E; lia.
  - rewrite <-app_assoc. apply Forall_app. split; [apply bucket_location_not_temp|].
    apply Forall_app in Hf as [HF Hs]. apply Forall_app. split.
    + eapply Forall_impl; [exact HF|]. intros x. apply reserved_not_temp.
    + apply Forall_cons in Hs as [Hs%reserved_not_temp _].
      repeat constructor; [done|]. by apply sidecar_not_temp.
Qed.
End place.
