(* ===== verification/BucketConfig.v ===== *)
(** * Bucket settings

    The operations that read or rewrite [.bucket.json]
    ([filesystem/mod.rs], [access_logging.rs], [object_lock.rs]).  Each reads
    the record, changes one part of it and writes it back. *)

From stdpp Require Import base list gmap sets numbers strings pretty.
From Stdlib Require Import ZArith Lia Ascii Strings.Byte.
From S2P Require Import Prelude IpAddr Glob Policy Bytes Reader Types Quota MetadataIndex FileSystem Paths World Storage.

Local Open Scope nat_scope.

(** ** One part of the record *)

Definition with_versioning (enabled : bool) (m : BucketMeta) : BucketMeta :=
  mk_BucketMeta (bm_name m) (bm_created_at m) (bm_region m) enabled (bm_cors_rules m)
    (bm_encryption_config m) (bm_public_read m) (bm_public_list m) (bm_bucket_policy m)
    (bm_erasure_coding m) (bm_lifecycle_rules m) (bm_tenant_id m) (bm_logging_target_bucket m)
    (bm_logging_target_prefix m) (bm_notification_config m) (bm_object_lock_enabled m)
    (bm_object_lock_config m).
Definition with_cors (rules : option (list CorsRule)) (m : BucketMeta) : BucketMeta :=
  mk_BucketMeta (bm_name m) (bm_created_at m) (bm_region m) (bm_versioning m) rules
    (bm_encryption_config m) (bm_public_read m) (bm_public_list m) (bm_bucket_policy m)
    (bm_erasure_coding m) (bm_lifecycle_rules m) (bm_tenant_id m) (bm_logging_target_bucket m)
    (bm_logging_target_prefix m) (bm_notification_config m) (bm_object_lock_enabled m)
    (bm_object_lock_config m).
Definition with_encryption (config : option BucketEncryptionConfig) (m : BucketMeta) : BucketMeta :=
  mk_BucketMeta (bm_name m) (bm_created_at m) (bm_region m) (bm_versioning m) (bm_cors_rules m)
    config (bm_public_read m) (bm_public_list m) (bm_bucket_policy m)
    (bm_erasure_coding m) (bm_lifecycle_rules m) (bm_tenant_id m) (bm_logging_target_bucket m)
    (bm_logging_target_prefix m) (bm_notification_config m) (bm_object_lock_enabled m)
    (bm_object_lock_config m).
Definition with_public (read list : bool) (m : BucketMeta) : BucketMeta :=
  mk_BucketMeta (bm_name m) (bm_created_at m) (bm_region m) (bm_versioning m) (bm_cors_rules m)
    (bm_encryption_config m) read list (bm_bucket_policy m)
    (bm_erasure_coding m) (bm_lifecycle_rules m) (bm_tenant_id m) (bm_logging_target_bucket m)
    (bm_logging_target_prefix m) (bm_notification_config m) (bm_object_lock_enabled m)
    (bm_object_lock_config m).
Definition with_policy (policy : option string) (m : BucketMeta) : BucketMeta :=
  mk_BucketMeta (bm_name m) (bm_created_at m) (bm_region m) (bm_versioning m) (bm_cors_rules m)
    (bm_encryption_config m) (bm_public_read m) (bm_public_list m) policy
    (bm_erasure_coding m) (bm_lifecycle_rules m) (bm_tenant_id m) (bm_logging_target_bucket m)
    (bm_logging_target_prefix m) (bm_notification_config m) (bm_object_lock_enabled m)
    (bm_object_lock_config m).
Definition with_erasure_coding (enabled : option bool) (m : BucketMeta) : BucketMeta :=
  mk_BucketMeta (bm_name m) (bm_created_at m) (bm_region m) (bm_versioning m) (bm_cors_rules m)
    (bm_encryption_config m) (bm_public_read m) (bm_public_list m) (bm_bucket_policy m)
    enabled (bm_lifecycle_rules m) (bm_tenant_id m) (bm_logging_target_bucket m)
    (bm_logging_target_prefix m) (bm_notification_config m) (bm_object_lock_enabled m)
    (bm_object_lock_config m).
Definition with_lifecycle (rules : option (list LifecycleRule)) (m : BucketMeta) : BucketMeta :=
  mk_BucketMeta (bm_name m) (bm_created_at m) (bm_region m) (bm_versioning m) (bm_cors_rules m)
    (bm_encryption_config m) (bm_public_read m) (bm_public_list m) (bm_bucket_policy m)
    (bm_erasure_coding m) rules (bm_tenant_id m) (bm_logging_target_bucket m)
    (bm_logging_target_prefix m) (bm_notification_config m) (bm_object_lock_enabled m)
    (bm_object_lock_config m).
Definition with_logging (target prefix : option string) (m : BucketMeta) : BucketMeta :=
  mk_BucketMeta (bm_name m) (bm_created_at m) (bm_region m) (bm_versioning m) (bm_cors_rules m)
    (bm_encryption_config m) (bm_public_read m) (bm_public_list m) (bm_bucket_policy m)
    (bm_erasure_coding m) (bm_lifecycle_rules m) (bm_tenant_id m) target
    prefix (bm_notification_config m) (bm_object_lock_enabled m)
    (bm_object_lock_config m).
Definition with_notification (config : option BucketNotificationConfig) (m : BucketMeta) : BucketMeta :=
  mk_BucketMeta (bm_name m) (bm_created_at m) (bm_region m) (bm_versioning m) (bm_cors_rules m)
    (bm_encryption_config m) (bm_public_read m) (bm_public_list m) (bm_bucket_policy m)
    (bm_erasure_coding m) (bm_lifecycle_rules m) (bm_tenant_id m) (bm_logging_target_bucket m)
    (bm_logging_target_prefix m) config (bm_object_lock_enabled m)
    (bm_object_lock_config m).
Definition with_object_lock (config : option ObjectLockConfig) (m : BucketMeta) : BucketMeta :=
  mk_BucketMeta (bm_name m) (bm_created_at m) (bm_region m) (bm_versioning m) (bm_cors_rules m)
    (bm_encryption_config m) (bm_public_read m) (bm_public_list m) (bm_bucket_policy m)
    (bm_erasure_coding m) (bm_lifecycle_rules m) (bm_tenant_id m) (bm_logging_target_bucket m)
    (bm_logging_target_prefix m) (bm_notification_config m) (bm_object_lock_enabled m)
    config.

Section settings.
Context `{Environment} `{Serde} (st : FilesystemStorage).

(** ** Versioning *)

Definition is_versioned (bucket : string) : M StorageError bool :=
  meta ← read_bucket_meta st bucket; mret (bm_versioning meta).
Definition set_versioning (bucket : string) (enabled : bool) : M StorageError unit :=
  update_bucket_meta st bucket (with_versioning enabled).

(** ** Erasure coding *)

Definition set_bucket_erasure_coding (bucket : string) (enabled : option bool) : M StorageError unit :=
  _ ← lift (validate_bucket_name bucket);
  _ ← fail_if (bool_decide (enabled = Some true) && negb (st_erasure_coding st))
        (InvalidKey "per-bucket erasure coding requires server-wide MAXIO_ERASURE_CODING");
  update_bucket_meta st bucket (with_erasure_coding enabled).
Definition get_bucket_erasure_coding (bucket : string) : M StorageError bool :=
  effective_erasure_coding st bucket.

(** ** Lifecycle *)

Definition check_lifecycle_rule (rule : LifecycleRule) : result StorageError unit :=
  if decide (lr_id rule = "") then Err (InvalidKey "lifecycle rule id must not be empty")
  else if decide (lr_expiration_days rule = Some 0%Z) then
    Err (InvalidKey "lifecycle rule expiration_days must be > 0")
  else Ok tt.
Definition put_bucket_lifecycle (bucket : string) (rules : list LifecycleRule) : M StorageError unit :=
  _ ← lift (validate_bucket_name bucket);
  _ ← lift (for_each check_lifecycle_rule rules);
  update_bucket_meta st bucket (with_lifecycle (Some rules)).
Definition get_bucket_lifecycle (bucket : string) : M StorageError (option (list LifecycleRule)) :=
  meta ← read_bucket_meta st bucket; mret (bm_lifecycle_rules meta).
Definition delete_bucket_lifecycle (bucket : string) : M StorageError unit :=
  update_bucket_meta st bucket (with_lifecycle None).

(** ** Public access and policies *)

Definition get_bucket_public (bucket : string) : M StorageError (bool * bool) :=
  meta ← read_bucket_meta st bucket; mret (bm_public_read meta, bm_public_list meta).
Definition set_bucket_public (bucket : string) (read list : bool) : M StorageError unit :=
  update_bucket_meta st bucket (with_public read list).

(** [from_str] is serde_json's parser of a policy document. *)
Definition put_bucket_policy (from_str : string -> result string BucketPolicy) (bucket policy : string)
    : M StorageError unit :=
  _ ← lift (validate_bucket_name bucket);
  effects ← lift
    match evaluate_v1_policy from_str bucket policy with
    | Ok effects => Ok effects
    | Err _ =>
        _ ← map_err InvalidKey (validate_policy_v2 from_str bucket policy);
        Ok (mk_effects false false)
    end;
  update_bucket_meta st bucket (fun meta =>
    with_public (public_read effects) (public_list effects) (with_policy (Some policy) meta)).
Definition get_bucket_policy (bucket : string) : M StorageError (option string) :=
  meta ← read_bucket_meta st bucket; mret (bm_bucket_policy meta).
Definition delete_bucket_policy (bucket : string) : M StorageError unit :=
  update_bucket_meta st bucket (fun meta => with_public false false (with_policy None meta)).

(** ** CORS, default encryption, notifications *)

Definition put_bucket_cors (bucket : string) (rules : list CorsRule) : M StorageError unit :=
  update_bucket_meta st bucket (with_cors (Some rules)).
Definition get_bucket_cors (bucket : string) : M StorageError (option (list CorsRule)) :=
  meta ← read_bucket_meta st bucket; mret (bm_cors_rules meta).
Definition delete_bucket_cors (bucket : string) : M StorageError unit :=
  update_bucket_meta st bucket (with_cors None).

Definition put_bucket_encryption (bucket : string) (config : BucketEncryptionConfig) : M StorageError unit :=
  update_bucket_meta st bucket (with_encryption (Some config)).
Definition get_bucket_encryption (bucket : string) : M StorageError (option BucketEncryptionConfig) :=
  meta ← read_bucket_meta st bucket; mret (bm_encryption_config meta).
Definition delete_bucket_encryption (bucket : string) : M StorageError unit :=
  update_bucket_meta st bucket (with_encryption None).

Definition put_bucket_notification (bucket : string) (config : BucketNotificationConfig) : M StorageError unit :=
  update_bucket_meta st bucket (with_notification (Some config)).
Definition get_bucket_notification (bucket : string) : M StorageError (option BucketNotificationConfig) :=
  meta ← read_bucket_meta st bucket; mret (bm_notification_config meta).
Definition delete_bucket_notification (bucket : string) : M StorageError unit :=
  update_bucket_meta st bucket (with_notification None).

(** ** Object-lock configuration *)

Definition put_bucket_object_lock (bucket : string) (config : ObjectLockConfig) : M StorageError unit :=
  meta ← read_bucket_meta st bucket;
  _ ← fail_if (negb (bm_object_lock_enabled meta))
        (InvalidKey "object lock must be enabled at bucket creation");
  call (fun t => fs_write t (bucket_meta_path st bucket) (BucketJson (with_object_lock (Some config) meta))).
Definition get_bucket_object_lock (bucket : string) : M StorageError (option ObjectLockConfig) :=
  meta ← read_bucket_meta st bucket;
  mret (if bm_object_lock_enabled meta then bm_object_lock_config meta else None).

(** ** Access logging *)

Definition put_bucket_logging (bucket target_bucket target_prefix : string) : M StorageError unit :=
  _ ← lift (validate_bucket_name bucket);
  _ ← lift (validate_bucket_name target_bucket);
  _ ← fail_if (bool_decide (bucket = target_bucket))
        (InvalidKey "logging target bucket must differ from source bucket");
  there ← head_bucket st target_bucket;
  _ ← fail_if (negb there) (NotFoundError target_bucket);
  update_bucket_meta st bucket
    (with_logging (Some target_bucket) (if decide (target_prefix = "") then None else Some target_prefix)).
Definition get_bucket_logging (bucket : string) : M StorageError (option (string * string)) :=
  meta ← read_bucket_meta st bucket;
  mret ((., default "" (bm_logging_target_prefix meta)) <$> bm_logging_target_bucket meta).
Definition delete_bucket_logging (bucket : string) : M StorageError unit :=
  update_bucket_meta st bucket (with_logging None None).
End settings.
