(* ===== verification/Sidecar.v ===== *)
(** * Object metadata on disk

    Reading a sidecar, the MAC that protects the sidecar of an encrypted object
    ([filesystem/common.rs]), the object-lock checks ([object_lock.rs]) and the
    publication of a payload with its sidecar ([common.rs]).

    What the object operations need of the keys is the class [KeyService];
    [Keyring] and [Encryption] implement it. *)

From stdpp Require Import base list gmap sets sorting numbers strings pretty.
From Stdlib Require Import ZArith Lia Ascii Strings.Byte.
From S2P Require Import Prelude IpAddr Glob Policy Bytes Reader Types Quota Crypto MetadataIndex FileSystem Paths World Storage.

Local Open Scope nat_scope.

(** ** The interface to the keys *)

(** [S] is the state that holds the keys. *)
Class KeyService (S : Type) : Type := {
  ks_prepare : S -> EncryptionRequest -> M StorageError EncryptionMeta;
  ks_resolve : S -> EncryptionMeta -> option bytes -> result StorageError bytes;
}.

Definition with_sidecar_mac (em : EncryptionMeta) (mac : string) : EncryptionMeta :=
  mk_EncryptionMeta (em_algorithm em) (em_mode em) (em_key_id em) (em_kms_key_id em)
    (em_wrapped_dek em) (em_wrap_nonce em) (em_customer_key_md5 em) (em_nonce_prefix em)
    (em_chunk_size em) mac.

(** What the object operations rely on: a key does not depend on the MAC field
    next to it, preparing one touches no file, frames have the fixed size and
    nonce prefixes 8 bytes. *)
Class KeyServiceSpec S `{KeyService S} `{Crates} : Prop := {
  ks_resolve_mac s em mac ck : ks_resolve s (with_sidecar_mac em mac) ck = ks_resolve s em ck;
  ks_prepare_world s req w w' r : ks_prepare s req w = (w', r) ->
    w_tree w' = w_tree w /\ w_index w' = w_index w /\ w_tick w <= w_tick w';
  ks_prepare_chunk_size s req w w' em : ks_prepare s req w = (w', Ok em) -> em_chunk_size em = 65536%Z;
  ks_prepare_prefix s req w w' em p : ks_prepare s req w = (w', Ok em) ->
    b64_decode (em_nonce_prefix em) = Some p -> length p = 8;
}.

(** ** The sidecar MAC *)

(** serde_json's [to_value] on a sidecar and [to_vec]. *)
Class SerdeJson : Type := {
  to_value : ObjectMeta -> Value;
  to_vec : Value -> bytes;
}.

Definition mac_input (meta : ObjectMeta) : ObjectMeta :=
  mk_ObjectMeta (om_key meta) (om_size meta) (om_etag meta) (om_content_type meta)
    (om_last_modified meta) (om_version_id meta) false (om_storage_format meta)
    (om_checksum_algorithm meta) (om_checksum_value meta) None (om_part_sizes meta)
    ((fun e => with_sidecar_mac e "") <$> om_encryption meta)
    (om_object_lock_mode meta) (om_retain_until_date meta) (om_legal_hold_status meta).

Definition field_le (a b : string * Value) : Prop := String.leb a.1 b.1 = true.
Global Instance field_le_dec a b : Decision (field_le a b).
Proof. unfold field_le. apply _. Defined.

Fixpoint canonical_json_value (v : Value) : Value :=
  match v with
  | VObject m =>
      VObject (merge_sort field_le
        ((fix go m := match m with
                      | [] => []
                      | (k, x) :: m => (k, canonical_json_value x) :: go m
                      end) m))
  | VArray a => VArray (map canonical_json_value a)
  | _ => v
  end.

Fixpoint bytes_diff (diff : Z) (a b : bytes) : Z :=
  match a, b with
  | x :: a, y :: b => bytes_diff (Z.lor diff (Z.lxor (Z_of_byte x) (Z_of_byte y))) a b
  | _, _ => diff
  end.
Definition constant_time_eq (a b : bytes) : bool :=
  if negb (length a =? length b) then false else (bytes_diff 0 a b =? 0)%Z.

Section mac.
Context `{Crates} `{SerdeJson}.

Definition compute_sidecar_mac (dek : bytes) (meta : ObjectMeta) : string :=
  hex_encode (hmac_sha256 dek (to_vec (canonical_json_value (to_value (mac_input meta))))).

Definition verify_sidecar_mac (meta : ObjectMeta) (dek : bytes) : result StorageError unit :=
  enc ← ok_or (om_encryption meta) (IntegrityError "object has no encryption metadata");
  let expected := compute_sidecar_mac dek meta in
  if decide (em_sidecar_mac enc = "") then
    Err (IntegrityError "sidecar_mac missing — object may be tampered")
  else if negb (constant_time_eq (as_bytes expected) (as_bytes (em_sidecar_mac enc))) then
    Err (IntegrityError "sidecar_mac mismatch — object metadata has been tampered")
  else Ok tt.
End mac.

(** ** The MAC of a sidecar *)

Lemma Z_of_byte_inj x y : Z_of_byte x = Z_of_byte y -> x = y.
Proof.
  intros E. assert (H : forall b, byte_of_Z (Z_of_byte b) = b) by (intros []; reflexivity).
  by rewrite <-(H x), E, H.
Qed.

Lemma bytes_diff_zero d a b : length a = length b -> (bytes_diff d a b = 0)%Z <-> d = 0%Z /\ a = b.
Proof.
  revert d b. induction a as [|x a IH]; intros d [|y b] Hl; try done; cbn [bytes_diff]; [naive_solver|].
  rewrite IH by (injection Hl as ?; done). rewrite Z.lor_eq_0_iff, Z.lxor_eq_0_iff.
  split.
  - by intros [[-> ->%Z_of_byte_inj] ->].
  - intros [-> [= -> ->]]. done.
Qed.

(** The comparison without early exit is equality. *)
Lemma constant_time_eq_spec a b : constant_time_eq a b = true <-> a = b.
Proof.
  unfold constant_time_eq. destruct (Nat.eqb_spec (length a) (length b)) as [E|E]; cbn [negb].
  - rewrite Z.eqb_eq, bytes_diff_zero by done. naive_solver.
  - split; [done|by intros ->].
Qed.

Definition reject_sse_c_on_plaintext (meta : ObjectMeta) (has_customer_key : bool)
    : result StorageError unit :=
  if has_customer_key && bool_decide (om_encryption meta = None) then
    Err (DecryptionError "SSE-C headers supplied but object is not encrypted")
  else Ok tt.

(** ** Reading sidecars, object lock *)

Definition locked : StorageError := ObjectLocked "object is protected by retention or legal hold".
Definition version_locked : StorageError :=
  ObjectLocked "object version is protected by retention or legal hold".

Section lock.
Context `{Environment} `{Serde} (st : FilesystemStorage).

Definition read_object_meta (bucket key : string) : M StorageError ObjectMeta :=
  read_json (meta_path st bucket key) parse_object (NotFoundError key).

(** [is_object_protected] at the present time. *)
Definition protected_now (meta : ObjectMeta) : M StorageError bool :=
  n ← tick; mret (is_object_protected parse_rfc3339 (now n) meta).

Definition ensure_can_delete_meta (meta : ObjectMeta) : M StorageError unit :=
  p ← protected_now meta; fail_if p locked.

(** [try_exists(..).unwrap_or(false)]. *)
Definition exists_or_false (path : string) : M StorageError bool :=
  t ← get_tree;
  mret match try_exists t path with Ok b => b | Err _ => false end.

Definition ensure_can_overwrite (bucket key : string) : M StorageError unit :=
  there ← exists_or_false (meta_path st bucket key);
  if negb there then mret tt
  else
    meta ← read_object_meta bucket key;
    p ← protected_now meta;
    fail_if p locked.

Definition resolve_default_object_lock (bucket : string) : M StorageError (option ObjectLockRetention) :=
  meta ← read_bucket_meta st bucket;
  if negb (bm_object_lock_enabled meta) then mret None
  else
    match bm_object_lock_config meta with
    | None => mret None
    | Some config =>
        match olc_default_retention_mode config, olc_default_retention_days config with
        | Some mode, Some days =>
            if (days =? 0)%Z then mret None
            else n ← tick; mret (Some (mk_ObjectLockRetention mode (now_plus_days n days)))
        | _, _ => mret None
        end
    end.

Definition apply_object_lock (meta : ObjectMeta) (lock : option ObjectLockRetention) : ObjectMeta :=
  match lock with
  | None => meta
  | Some lock =>
      mk_ObjectMeta (om_key meta) (om_size meta) (om_etag meta) (om_content_type meta)
        (om_last_modified meta) (om_version_id meta) (om_is_delete_marker meta)
        (om_storage_format meta) (om_checksum_algorithm meta) (om_checksum_value meta)
        (om_tags meta) (om_part_sizes meta) (om_encryption meta)
        (Some (olr_mode lock)) (Some (olr_retain_until_date lock)) (om_legal_hold_status meta)
  end.

(** ** Retention and legal hold *)

Definition with_retention (r : ObjectLockRetention) (meta : ObjectMeta) : ObjectMeta :=
  apply_object_lock meta (Some r).
Definition with_legal_hold (status : LegalHoldStatus) (meta : ObjectMeta) : ObjectMeta :=
  mk_ObjectMeta (om_key meta) (om_size meta) (om_etag meta) (om_content_type meta)
    (om_last_modified meta) (om_version_id meta) (om_is_delete_marker meta)
    (om_storage_format meta) (om_checksum_algorithm meta) (om_checksum_value meta)
    (om_tags meta) (om_part_sizes meta) (om_encryption meta)
    (om_object_lock_mode meta) (om_retain_until_date meta) (Some status).

Definition read_meta_at (bucket key : string) (version_id : option string) : M StorageError ObjectMeta :=
  _ ← lift (validate_key key);
  match version_id with
  | Some vid =>
      if decide (vid = "null") then read_object_meta bucket key
      else read_json (version_meta_path st bucket key vid) parse_object (VersionNotFound vid)
  | None => read_object_meta bucket key
  end.

Definition write_meta_at (bucket key : string) (version_id : option string) (meta : ObjectMeta)
    : M StorageError unit :=
  let path := match version_id with
              | Some vid => if decide (vid = "null") then meta_path st bucket key
                            else version_meta_path st bucket key vid
              | None => meta_path st bucket key
              end in
  call (fun t => fs_write t path (ObjectJson meta)).

Definition require_object_lock (bucket : string) : M StorageError unit :=
  meta ← read_bucket_meta st bucket;
  fail_if (negb (bm_object_lock_enabled meta)) (InvalidKey "object lock is not enabled for this bucket").

Definition put_object_retention (bucket key : string) (version_id : option string)
    (retention : ObjectLockRetention) : M StorageError unit :=
  _ ← lift (validate_bucket_name bucket);
  _ ← lift (validate_key key);
  _ ← require_object_lock bucket;
  meta ← read_meta_at bucket key version_id;
  write_meta_at bucket key version_id (with_retention retention meta).

Definition get_object_retention (bucket key : string) (version_id : option string)
    : M StorageError ObjectLockRetention :=
  meta ← read_meta_at bucket key version_id;
  match om_object_lock_mode meta, om_retain_until_date meta with
  | Some mode, Some date => mret (mk_ObjectLockRetention mode date)
  | _, _ => fail (NotFoundError key)
  end.

Definition put_object_legal_hold (bucket key : string) (version_id : option string)
    (status : LegalHoldStatus) : M StorageError unit :=
  _ ← lift (validate_bucket_name bucket);
  _ ← lift (validate_key key);
  _ ← require_object_lock bucket;
  meta ← read_meta_at bucket key version_id;
  write_meta_at bucket key version_id (with_legal_hold status meta).

Definition get_object_legal_hold (bucket key : string) (version_id : option string)
    : M StorageError LegalHoldStatus :=
  meta ← read_meta_at bucket key version_id;
  lift (ok_or (om_legal_hold_status meta) (NotFoundError key)).
End lock.

(** ** Publication *)

Section publish.
Context `{Environment}.

(** [if let Some(parent) = path.parent() { fs::create_dir_all(parent).await?; }]. *)
Definition create_parent (path : string) : M StorageError unit :=
  match path_parent path with
  | Some parent => call (fun t => fs_create_dir_all t parent)
  | None => mret tt
  end.

(** A call whose error the code handles itself. *)
Definition attempt {A} (f : tree -> tree * result io_error A) : M StorageError (result io_error A) :=
  on_world (fun w => let '(t, r) := f (w_tree w) in (with_tree w t, Ok r)).

(** [TempPathGuard]: what is left at [path] is removed when the block fails. *)
Definition guarded {A} (is_dir : bool) (path : string) (m : M StorageError A) : M StorageError A :=
  on_world (fun w =>
    match m w with
    | (w, Ok a) => (w, Ok a)
    | (w, Err e) =>
        (with_tree w (fst (if is_dir then fs_remove_dir_all (w_tree w) path
                           else fs_remove_file (w_tree w) path)), Err e)
    end).

Definition remove_path_if_exists (path : string) (is_dir : bool) : M StorageError unit :=
  if is_dir then ignore (fun t => fs_remove_dir_all t path)
  else ignore (fun t => fs_remove_file t path).

Definition backup_existing (path : string) : M StorageError (option string) :=
  there ← query (fun t => try_exists t path);
  if negb there then mret None
  else
    backup ← temp_sibling_path path;
    _ ← call (fun t => fs_rename t path backup);
    mret (Some backup).

Definition restore_backup (final_path : string) (backup : option string) (is_dir : bool)
    : M StorageError unit :=
  match backup with
  | Some backup =>
      _ ← remove_path_if_exists final_path is_dir;
      ignore (fun t => fs_rename t backup final_path)
  | None => mret tt
  end.

Definition cleanup_backup (backup : option string) (is_dir : bool) : M StorageError unit :=
  match backup with Some backup => remove_path_if_exists backup is_dir | None => mret tt end.

Definition publish_temp_payload_and_meta (tmp_payload final_payload : string) (payload_is_dir : bool)
    (tmp_meta final_meta : string) : M StorageError unit :=
  _ ← create_parent final_payload;
  _ ← create_parent final_meta;
  payload_backup ← backup_existing final_payload;
  meta_backup ← backup_existing final_meta;
  r ← attempt (fun t => fs_rename t tmp_payload final_payload);
  match r with
  | Err e =>
      _ ← restore_backup final_meta meta_backup false;
      _ ← restore_backup final_payload payload_backup payload_is_dir;
      fail (Io e)
  | Ok _ =>
      r ← attempt (fun t => fs_rename t tmp_meta final_meta);
      match r with
      | Err e =>
          _ ← remove_path_if_exists final_payload payload_is_dir;
          _ ← restore_backup final_meta meta_backup false;
          _ ← restore_backup final_payload payload_backup payload_is_dir;
          fail (Io e)
      | Ok _ =>
          _ ← cleanup_backup payload_backup payload_is_dir;
          cleanup_backup meta_backup false
      end
  end.

Definition remove_file_if_exists (path : string) : M StorageError unit :=
  r ← attempt (fun t => fs_remove_file t path);
  match r with
  | Ok _ => mret tt
  | Err e => fail_if (bool_decide (io_error_kind e <> NotFound)) (Io e)
  end.
Definition remove_dir_all_if_exists (path : string) : M StorageError unit :=
  r ← attempt (fun t => fs_remove_dir_all t path);
  match r with
  | Ok _ => mret tt
  | Err e => fail_if (bool_decide (io_error_kind e <> NotFound)) (Io e)
  end.
End publish.
