(* ===== verification/Encryption.v ===== *)
(** * Data keys

    [filesystem/encryption_io.rs]: the encryption record of a new object or
    upload and the data key of an existing one, in the three modes.  This is the
    [KeyService] the object operations rely on. *)

From stdpp Require Import base list gmap sets numbers strings pretty.
From Stdlib Require Import ZArith Lia Ascii Strings.Byte.
From S2P Require Import Prelude Bytes Reader Types Quota Crypto MetadataIndex FileSystem Paths World Keyring Storage Sidecar.

Local Open Scope nat_scope.

Section encryption.
Context `{Environment} `{Crates} `{Aead}.

Definition rand {E} (size : nat) : M E bytes := n ← tick; mret (random_bytes n size).

Definition frame_meta (mode : EncryptionMode) (key_id kms_key_id : option string)
    (wrapped wrap_nonce nonce_prefix : bytes) (key_md5 : option string) : EncryptionMeta :=
  mk_EncryptionMeta "AES256" mode key_id kms_key_id (Some (b64_encode wrapped))
    (Some (b64_encode wrap_nonce)) key_md5 (b64_encode nonce_prefix) (Z.of_nat FRAME_CHUNK_SIZE) "".

Definition prepare_sse_s3 (st : FilesystemStorage) : M StorageError EncryptionMeta :=
  dek ← rand 32;
  nonce_prefix ← rand 8;
  let key_id := kr_active_id (st_keyring st) in
  nonce ← rand 12;
  w ← lift (map_err EncryptionError (wrap_dek (st_keyring st) key_id dek nonce));
  mret (frame_meta SseS3 (Some key_id) None (fst w) (snd w) nonce_prefix None).

Definition prepare_sse_kms (st : FilesystemStorage) (kms_key_id : option string) : M StorageError EncryptionMeta :=
  kms ← lift (ok_or (st_kms st) (EncryptionError "SSE-KMS requires MAXIO_KMS_MASTER_KEY"));
  plaintext ← rand 32;
  wrap_nonce ← rand 12;
  g ← lift (map_err (fun e => EncryptionError (kms_error_to_string e))
              (generate_data_key kms kms_key_id plaintext wrap_nonce));
  nonce_prefix ← rand 8;
  mret (frame_meta SseKms None (Some (gd_kms_key_id g)) (gd_ciphertext g) (gd_wrap_nonce g) nonce_prefix None).

Definition prepare_sse_c (customer_key : option bytes) : M StorageError EncryptionMeta :=
  ck ← lift (ok_or customer_key (EncryptionError "SSE-C requires customer key"));
  dek ← rand 32;
  nonce_prefix ← rand 8;
  wrap_nonce ← rand 12;
  wrapped ← lift (ok_or (seal ck wrap_nonce dek []) (EncryptionError "SSE-C DEK wrapping failed"));
  mret (frame_meta SseC None None wrapped wrap_nonce nonce_prefix (Some (b64_encode (md5 ck)))).

Definition prepare_encryption (st : FilesystemStorage) (req : EncryptionRequest)
    : M StorageError EncryptionMeta :=
  match er_mode req with
  | SseS3 => prepare_sse_s3 st
  | SseKms => prepare_sse_kms st (er_kms_key_id req)
  | SseC => prepare_sse_c (er_customer_key req)
  end.

(** ** The key of an existing object *)

(** The base64 fields of a wrapped key, decoded; [err] is the error of the
    caller, [w] and [n] name the fields. *)
Definition decode_wrapped (err : string -> StorageError) (w n : string) (wrapped wrap_nonce : string)
    : result StorageError (bytes * bytes) :=
  wrapped_bytes ← ok_or (b64_decode wrapped) (err ("bad " +:+ w +:+ " base64"));
  nonce_bytes ← ok_or (b64_decode wrap_nonce) (err ("bad " +:+ n +:+ " base64"));
  if length nonce_bytes =? 12 then Ok (wrapped_bytes, nonce_bytes)
  else Err (err (n +:+ " must be 12 bytes")).

Definition resolve_sse_c (em : EncryptionMeta) (customer_key : option bytes) : result StorageError bytes :=
  ck ← ok_or customer_key (DecryptionError "SSE-C: customer key required");
  if match em_customer_key_md5 em with
     | Some stored => negb (bool_decide (b64_encode (md5 ck) = stored))
     | None => false
     end
  then Err (DecryptionError "SSE-C: customer key MD5 mismatch")
  else
    match em_wrapped_dek em, em_wrap_nonce em with
    | Some wrapped, Some wrap_nonce =>
        wn ← decode_wrapped DecryptionError "wrapped_dek" "wrap_nonce" wrapped wrap_nonce;
        plaintext ← ok_or (open ck (snd wn) (fst wn) []) (DecryptionError "SSE-C DEK unwrap failed");
        if length plaintext =? 32 then Ok plaintext
        else Err (DecryptionError "SSE-C DEK length invalid")
    | _, _ => Ok ck
    end.

Definition resolve_sse_s3 (st : FilesystemStorage) (em : EncryptionMeta) : result StorageError bytes :=
  key_id ← ok_or (em_key_id em) (DecryptionError "missing key_id");
  wrapped ← ok_or (em_wrapped_dek em) (DecryptionError "missing wrapped_dek");
  wrap_nonce ← ok_or (em_wrap_nonce em) (DecryptionError "missing wrap_nonce");
  wn ← decode_wrapped DecryptionError "wrapped_dek" "wrap_nonce" wrapped wrap_nonce;
  map_err DecryptionError (unwrap_dek (st_keyring st) key_id (fst wn) (snd wn)).

Definition resolve_sse_kms (st : FilesystemStorage) (em : EncryptionMeta) : result StorageError bytes :=
  kms ← ok_or (st_kms st) (DecryptionError "SSE-KMS not configured");
  kms_key_id ← ok_or (em_kms_key_id em) (DecryptionError "missing kms_key_id");
  wrapped ← ok_or (em_wrapped_dek em) (DecryptionError "missing wrapped_dek");
  wrap_nonce ← ok_or (em_wrap_nonce em) (DecryptionError "missing wrap_nonce");
  wn ← decode_wrapped DecryptionError "wrapped_dek" "wrap_nonce" wrapped wrap_nonce;
  map_err (fun e => DecryptionError (kms_error_to_string e))
    (decrypt_data_key kms kms_key_id (fst wn) (snd wn)).

Definition resolve_dek (st : FilesystemStorage) (em : EncryptionMeta) (customer_key : option bytes)
    : result StorageError bytes :=
  match em_mode em with
  | SseC => resolve_sse_c em customer_key
  | SseS3 => resolve_sse_s3 st em
  | SseKms => resolve_sse_kms st em
  end.

(** ** The key of a multipart upload *)

Definition resolve_upload_dek (st : FilesystemStorage) (spec : UploadEncryptionSpec)
    (customer_key : option bytes) : result StorageError bytes :=
  match ue_mode spec with
  | SseC =>
      ck ← ok_or customer_key (EncryptionError "SSE-C multipart: customer key required");
      if match ue_customer_key_md5 spec with
         | Some stored => negb (bool_decide (b64_encode (md5 ck) = stored))
         | None => false
         end
      then Err (EncryptionError "SSE-C key MD5 mismatch")
      else Ok ck
  | SseS3 =>
      wrapped ← ok_or (ue_upload_dek_wrapped spec) (EncryptionError "missing upload_dek_wrapped");
      nonce ← ok_or (ue_upload_dek_wrap_nonce spec) (EncryptionError "missing upload_dek_wrap_nonce");
      kid ← ok_or (ue_upload_dek_key_id spec) (EncryptionError "missing upload_dek_key_id");
      wn ← decode_wrapped EncryptionError "upload_dek_wrapped" "upload_dek_wrap_nonce" wrapped nonce;
      map_err EncryptionError (unwrap_dek (st_keyring st) kid (fst wn) (snd wn))
  | SseKms =>
      kms ← ok_or (st_kms st) (EncryptionError "SSE-KMS not configured");
      kms_key_id ← ok_or (ue_kms_key_id spec) (EncryptionError "missing kms_key_id");
      wrapped ← ok_or (ue_upload_dek_wrapped spec) (EncryptionError "missing upload_dek_wrapped");
      nonce ← ok_or (ue_upload_dek_wrap_nonce spec) (EncryptionError "missing upload_dek_wrap_nonce");
      wn ← decode_wrapped EncryptionError "upload_dek_wrapped" "upload_dek_wrap_nonce" wrapped nonce;
      map_err (fun e => EncryptionError (kms_error_to_string e))
        (decrypt_data_key kms kms_key_id (fst wn) (snd wn))
  end.

Global Instance filesystem_key_service : KeyService FilesystemStorage := {|
  ks_prepare := prepare_encryption;
  ks_resolve := resolve_dek
|}.
End encryption.

(** ** The interface holds *)

Section spec.
Context `{EnvironmentSpec} `{CratesSpec} `{Aead}.

Lemma pure_rand {E} n : pure_step (rand n : M E bytes).
Proof. intros w w' r [= <- <-]. cbn. split_and!; [done..|lia]. Qed.
Hint Resolve pure_rand : maxio_pure.

Lemma prepare_pure st req : pure_step (prepare_encryption st req).
Proof.
  unfold prepare_encryption, prepare_sse_s3, prepare_sse_kms, prepare_sse_c.
  destruct (er_mode req); repeat (apply pure_bind; [auto with maxio_pure|intros]); auto with maxio_pure.
Qed.

Lemma prepare_chunk_size st req w w' em :
  prepare_encryption st req w = (w', Ok em) -> em_chunk_size em = 65536%Z.
Proof.
  unfold prepare_encryption, prepare_sse_s3, prepare_sse_kms, prepare_sse_c.
  destruct (er_mode req); intros Hp;
    repeat (apply M_bind_ok in Hp as (? & ? & _ & Hp)); injection Hp as _ <-;
    cbn [em_chunk_size frame_meta]; unfold FRAME_CHUNK_SIZE; rewrite Z2Nat.id; done.
Qed.

Lemma rand_ok {E} n w w' b : (rand n : M E bytes) w = (w', Ok b) -> length b = n.
Proof. intros [= _ <-]. apply random_bytes_length. Qed.

Lemma prepare_prefix st req w w' em p :
  prepare_encryption st req w = (w', Ok em) -> b64_decode (em_nonce_prefix em) = Some p -> length p = 8.
Proof.
  unfold prepare_encryption, prepare_sse_s3, prepare_sse_kms, prepare_sse_c.
  destruct (er_mode req); intros Hp;
    repeat (apply M_bind_ok in Hp as (? & ? & Hr & Hp); first [apply rand_ok in Hr | clear Hr]; try revert Hr);
    intros;
    injection Hp as _ <-; match goal with E : b64_decode _ = Some _ |- _ =>
      cbn [em_nonce_prefix frame_meta] in E; rewrite b64_decode_encode in E; by injection E as <- end.
Qed.

Global Instance filesystem_key_service_spec : KeyServiceSpec FilesystemStorage.
Proof.
  split.
  - done.
  - intros s req w w' r Hp. by apply (prepare_pure s req) in Hp.
  - apply prepare_chunk_size.
  - apply prepare_prefix.
Qed.
End spec.
