(* ===== verification/Publish.v ===== *)
(** * Publication is safe

    What [publish_temp_payload_and_meta], the temporary names and the guards of
    [Sidecar] do to the files of an object and of everything else.  [base T]
    says that only locations of [T] changed since [w0]. *)

From stdpp Require Import base list gmap sets numbers strings pretty.
From Stdlib Require Import ZArith Lia Ascii Strings.Byte.
From S2P Require Import Prelude Bytes Reader Types Quota Crypto MetadataIndex FileSystem Paths World Keyring Storage Sidecar.

Local Open Scope nat_scope.

(** The temporary names of [temp_sibling_path] from a tick on. *)
Definition temp_name `{Environment} (n : nat) : string := ".maxio-tmp-" +:+ uuid_v4 n.

Section place.
Context `{EnvironmentSpec}.
(** A payload and a sidecar in one directory, and the world they start from. *)
Context (op mp : string) (P : location) (w m : string) (w0 : world).
Hypothesis op_place : at_place op P w.
Hypothesis mp_place : at_place mp P m.
Hypothesis w_m : w <> m.
Hypothesis not_temp : Forall (fun s => starts_with s ".maxio-tmp-" = false) (P ++ [w; m]).

Definition temp (l : location) : Prop := exists n, w_tick w0 <= n /\ l = P ++ [temp_name n].
Definition either (l : location) : Prop := temp l \/ l = P ++ [w] \/ l = P ++ [m].

Record base (T : location -> Prop) (v : world) : Prop := {
  b_tick : w_tick w0 <= w_tick v;
  b_index : w_index v = w_index w0;
  b_files l : ~ T l -> t_files (w_tree v) !! l = t_files (w_tree w0) !! l;
  b_dirs : t_dirs (w_tree w0) ⊆ t_dirs (w_tree v);
  b_new d : d ∈ t_dirs (w_tree v) -> d ∈ t_dirs (w_tree w0) \/ d `prefix_of` P;
  b_nodir l : either l -> l ∉ t_dirs (w_tree v);
}.

Lemma temp_name_temp n : starts_with (temp_name n) ".maxio-tmp-" = true.
Proof. apply starts_with_spec. by eexists. Qed.

Lemma temp_not_place l : temp l -> l <> P ++ [w] /\ l <> P ++ [m].
Proof.
  intros (n & _ & ->). apply Forall_app in not_temp as [_ [Hw [Hm _]%Forall_cons]%Forall_cons].
  pose proof (temp_name_temp n).
  split; intros [_ E]%app_inj_2; try done; injection E as E; congruence.
Qed.
Lemma place_distinct : P ++ [w] <> P ++ [m].
Proof. intros [_ E]%app_inj_2; [|done]. injection E as E. done. Qed.

(** The directory holds none of these locations on its way. *)
Lemma parent_not_either d : d `prefix_of` P -> ~ either d.
Proof.
  intros Hd [Ht|[->| ->]].
  - destruct Ht as (n & _ & ->). destruct Hd as [k Hk].
    apply Forall_app in not_temp as [Hp _]. rewrite Hk in Hp.
    rewrite <-app_assoc, Forall_app in Hp. destruct Hp as [_ [Hp _]%Forall_cons].
    by rewrite temp_name_temp in Hp.
  - apply prefix_length in Hd. rewrite length_app in Hd. cbn in Hd. lia.
  - apply prefix_length in Hd. rewrite length_app in Hd. cbn in Hd. lia.
Qed.

(** ** Steps that keep [base] *)

Lemma base_pure T v v' :
  base T v -> w_tree v' = w_tree v -> w_index v' = w_index v -> w_tick v <= w_tick v' -> base T v'.
Proof. intros [? ? ? ? ? ?] Et Ei Hn. split; rewrite ?Et, ?Ei; auto. lia. Qed.

Lemma base_weaken (T T' : location -> Prop) v : (forall l, T l -> T' l) -> base T v -> base T' v.
Proof. intros HT [? ? Hf ? ? ?]. split; auto. Qed.

Lemma base_file (T : location -> Prop) v l c : T l -> base T v -> base T (with_tree v (with_file (w_tree v) l c)).
Proof.
  intros Hl [? ? Hf ? ? ?]. split; try done. intros k Hk. cbn.
  rewrite lookup_insert_ne by congruence. by apply Hf.
Qed.
Lemma base_no_file (T : location -> Prop) v l : T l -> base T v -> base T (with_tree v (without_file (w_tree v) l)).
Proof.
  intros Hl [? ? Hf ? ? ?]. split; try done. intros k Hk. cbn.
  rewrite lookup_delete_ne by congruence. by apply Hf.
Qed.

(** The directory exists afterwards, and nothing else changes. *)
Lemma create_parent_spec T path s v v' r :
  at_place path P s -> base T v -> create_parent path v = (v', r) ->
  base T v' /\ t_files (w_tree v') = t_files (w_tree v) /\ t_dirs (w_tree v) ⊆ t_dirs (w_tree v') /\
  w_tick v' = w_tick v /\ (r = Ok tt -> reach (w_tree v') P).
Proof.
  intros Hp Hv. unfold create_parent. destruct (at_place_parent path P s Hp) as (q & -> & Hq & Hpq).
  unfold call. destruct (fs_create_dir_all (w_tree v) q) as [t res] eqn:E. intros [= <- <-].
  apply fs_create_dir_all_effect in E as (Hf & Hd & Hnew & Hok); [|done].
  split_and!; cbn; try done.
  - destruct Hv as [? ? Hfi Hdi Hnw Hnd]. split; cbn; try done.
    + intros l Hl. rewrite Hf. by apply Hfi.
    + by etrans.
    + intros d [Hin|Hin]%Hnew; [by apply Hnw|]. right. by rewrite <-Hq.
    + intros l Hl Hin. apply Hnew in Hin as [Hin|Hin]; [by eapply Hnd|].
      rewrite Hq in Hin. by apply parent_not_either in Hin.
  - rewrite <-Hq. destruct res as [[]|e]; [|done]. intros _. by apply Hok.
Qed.

Lemma create_parent_base T path s :
  at_place path P s -> triple (base T) (create_parent path) (fun _ => base T) (base T).
Proof.
  intros Hp v Hv. destruct (create_parent path v) as [v' r] eqn:E.
  apply (create_parent_spec T path s) in E as (Hb & _); [|done..]. by destruct r.
Qed.

(** A temporary name next to a path of the directory. *)
Lemma temp_sibling path s v :
  at_place path P s ->
  exists tmp, temp_sibling_path path v = (mk_world (w_tree v) (w_index v) (S (w_tick v)), Ok tmp) /\
    at_place tmp P (temp_name (w_tick v)).
Proof.
  intros Hp. unfold temp_sibling_path. cbn.
  destruct (at_place_parent path P s Hp) as (q & -> & Hq & Hpq). cbn. eexists. split; [done|].
  pose proof (uuid_v4_segment (w_tick v)) as Hs. apply at_place_join; [done..| | |].
  - unfold contains_char in *. rewrite bool_decide_eq_false in *.
    change (chars _) with (chars (temp_name (w_tick v))). unfold temp_name.
    rewrite chars_app, elem_of_app. intros [Hin|Hin]; [|done].
    cbn in Hin. repeat (apply elem_of_cons in Hin as [Hin|Hin]; [discriminate|]).
    by apply elem_of_nil in Hin.
  - by intros [?|?].
  - by intros ?.
Qed.

Lemma temp_here n : w_tick w0 <= n -> temp (P ++ [temp_name n]).
Proof. intros Hn. by exists n. Qed.

Lemma temp_names_inj n n' : P ++ [temp_name n] = P ++ [temp_name n'] -> n = n'.
Proof.
  intros [_ E]%app_inj_2; [|done]. injection E as E. apply (f_equal chars) in E.
  unfold temp_name in E. rewrite !chars_app in E. apply app_inv_head in E.
  by apply uuid_v4_inj, (inj chars).
Qed.

(** Writing, or removing, a file of [T]. *)
Lemma write_base (T : location -> Prop) path c : plain path -> T (names path) ->
  triple (base T) (call (fun t => fs_write t path c)) (fun _ => base T) (base T).
Proof.
  intros Hp HT v Hv. unfold call. destruct (fs_write _ _ _) as [t r] eqn:E.
  apply fs_write_effect in E as [[-> Hr]|(-> & -> & _)]; [|cbn; by apply base_file|done].
  destruct r; [done|]. cbn. by eapply base_pure.
Qed.
Lemma remove_base (T : location -> Prop) path v v' r : plain path -> T (names path) -> base T v ->
  remove_path_if_exists path false v = (v', r) ->
  r = Ok tt /\ base T v' /\ w_tick v' = w_tick v /\ t_dirs (w_tree v') = t_dirs (w_tree v) /\
  forall l, l <> names path -> t_files (w_tree v') !! l = t_files (w_tree v) !! l.
Proof.
  intros Hp HT Hv. unfold remove_path_if_exists, ignore. destruct (fs_remove_file _ _) as [t res] eqn:E.
  intros [= <- <-].
  apply fs_remove_file_effect in E as [[-> Hr]|(-> & ->)]; [by split_and!; [|eapply base_pure| ..]| |done].
  split_and!; [done|by apply base_no_file|done|done|]. intros l Hl. cbn. by rewrite lookup_delete_ne.
Qed.

(** ** Renaming *)

Lemma rename_place t p q a b v :
  reach t P -> at_place p P a -> at_place q P b ->
  t_files t !! (P ++ [a]) = Some v -> (P ++ [b] ∉ t_dirs t) ->
  fs_rename t p q = (with_file (without_file t (P ++ [a])) (P ++ [b]) v, Ok tt).
Proof.
  intros Hr Hp Hq Hf Hb. unfold fs_rename.
  by rewrite (resolve_place t p P a Hp Hr), (resolve_place t q P b Hq Hr), Hf, decide_False.
Qed.

(** The backup of a file, when there is one, is its rename to a fresh name. *)
Lemma backup_spec path s v :
  at_place path P s -> reach (w_tree v) P -> (P ++ [s] ∉ t_dirs (w_tree v)) ->
  (P ++ [temp_name (w_tick v)] ∉ t_dirs (w_tree v)) ->
  match t_files (w_tree v) !! (P ++ [s]) with
  | None => backup_existing path v = (v, Ok None)
  | Some c => exists b, at_place b P (temp_name (w_tick v)) /\
      backup_existing path v =
        (mk_world (with_file (without_file (w_tree v) (P ++ [s])) (P ++ [temp_name (w_tick v)]) c)
           (w_index v) (S (w_tick v)), Ok (Some b))
  end.
Proof.
  intros Hp Hr Hd Ht.
  assert (Hq : try_exists (w_tree v) path = Ok (bool_decide (is_Some (t_files (w_tree v) !! (P ++ [s]))))).
  { unfold try_exists. by rewrite (resolve_place _ path P s Hp Hr), bool_decide_eq_false_2. }
  unfold backup_existing, mbind, M_bind, query. rewrite Hq. cbn [map_err].
  destruct (t_files (w_tree v) !! (P ++ [s])) as [c|] eqn:Ef; cbn [negb].
  - destruct (temp_sibling path s v Hp) as (b & Hb & Hpb).
    exists b. split; [done|]. rewrite bool_decide_eq_true_2 by done. cbn [negb].
    change (mbind (M:=M StorageError)) with (@mbind _ (@M_bind StorageError)). unfold mbind, M_bind.
    rewrite Hb. unfold call. cbn [w_tree].
    by rewrite (rename_place (w_tree v) path b s (temp_name (w_tick v)) c).
  - by rewrite bool_decide_eq_false_2 by (by intros [? ?]).
Qed.

Lemma cleanup_spec (T : location -> Prop) b v v' r :
  (forall b', b = Some b' -> plain b' /\ T (names b')) -> base T v ->
  cleanup_backup b false v = (v', r) ->
  r = Ok tt /\ base T v' /\ w_tick v' = w_tick v /\ t_dirs (w_tree v') = t_dirs (w_tree v) /\
  forall l, (forall b', b = Some b' -> l <> names b') -> t_files (w_tree v') !! l = t_files (w_tree v) !! l.
Proof.
  intros Hb Hv. destruct b as [b|]; cbn [cleanup_backup]; [|intros [= <- <-]; by split_and!].
  destruct (Hb b eq_refl) as [Hp HT]. intros Hc.
  destruct (remove_base T b v v' r Hp HT Hv Hc) as (? & ? & ? & ? & Hf). split_and!; try done.
  intros l Hl. apply Hf. by apply Hl.
Qed.
Lemma backup_effect path s v :
  at_place path P s -> s = w \/ s = m -> base either v -> reach (w_tree v) P ->
  exists v' ob, backup_existing path v = (v', Ok ob) /\ base either v' /\
    t_dirs (w_tree v') = t_dirs (w_tree v) /\ w_tick v <= w_tick v' /\
    (forall l, l <> P ++ [s] -> l <> P ++ [temp_name (w_tick v)] ->
       t_files (w_tree v') !! l = t_files (w_tree v) !! l) /\
    (forall b, ob = Some b -> at_place b P (temp_name (w_tick v)) /\ w_tick v < w_tick v').
Proof.
  intros Hp Hs Hv Hr.
  assert (Hes : either (P ++ [s])) by (destruct Hs as [->| ->]; [by right; left|by right; right]).
  assert (Het : either (P ++ [temp_name (w_tick v)])) by (left; apply temp_here; by apply Hv).
  pose proof (backup_spec path s v Hp Hr (b_nodir _ _ Hv _ Hes) (b_nodir _ _ Hv _ Het)) as Hb.
  destruct (t_files (w_tree v) !! (P ++ [s])) as [c|] eqn:Ef.
  - destruct Hb as (b & Hpb & ->). eexists _, _. split; [done|]. split_and!; cbn; try done; try lia.
    + destruct Hv as [Ht ? Hf ? ? ?]. split; cbn; try done; [lia|].
      intros l Hl. rewrite lookup_insert_ne, lookup_delete_ne by congruence. by apply Hf.
    + intros l H1 H2. by rewrite lookup_insert_ne, lookup_delete_ne.
    + intros b' [= <-]. split; [done|lia].
  - rewrite Hb. eexists _, _. by split_and!.
Qed.

(** A rename from one of these locations to another. *)
Lemma rename_base v l l' c :
  either l -> either l' -> base either v ->
  base either (with_tree v (with_file (without_file (w_tree v) l) l' c)).
Proof. intros Hl Hl' Hv. apply (base_file either (with_tree v _)); [done|]. by apply base_no_file. Qed.

(** Publishing either fails and leaves both files as they were, or puts the
    payload and the sidecar in place. *)
Lemma publish_spec tp tm np nm cp cm v v' r :
  base temp v -> at_place tp P (temp_name np) -> at_place tm P (temp_name nm) ->
  w_tick w0 <= np -> np < nm -> nm < w_tick v ->
  t_files (w_tree v) !! (P ++ [temp_name np]) = Some cp ->
  t_files (w_tree v) !! (P ++ [temp_name nm]) = Some cm ->
  publish_temp_payload_and_meta tp op false tm mp v = (v', r) ->
  match r with
  | Ok _ => base either v' /\ t_files (w_tree v') !! (P ++ [w]) = Some cp /\
            t_files (w_tree v') !! (P ++ [m]) = Some cm /\ reach (w_tree v') P
  | Err _ => base temp v'
  end.
Proof.
  intros Hv Htp Htm Hn0 Hn1 Hn2 Hcp Hcm. unfold publish_temp_payload_and_meta, mbind, M_bind.
  destruct (create_parent op v) as [v1 [u|e]] eqn:E1.
  2:{ intros [= <- <-]. by apply (create_parent_spec temp op w) in E1 as (? & _). }
  apply (create_parent_spec temp op w) in E1 as (Hv1 & F1 & _ & T1 & R1); [|done..].
  destruct (create_parent mp v1) as [v2 [u'|e]] eqn:E2.
  2:{ intros [= <- <-]. by apply (create_parent_spec temp mp m) in E2 as (? & _). }
  apply (create_parent_spec temp mp m) in E2 as (Hv2 & F2 & D2 & T2 & R2); [|done..].
  assert (Hr2 : reach (w_tree v2) P) by (apply R2; by destruct u').
  assert (He2 : base either v2) by (by apply (base_weaken temp); [left|]).
  rewrite <-F1, <-F2 in Hcp, Hcm. rewrite <-T1, <-T2 in Hn2. clear v1 F1 T1 R1 Hv1 F2 D2 T2 R2 Hv2 u u'.
  assert (Nn : forall n n', n <> n' -> P ++ [temp_name n] <> P ++ [temp_name n']).
  { intros n n' Hn E. by apply Hn, temp_names_inj. }
  assert (Nw : forall n s, w_tick w0 <= n -> s = w \/ s = m -> P ++ [temp_name n] <> P ++ [s]).
  { intros n s Hn Hs. destruct (temp_not_place (P ++ [temp_name n]) (temp_here n Hn)).
    by destruct Hs as [->| ->]. }
  assert (Ei : forall n, w_tick w0 <= n -> either (P ++ [temp_name n])) by (intros; left; by apply temp_here).
  assert (Ew : either (P ++ [w])) by (by right; left). assert (Em : either (P ++ [m])) by (by right; right).
  pose proof (b_tick _ _ He2) as Ht2.
  destruct (backup_effect op w v2) as (v3 & ob & -> & He3 & D3 & T3 & F3 & B3); [by auto..|].
  destruct (backup_effect mp m v3) as (v4 & mb & -> & He4 & D4 & T4 & F4 & B4); [by auto..|by intros d Hd; rewrite D3; apply Hr2|].
  assert (Hr4 : reach (w_tree v4) P) by (intros d Hd; rewrite D4, D3; by apply Hr2).
  assert (G4 : forall n, w_tick w0 <= n -> n < w_tick v2 ->
    t_files (w_tree v4) !! (P ++ [temp_name n]) = t_files (w_tree v2) !! (P ++ [temp_name n])).
  { intros n Hn Hn'. rewrite F4, F3; [done|apply Nw; auto|apply Nn; lia|apply Nw; auto|apply Nn; lia]. }
  unfold attempt, on_world.
  rewrite (rename_place _ tp op (temp_name np) w cp) by (first [done|apply He4, Ew|rewrite G4 by lia; done]).
  set (v5 := with_tree v4 (with_file (without_file (w_tree v4) (P ++ [temp_name np])) (P ++ [w]) cp)).
  assert (He5 : base either v5) by (apply rename_base; auto; apply Ei; lia).
  assert (Hr5 : reach (w_tree v5) P) by exact Hr4.
  rewrite (rename_place _ tm mp (temp_name nm) m cm); [|done..| |apply He5, Em].
  2:{ cbn. rewrite lookup_insert_ne by (apply not_eq_sym, Nw; [lia|auto]).
      rewrite lookup_delete_ne by (apply Nn; lia). rewrite G4 by lia. done. }
  set (v6 := with_tree v5 (with_file (without_file (w_tree v5) (P ++ [temp_name nm])) (P ++ [m]) cm)).
  assert (He6 : base either v6) by (apply rename_base; auto; apply Ei; lia).
  assert (HB : forall b', ob = Some b' \/ mb = Some b' ->
    plain b' /\ either (names b') /\ names b' <> P ++ [w] /\ names b' <> P ++ [m]).
  { intros b' Hb'. assert (exists n, w_tick w0 <= n /\ at_place b' P (temp_name n)) as (n & Hn & Hb).
    { destruct Hb' as [Hb'|Hb']; [exists (w_tick v2)|exists (w_tick v3)]; (split; [lia|]);
        [by apply B3|by apply B4]. }
    apply at_place_names in Hb as [Hb ->]. split_and!; [done|by apply Ei|by apply Nw; auto..]. }
  destruct (cleanup_backup ob false v6) as [v7 r7] eqn:E7.
  apply (cleanup_spec either ob) in E7 as (-> & He7 & T7 & D7 & F7); [|by intros b' Hb'; split; apply HB; left|done].
  intros E8.
  apply (cleanup_spec either mb) in E8 as (-> & He8 & T8 & D8 & F8); [|by intros b' Hb'; split; apply HB; right|done].
  split_and!; [done| | |].
  - rewrite F8, F7 by (intros b' Hb'; apply not_eq_sym, HB; auto). cbn.
    rewrite lookup_insert_ne by (apply not_eq_sym, place_distinct).
    rewrite lookup_delete_ne by (apply Nw; [lia|auto]). apply lookup_insert_eq.
  - rewrite F8, F7 by (intros b' Hb'; apply not_eq_sym, HB; auto). cbn. apply lookup_insert_eq.
  - intros d Hd. rewrite D8, D7. cbn. by apply Hr4.
Qed.
(** A guard cleans up after a failure. *)
Lemma guarded_spec {A} tmp n (f : M StorageError A) v v' r :
  at_place tmp P (temp_name n) -> w_tick w0 <= n ->
  (forall v1 e, f v = (v1, Err e) -> base temp v1) ->
  guarded false tmp f v = (v', r) ->
  match r with Ok a => f v = (v', Ok a) | Err _ => base temp v' end.
Proof.
  intros Hp Hn Hf. unfold guarded, on_world. destruct (f v) as [v1 [a|e]] eqn:Ef; intros [= <- <-]; [done|].
  apply at_place_names in Hp as [Hpl Hnm]. specialize (Hf v1 e eq_refl).
  destruct (fs_remove_file (w_tree v1) tmp) as [t res] eqn:E.
  apply fs_remove_file_effect in E as [[-> _]|[_ ->]]; [by eapply base_pure| |done].
  apply base_no_file; [|done]. rewrite Hnm. by apply temp_here.
Qed.

(** Writing a temporary file. *)
Lemma write_temp tmp n c v v' r :
  at_place tmp P (temp_name n) -> w_tick w0 <= n -> base temp v ->
  call (fun t => fs_write t tmp c) v = (v', r) ->
  base temp v' /\ w_tick v' = w_tick v /\
  (forall l, l <> P ++ [temp_name n] -> t_files (w_tree v') !! l = t_files (w_tree v) !! l) /\
  (r = Ok tt -> t_files (w_tree v') !! (P ++ [temp_name n]) = Some c).
Proof.
  intros Hp Hn Hv. apply at_place_names in Hp as [Hpl Hnm]. unfold call.
  destruct (fs_write (w_tree v) tmp c) as [t res] eqn:E. intros [= <- <-].
  apply fs_write_effect in E as [[-> Hr]|(-> & -> & _)]; [| |done].
  - split_and!; [by eapply base_pure|done|done|]. by destruct res.
  - rewrite Hnm. split_and!; [apply base_file; [by apply temp_here|done]|done| |].
    + intros l Hl. cbn. by rewrite lookup_insert_ne.
    + intros _. apply lookup_insert_eq.
Qed.
End place.
