(* ===== verification/Objects.v ===== *)
(** * Objects

    [filesystem/object_io.rs]: upload in its three forms (flat, erasure-coded,
    encrypted and erasure-coded), folder markers, download of an object or a
    range, head, tags and deletion.  The data paths are those of [Crypto],
    [ChunkWriter] and [EncryptedEc]; a body comes in through the quota reader. *)

From stdpp Require Import base list gmap sets sorting numbers strings pretty.
From Stdlib Require Import ZArith Lia Ascii Strings.Byte.
From S2P Require Import Prelude IpAddr Glob Policy Bytes Reader Types Quota Crypto ErasureCode ChunkReader ChunkWriter EncryptedEc MetadataIndex FileSystem Paths World Storage BucketConfig Sidecar.

Local Open Scope nat_scope.

Definition IO_BUFFER_SIZE : nat := Z.to_nat (256 * 1024).
Definition SMALL_OBJECT_THRESHOLD : Z := 256 * 1024.

(** ** Checksums *)

(** [ChecksumHasher]: the algorithm and what it has been fed. *)
Record ChecksumHasher : Type := mk_ChecksumHasher { ch_algo : ChecksumAlgorithm; ch_fed : bytes }.
Definition checksum_hasher_new (algo : ChecksumAlgorithm) : ChecksumHasher := mk_ChecksumHasher algo [].
Definition checksum_update (h : ChecksumHasher) (data : bytes) : ChecksumHasher :=
  mk_ChecksumHasher (ch_algo h) (ch_fed h ++ data).
Definition finalize_base64 `{Crates} (h : ChecksumHasher) : string :=
  b64_encode (checksum_digest (ch_algo h) (ch_fed h)).

(** [validate and compute checksum]: the algorithm and value to record. *)
Definition check_checksum `{Crates} (checksum : option (ChecksumAlgorithm * option string))
    (data : bytes) : result StorageError (option ChecksumAlgorithm * option string) :=
  match checksum with
  | None => Ok (None, None)
  | Some (algo, expected) =>
      let computed := finalize_base64 (checksum_update (checksum_hasher_new algo) data) in
      match expected with
      | Some expected_val =>
          if decide (computed = expected_val) then Ok (Some algo, Some computed)
          else Err (ChecksumMismatch ("expected " +:+ expected_val +:+ ", got " +:+ computed))
      | None => Ok (Some algo, Some computed)
      end
  end.

Definition etag_of `{Crates} (data : bytes) : string :=
  dquote +:+ hex_encode (md5 data) +:+ dquote.

(** ** The body *)

(** The hashers and the size see [bw_seen]; the writer holds [bw_out]. *)
Record body_writer : Type := mk_body_writer { bw_seen : bytes; bw_out : frame_writer }.

Section body.
Context `{Aead} (cipher : option (bytes * bytes)) (aad : nat -> bytes).

Definition write_piece (w : body_writer) (piece : bytes) : result StorageError body_writer :=
  let seen := bw_seen w ++ piece in
  match cipher with
  | Some (key, prefix) =>
      out ← push_plaintext FRAME_CHUNK_SIZE key prefix aad (bw_out w) piece;
      Ok (mk_body_writer seen out)
  | None =>
      let fw := bw_out w in
      Ok (mk_body_writer seen (mk_frame_writer (fw_frame_buf fw) (fw_chunk_index fw) (fw_written fw ++ piece)))
  end.

Definition finish_body (w : body_writer) : result StorageError (bytes * bytes) :=
  match cipher with
  | Some (key, prefix) =>
      out ← flush_partial_frame key prefix aad (bw_out w); Ok (bw_seen w, out)
  | None => Ok (bw_seen w, fw_written (bw_out w))
  end.
End body.

(** Enough turns for any body. *)
Definition body_fuel (body : QuotaReader source) : nat :=
  let s := qr_inner body in S (length (src_data s) + waits (src_schedule s)).

(** A loop over the body whose fuel ran out; it never does ([pump_total]). *)
Definition stalled : StorageError := Io (mk_io_error Other "body stalled").
Definition pumped {E A} (o : option (result E A)) (e : E) : result E A := default (Err e) o.

(** What the hashers of the chunked uploads are fed, in the same loop. *)
Definition hashed_body (body : QuotaReader source) : result StorageError bytes :=
  pumped (pump IO_BUFFER_SIZE map_read_quota_error (fun seen piece => Ok (seen ++ piece))
            (body_fuel body) [] body) stalled.

(** ** Chunk directories *)

(** [format!("{:06}", index)]. *)
Definition chunk_name (i : nat) : string :=
  let s := pretty i in of_chars (replicate (6 - String.length s) "0"%char) +:+ s.

Definition dir_chunks `{Serde} (t : tree) (dir : string) : chunk_dir := fun i =>
  c ← fs_read t (join dir (chunk_name i)); Ok (file_bytes c).

(** The files of a chunk directory, then the manifest. *)
Definition write_chunk_files (dir : string) (files : gmap nat bytes) : M StorageError unit :=
  on_world (fun w =>
    let '(t, r) := fold_left (fun '(t, r) '(i, b) =>
        match r with
        | Ok _ => fs_write t (join dir (chunk_name i)) (Raw b)
        | Err e => (t, Err e)
        end) (map_to_list files) (w_tree w, Ok tt) in
    (with_tree w t, map_err Io r)).

(** ** Streams served *)

Inductive ByteStream : Type :=
| Plain (s : source)
| Chunked (r : VerifiedChunkReader)
| Decrypted (d : FrameDecryptor source)
| DecryptedChunks (d : FrameDecryptor VerifiedChunkReader).

(** The wrapping of the reader in the quota checks. *)
Section put.
Context `{Environment} `{Crates} `{Serde} `{SerdeJson} `{Aead} `{ReedSolomon}.
Context `{KeyService FilesystemStorage} (st : FilesystemStorage).

Local Instance sha256_hex_of_crates : Sha256Hex := fun b => hex_encode (sha256 b).

Definition check_upload_start (declared_size : option Z) : M StorageError unit :=
  _ ← lift (check_declared_size (st_quota st) declared_size);
  n ← tick;
  lift (check_disk_reserve (st_quota st) (available_disk_bytes n)).

Definition wrap_upload_reader (body : source) : M StorageError (QuotaReader source) :=
  n ← tick;
  mret (quota_reader_new body (st_quota st) (fun k => available_disk_bytes (n + k))).

Definition generate_version_id : M StorageError string := n ← tick; mret (version_id_at n).
Definition now_iso : M StorageError string := n ← tick; mret (now_string n).

Definition index_upsert (bucket : string) (meta : ObjectMeta) : M StorageError unit :=
  update_index (fun idx => index_upsert_row idx bucket meta).
Definition index_remove (bucket key : string) : M StorageError unit :=
  update_index (fun idx => index_remove_row idx bucket key).

(** [is_versioned(bucket).await.unwrap_or(false)], and the version id. *)
Definition versioned_or_false (bucket : string) : M StorageError bool :=
  on_world (fun w => match is_versioned st bucket w with
                     | (w, Ok b) => (w, Ok b)
                     | (w, Err _) => (w, Ok false)
                     end).
Definition new_version_id (versioned : bool) : M StorageError (option string) :=
  if versioned then v ← generate_version_id; mret (Some v) else mret None.

(** The cipher, nonce prefix and DEK of an encryption record. *)
Definition cipher_of (em : EncryptionMeta) (req : EncryptionRequest)
    : result StorageError (bytes * bytes) :=
  dek ← map_err (fun e => EncryptionError (storage_error_to_string e)) (ks_resolve st em (er_customer_key req));
  prefix ← ok_or (b64_decode (em_nonce_prefix em)) (EncryptionError "invalid nonce_prefix");
  Ok (dek, prefix).

Definition prepare_cipher (req : EncryptionRequest) : M StorageError (EncryptionMeta * (bytes * bytes)) :=
  em ← on_world (fun w => match ks_prepare st req w with
                          | (w, Err e) => (w, Err (EncryptionError (storage_error_to_string e)))
                          | ok => ok
                          end);
  c ← lift (cipher_of em req);
  mret (em, c).

Definition set_encryption (meta : ObjectMeta) (em : option EncryptionMeta) : ObjectMeta :=
  mk_ObjectMeta (om_key meta) (om_size meta) (om_etag meta) (om_content_type meta)
    (om_last_modified meta) (om_version_id meta) (om_is_delete_marker meta)
    (om_storage_format meta) (om_checksum_algorithm meta) (om_checksum_value meta)
    (om_tags meta) (om_part_sizes meta) em
    (om_object_lock_mode meta) (om_retain_until_date meta) (om_legal_hold_status meta).

(** The sidecar MAC, folded into the encryption record. *)
Definition seal_sidecar (dek : bytes) (meta : ObjectMeta) : ObjectMeta :=
  let cleared := set_encryption meta ((fun e => with_sidecar_mac e "") <$> om_encryption meta) in
  let mac := compute_sidecar_mac dek cleared in
  set_encryption cleared ((fun e => with_sidecar_mac e mac) <$> om_encryption cleared).

(** The sidecar of a new object. *)
Definition new_meta (key : string) (size : nat) (etag content_type now : string)
    (version_id storage_format : option string)
    (checksum : option ChecksumAlgorithm * option string) (em : option EncryptionMeta) : ObjectMeta :=
  mk_ObjectMeta key (Z.of_nat size) etag content_type now version_id false storage_format
    checksum.1 checksum.2 None None em None None None.

(** Writing the sidecar beside its place, then publishing both. *)
Definition publish_object (tmp_payload payload : string) (is_dir : bool) (bucket key : string)
    (meta : ObjectMeta) : M StorageError unit :=
  let path := meta_path st bucket key in
  _ ← create_parent path;
  tmp_meta ← temp_sibling_path path;
  guarded false tmp_meta
    (_ ← call (fun t => fs_write t tmp_meta (ObjectJson meta));
     publish_temp_payload_and_meta tmp_payload payload is_dir tmp_meta path).

(** [write_version]: the payload and sidecar under [.versions/]. *)
Definition write_version (bucket key : string) (meta : ObjectMeta) (data_path : string)
    : M StorageError unit :=
  version_id ← lift (ok_or (om_version_id meta) (IntegrityError "write_version called without version_id"));
  let ver_dir := versions_dir st bucket key in
  _ ← call (fun t => fs_create_dir_all t ver_dir);
  _ ← call (fun t => fs_copy t data_path (join ver_dir (version_id +:+ ".data")));
  call (fun t => fs_write t (join ver_dir (version_id +:+ ".meta.json")) (ObjectJson meta)).

(** The copy of every entry of a directory. *)
Fixpoint copy_entries (src dst : string) (entries : list (string * bool)) (t : tree)
    : tree * result io_error unit :=
  match entries with
  | [] => (t, Ok tt)
  | (name, _) :: entries =>
      match fs_copy t (join src name) (join dst name) with
      | (t, Ok _) => copy_entries src dst entries t
      | (t, Err e) => (t, Err e)
      end
  end.
Definition copy_dir (src dst : string) : M StorageError unit :=
  entries ← query (fun t => fs_read_dir t src);
  call (copy_entries src dst entries).

Definition write_version_chunked (bucket key : string) (meta : ObjectMeta) : M StorageError unit :=
  version_id ← lift (ok_or (om_version_id meta)
                       (IntegrityError "write_version_chunked called without version_id"));
  let ver_dir := versions_dir st bucket key in
  _ ← call (fun t => fs_create_dir_all t ver_dir);
  let dst_ec := join ver_dir (version_id +:+ ".ec") in
  _ ← call (fun t => fs_create_dir_all t dst_ec);
  _ ← copy_dir (ec_dir st bucket key) dst_ec;
  call (fun t => fs_write t (join ver_dir (version_id +:+ ".meta.json")) (ObjectJson meta)).

Definition put_result (meta : ObjectMeta) : PutResult :=
  mk_PutResult (om_size meta) (om_etag meta) (om_version_id meta)
    (om_checksum_algorithm meta) (om_checksum_value meta).

(** ** Upload: one file *)

Definition put_object_flat (bucket key content_type : string) (body : QuotaReader source)
    (checksum : option (ChecksumAlgorithm * option string)) (encryption : option EncryptionRequest)
    : M StorageError PutResult :=
  versioned ← versioned_or_false bucket;
  version_id ← new_version_id versioned;
  enc ← match encryption with
        | Some req => c ← prepare_cipher req; mret (Some c)
        | None => mret None
        end;
  let path := object_path st bucket key in
  _ ← create_parent path;
  tmp ← temp_sibling_path path;
  meta ← guarded false tmp
    (_ ← call (fun t => fs_write t tmp (Raw []));
     let cipher := snd <$> enc in
     let aad := object_aad_builder sha256 bucket key version_id in
     body ← lift (pumped (pump IO_BUFFER_SIZE map_read_quota_error (write_piece cipher aad)
                            (body_fuel body) (mk_body_writer [] (mk_frame_writer [] 0 [])) body) stalled);
     out ← lift (finish_body cipher aad body);
     _ ← call (fun t => fs_write t tmp (Raw (snd out)));
     sums ← lift (check_checksum checksum (fst out));
     now ← now_iso;
     lock ← resolve_default_object_lock st bucket;
     let meta := apply_object_lock
         (new_meta key (length (fst out)) (etag_of (fst out)) content_type now version_id None sums
            (fst <$> enc)) lock in
     let meta := match cipher with Some (dek, _) => seal_sidecar dek meta | None => meta end in
     _ ← publish_object tmp path false bucket key meta;
     mret meta);
  _ ← (if versioned : bool then write_version bucket key meta path else mret tt);
  _ ← index_upsert bucket meta;
  mret (put_result meta).

(** ** Upload: a chunk directory *)

Definition storage_format_of (manifest : ChunkManifest) : string :=
  if decide (is_Some (cm_parity_shards manifest)) then "chunked-v2" else "chunked-v1".

(** The files of the object go to a temporary directory beside [.ec]. *)
Definition stage_chunks (tmp : string) (r : gmap nat bytes * ChunkManifest) : M StorageError ChunkManifest :=
  _ ← write_chunk_files tmp (fst r);
  _ ← call (fun t => fs_write t (join tmp "manifest.json") (ManifestJson (snd r)));
  mret (snd r).

Definition put_object_chunked (bucket key content_type : string) (body : QuotaReader source)
    (checksum_algo : option ChecksumAlgorithm) : M StorageError PutResult :=
  _ ← lift (validate_bucket_name bucket);
  let dir := ec_dir st bucket key in
  tmp ← temp_sibling_path dir;
  res ← guarded true tmp
    (_ ← create_parent dir;
     _ ← call (fun t => fs_create_dir_all t tmp);
     manifest ← (r ← lift (pumped (write_ec_object (st_chunk_size st) (st_parity_shards st) IO_BUFFER_SIZE
                             (body_fuel body) body) stalled);
                 stage_chunks tmp r);
     data ← lift (hashed_body body);
     let sums := match checksum_algo with
                 | Some algo => (Some algo, Some (finalize_base64 (checksum_update (checksum_hasher_new algo) data)))
                 | None => (None, None)
                 end in
     now ← now_iso;
     versioned ← versioned_or_false bucket;
     version_id ← new_version_id versioned;
     let meta := new_meta key (length data) (etag_of data) content_type now version_id
                   (Some (storage_format_of manifest)) sums None in
     _ ← publish_object tmp dir true bucket key meta;
     mret (versioned, meta));
  let '(versioned, meta) := res in
  _ ← (if versioned : bool then write_version_chunked bucket key meta else mret tt);
  _ ← index_upsert bucket meta;
  mret (put_result meta).

Definition put_object_chunked_encrypted (bucket key content_type : string) (body : QuotaReader source)
    (checksum : option (ChecksumAlgorithm * option string)) (req : EncryptionRequest)
    : M StorageError PutResult :=
  _ ← lift (validate_bucket_name bucket);
  let dir := ec_dir st bucket key in
  tmp ← temp_sibling_path dir;
  res ← guarded true tmp
    (_ ← create_parent dir;
     _ ← call (fun t => fs_create_dir_all t tmp);
     versioned ← versioned_or_false bucket;
     version_id ← new_version_id versioned;
     enc ← prepare_cipher req;
     let '(em, (dek, prefix)) := enc in
     manifest ← (r ← lift (pumped (write_encrypted_ec_object FRAME_CHUNK_SIZE (st_chunk_size st) dek prefix
                             (object_aad_builder sha256 bucket key version_id) (st_parity_shards st)
                             IO_BUFFER_SIZE (body_fuel body) body) stalled);
                 stage_chunks tmp r);
     data ← lift (hashed_body body);
     sums ← lift (check_checksum checksum data);
     now ← now_iso;
     let meta := seal_sidecar dek
         (new_meta key (length data) (etag_of data) content_type now version_id
            (Some (storage_format_of manifest)) sums (Some em)) in
     _ ← publish_object tmp dir true bucket key meta;
     mret (versioned, meta));
  let '(versioned, meta) := res in
  _ ← (if versioned : bool then write_version_chunked bucket key meta else mret tt);
  _ ← index_upsert bucket meta;
  mret (put_result meta).

(** ** Folder markers, and the upload itself *)

Definition put_folder_marker (bucket key : string) : M StorageError PutResult :=
  let folder_dir := join (bucket_dir st bucket) (trim_end_slashes key) in
  _ ← call (fun t => fs_create_dir_all t folder_dir);
  _ ← call (fun t => fs_write t (join folder_dir ".folder") (Raw []));
  now ← now_iso;
  let meta := new_meta key 0 (dquote +:+ "d41d8cd98f00b204e9800998ecf8427e" +:+ dquote)
                "application/x-directory" now None None (None, None) None in
  _ ← call (fun t => fs_write t (join folder_dir ".folder.meta.json") (ObjectJson meta));
  _ ← index_upsert bucket meta;
  mret (put_result meta).

Definition put_object (bucket key content_type : string) (body : source)
    (checksum : option (ChecksumAlgorithm * option string)) (encryption : option EncryptionRequest)
    (declared_size : option Z) : M StorageError PutResult :=
  _ ← lift (validate_bucket_name bucket);
  _ ← lift (validate_key key);
  _ ← ensure_can_overwrite st bucket key;
  _ ← check_upload_start declared_size;
  body ← wrap_upload_reader body;
  if ends_with key "/" then put_folder_marker bucket key
  else
    ec ← effective_erasure_coding st bucket;
    if ec : bool then
      match encryption with
      | Some req => put_object_chunked_encrypted bucket key content_type body checksum req
      | None => put_object_chunked bucket key content_type body (fst <$> checksum)
      end
    else put_object_flat bucket key content_type body checksum encryption.

(** ** Download *)

(** [fs::File::open]: a directory opens, and fails when it is read. *)
Definition open_file (t : tree) (path : string) : result io_error source :=
  match fs_read t path with
  | Ok c => Ok (mk_source (file_bytes c) Eof [])
  | Err e => if decide (e = eisdir) then Ok (mk_source [] (Fail e) []) else Err e
  end.

Definition or_missing (missing : StorageError) (e : io_error) : StorageError :=
  if decide (io_error_kind e = NotFound) then missing else Io e.
Definition with_missing {A} (missing : StorageError) (f : tree -> result io_error A) : M StorageError A :=
  t ← get_tree; lift (map_err (or_missing missing) (f t)).

Definition map_chunk_read_error (e : io_error) : StorageError := IntegrityError (io_message e).
Definition preflight_chunk_reader (r : exec VerifiedChunkReader) : result StorageError VerifiedChunkReader :=
  match (r ← r; chunk_preflight r) with
  | Ret res => map_err map_chunk_read_error res
  | Panic => Err (Io panicked)
  end.

(** The readers below answer at once, so one poll is enough. *)
Definition preflight_frame_decryptor {R} `{AsyncRead R} (d : FrameDecryptor R)
    : result StorageError (FrameDecryptor R) :=
  match preflight 1 d with
  | Some (d, Ok _) => Ok d
  | Some (_, Err e) => Err (DecryptionError (io_message e))
  | None => Err stalled
  end.

(** The DEK, once the sidecar's MAC is checked. *)
Definition unlock (meta : ObjectMeta) (em : EncryptionMeta) (customer_key : option bytes)
    : result StorageError bytes :=
  dek ← ks_resolve st em customer_key;
  _ ← verify_sidecar_mac meta dek;
  Ok dek.

Definition object_aad (bucket key : string) (meta : ObjectMeta) : nat -> bytes :=
  object_aad_builder sha256 bucket key (om_version_id meta).

(** An object kept in the chunk directory [dir]. *)
Definition serve_chunks (bucket key : string) (meta : ObjectMeta) (customer_key : option bytes)
    (dir : string) (manifest : ChunkManifest) : M StorageError ByteStream :=
  t ← get_tree;
  let chunks := dir_chunks t dir in
  lift match om_encryption meta with
  | Some em =>
      dek ← unlock meta em customer_key;
      r ← preflight_chunk_reader (Ret (chunk_reader_new chunks manifest));
      d ← preflight_frame_decryptor
            (decryptor_new r dek (Z.to_nat (om_size meta)) (Z.to_nat (em_chunk_size em))
               (object_aad bucket key meta));
      Ok (DecryptedChunks d)
  | None => r ← preflight_chunk_reader (Ret (chunk_reader_new chunks manifest)); Ok (Chunked r)
  end.

(** An encrypted object kept in one file. *)
Definition serve_encrypted_file (bucket key : string) (meta : ObjectMeta) (em : EncryptionMeta)
    (customer_key : option bytes) (path : string) (missing : StorageError) : M StorageError ByteStream :=
  dek ← lift (unlock meta em customer_key);
  file ← with_missing missing (fun t => open_file t path);
  d ← lift (preflight_frame_decryptor
              (decryptor_new file dek (Z.to_nat (om_size meta)) (Z.to_nat (em_chunk_size em))
                 (object_aad bucket key meta)));
  mret (Decrypted d).

Definition is_chunked_path (dir : string) : M StorageError bool := t ← get_tree; mret (is_dir t dir).

Definition read_manifest (bucket key : string) : M StorageError ChunkManifest :=
  read_json (manifest_path st bucket key) parse_manifest (NotFoundError key).

Definition get_object (bucket key : string) (customer_key : option bytes)
    : M StorageError (ByteStream * ObjectMeta) :=
  _ ← lift (validate_bucket_name bucket);
  _ ← lift (validate_key key);
  meta ← read_object_meta st bucket key;
  _ ← lift (reject_sse_c_on_plaintext meta (bool_decide (is_Some customer_key)));
  chunked ← is_chunked_path (ec_dir st bucket key);
  stream ←
    (if chunked : bool then
       manifest ← read_manifest bucket key;
       serve_chunks bucket key meta customer_key (ec_dir st bucket key) manifest
     else
       let path := object_path st bucket key in
       match om_encryption meta with
       | Some em => serve_encrypted_file bucket key meta em customer_key path (NotFoundError key)
       | None =>
           if (om_size meta <=? SMALL_OBJECT_THRESHOLD)%Z then
             c ← with_missing (NotFoundError key) (fun t => fs_read t path);
             mret (Plain (mk_source (file_bytes c) Eof []))
           else
             file ← with_missing (NotFoundError key) (fun t => open_file t path); mret (Plain file)
       end);
  mret (stream, meta).

(** [seek] to an offset; [take] of at most [n] bytes. *)
Definition seek (s : source) (offset : nat) : source :=
  mk_source (drop offset (src_data s)) (src_end s) (src_schedule s).
Definition take_limit (s : source) (n : nat) : source :=
  mk_source (take n (src_data s)) (if decide (n <= length (src_data s)) then Eof else src_end s) (src_schedule s).
Definition early_eof : io_error := mk_io_error UnexpectedEof "early eof".
(** [read_exact]. *)
Definition read_exact (s : source) (n : nat) : result io_error bytes :=
  if decide (n <= length (src_data s)) then Ok (take n (src_data s))
  else Err match src_end s with Eof => early_eof | Fail e => e end.

Definition serve_chunk_range (bucket key : string) (meta : ObjectMeta) (customer_key : option bytes)
    (dir : string) (manifest : ChunkManifest) (offset len : nat) : M StorageError ByteStream :=
  t ← get_tree;
  let chunks := dir_chunks t dir in
  lift match om_encryption meta with
  | Some em =>
      dek ← unlock meta em customer_key;
      let frame_size := Z.to_nat (em_chunk_size em) in
      let ct_offset := ciphertext_offset frame_size offset in
      let ct_length := Z.to_nat (cm_total_size manifest) - ct_offset in
      r ← preflight_chunk_reader (with_range chunks manifest ct_offset ct_length);
      Ok (DecryptedChunks (for_range r dek (Z.to_nat (om_size meta)) frame_size offset len
                             (object_aad bucket key meta)))
  | None => r ← preflight_chunk_reader (with_range chunks manifest offset len); Ok (Chunked r)
  end.

Definition get_object_range (bucket key : string) (offset len : nat) (customer_key : option bytes)
    : M StorageError (ByteStream * ObjectMeta) :=
  _ ← lift (validate_bucket_name bucket);
  _ ← lift (validate_key key);
  meta ← read_object_meta st bucket key;
  _ ← lift (reject_sse_c_on_plaintext meta (bool_decide (is_Some customer_key)));
  chunked ← is_chunked_path (ec_dir st bucket key);
  stream ←
    (if chunked : bool then
       manifest ← read_manifest bucket key;
       serve_chunk_range bucket key meta customer_key (ec_dir st bucket key) manifest offset len
     else
       let path := object_path st bucket key in
       match om_encryption meta with
       | Some em =>
           dek ← lift (unlock meta em customer_key);
           let frame_size := Z.to_nat (em_chunk_size em) in
           file ← with_missing (NotFoundError key) (fun t => open_file t path);
           mret (Decrypted (for_range (seek file (ciphertext_offset frame_size offset)) dek
                              (Z.to_nat (om_size meta)) frame_size offset len (object_aad bucket key meta)))
       | None =>
           file ← with_missing (NotFoundError key) (fun t => open_file t path);
           let file := seek file offset in
           if (Z.of_nat len <=? SMALL_OBJECT_THRESHOLD)%Z then
             data ← lift (map_err Io (read_exact file len));
             mret (Plain (mk_source data Eof []))
           else mret (Plain (take_limit file len))
       end);
  mret (stream, meta).

Definition head_object (bucket key : string) : M StorageError ObjectMeta :=
  _ ← lift (validate_bucket_name bucket);
  _ ← lift (validate_key key);
  read_object_meta st bucket key.

(** ** Tags *)

Definition set_tags (meta : ObjectMeta) (tags : option (gmap string string)) : ObjectMeta :=
  mk_ObjectMeta (om_key meta) (om_size meta) (om_etag meta) (om_content_type meta)
    (om_last_modified meta) (om_version_id meta) (om_is_delete_marker meta)
    (om_storage_format meta) (om_checksum_algorithm meta) (om_checksum_value meta)
    tags (om_part_sizes meta) (om_encryption meta)
    (om_object_lock_mode meta) (om_retain_until_date meta) (om_legal_hold_status meta).

Definition get_object_tagging (bucket key : string) : M StorageError (gmap string string) :=
  _ ← lift (validate_key key);
  meta ← read_object_meta st bucket key;
  mret (default ∅ (om_tags meta)).
Definition put_object_tagging (bucket key : string) (tags : gmap string string) : M StorageError unit :=
  _ ← lift (validate_key key);
  meta ← read_object_meta st bucket key;
  call (fun t => fs_write t (meta_path st bucket key)
    (ObjectJson (set_tags meta (if decide (tags = ∅) then None else Some tags)))).
Definition delete_object_tagging (bucket key : string) : M StorageError unit :=
  _ ← lift (validate_key key);
  meta ← read_object_meta st bucket key;
  call (fun t => fs_write t (meta_path st bucket key) (ObjectJson (set_tags meta None))).
End put.
