(* ===== verification/Demo.v ===== *)
(** * A small concrete store

    A configuration, worlds and requests small enough to evaluate: the
    witnesses of the theorems on objects, and the behaviours shown by running
    the model, use these. *)

From stdpp Require Import base list gmap sets numbers strings pretty.
From Stdlib Require Import ZArith Lia Ascii Strings.Byte.
From S2P Require Import Prelude IpAddr Glob Policy Bytes Reader Types Quota Crypto ErasureCode MetadataIndex FileSystem Paths World Keyring Storage Sidecar Encryption.

Local Open Scope nat_scope.

(** The toy instances, to be imported where something is evaluated. *)
Module Toys.
Export FileSystem.ToySerde World.ToyWorld Crypto.Toy ErasureCode.Xor.

(** The fields of a sidecar that the examples change. *)
Fixpoint toy_json (v : Value) : string :=
  match v with
  | VString s => s
  | VObject m => (fix go m := match m with [] => "" | (k, x) :: m => toy_json x +:+ go m end) m
  | _ => ""
  end.
#[export] Instance toy_serde_json : SerdeJson := {|
  to_value m := VObject [("retain_until_date", VString (default "" (om_retain_until_date m)));
                         ("key", VString (om_key m))];
  to_vec v := as_bytes (toy_json v)
|}.
End Toys.
Import Toys.

Definition master_key : bytes := replicate 32 x41.
Definition demo_keyring : Keyring := mk_Keyring {[ "k1" := master_key ]} "k1".
Definition demo_storage (ec : bool) : FilesystemStorage :=
  mk_FilesystemStorage "/data" "/data/buckets" ec 4 1 demo_keyring
    (Some (local_kms (mk_LocalKmsBackend master_key DEFAULT_LOCAL_KMS_KEY_ID))) (mk_QuotaLimits 0 0).

(** A bucket's record: versioning, erasure coding, object lock. *)
Definition demo_bucket (versioning : bool) (ec : option bool) (lock : option ObjectLockConfig) : BucketMeta :=
  mk_BucketMeta "pets" "t" "us-east-1" versioning None None false false None ec None None None None None
    (bool_decide (is_Some lock)) lock.
Definition demo_world (bm : BucketMeta) : world :=
  mk_world
    (mk_tree {[ ["data"; "buckets"; "pets"; ".bucket.json"] := BucketJson bm ]}
       {[ []; ["data"]; ["data"; "buckets"]; ["data"; "buckets"; "pets"] ]})
    (Some ∅) 1.
Definition body_of (s : string) : source := mk_source (as_bytes s) Eof [].

(** No directory of the tree has a temporary name. *)
Definition no_temp_dirs (t : tree) : bool :=
  forallb (fun d => match last d with Some s => negb (starts_with s temp_prefix) | None => true end)
    (elements (t_dirs t)).
Lemma no_temp_dirs_ok t l s :
  no_temp_dirs t = true -> starts_with s temp_prefix = true -> l ++ [s] ∉ t_dirs t.
Proof.
  intros Hn Hs Hin. unfold no_temp_dirs in Hn. rewrite forallb_forall in Hn.
  specialize (Hn (l ++ [s])). rewrite last_snoc, Hs in Hn.
  discriminate Hn. by apply list_elem_of_In, elem_of_elements.
Qed.

Lemma demo_storage_ok ec : storage_ok (demo_storage ec).
Proof.
  split; [|by repeat constructor].
  unfold plain. intros Hin. cbn in Hin. repeat (apply elem_of_cons in Hin as [Hin|Hin]; [done|]).
  by apply elem_of_nil in Hin.
Qed.
