(* ===== verification/EncryptionSpec.v ===== *)
(** * The key of an object is recovered

    What [prepare_encryption] records is enough for [resolve_dek] to find the
    data key again, in the three modes, and with SSE-C only for the customer who
    holds the key. *)

From stdpp Require Import base list gmap sets numbers strings pretty.
From Stdlib Require Import ZArith Lia Ascii Strings.Byte.
From S2P Require Import Prelude Bytes Reader Types Quota Crypto MetadataIndex FileSystem Paths World Keyring Storage Sidecar Encryption Demo.

Local Open Scope nat_scope.

Section spec.
Context `{EnvironmentSpec} `{CratesSpec} `{AeadSpec}.

(** What a KMS promises: the data key it generated is the one it decrypts. *)
Definition kms_ok (kms : KmsBackend) : Prop := forall id plaintext nonce g,
  length plaintext = 32 -> length nonce = 12 -> generate_data_key kms id plaintext nonce = Ok g ->
  decrypt_data_key kms (gd_kms_key_id g) (gd_ciphertext g) (gd_wrap_nonce g) = Ok plaintext /\
  length (gd_wrap_nonce g) = 12.

Lemma local_kms_ok k : kms_ok (local_kms k).
Proof.
  intros id pt nonce g Hl Hn Hg. cbn in *. destruct (kms_roundtrip k id pt nonce g Hl Hg) as [_ ->].
  split; [done|]. unfold local_generate in Hg. cbn in Hg.
  destruct (seal _ _ _ _); [|done]. by injection Hg as <-.
Qed.

Lemma rand_at {E} n w w' b : (rand n : M E bytes) w = (w', Ok b) ->
  b = random_bytes (w_tick w) n /\ w_tick w' = S (w_tick w).
Proof. by intros [= <- <-]. Qed.

Lemma decode_encoded err wn nn wrapped nonce : length nonce = 12 ->
  decode_wrapped err wn nn (b64_encode wrapped) (b64_encode nonce) = Ok (wrapped, nonce).
Proof. intros Hl. unfold decode_wrapped. rewrite !b64_decode_encode. cbn. by rewrite Hl. Qed.

Lemma b64_encode_inj a b : b64_encode a = b64_encode b -> a = b.
Proof. intros E. apply (f_equal b64_decode) in E. rewrite !b64_decode_encode in E. by injection E. Qed.

(** The data key drawn for a new object is found again from the encryption
    record: by any later state of the storage with the same KMS and the wrapping
    key still in its keyring, with the customer's key for SSE-C.  Under SSE-C no
    key and a key with another MD5 are refused. *)
Theorem prepared_key_resolves st st' req w w' em :
  (forall kms, st_kms st = Some kms -> kms_ok kms) -> st_kms st' = st_kms st ->
  kr_keys (st_keyring st') !! kr_active_id (st_keyring st) = kr_keys (st_keyring st) !! kr_active_id (st_keyring st) ->
  prepare_encryption st req w = (w', Ok em) ->
  (exists n, w_tick w <= n /\ n < w_tick w' /\
     resolve_dek st' em (er_customer_key req) = Ok (random_bytes n 32)) /\
  (er_mode req = SseC ->
     resolve_dek st' em None = Err (DecryptionError "SSE-C: customer key required") /\
     forall ck wrong, er_customer_key req = Some ck -> md5 wrong <> md5 ck ->
       resolve_dek st' em (Some wrong) = Err (DecryptionError "SSE-C: customer key MD5 mismatch")).
Proof.
  intros Hkms Hst Hkr. unfold prepare_encryption. destruct (er_mode req) eqn:Em.
  - unfold prepare_sse_s3. intros (dek & w1 & Hd & Hp)%M_bind_ok. apply rand_at in Hd as [-> T1].
    apply M_bind_ok in Hp as (pre & w2 & Hpre & Hp). apply rand_at in Hpre as [-> T2].
    apply M_bind_ok in Hp as (nonce & w3 & Hn & Hp). apply rand_at in Hn as [-> T3].
    apply M_bind_ok in Hp as (wr & w4 & Hw & Hp). apply lift_ok in Hw as [Hw ->]. injection Hp as <- <-.
    split; [|done]. exists (w_tick w). split_and!; [lia..|]. cbn [er_mode].
    unfold resolve_dek, resolve_sse_s3, frame_meta. cbn [em_mode em_key_id em_wrapped_dek em_wrap_nonce].
    destruct (wrap_dek _ _ _ _) as [[wrapped n]|e] eqn:Ew; [injection Hw as <-|done].
    assert (Hln : n = random_bytes (w_tick w2) 12).
    { revert Ew. unfold wrap_dek. destruct (get_key _ _); cbn; [|done]. destruct (seal _ _ _ _); cbn; [|done]. by intros [= _ <-]. }
    cbn [ok_or fst snd mbind result_bind]. rewrite decode_encoded by (rewrite Hln; apply random_bytes_length).
    cbn [fst snd mbind result_bind]. erewrite (unwrap_wrap (st_keyring st)); [done|apply random_bytes_length| |exact Ew].
    split; [|done]. intros E. unfold wrap_dek, get_key in Ew. by rewrite E in Ew.
  - unfold prepare_sse_c. intros (ck & w1 & Hc & Hp)%M_bind_ok. apply lift_ok in Hc as [Hc ->]. apply ok_or_ok in Hc.
    apply M_bind_ok in Hp as (dek & w2 & Hd & Hp). apply rand_at in Hd as [-> T1].
    apply M_bind_ok in Hp as (pre & w3 & Hpre & Hp). apply rand_at in Hpre as [-> T2].
    apply M_bind_ok in Hp as (nonce & w4 & Hn & Hp). apply rand_at in Hn as [-> T3].
    apply M_bind_ok in Hp as (c & w5 & Hs & Hp). apply lift_ok in Hs as [Hs ->]. apply ok_or_ok in Hs.
    injection Hp as <- <-. unfold resolve_dek, resolve_sse_c, frame_meta.
    cbn [em_mode em_customer_key_md5 em_wrapped_dek em_wrap_nonce]. split.
    + exists (w_tick w). split_and!; [lia..|]. rewrite Hc. cbn [ok_or mbind result_bind].
      rewrite bool_decide_eq_true_2 by done. cbn [negb].
      rewrite decode_encoded by apply random_bytes_length. cbn [mbind result_bind fst snd].
      rewrite (proj2 (open_seal _ _ _ _ _) Hs). cbn. by rewrite random_bytes_length.
    + intros _. split; [done|]. intros ck' wrong E Hne. rewrite Hc in E. injection E as <-. cbn [ok_or mbind result_bind].
      by rewrite bool_decide_eq_false_2 by (by intros ?%b64_encode_inj).
  - unfold prepare_sse_kms. intros (kms & w1 & Hk & Hp)%M_bind_ok. apply lift_ok in Hk as [Hk ->]. apply ok_or_ok in Hk.
    apply M_bind_ok in Hp as (pt & w2 & Hd & Hp). apply rand_at in Hd as [-> T1].
    apply M_bind_ok in Hp as (nonce & w3 & Hn & Hp). apply rand_at in Hn as [-> T2].
    apply M_bind_ok in Hp as (g & w4 & Hg & Hp). apply lift_ok in Hg as [Hg ->].
    apply M_bind_ok in Hp as (pre & w5 & Hpre & Hp). apply rand_at in Hpre as [-> T3]. injection Hp as <- <-.
    split; [|done]. exists (w_tick w). split_and!; [lia..|].
    destruct (generate_data_key kms _ _ _) as [g'|e] eqn:Eg; [injection Hg as <-|done].
    destruct (Hkms kms Hk _ _ _ _ (random_bytes_length _ _) (random_bytes_length _ _) Eg) as [Hdec Hl].
    unfold resolve_dek, resolve_sse_kms, frame_meta. cbn [em_mode em_kms_key_id em_wrapped_dek em_wrap_nonce].
    rewrite Hst, Hk. cbn [ok_or mbind result_bind]. rewrite decode_encoded by done. cbn [mbind result_bind fst snd].
    by rewrite Hdec.
Qed.
End spec.

(** ** Witness *)

Import Demo.Toys.

Lemma prepared_key_resolves_witness :
  let req := sse_c (replicate 32 x63) in
  exists em w' n, prepare_encryption (demo_storage false) req (demo_world (demo_bucket false None None)) = (w', Ok em) /\
    resolve_dek (demo_storage true) em (er_customer_key req) = Ok (random_bytes n 32) /\
    resolve_dek (demo_storage true) em None = Err (DecryptionError "SSE-C: customer key required").
Proof.
  cbv zeta. set (req := sse_c _). set (w := demo_world _).
  destruct (prepare_encryption (demo_storage false) req w) as [w' [em|e]] eqn:E; [|exfalso; vm_compute in E; discriminate].
  destruct (prepared_key_resolves (demo_storage false) (demo_storage true) req w w' em) as [(n & _ & _ & Hr) Hc];
    [|reflexivity|reflexivity|exact E|].
  - intros kms [= <-]. apply local_kms_ok.
  - exists em, w', n. split_and!; [reflexivity|exact Hr|by apply Hc].
Defined.
