(* ===== verification/Layout.v ===== *)
(** * The layout of a bucket on disk

    Where the files of an object are: keys the storage accepts never leave
    their bucket, and the payload of one object is never the sidecar, chunk
    directory or folder marker of another. *)

From stdpp Require Import base list gmap sets numbers strings pretty.
From Stdlib Require Import ZArith Lia Ascii Strings.Byte.
From S2P Require Import Prelude IpAddr Glob Policy Bytes Reader Types Quota FileSystem Paths World Storage Demo.

Local Open Scope nat_scope.

(** ** Trailing slashes name nothing *)

Lemma trim_slashes_spec l : exists n, l = replicate n "/"%char ++ trim_slashes l.
Proof.
  induction l as [|c l IH]; [by exists 0|]. cbn. case_decide as D; [|by exists 0].
  destruct IH as [n IH]. exists (S n). subst c. cbn. by rewrite <-IH.
Qed.

Lemma trim_end_slashes_spec s : exists n, s = trim_end_slashes s +:+ of_chars (replicate n "/"%char).
Proof.
  destruct (trim_slashes_spec (rev (chars s))) as [n E]. exists n. apply (inj chars).
  rewrite chars_app, !chars_of_chars. unfold trim_end_slashes. rewrite chars_of_chars.
  rewrite <-(rev_involutive (chars s)), E at 1. rewrite rev_app_distr. f_equal.
  clear E. induction n as [|n IH]; [done|]. cbn [replicate rev]. rewrite IH. symmetry. apply replicate_cons_app.
Qed.

Lemma pieces_slash s : split_char "/" (s +:+ "/") = split_char "/" s ++ [""].
Proof. change (s +:+ "/") with (s +:+ String "/" ""). by rewrite split_char_app. Qed.

Lemma slashes_names s n :
  names (s +:+ of_chars (replicate n "/"%char)) = names s /\
  (plain (s +:+ of_chars (replicate n "/"%char)) <-> plain s).
Proof.
  revert s. induction n as [|n IH]; intros s.
  - replace (s +:+ of_chars (replicate 0 "/"%char)) with s; [done|]. apply (inj chars).
    rewrite chars_app. cbn. by rewrite app_nil_r.
  - replace (s +:+ of_chars (replicate (S n) "/"%char)) with ((s +:+ "/") +:+ of_chars (replicate n "/"%char))
      by (by rewrite str_app_assoc).
    destruct (IH (s +:+ "/")) as [-> Hp]. unfold names, plain. rewrite pieces_slash, filter_app. cbn.
    rewrite app_nil_r. split; [done|]. rewrite Hp. unfold plain.
    rewrite pieces_slash, elem_of_app, list_elem_of_singleton. naive_solver.
Qed.

Lemma trim_names s : names (trim_end_slashes s) = names s /\ (plain (trim_end_slashes s) <-> plain s).
Proof.
  destruct (trim_end_slashes_spec s) as [n E]. destruct (slashes_names (trim_end_slashes s) n) as [E1 E2].
  rewrite <-E in E1, E2. done.
Qed.

Lemma starts_with_trim s : starts_with s "/" = false -> starts_with (trim_end_slashes s) "/" = false.
Proof.
  intros Hs. destruct (trim_end_slashes_spec s) as [n E]. apply not_true_is_false.
  intros [r Hr]%starts_with_spec. revert Hs. apply not_false_iff_true, starts_with_spec.
  rewrite Hr in E. eexists. rewrite E. by rewrite str_app_assoc.
Qed.

(** ** Suffixed keys *)

(** A suffix without separator ends up in the last name. *)
Lemma suffix_names key t :
  contains_char "/" t = false -> starts_with key "/" = false -> plain key -> key <> "" ->
  (forall s, s +:+ t <> "" /\ s +:+ t <> "." /\ s +:+ t <> "..") ->
  starts_with (key +:+ t) "/" = false /\ plain (key +:+ t) /\
  exists front s, names (key +:+ t) = front ++ [s +:+ t] /\ front `prefix_of` names key.
Proof.
  intros Ht Hr Hp Hk Hne. destruct (split_char_suffix "/" key t Ht) as (front & w & E1 & E2).
  destruct (Hne w) as (N1 & N2 & N3). unfold plain, names in *. rewrite E1 in *. rewrite E2. split_and!.
  - destruct key as [|c k]; [done|]. apply not_true_is_false. intros [r E]%starts_with_spec.
    rewrite str_app_cons in E. injection E as -> _. revert Hr. apply not_false_iff_true.
    apply starts_with_spec. by exists k.
  - rewrite elem_of_app, list_elem_of_singleton in Hp |- *. intros [?|E]; [tauto|done].
  - exists (filter (fun c => ~ blank c) front), w. rewrite !filter_app. split.
    + f_equal. rewrite filter_cons_True; [done|]. by intros [?|?].
    + by eexists.
Qed.

Section layout.
Context (st : FilesystemStorage) (bucket : string).
Hypothesis Hst : storage_ok st.
Hypothesis Hbucket : validate_bucket_name bucket = Ok tt.
Local Abbreviation B := (bucket_location st bucket).

Lemma below_bucket q : starts_with q "/" = false -> plain q ->
  plain (join (bucket_dir st bucket) q) /\ names (join (bucket_dir st bucket) q) = B ++ names q.
Proof.
  intros Hs Hp. destruct (at_place_names _ _ _ (bucket_dir_place st bucket Hst Hbucket)) as [Hd Hn].
  rewrite plain_join, names_join, Hn by done. done.
Qed.

Lemma accepted_key key : validate_key key = Ok tt ->
  key <> "" /\ plain key /\ starts_with key "/" = false /\ Forall (fun s => is_reserved_segment s = false) (names key).
Proof.
  intros Hv. destruct (validate_key_ok key Hv) as [? ? Hn]. split_and!; [|done|done|by apply Forall_forall].
  intros ->. done.
Qed.

Lemma folder_file key name : validate_key key = Ok tt ->
  contains_char "/" name = false -> name <> "" -> name <> "." -> name <> ".." ->
  let p := join (join (bucket_dir st bucket) (trim_end_slashes key)) name in
  plain p /\ names p = B ++ names key ++ [name].
Proof.
  intros Hv Hs H1 H2 H3. destruct (accepted_key key Hv) as (_ & Hp & Hr & _).
  destruct (trim_names key) as [Etn Etp].
  destruct (below_bucket (trim_end_slashes key)) as [Hd Hn]; [by apply starts_with_trim|by apply Etp|].
  cbn zeta. pose proof (starts_with_slash_segment name Hs) as Hss.
  rewrite plain_join, names_join, Hn, Etn by done. assert (Hb : ~ blank name) by (by intros [?|?]). rewrite (names_segment name Hs Hb).
  rewrite <-app_assoc. split; [|done]. split; [done|by apply plain_segment].
Qed.

Lemma suffixed key t : validate_key key = Ok tt -> contains_char "/" t = false ->
  (forall s, s +:+ t <> "" /\ s +:+ t <> "." /\ s +:+ t <> "..") ->
  exists F s, plain (join (bucket_dir st bucket) (key +:+ t)) /\
    names (join (bucket_dir st bucket) (key +:+ t)) = B ++ F ++ [s +:+ t] /\ F `prefix_of` names key.
Proof.
  intros Hv Ht Hne. destruct (accepted_key key Hv) as (Hk & Hp & Hr & _).
  destruct (suffix_names key t Ht Hr Hp Hk Hne) as (Hs & Hpl & front & s & En & Hf).
  exists front, s. destruct (below_bucket (key +:+ t) Hs Hpl) as [H1 H2]. by rewrite H2, En.
Qed.

Lemma long_suffix t : 2 < length (chars t) -> forall s, s +:+ t <> "" /\ s +:+ t <> "." /\ s +:+ t <> "..".
Proof.
  intros Hl s. split_and!; intros E; apply (f_equal (fun s => length (chars s))) in E;
    rewrite chars_app, length_app in E; cbn in E; lia.
Qed.

(** The payload of an object or folder; the sidecar and the chunk directory end
    in a reserved name. *)
Lemma object_location key : validate_key key = Ok tt ->
  plain (object_path st bucket key) /\
  names (object_path st bucket key) = B ++ names key ++ (if ends_with key "/" then [".folder"] else []).
Proof.
  intros Hv. unfold object_path. destruct (ends_with key "/"); [by apply folder_file|].
  destruct (accepted_key key Hv) as (_ & Hp & Hr & _). rewrite app_nil_r. by apply below_bucket.
Qed.
Lemma meta_location key : validate_key key = Ok tt ->
  plain (meta_path st bucket key) /\
  exists F s, names (meta_path st bucket key) = B ++ F ++ [s +:+ ".meta.json"] /\ F `prefix_of` names key.
Proof.
  intros Hv. unfold meta_path. destruct (ends_with key "/").
  - destruct (folder_file key ".folder.meta.json" Hv) as [H1 H2]; [done..|]. split; [done|].
    exists (names key), ".folder". by rewrite H2.
  - destruct (suffixed key ".meta.json" Hv) as (F & s & H1 & H2 & H3); [done|apply long_suffix; cbn; lia|]. eauto.
Qed.
Lemma ec_location key : validate_key key = Ok tt ->
  plain (ec_dir st bucket key) /\
  exists F s, names (ec_dir st bucket key) = B ++ F ++ [s +:+ ".ec"] /\ F `prefix_of` names key.
Proof.
  intros Hv. unfold ec_dir.
  destruct (suffixed key ".ec" Hv) as (F & s & H1 & H2 & H3); [done|apply long_suffix; cbn; lia|]. eauto.
Qed.
End layout.

(** The names the storage keeps for itself. *)
Definition storage_name (s : string) : Prop :=
  s ∈ [".bucket.json"; ".uploads"; ".versions"; ".folder"] \/ starts_with s ".maxio-tmp-" = true \/
  ends_with s ".meta.json" = true \/ ends_with s ".ec" = true.

Lemma reserved_internal s : is_reserved_segment s = true <-> storage_name s.
Proof.
  unfold is_reserved_segment, storage_name. rewrite !orb_true_iff, !bool_decide_eq_true. set_solver.
Qed.
Lemma not_reserved l : Forall (fun s => is_reserved_segment s = false) l -> Forall (fun s => ~ storage_name s) l.
Proof. intros Hl. eapply Forall_impl; [exact Hl|]. intros s Hs Hi%reserved_internal. congruence. Qed.

Section claims.
Context (st : FilesystemStorage) (bucket : string).
Abbreviation B := (bucket_location st bucket).

(** C23: an accepted key never leaves its bucket and never names an internal
    file.  Whatever directories exist, its payload, sidecar and chunk directory
    resolve below the directory of the bucket.  No name on the way to the payload
    of an object is one the storage keeps for itself: the record of the bucket,
    the directories of uploads and versions, the marker of a folder, a temporary
    file, a sidecar or a chunk directory; of a folder only the marker is, and of
    the sidecar and the chunk directory only the last name, by its suffix. *)
Theorem accepted_keys_are_confined key t l :
  storage_ok st -> validate_bucket_name bucket = Ok tt -> validate_key key = Ok tt ->
  ((resolve t (object_path st bucket key) = Ok l \/ resolve t (meta_path st bucket key) = Ok l \/
    resolve t (ec_dir st bucket key) = Ok l) -> B `prefix_of` l) /\
  (exists F, Forall (fun s => ~ storage_name s) F /\
     names (object_path st bucket key) = B ++ F ++ (if ends_with key "/" then [".folder"] else [])) /\
  (exists F s, Forall (fun s => ~ storage_name s) F /\ names (meta_path st bucket key) = B ++ F ++ [s +:+ ".meta.json"]) /\
  (exists F s, Forall (fun s => ~ storage_name s) F /\ names (ec_dir st bucket key) = B ++ F ++ [s +:+ ".ec"]).
Proof.
  intros Hst Hb Hk.
  destruct (object_location st bucket Hst Hb key Hk) as [Po No],
    (meta_location st bucket Hst Hb key Hk) as [Pm (F & s & Nm & [f Hf])],
    (ec_location st bucket Hst Hb key Hk) as [Pe (G & u & Ne & [g Hg])].
  destruct (accepted_key key Hk) as (_ & _ & _ & Hres%not_reserved). split_and!.
  - intros [Hr|[Hr|Hr]]; apply resolve_names in Hr as ->; try done; rewrite ?No, ?Nm, ?Ne; by eexists.
  - by exists (names key).
  - exists F, s. rewrite Hf in Hres. by apply Forall_app in Hres as [? _].
  - exists G, u. rewrite Hg in Hres. by apply Forall_app in Hres as [? _].
Qed.
End claims.

Lemma accepted_keys_are_confined_witness :
  exists F, Forall (fun s => ~ storage_name s) F /\
    names (object_path (demo_storage false) "pets" "photos/cat") = ["data"; "buckets"; "pets"] ++ F ++ [].
Proof.
  destruct (accepted_keys_are_confined (demo_storage false) "pets" "photos/cat" (mk_tree ∅ ∅) []) as (_ & Hp & _);
    [apply demo_storage_ok|vm_compute; reflexivity..|exact Hp].
Defined.
