(* ===== verification/DeleteBucketSpec.v ===== *)
(** * A bucket with objects is not deleted

    The search of [delete_bucket] for real objects finds every one at any depth,
    so the deletion of a bucket that holds one is refused and changes nothing. *)

From stdpp Require Import base list gmap sets numbers strings pretty.
From Stdlib Require Import ZArith Lia Ascii Strings.Byte.
From S2P Require Import Prelude IpAddr Glob Policy Bytes Reader Types Quota Crypto MetadataIndex FileSystem Paths World TreeOk Storage Demo.

Local Open Scope nat_scope.

(** ** Entries of a directory *)

Section tree.
Context (t : tree).
Hypothesis Hok : tree_ok t.

(** The path of a directory, by its location. *)
Definition leads_to (p : string) (l : location) : Prop := plain p /\ names p = l /\ resolve t p = Ok l.

Lemma child_of_spec (l k : location) s : child_of l k = Some s <-> k = l ++ [s].
Proof.
  unfold child_of. split.
  - case_decide as D; [|done]. destruct D as [[r ->] Hl]. rewrite length_app in Hl.
    destruct r as [|x [|y r]]; cbn in Hl; try lia. rewrite last_snoc. by intros [= ->].
  - intros ->. rewrite decide_True, last_snoc; [done|]. rewrite length_app. cbn. split; [by eexists|lia].
Qed.

Lemma read_dir_entries p l : leads_to p l -> l ∈ t_dirs t ->
  exists entries, fs_read_dir t p = Ok entries /\
    forall s b, (s, b) ∈ entries <->
      (b = true /\ l ++ [s] ∈ t_dirs t) \/ (b = false /\ is_Some (t_files t !! (l ++ [s]))).
Proof.
  intros (_ & _ & Hr) Hl. unfold fs_read_dir. rewrite Hr. cbn. rewrite decide_True by done.
  eexists. split; [done|]. intros s b. rewrite elem_of_app, !list_elem_of_omap. split.
  - intros [(k & Hk & Hc)|(k & Hk & Hc)]; destruct (child_of l k) as [s'|] eqn:E; try done;
      injection Hc as -> <-; apply child_of_spec in E as ->; [left|right].
    + split; [done|]. by apply elem_of_elements in Hk.
    + split; [done|]. apply list_elem_of_fmap in Hk as ([k' c] & -> & Hk).
      apply elem_of_map_to_list in Hk. by eexists.
  - intros [[-> Hd]|[-> [c Hf]]]; [left|right]; exists (l ++ [s]);
      rewrite (proj2 (child_of_spec l (l ++ [s]) s)) by done; (split; [|done]).
    + by apply elem_of_elements.
    + apply list_elem_of_fmap. exists (l ++ [s], c). split; [done|]. by apply elem_of_map_to_list.
Qed.

Lemma leads_to_child p l s : leads_to p l -> l ∈ t_dirs t -> segment s -> p <> "" ->
  leads_to (join p s) (l ++ [s]).
Proof.
  intros (Hp & Hn & Hr) Hl (Hs & Hb & Hd) Hne.
  pose proof (starts_with_slash_segment s Hs) as Hss. split_and!.
  - apply plain_join; [done|]. split; [done|by apply plain_segment].
  - by rewrite names_join, Hn, names_segment.
  - assert (Ha : at_place (join p s) l s).
    { apply at_place_join; [done..|]. done. }
    apply resolve_place; [done|]. intros d Hd'.
    destruct Hd' as [r ->]. destruct (decide (r = [])) as [->|Hrn]; [by rewrite app_nil_r in Hl|].
    apply (present_above t d r Hok Hrn). by left.
Qed.
End tree.

(** ** The search for objects *)

(** What the search makes of one entry. *)
Definition real_entry (t : tree) (fuel : nat) (dir : string) (e : string * bool) : bool :=
  negb (internal_name (fst e)) &&
  (if snd e then ends_with (fst e) ".ec" ||
                 match has_real_objects fuel t (join dir (fst e)) with Ok b => b | Err _ => false end
   else true).

Lemma has_real_step t fuel dir entries :
  fs_read_dir t dir = Ok entries ->
  (forall s, (s, true) ∈ entries -> is_ok (has_real_objects fuel t (join dir s)) = true) ->
  has_real_objects (S fuel) t dir = Ok (existsb (real_entry t fuel dir) entries).
Proof.
  intros Hr Hrec. cbn [has_real_objects]. rewrite Hr. cbn [mbind result_bind]. clear Hr.
  induction entries as [|[s ft] entries IH]; [done|]. cbn [existsb]. unfold real_entry at 1. cbn [fst snd].
  assert (IH' := IH ltac:(intros s' Hs'; apply Hrec; by right)). clear IH.
  destruct (internal_name s); [done|]. destruct ft; cbn [andb orb negb]; [|done].
  destruct (ends_with s ".ec"); [done|]. cbn [orb].
  specialize (Hrec s ltac:(by left)). destruct (has_real_objects fuel t (join dir s)) as [[]|e]; done.
Qed.

Section search.
Context (t : tree).
Hypothesis Hok : tree_ok t.

(** The search never fails, and finds any file below that lies in no internal
    directory, if it may go deep enough. *)
Lemma search_spec fuel p l :
  leads_to t p l -> l ∈ t_dirs t -> p <> "" ->
  exists b, has_real_objects fuel t p = Ok b /\
    forall r, r <> [] -> length r <= fuel -> is_Some (t_files t !! (l ++ r)) ->
      Forall (fun s => internal_name s = false) r -> b = true.
Proof.
  revert p l. induction fuel as [|fuel IH]; intros p l Hp Hl Hne.
  { exists false. split; [done|]. intros [|s r] Hr Hlen; [done|]. cbn in Hlen. lia. }
  destruct (read_dir_entries t p l Hp Hl) as (entries & Hr & Hin).
  assert (entry_segment : forall s, l ++ [s] ∈ t_dirs t -> segment s).
  { intros s Hd. assert (Hseg : Forall segment (l ++ [s])) by (apply (to_names t Hok); by left).
    by apply Forall_app in Hseg as [_ [Hseg _]%Forall_cons]. }
  assert (Hchild : forall s, (s, true) ∈ entries -> leads_to t (join p s) (l ++ [s]) /\ l ++ [s] ∈ t_dirs t /\ join p s <> "").
  { intros s Hs. apply Hin in Hs as [[_ Hd]|[? _]]; [|done]. split_and!; [|done|].
    - apply leads_to_child; try done. by apply (entry_segment s).
    - intros E. destruct (leads_to_child t Hok p l s Hp Hl) as (_ & Hn & _); [by apply (entry_segment s)|done|].
      rewrite E in Hn. by destruct l. }
  assert (Hstep : has_real_objects (S fuel) t p = Ok (existsb (real_entry t fuel p) entries)).
  { apply has_real_step; [done|]. intros s Hs. destruct (Hchild s Hs) as (H1 & H2 & H3).
    by destruct (IH _ _ H1 H2 H3) as (b & -> & _). }
  eexists. split; [exact Hstep|]. intros [|s r] Hrn Hlen Hf Hint; [done|].
  apply Forall_cons in Hint as [Hs Hint]. apply existsb_exists.
  destruct (decide (r = [])) as [->|Hne'].
  - exists (s, false). split; [apply list_elem_of_In, Hin; by right|]. unfold real_entry. cbn. by rewrite Hs.
  - assert (Hd : l ++ [s] ∈ t_dirs t).
    { apply (present_above t (l ++ [s]) r Hok Hne'). right. by rewrite <-app_assoc. }
    assert (Hs' : (s, true) ∈ entries) by (apply Hin; by left).
    exists (s, true). split; [by apply list_elem_of_In|]. unfold real_entry. cbn [fst snd]. rewrite Hs.
    destruct (Hchild s Hs') as (H1 & H2 & H3). destruct (IH _ _ H1 H2 H3) as (b & -> & Hb).
    rewrite (Hb r), orb_true_r; [done|done|cbn in Hlen; lia|by rewrite <-app_assoc|done].
Qed.
End search.

(** The number of directories bounds the depth of any file. *)
Lemma prefixes_in_dirs t l r : tree_ok t -> r <> [] -> present t (l ++ r) -> length (l ++ r) <= size (t_dirs t).
Proof.
  intros Hok Hr Hp. set (k := l ++ r) in *.
  assert (Hsub : list_to_set ((fun n => take n k) <$> seq 0 (length k)) ⊆ t_dirs t).
  { intros d. rewrite elem_of_list_to_set, list_elem_of_fmap. intros (n & -> & Hn%elem_of_seq).
    apply (present_above t (take n k) (drop n k) Hok); [|by rewrite take_drop].
    intros E. apply (f_equal length) in E. rewrite length_drop in E. cbn in E. lia. }
  apply subseteq_size in Hsub. rewrite size_list_to_set, length_fmap, length_seq in Hsub; [done|].
  apply NoDup_fmap_2_strong; [|apply NoDup_seq].
  intros n m Hn%elem_of_seq Hm%elem_of_seq E. apply (f_equal length) in E.
  rewrite !length_take in E. lia.
Qed.

(** ** The claim *)

(** C36: a bucket that holds an object is never deleted: if any file lies in it
    outside the internal directories, at whatever depth (the search's fuel is
    always enough), the answer is BucketNotEmpty and nothing has changed.
    When the deletion succeeds, the bucket's directory is gone. *)
Theorem bucket_with_objects_is_kept `{Environment} `{Serde} st bucket w :
  storage_ok st -> validate_bucket_name bucket = Ok tt -> tree_ok (w_tree w) ->
  (forall path, path <> [] -> is_Some (t_files (w_tree w) !! (bucket_location st bucket ++ path)) ->
     Forall (fun s => internal_name s = false) path ->
     delete_bucket st bucket w = (w, Err BucketNotEmpty)) /\
  (forall w', delete_bucket st bucket w = (w', Ok true) -> bucket_location st bucket ∉ t_dirs (w_tree w')).
Proof.
  intros Hst Hb Hok. pose proof (bucket_dir_place st bucket Hst Hb) as Hplace.
  destruct (at_place_names _ _ _ Hplace) as [Hp Hn]. fold (bucket_location st bucket) in Hn.
  unfold delete_bucket. rewrite (run_lift _ _ _ _ Hb). split.
  - intros F HF Hf Hint.
    assert (Hpres : present (w_tree w) (bucket_location st bucket ++ F)) by (by right).
    assert (Hl : bucket_location st bucket ∈ t_dirs (w_tree w)) by (by eapply present_above).
    assert (Hres : resolve (w_tree w) (bucket_dir st bucket) = Ok (bucket_location st bucket)).
    { apply resolve_place; [done|]. intros d [r E].
      destruct (decide (bucket_location st bucket = d)) as [<-|Hne]; [done|].
      apply (present_above _ d (r ++ [bucket]) Hok); [by destruct r|left].
      rewrite app_assoc, <-E. exact Hl. }
    assert (Hne : bucket_dir st bucket <> "").
    { intros E. rewrite E in Hn. unfold bucket_location in Hn. by destruct (names (st_buckets_dir st)). }
    destruct (search_spec (w_tree w) Hok (tree_depth (w_tree w)) (bucket_dir st bucket) (bucket_location st bucket))
      as (b & Hs & Hbt); [done|done|done|].
    rewrite (Hbt F) in Hs; [|done| |done|done].
    + assert (Hex : try_exists (w_tree w) (bucket_dir st bucket) = Ok true).
      { unfold try_exists. rewrite Hres. by rewrite bool_decide_eq_true_2. }
      erewrite run_ok by (unfold query; by rewrite Hex). cbn [negb].
      erewrite run_ok by (unfold query; by rewrite Hs). done.
    + pose proof (prefixes_in_dirs _ _ _ Hok HF Hpres) as Hlen. rewrite length_app in Hlen. unfold tree_depth. lia.
  - intros w' (there & w1 & _ & Hd)%M_bind_ok. destruct there; cbn [negb] in Hd; [|by injection Hd].
    apply M_bind_ok in Hd as (real & w2 & _ & Hd). apply M_bind_ok in Hd as (u & w3 & _ & Hd).
    apply M_bind_ok in Hd as (u' & w4 & _ & Hd). unfold on_world in Hd.
    destruct (fs_remove_dir (w_tree w4) (bucket_dir st bucket)) as [t [u2|e]] eqn:E; [|done].
    injection Hd as <-. unfold fs_remove_dir in E.
    destruct (resolve (w_tree w4) (bucket_dir st bucket)) as [l|] eqn:Er; [|done].
    apply resolve_names in Er as ->; [|done]. rewrite Hn in E. case_decide; [|done].
    destruct (empty_dir _ _); [|done]. injection E as <-. cbn. set_solver.
Qed.

(** ** Witness *)

Import Demo.Toys.

Module Witness.
Definition st : FilesystemStorage := demo_storage false.
Definition w : world := with_tree (demo_world (demo_bucket false None None))
  (mk_tree {[ ["data"; "buckets"; "pets"; ".bucket.json"] := BucketJson (demo_bucket false None None);
              ["data"; "buckets"; "pets"; "dogs"; "rex"] := Raw (as_bytes "woof") ]}
     {[ []; ["data"]; ["data"; "buckets"]; ["data"; "buckets"; "pets"]; ["data"; "buckets"; "pets"; "dogs"] ]}).
End Witness.

Lemma bucket_with_objects_is_kept_witness :
  delete_bucket Witness.st "pets" Witness.w = (Witness.w, Err BucketNotEmpty).
Proof.
  destruct (bucket_with_objects_is_kept Witness.st "pets" Witness.w) as [Hk _];
    [apply demo_storage_ok|reflexivity|apply tree_okb_ok; vm_compute; reflexivity|].
  apply (Hk ["dogs"; "rex"]); [discriminate| |by repeat constructor].
  exists (Raw (as_bytes "woof")). vm_compute. reflexivity.
Defined.
