(* ===== verification/BucketSpec.v ===== *)
(** * Bucket settings are read back, and independent

    What the operations of [BucketConfig] promise: a setting reads back as
    written, nothing else changes, and a stored policy agrees with the public
    flags kept next to it. *)

From stdpp Require Import base list gmap sets numbers strings pretty.
From Stdlib Require Import ZArith Lia Ascii Strings.Byte.
From S2P Require Import Prelude IpAddr Glob Policy Bytes Reader Types Quota MetadataIndex FileSystem Paths World Storage BucketConfig Demo.

Local Open Scope nat_scope.

(** ** What is written is read back *)

Section spec.
Context `{EnvironmentSpec} `{SerdeSpec} (st : FilesystemStorage) (bucket : string).
Hypothesis Hst : storage_ok st.
Hypothesis Hbucket : validate_bucket_name bucket = Ok tt.

Lemma read_bucket_meta_eq v : read_bucket_meta st bucket v =
  (v, match fs_read (w_tree v) (bucket_meta_path st bucket) with
      | Err e => Err (if decide (io_error_kind e = NotFound) then NotFoundError bucket else Io e)
      | Ok c => map_err Json (parse_bucket c)
      end).
Proof. unfold read_bucket_meta. rewrite (run_lift _ _ _ _ Hbucket). unfold read_json. by destruct (fs_read _ _). Qed.

(** Reading the record, changing it and writing it back. *)
Lemma update_bucket_meta_ok f w w' :
  update_bucket_meta st bucket f w = (w', Ok tt) ->
  exists meta, read_bucket_meta st bucket w = (w, Ok meta) /\ read_bucket_meta st bucket w' = (w', Ok (f meta)) /\
    w' = with_tree w (with_file (w_tree w) (names (bucket_meta_path st bucket)) (BucketJson (f meta))).
Proof.
  unfold update_bucket_meta. intros (meta & w1 & Hr & Hw)%M_bind_ok.
  assert (w1 = w) as -> by (rewrite read_bucket_meta_eq in Hr; by injection Hr).
  exists meta. unfold call in Hw.
  destruct (fs_write (w_tree w) (bucket_meta_path st bucket) (BucketJson (f meta))) as [t r] eqn:E.
  destruct (at_place_names _ _ _ (bucket_meta_place st bucket Hst Hbucket)) as [Hp Hn].
  apply fs_write_effect in E as [[_ He]|(-> & -> & Hres & _)]; [|injection Hw as <-|done].
  { destruct r; [done|]. injection Hw as _ Hw. done. }
  split_and!; [done| |done]. rewrite read_bucket_meta_eq. cbn.
  rewrite (proj2 (fs_read_ok _ _ (BucketJson (f meta)) Hp)).
  - by rewrite parse_bucket_json.
  - split; [by apply (resolve_mono (w_tree w))|apply lookup_insert_eq].
Qed.
End spec.

(** ** The claims *)

Section claims.
Context `{EnvironmentSpec} `{SerdeSpec} (st : FilesystemStorage).
Hypothesis Hst : storage_ok st.

Lemma bucket_meta_location b : validate_bucket_name b = Ok tt ->
  plain (bucket_meta_path st b) /\ names (bucket_meta_path st b) = names (st_buckets_dir st) ++ [b; ".bucket.json"].
Proof.
  intros Hb. destruct (at_place_names _ _ _ (bucket_meta_place st b Hst Hb)) as [Hp ->]. split; [done|].
  unfold bucket_location. by rewrite <-app_assoc.
Qed.

(** What a getter of the form [meta ← read_bucket_meta; mret (g meta)] answers. *)
Lemma getter_ok {A} (g : BucketMeta -> A) b v meta :
  read_bucket_meta st b v = (v, Ok meta) -> (meta ← read_bucket_meta st b; mret (g meta)) v = (v, Ok (g meta)).
Proof. intros Hr. by rewrite (run_ok _ _ _ _ _ Hr). Qed.

(** Changing a setting of a bucket changes that setting alone: the record
    read back is the old record with the change, every other file of the store
    keeps its content and every other bucket its record. *)
Theorem setting_change_is_local b f w w' :
  validate_bucket_name b = Ok tt -> update_bucket_meta st b f w = (w', Ok tt) ->
  exists meta, get_bucket_meta st b w = (w, Ok meta) /\ get_bucket_meta st b w' = (w', Ok (f meta)) /\
    (forall l, l <> names (bucket_meta_path st b) -> t_files (w_tree w') !! l = t_files (w_tree w) !! l) /\
    forall b' meta', validate_bucket_name b' = Ok tt -> b' <> b ->
      get_bucket_meta st b' w = (w, Ok meta') -> get_bucket_meta st b' w' = (w', Ok meta').
Proof.
  intros Hb Hu. destruct (update_bucket_meta_ok st b Hst Hb f w w' Hu) as (meta & Hr & Hr' & ->).
  exists meta. split_and!; [done|done|intros l Hl; cbn; by apply lookup_insert_ne|].
  intros b' meta' Hb' Hne. unfold get_bucket_meta. rewrite !read_bucket_meta_eq by done. intros [= Hg]. f_equal.
  destruct (bucket_meta_location b Hb) as [_ Hn], (bucket_meta_location b' Hb') as [Hp' Hn'].
  destruct (fs_read (w_tree w) (bucket_meta_path st b')) as [c|e] eqn:E; [|done].
  apply (fs_read_ok _ _ _ Hp') in E as [E1 E2].
  rewrite (proj2 (fs_read_ok _ _ c Hp')); [done|]. split; [by apply (resolve_mono (w_tree w))|].
  cbn. rewrite lookup_insert_ne; [done|]. rewrite Hn, Hn'.
  intros [_ E]%app_inj_1; [|done]. injection E as E. done.
Qed.

(** Every setting reads back as it was written, and as unset after it was
    deleted. *)
Theorem settings_read_back b w w' :
  validate_bucket_name b = Ok tt ->
  (forall on, set_versioning st b on w = (w', Ok tt) -> is_versioned st b w' = (w', Ok on)) /\
  (forall r l, set_bucket_public st b r l w = (w', Ok tt) -> get_bucket_public st b w' = (w', Ok (r, l))) /\
  (forall rules, put_bucket_lifecycle st b rules w = (w', Ok tt) ->
     get_bucket_lifecycle st b w' = (w', Ok (Some rules)) /\
     Forall (fun rule => lr_id rule <> "" /\ lr_expiration_days rule <> Some 0%Z) rules) /\
  (forall rules, put_bucket_cors st b rules w = (w', Ok tt) -> get_bucket_cors st b w' = (w', Ok (Some rules))) /\
  (forall c, put_bucket_encryption st b c w = (w', Ok tt) -> get_bucket_encryption st b w' = (w', Ok (Some c))) /\
  (forall c, put_bucket_notification st b c w = (w', Ok tt) -> get_bucket_notification st b w' = (w', Ok (Some c))) /\
  (forall t p, put_bucket_logging st b t p w = (w', Ok tt) -> get_bucket_logging st b w' = (w', Ok (Some (t, p))) /\ t <> b) /\
  (delete_bucket_lifecycle st b w = (w', Ok tt) -> get_bucket_lifecycle st b w' = (w', Ok None)) /\
  (delete_bucket_cors st b w = (w', Ok tt) -> get_bucket_cors st b w' = (w', Ok None)) /\
  (delete_bucket_encryption st b w = (w', Ok tt) -> get_bucket_encryption st b w' = (w', Ok None)) /\
  (delete_bucket_notification st b w = (w', Ok tt) -> get_bucket_notification st b w' = (w', Ok None)) /\
  (delete_bucket_logging st b w = (w', Ok tt) -> get_bucket_logging st b w' = (w', Ok None)).
Proof.
  intros Hb.
  assert (Hset : forall {A} (g : BucketMeta -> A) f v a, (forall m, g (f m) = a) ->
    update_bucket_meta st b f v = (w', Ok tt) -> (meta ← read_bucket_meta st b; mret (g meta)) w' = (w', Ok a)).
  { intros A g f v a Hg Hu. destruct (update_bucket_meta_ok st b Hst Hb f v w' Hu) as (meta & _ & Hr & _).
    rewrite (getter_ok g b w' _ Hr). by rewrite Hg. }
  split_and!; try (intros; eapply Hset; [|eassumption]; done).
  - intros rules. unfold put_bucket_lifecycle. rewrite (run_lift _ _ _ _ Hb).
    intros (u & v & [Hc ->]%lift_ok & Hu)%M_bind_ok. destruct u. split; [by eapply Hset; [|exact Hu]|].
    rewrite for_each_ok in Hc. eapply Forall_impl; [exact Hc|]. intros rule. unfold check_lifecycle_rule.
    by repeat case_decide.
  - intros t p. unfold put_bucket_logging. rewrite (run_lift _ _ _ _ Hb).
    intros (u & v & [_ ->]%lift_ok & Hu)%M_bind_ok.
    apply M_bind_ok in Hu as (u1 & v1 & [Hne ->]%fail_if_ok & Hu).
    apply M_bind_ok in Hu as (there & v2 & _ & Hu). apply M_bind_ok in Hu as (u2 & v3 & [_ ->]%fail_if_ok & Hu).
    apply bool_decide_eq_false in Hne. split; [|by intros ->].
    eapply Hset; [|exact Hu]. intros m. cbn. f_equal. f_equal. by case_decide; subst.
Qed.

(** A policy is stored only if one of the two evaluators accepts it, and the
    public flags kept next to it are those the first evaluator derives from it:
    a document the first evaluator rejects leaves the bucket private.  Deleting
    the policy makes the bucket private again. *)
Theorem stored_policy_sets_flags from_str b policy w w' :
  validate_bucket_name b = Ok tt ->
  (put_bucket_policy st from_str b policy w = (w', Ok tt) ->
     get_bucket_policy st b w' = (w', Ok (Some policy)) /\
     match evaluate_v1_policy from_str b policy with
     | Ok effects => get_bucket_public st b w' = (w', Ok (public_read effects, public_list effects))
     | Err _ => validate_policy_v2 from_str b policy = Ok tt /\ get_bucket_public st b w' = (w', Ok (false, false))
     end) /\
  (delete_bucket_policy st b w = (w', Ok tt) ->
     get_bucket_policy st b w' = (w', Ok None) /\ get_bucket_public st b w' = (w', Ok (false, false))).
Proof.
  intros Hb. unfold get_bucket_policy, get_bucket_public. split.
  - unfold put_bucket_policy. rewrite (run_lift _ _ _ _ Hb).
    intros (effects & v & [He ->]%lift_ok & Hu)%M_bind_ok.
    destruct (update_bucket_meta_ok st b Hst Hb _ w w' Hu) as (meta & _ & Hr & _).
    rewrite (getter_ok bm_bucket_policy b w' _ Hr), (getter_ok (fun m => (bm_public_read m, bm_public_list m)) b w' _ Hr).
    split; [done|]. destruct (evaluate_v1_policy from_str b policy) as [e|e]; [by injection He as ->|].
    destruct (validate_policy_v2 from_str b policy) as [[]|e']; [|done]. by injection He as <-.
  - unfold delete_bucket_policy. intros Hu.
    destruct (update_bucket_meta_ok st b Hst Hb _ w w' Hu) as (meta & _ & Hr & _).
    by rewrite (getter_ok bm_bucket_policy b w' _ Hr), (getter_ok (fun m => (bm_public_read m, bm_public_list m)) b w' _ Hr).
Qed.
End claims.

(** ** Witnesses *)

Import Demo.Toys.

Module Witness.
Definition st : FilesystemStorage := demo_storage false.
Definition w : world := demo_world (demo_bucket false None None).
Definition after {A} (m : M StorageError A) : world := fst (m w).
(** A parser that accepts one document: everyone may read every object. *)
Definition parse (s : string) : result string BucketPolicy :=
  if decide (s = "public") then
    Ok (Build_BucketPolicy "2012-10-17"
      [Build_PolicyStatement "Allow" (VString "*") (OneAction "s3:GetObject")
         (OneResource "arn:aws:s3:::pets/*") None])
  else Err "expected value at line 1 column 1".
End Witness.

Lemma setting_change_is_local_witness :
  let w' := Witness.after (update_bucket_meta Witness.st "pets" (with_versioning true)) in
  get_bucket_meta Witness.st "pets" w' = (w', Ok (demo_bucket true None None)).
Proof.
  cbv zeta. set (w' := Witness.after _).
  destruct (setting_change_is_local Witness.st (demo_storage_ok false) "pets" (with_versioning true) Witness.w w')
    as (meta & H1 & H2 & _); [vm_compute; reflexivity..|].
  assert (E : meta = demo_bucket false None None) by (vm_compute in H1; injection H1 as <-; reflexivity).
  rewrite E in H2. exact H2.
Defined.

Lemma settings_read_back_witness :
  let w' := Witness.after (set_versioning Witness.st "pets" true) in
  is_versioned Witness.st "pets" w' = (w', Ok true).
Proof.
  cbv zeta. set (w' := Witness.after _).
  destruct (settings_read_back Witness.st (demo_storage_ok false) "pets" Witness.w w') as [Hv _]; [reflexivity|].
  apply Hv. vm_compute. reflexivity.
Defined.

Lemma stored_policy_sets_flags_witness :
  let w' := Witness.after (put_bucket_policy Witness.st Witness.parse "pets" "public") in
  get_bucket_public Witness.st "pets" w' = (w', Ok (true, false)).
Proof.
  cbv zeta. set (w' := Witness.after _).
  destruct (stored_policy_sets_flags Witness.st (demo_storage_ok false) Witness.parse "pets" "public" Witness.w w')
    as [Hp _]; [reflexivity|].
  destruct Hp as [_ Hp]; [vm_compute; reflexivity|]. exact Hp.
Defined.
