(* ===== verification/ObjectsSpec.v ===== *)
(** * An upload is read back, and touches nothing else

    The flat upload of [Objects]: what a successful [put_object] leaves on disk,
    that [get_object] returns it, and that whatever happens no other object, and
    on failure no object at all, is changed. *)

From stdpp Require Import base list gmap sets sorting numbers strings pretty.
From Stdlib Require Import ZArith Lia Ascii Strings.Byte.
From S2P Require Import Prelude Bytes Reader Types Quota Crypto ErasureCode ChunkReader MetadataIndex FileSystem Paths World Keyring Storage BucketConfig Sidecar Encryption Publish Objects Demo.

Local Open Scope nat_scope.

Lemma io_buffer_pos : 0 < IO_BUFFER_SIZE.
Proof. unfold IO_BUFFER_SIZE. lia. Qed.
Lemma frame_size_pos : 0 < FRAME_CHUNK_SIZE.
Proof. unfold FRAME_CHUNK_SIZE. lia. Qed.

(** ** The body *)

Section body.
Context `{Aead} (cipher : option (bytes * bytes)) (aad : nat -> bytes).

Lemma write_pieces pieces w0 w :
  fold_result (write_piece cipher aad) w0 pieces = Ok w ->
  bw_seen w = bw_seen w0 ++ concat pieces /\
  match cipher with
  | Some (k, p) => fold_result (push_plaintext FRAME_CHUNK_SIZE k p aad) (bw_out w0) pieces = Ok (bw_out w)
  | None => fw_written (bw_out w) = fw_written (bw_out w0) ++ concat pieces
  end.
Proof.
  revert w0. induction pieces as [|x pieces IH]; intros w0; cbn [fold_result concat].
  - intros [= <-]. rewrite app_nil_r. split; [done|]. destruct cipher as [[k p]|]; [done|by rewrite app_nil_r].
  - destruct (write_piece cipher aad w0 x) as [w1|e] eqn:E; [|done].
    intros [-> Hw]%IH. unfold write_piece in E. destruct cipher as [[k p]|].
    + apply result_bind_ok in E as (o & Ho & [= <-]). cbn in *. rewrite Ho. by rewrite app_assoc.
    + injection E as <-. cbn in *. by rewrite Hw, !app_assoc.
Qed.

Lemma pieces_ok pieces w seen out :
  fold_result (write_piece cipher aad) (mk_body_writer [] (mk_frame_writer [] 0 [])) pieces = Ok w ->
  finish_body cipher aad w = Ok (seen, out) ->
  seen = concat pieces /\
  match cipher with
  | Some (k, p) => encrypt_chunks k p aad 0 (chunks FRAME_CHUNK_SIZE seen) = Ok out
  | None => out = seen
  end.
Proof.
  intros [Hs Ho]%write_pieces Hf. cbn in Hs, Ho. unfold finish_body in Hf. destruct cipher as [[k p]|].
  - apply result_bind_ok in Hf as (o & Ho' & [= <- <-]). split; [done|].
    rewrite Hs, <-(encryption_loop_spec FRAME_CHUNK_SIZE) by apply frame_size_pos.
    by rewrite Ho; cbn.
  - injection Hf as <- <-. split; [done|]. by rewrite Ho, Hs.
Qed.

Lemma body_ok (body : QuotaReader source) w seen out :
  pump IO_BUFFER_SIZE map_read_quota_error (write_piece cipher aad) (body_fuel body)
    (mk_body_writer [] (mk_frame_writer [] 0 [])) body = Some (Ok w) ->
  finish_body cipher aad w = Ok (seen, out) ->
  src_end (qr_inner body) = Eof /\ seen = src_data (qr_inner body) /\
  match cipher with
  | Some (k, p) => encrypt_chunks k p aad 0 (chunks FRAME_CHUNK_SIZE seen) = Ok out
  | None => out = seen
  end.
Proof.
  intros Hp Hf.
  apply (quota_pump_ok _ _ _ _ _ body (src_data (qr_inner body)) (src_end (qr_inner body)))
    in Hp as [He (pieces & <- & Hw)]; [|apply io_buffer_pos|by split].
  split; [done|]. by eapply pieces_ok.
Qed.

Lemma body_never_stalls (body : QuotaReader source) w0 :
  pump IO_BUFFER_SIZE map_read_quota_error (write_piece cipher aad) (body_fuel body) w0 body <> None.
Proof.
  eapply (quota_pump_total _ _ _ _ _ _ (src_data (qr_inner body)) (src_end (qr_inner body)));
    [apply io_buffer_pos|by split|]. unfold body_fuel. cbn. lia.
Qed.
End body.

(** ** The sidecar of an encrypted object carries a valid MAC *)

Section mac.
Context `{CratesSpec} `{SerdeJson}.

Lemma mac_input_mac meta em mac :
  om_encryption meta = Some em ->
  mac_input (set_encryption meta (Some (with_sidecar_mac em mac))) = mac_input meta.
Proof. intros He. unfold mac_input, set_encryption. cbn. by rewrite He. Qed.

Lemma seal_sidecar_ok dek meta em :
  om_encryption meta = Some em ->
  exists mac, seal_sidecar dek meta = set_encryption meta (Some (with_sidecar_mac em mac)) /\
    verify_sidecar_mac (seal_sidecar dek meta) dek = Ok tt.
Proof.
  intros He. exists (compute_sidecar_mac dek meta).
  assert (Hm : forall mac, compute_sidecar_mac dek (set_encryption meta (Some (with_sidecar_mac em mac)))
                = compute_sidecar_mac dek meta).
  { intros mac. unfold compute_sidecar_mac. by rewrite mac_input_mac. }
  assert (Hs : seal_sidecar dek meta =
    set_encryption meta (Some (with_sidecar_mac em (compute_sidecar_mac dek meta)))).
  { rewrite <-(Hm ""). unfold seal_sidecar. rewrite He. reflexivity. }
  rewrite Hs. split; [done|]. unfold verify_sidecar_mac. cbn -[constant_time_eq].
  rewrite Hm, decide_False.
  - by rewrite (proj2 (constant_time_eq_spec _ _) eq_refl).
  - apply hex_encode_nonempty. intros E. pose proof (hmac_sha256_length dek
      (to_vec (canonical_json_value (to_value (mac_input meta))))) as Hl. by rewrite E in Hl.
Qed.
End mac.

(** ** The flat upload *)

Section flat.
Context `{EnvironmentSpec} `{CratesSpec} `{SerdeSpec} `{SerdeJson} `{AeadSpec} `{ReedSolomon}.
Context `{!KeyService FilesystemStorage} `{!KeyServiceSpec FilesystemStorage}.
Context (st : FilesystemStorage) (bucket key : string) (P : location) (s : string) (w0 : world).
Hypothesis op_place : at_place (object_path st bucket key) P s.
Hypothesis mp_place : at_place (meta_path st bucket key) P (s +:+ ".meta.json").
Hypothesis names_ok : Forall (fun s => starts_with s ".maxio-tmp-" = false) (P ++ [s; s +:+ ".meta.json"]).

Local Abbreviation quiet := (base P s (s +:+ ".meta.json") w0 (temp P w0)).
Local Abbreviation done_ := (base P s (s +:+ ".meta.json") w0 (either P s (s +:+ ".meta.json") w0)).

Lemma sidecar_name_differs : s <> s +:+ ".meta.json".
Proof. intros E. apply (f_equal (fun s => length (chars s))) in E. rewrite chars_app, length_app in E. cbn in E. lia. Qed.

(** The sidecar is written beside its place, then both are published. *)
Lemma publish_object_spec tp np cp meta v v' r :
  quiet v -> at_place tp P (temp_name np) -> w_tick w0 <= np -> np < w_tick v ->
  t_files (w_tree v) !! (P ++ [temp_name np]) = Some cp ->
  publish_object st tp (object_path st bucket key) false bucket key meta v = (v', r) ->
  match r with
  | Ok _ => done_ v' /\ t_files (w_tree v') !! (P ++ [s]) = Some cp /\
            t_files (w_tree v') !! (P ++ [s +:+ ".meta.json"]) = Some (ObjectJson meta) /\
            reach (w_tree v') P
  | Err _ => quiet v'
  end.
Proof.
  intros Hv Htp Hn Hlt Hcp. pose proof sidecar_name_differs as Hsm.
  unfold publish_object, mbind, M_bind.
  destruct (create_parent (meta_path st bucket key) v) as [v1 [u|e]] eqn:E1;
    apply (create_parent_spec P s (s +:+ ".meta.json") w0 names_ok (temp P w0) _ _ _ _ _ mp_place Hv) in E1
      as (Hv1 & F1 & _ & T1 & _); [|by intros [= <- <-]].
  destruct (temp_sibling P _ _ v1 mp_place) as (tm & -> & Htm). cbn [w_tick w_tree].
  set (v2 := mk_world (w_tree v1) (w_index v1) (S (w_tick v1))).
  assert (Hv2 : quiet v2) by (eapply base_pure; [exact Hv1|done..|cbn; lia]).
  pose proof (b_tick _ _ _ _ _ _ Hv1) as Ht1.
  intros Hg. apply (guarded_spec P s (s +:+ ".meta.json") w0 tm (w_tick v1) _ v2 v' r Htm Ht1) in Hg.
  - destruct r as [a|e]; [|done]. revert Hg.
    destruct (call (fun t => fs_write t tm (ObjectJson meta)) v2) as [v3 [u3|e3]] eqn:E3; [|done].
    apply (write_temp P s (s +:+ ".meta.json") w0 tm (w_tick v1) _ v2 v3 _ Htm Ht1 Hv2) in E3 as (Hv3 & T3 & F3 & R3).
    intros Hp. eapply (publish_spec _ _ P s (s +:+ ".meta.json") w0 op_place mp_place Hsm names_ok tp tm np (w_tick v1)
      cp (ObjectJson meta) v3 v' (Ok a)) in Hp; try done; [lia|rewrite T3; cbn; lia| |].
    + rewrite F3; [cbn; by rewrite F1|]. intros E%(temp_names_inj P). lia.
    + apply R3. by destruct u3.
  - intros v3 e. destruct (call (fun t => fs_write t tm (ObjectJson meta)) v2) as [v4 [u4|e4]] eqn:E4;
      apply (write_temp P s (s +:+ ".meta.json") w0 tm (w_tick v1) _ v2 v4 _ Htm Ht1 Hv2) in E4 as (Hv4 & T4 & F4 & R4);
      [|by intros [= <- <-]].
    intros Hp. eapply (publish_spec _ _ P s (s +:+ ".meta.json") w0 op_place mp_place Hsm names_ok tp tm np (w_tick v1)
      cp (ObjectJson meta) v4 v3 (Err e)) in Hp; try done; [lia|rewrite T4; cbn; lia| |].
    + rewrite F4; [cbn; by rewrite F1|]. intros E%(temp_names_inj P). lia.
    + apply R4. by destruct u4.
Qed.
(** The cipher prepared for an upload, and what is known of it. *)
Definition enc_ok (encryption : option EncryptionRequest)
    (enc : option (EncryptionMeta * (bytes * bytes))) : Prop :=
  match encryption, enc with
  | None, None => True
  | Some req, Some (em, (dek, prefix)) =>
      ks_resolve st em (er_customer_key req) = Ok dek /\ em_chunk_size em = 65536%Z /\ length prefix = 8
  | _, _ => False
  end.

Lemma prepare_cipher_spec req : pure_step (prepare_cipher st req) /\
  forall v v' enc, prepare_cipher st req v = (v', Ok enc) -> enc_ok (Some req) (Some enc).
Proof.
  unfold prepare_cipher. split.
  - apply pure_bind; [|intros em; apply pure_bind; [apply pure_lift|intros; apply pure_ret]].
    intros v v' r. unfold on_world. destruct (ks_prepare st req v) as [v1 [em|e]] eqn:E;
      intros [= <- <-]; by eapply ks_prepare_world.
  - intros v v' [em [dek prefix]] Hp. apply M_bind_ok in Hp as (em' & v1 & Hem & Hp).
    apply M_bind_ok in Hp as (c & v2 & Hc & [= -> -> ->]). apply lift_ok in Hc as [Hc ->].
    unfold on_world in Hem. destruct (ks_prepare st req v) as [v3 [em1|e]] eqn:E; [|done].
    injection Hem as -> ->. unfold cipher_of in Hc.
    apply result_bind_ok in Hc as (d & Hd & Hc). apply result_bind_ok in Hc as (p & Hpr & [= <- <-]).
    apply ok_or_ok in Hpr. unfold enc_ok. split_and!.
    + by destruct (ks_resolve st em (er_customer_key req)); [injection Hd as ->|].
    + by eapply ks_prepare_chunk_size.
    + by eapply ks_prepare_prefix.
Qed.

(** What a successful upload leaves on disk. *)
Definition aad : nat -> bytes := object_aad_builder sha256 bucket key None.
Record stored (data : bytes) (enc : option (EncryptionMeta * (bytes * bytes))) (meta : ObjectMeta) (t : tree) : Prop := {
  sd_reach : reach t P;
  sd_meta : t_files t !! (P ++ [s +:+ ".meta.json"]) = Some (ObjectJson meta);
  sd_size : om_size meta = Z.of_nat (length data);
  sd_version : om_version_id meta = None;
  sd_enc : match enc with
           | None => om_encryption meta = None /\ t_files t !! (P ++ [s]) = Some (Raw data)
           | Some (em, (dek, prefix)) =>
               (exists mac, om_encryption meta = Some (with_sidecar_mac em mac)) /\
               verify_sidecar_mac meta dek = Ok tt /\
               exists ct, t_files t !! (P ++ [s]) = Some (Raw ct) /\
                 encrypt_chunks dek prefix aad 0 (chunks FRAME_CHUNK_SIZE data) = Ok ct
           end;
}.

Lemma apply_lock_fields meta lock :
  om_size (apply_object_lock meta lock) = om_size meta /\
  om_version_id (apply_object_lock meta lock) = om_version_id meta /\
  om_encryption (apply_object_lock meta lock) = om_encryption meta.
Proof. by destruct lock. Qed.

Lemma quiet_pure v v' :
  quiet v -> w_tree v' = w_tree v -> w_index v' = w_index v -> w_tick v <= w_tick v' -> quiet v'.
Proof. apply base_pure. Qed.

Lemma pure_default_lock : pure_step (resolve_default_object_lock st bucket).
Proof.
  unfold resolve_default_object_lock, read_bucket_meta. apply pure_bind.
  - apply pure_bind; [apply pure_lift|intros _]. intros v v' r. unfold read_json.
    by destruct (fs_read _ _); intros [= <- <-].
  - intros meta. repeat case_match; auto with maxio_pure.
Qed.
(** The upload of the payload under a temporary name, then publication. *)
Definition flat_block (content_type tmp : string) (body : QuotaReader source)
    (checksum : option (ChecksumAlgorithm * option string))
    (enc : option (EncryptionMeta * (bytes * bytes))) : M StorageError ObjectMeta :=
  _ ← call (fun t => fs_write t tmp (Raw []));
  let cipher := snd <$> enc in
  body ← lift (pumped (pump IO_BUFFER_SIZE map_read_quota_error (write_piece cipher aad)
                         (body_fuel body) (mk_body_writer [] (mk_frame_writer [] 0 [])) body) stalled);
  out ← lift (finish_body cipher aad body);
  _ ← call (fun t => fs_write t tmp (Raw (snd out)));
  sums ← lift (check_checksum checksum (fst out));
  now ← now_iso;
  lock ← resolve_default_object_lock st bucket;
  let meta := apply_object_lock
      (new_meta key (length (fst out)) (etag_of (fst out)) content_type now None None sums (fst <$> enc)) lock in
  let meta := match cipher with Some (dek, _) => seal_sidecar dek meta | None => meta end in
  _ ← publish_object st tmp (object_path st bucket key) false bucket key meta;
  mret meta.

Lemma flat_block_spec content_type tmp np body checksum enc v v' r :
  quiet v -> at_place tmp P (temp_name np) -> w_tick w0 <= np -> np < w_tick v ->
  flat_block content_type tmp body checksum enc v = (v', r) ->
  match r with
  | Err _ => quiet v'
  | Ok meta => src_end (qr_inner body) = Eof /\ done_ v' /\
      stored (src_data (qr_inner body)) enc meta (w_tree v')
  end.
Proof.
  intros Hv Htmp Hn Hlt. unfold flat_block, mbind, M_bind.
  destruct (call (fun t => fs_write t tmp (Raw [])) v) as [v1 r1] eqn:E1.
  apply (write_temp P s (s +:+ ".meta.json") w0 tmp np _ v v1 _ Htmp Hn Hv) in E1 as (Hv1 & T1 & _ & _).
  destruct r1 as [u1|e1]; [|by intros [= <- <-]].
  unfold lift at 1. destruct (pump _ _ _ _ _ _) as [[bw|e]|] eqn:Ep; cbn [pumped default from_option id];
    [|by intros [= <- <-]|by intros [= <- <-]].
  unfold lift at 1. destruct (finish_body (snd <$> enc) aad bw) as [[seen out]|e] eqn:Ef; [|by intros [= <- <-]].
  destruct (body_ok _ _ _ _ _ _ Ep Ef) as (Heof & -> & Hout). cbn [fst snd].
  destruct (call (fun t => fs_write t tmp (Raw out)) v1) as [v2 r2] eqn:E2.
  apply (write_temp P s (s +:+ ".meta.json") w0 tmp np _ v1 v2 _ Htmp Hn Hv1) in E2 as (Hv2 & T2 & _ & R2).
  destruct r2 as [u2|e2]; [|by intros [= <- <-]].
  unfold lift at 1. destruct (check_checksum _ _) as [sums|e]; [|by intros [= <- <-]].
  unfold now_iso, mbind, M_bind, tick.
  set (v3 := mk_world (w_tree v2) (w_index v2) (S (w_tick v2))).
  assert (Hv3 : quiet v3) by (eapply quiet_pure; [exact Hv2|done|done|cbn; lia]).
  cbn [mret M_ret].
  destruct (resolve_default_object_lock st bucket v3) as [v4 rl] eqn:El.
  pose proof (pure_default_lock v3 v4 rl El) as (F4 & I4 & T4).
  assert (Hv4 : quiet v4) by (by eapply quiet_pure).
  destruct rl as [lock|e]; [|by intros [= <- <-]].
  match goal with |- context [publish_object st tmp _ false bucket key ?m] => set (meta := m) end.
  destruct (publish_object st tmp _ false bucket key meta v4) as [v5 r5] eqn:E5.
  apply (publish_object_spec tmp np (Raw out) meta v4 v5 r5 Hv4 Htmp Hn) in E5.
  - destruct r5 as [u5|e]; [|by intros [= <- <-]]. intros [= <- <-]. destruct E5 as (Hd & Ho & Hm & Hr).
    split_and!; [done|done|].
    assert (Hfields : om_size meta = Z.of_nat (length (src_data (qr_inner body))) /\ om_version_id meta = None /\
      match enc with
      | None => om_encryption meta = None
      | Some (em, (dek, _)) => (exists mac, om_encryption meta = Some (with_sidecar_mac em mac)) /\
          verify_sidecar_mac meta dek = Ok tt
      end).
    { subst meta. set (m0 := apply_object_lock _ _).
      destruct (apply_lock_fields (new_meta key (length (src_data (qr_inner body)))
        (etag_of (src_data (qr_inner body))) content_type (now_string (w_tick v2)) None None sums (fst <$> enc)) lock)
        as (S0 & V0 & E0). fold m0 in S0, V0, E0. clearbody m0. cbn in S0, V0, E0.
      destruct enc as [[em [dek p]]|]; cbn [fmap option_fmap option_map fst snd] in *; [|done].
      destruct (seal_sidecar_ok dek m0 em E0) as (mac & Hs & Hver). rewrite Hs in Hver |- *.
      split_and!; [exact S0|exact V0|by exists mac|exact Hver]. }
    destruct Hfields as (HS & HV & HE). split; [done|done|done|done|].
    destruct enc as [[em [dek p]]|]; cbn in Hout.
    + destruct HE as [Hmac Hver]. split_and!; [done|done|]. by exists out.
    + split; [done|]. by rewrite Ho, Hout.
  - rewrite T1 in T2. cbn in T4. lia.
  - rewrite F4. cbn. apply R2. by destruct u2.
Qed.
Lemma put_object_flat_eq content_type body checksum encryption v :
  versioned_or_false st bucket v = (v, Ok false) ->
  put_object_flat st bucket key content_type body checksum encryption v =
  (enc ← match encryption with
         | Some req => c ← prepare_cipher st req; mret (Some c)
         | None => mret None
         end;
   _ ← create_parent (object_path st bucket key);
   tmp ← temp_sibling_path (object_path st bucket key);
   meta ← guarded false tmp (flat_block content_type tmp body checksum enc);
   _ ← index_upsert bucket meta;
   mret (put_result meta)) v.
Proof. intros Hv. unfold put_object_flat. unfold mbind at 1, M_bind at 1. rewrite Hv. reflexivity. Qed.

Lemma put_object_flat_spec content_type body checksum encryption v v' r :
  quiet v -> versioned_or_false st bucket v = (v, Ok false) ->
  put_object_flat st bucket key content_type body checksum encryption v = (v', r) ->
  match r with
  | Err _ => quiet v'
  | Ok res => exists enc meta v1,
      enc_ok encryption enc /\ src_end (qr_inner body) = Eof /\
      stored (src_data (qr_inner body)) enc meta (w_tree v1) /\ res = put_result meta /\ done_ v1 /\
      v' = mk_world (w_tree v1) ((fun idx => index_upsert_row idx bucket meta) <$> w_index v1) (w_tick v1)
  end.
Proof.
  intros Hv Hver. rewrite put_object_flat_eq by done. unfold mbind, M_bind.
  set (prep := match encryption with Some req => _ | None => _ end).
  assert (Hprep : pure_step prep /\ forall u u' enc, prep u = (u', Ok enc) -> enc_ok encryption enc).
  { subst prep. destruct encryption as [req|].
    - destruct (prepare_cipher_spec req) as [Hp He]. split.
      + apply (pure_bind (prepare_cipher st req)); [done|intros; apply pure_ret].
      + intros u u' enc Hu. destruct (prepare_cipher st req u) as [u1 [c|e]] eqn:Ec; [|done].
        injection Hu as _ <-. by eapply He.
    - split; [apply pure_ret|]. by intros u u' enc [= _ <-]. }
  clearbody prep. destruct Hprep as [Hpure Henc].
  destruct (prep v) as [v1 [enc|e]] eqn:E1; pose proof (Hpure v v1 _ E1) as (F1 & I1 & T1);
    assert (Hv1 : quiet v1) by (by eapply quiet_pure); [|by intros [= <- <-]].
  apply Henc in E1.
  destruct (create_parent (object_path st bucket key) v1) as [v2 r2] eqn:E2.
  apply (create_parent_spec P s (s +:+ ".meta.json") w0 names_ok (temp P w0) _ _ _ _ _ op_place Hv1) in E2
    as (Hv2 & _ & _ & T2 & _).
  destruct r2 as [u|e]; [|by intros [= <- <-]].
  destruct (temp_sibling P _ _ v2 op_place) as (tmp & -> & Htmp).
  set (v3 := mk_world (w_tree v2) (w_index v2) (S (w_tick v2))).
  assert (Hv3 : quiet v3) by (eapply quiet_pure; [exact Hv2|done..|cbn; lia]).
  pose proof (b_tick _ _ _ _ _ _ Hv2) as Ht2.
  assert (Hblock : forall u r', flat_block content_type tmp body checksum enc v3 = (u, r') ->
    match r' with
    | Err _ => quiet u
    | Ok meta => src_end (qr_inner body) = Eof /\ done_ u /\ stored (src_data (qr_inner body)) enc meta (w_tree u)
    end).
  { intros u' r' Hb. eapply (flat_block_spec content_type tmp (w_tick v2)); [exact Hv3|done|done|cbn; lia|exact Hb]. }
  destruct (guarded false tmp _ v3) as [v4 r4] eqn:E4.
  apply (guarded_spec P s (s +:+ ".meta.json") w0 tmp (w_tick v2) _ v3 v4 r4 Htmp Ht2) in E4;
    [|intros u' e Hb; by apply Hblock in Hb].
  destruct r4 as [meta|e]; [|by intros [= <- <-]].
  apply Hblock in E4 as (Heof & Hd & Hs). cbn. intros [= <- <-].
  exists enc, meta, v4. by split_and!.
Qed.
End flat.

(** ** Reading an encrypted file *)

Lemma frames_numbered prefix n : length prefix = 8 -> (Z.of_nat n <= 2 ^ 47)%Z ->
  nonce_format prefix (frame_count n FRAME_CHUNK_SIZE).
Proof.
  intros Hp Hn. right. split; [done|].
  assert (Hf : frame_count n FRAME_CHUNK_SIZE <= Z.to_nat (2 ^ 31)).
  { apply frame_count_le; [apply frame_size_pos|]. unfold FRAME_CHUNK_SIZE. nia. }
  unfold u32_max. lia.
Qed.

Lemma decrypted_file `{AeadSpec} dek prefix aad data ct :
  length prefix = 8 -> (Z.of_nat (length data) <= 2 ^ 47)%Z ->
  encrypt_chunks dek prefix aad 0 (chunks FRAME_CHUNK_SIZE data) = Ok ct ->
  exists d, preflight_frame_decryptor
      (decryptor_new (mk_source ct Eof []) dek (length data) FRAME_CHUNK_SIZE aad) = Ok d /\
    reads d data Eof.
Proof.
  intros Hp Hd Hct.
  pose proof (frames_numbered prefix (length data) Hp Hd) as Hn.
  destruct (decrypt_reads (R := source) FRAME_CHUNK_SIZE dek prefix aad data ct) as [_ Hr];
    [apply frame_size_pos|done..|].
  specialize (Hr (mk_source ct Eof []) ltac:(by split)).
  unfold preflight_frame_decryptor. destruct data as [|b data].
  { eexists. split; [reflexivity|exact Hr]. }
  destruct (preflight_spec (decryptor_new (mk_source ct Eof []) dek (length (b :: data)) FRAME_CHUNK_SIZE aad)
    (b :: data) Eof) as (d' & r & E & -> & Hd'); [by split|exact Hr|done..|].
  change (preflight 1) with (preflight (S (patience (mk_source ct Eof [])))).
  unfold decryptor_new, for_range_internal in E |- *. cbn [fd_inner] in E. rewrite E. by exists d'.
Qed.

(** ** The whole upload *)

(** The settings of a bucket whose objects are single unversioned files. *)
Definition flat_bucket `{Serde} (st : FilesystemStorage) (bucket : string) (t : tree) : Prop :=
  exists c bm, fs_read t (bucket_meta_path st bucket) = Ok c /\ parse_bucket c = Ok bm /\
    bm_versioning bm = false /\ (st_erasure_coding st = false \/ bm_erasure_coding bm = Some false).

(** No directory is in the way of an object, and temporary names are fresh. *)
Definition no_dirs `{Environment} (st : FilesystemStorage) (bucket key : string) (w : world) : Prop :=
  names (object_path st bucket key) ∉ t_dirs (w_tree w) /\
  names (meta_path st bucket key) ∉ t_dirs (w_tree w) /\
  names (ec_dir st bucket key) ∉ t_dirs (w_tree w) /\
  forall n l, w_tick w <= n -> l ++ [temp_name n] ∉ t_dirs (w_tree w).

(** What a consumer of the served stream obtains. *)
Definition delivers `{Aead} `{ReedSolomon} `{Sha256Hex} (s : ByteStream) (out : bytes) (e : stream_end) : Prop :=
  match s with
  | Plain s => reads s out e
  | Chunked r => reads r out e
  | Decrypted d => reads d out e
  | DecryptedChunks d => reads d out e
  end.

#[local] Existing Instance sha256_hex_of_crates.

Section upload.
Context `{EnvironmentSpec} `{CratesSpec} `{SerdeSpec} `{SerdeJson} `{AeadSpec} `{ReedSolomon}.
Context `{!KeyService FilesystemStorage} `{!KeyServiceSpec FilesystemStorage}.
Context (st : FilesystemStorage) (bucket key : string) (w0 : world).
Hypothesis Hst : storage_ok st.
Hypothesis Hbucket : validate_bucket_name bucket = Ok tt.
Hypothesis Hkey : object_key key.
Hypothesis Hflat : flat_bucket st bucket (w_tree w0).
Hypothesis Hdirs : no_dirs st bucket key w0.

(** The place of the object, as the sections above take it. *)
Lemma upload_place : exists P s,
  at_place (object_path st bucket key) P s /\ at_place (meta_path st bucket key) P (s +:+ ".meta.json") /\
  at_place (ec_dir st bucket key) P (s +:+ ".ec") /\ ends_with key "/" = false /\
  Forall (fun s => starts_with s ".maxio-tmp-" = false) (P ++ [s; s +:+ ".meta.json"]).
Proof.
  destruct (object_place st bucket Hst Hbucket key Hkey) as (F & s & Ho & Hm & He & Hs & _ & Hn).
  by exists (bucket_location st bucket ++ F), s.
Qed.

(** The record of the bucket is not among the files of an object. *)
Lemma record_apart : let record := bucket_location st bucket ++ [".bucket.json"] in
  record <> names (object_path st bucket key) /\ record <> names (meta_path st bucket key) /\
  forall P n, record <> P ++ [temp_name n].
Proof.
  destruct (object_place st bucket Hst Hbucket key Hkey) as (F & s & Ho & Hm & _ & _ & Hr & _).
  apply at_place_names in Ho as [_ ->]. apply at_place_names in Hm as [_ ->]. cbn zeta. split_and!.
  - intros [_ [= E]]%app_inj_2; [|done]. subst s. by apply Forall_app in Hr as [_ [? _]%Forall_cons].
  - intros [_ [= E]]%app_inj_2; [|done]. by apply strip_suffix_Some in E.
  - by intros P n [_ [=]]%app_inj_2.
Qed.
Lemma upload_keeps_record P s T v c :
  at_place (object_path st bucket key) P s -> at_place (meta_path st bucket key) P (s +:+ ".meta.json") ->
  (forall l, T l -> either P s (s +:+ ".meta.json") w0 l) -> base P s (s +:+ ".meta.json") w0 T v ->
  fs_read (w_tree w0) (bucket_meta_path st bucket) = Ok c -> fs_read (w_tree v) (bucket_meta_path st bucket) = Ok c.
Proof.
  intros Ho Hm HT Hb. destruct record_apart as (R1 & R2 & R3).
  destruct (at_place_names _ _ _ (bucket_meta_place st bucket Hst Hbucket)) as [Hp Hn].
  apply at_place_names in Ho as [_ Ho]. apply at_place_names in Hm as [_ Hm]. rewrite Ho in R1. rewrite Hm in R2.
  rewrite !fs_read_ok by done. intros [Hr Hf]. split; [by apply (resolve_mono (w_tree w0)); [apply (b_dirs _ _ _ _ _ _ Hb)|]|].
  rewrite (b_files _ _ _ _ _ _ Hb); [done|]. rewrite Hn. intros Ht%HT. destruct Ht as [(n & _ & E)|[E|E]]; [|done..].
  by apply R3 in E.
Qed.

Lemma flat_settings v : w_tree v = w_tree w0 ->
  versioned_or_false st bucket v = (v, Ok false) /\ effective_erasure_coding st bucket v = (v, Ok false).
Proof.
  intros Ht. destruct Hflat as (c & bm & Hr & Hp & Hv & He).
  assert (Hb : read_bucket_meta st bucket v = (v, Ok bm)).
  { unfold read_bucket_meta, mbind, M_bind, lift. rewrite Hbucket. unfold read_json. by rewrite Ht, Hr, Hp. }
  split.
  - unfold versioned_or_false, is_versioned, on_world, mbind, M_bind. rewrite Hb. cbn. by rewrite Hv.
  - unfold effective_erasure_coding, mbind, M_bind. destruct He as [-> |He]; [done|].
    destruct (st_erasure_coding st); [|done]. cbn. rewrite Hb. cbn. by rewrite He.
Qed.

Lemma pure_can_overwrite : pure_step (ensure_can_overwrite st bucket key).
Proof.
  unfold ensure_can_overwrite, exists_or_false, read_object_meta, protected_now.
  apply pure_bind; [auto with maxio_pure|intros []; cbn; auto 8 with maxio_pure].
Qed.
Lemma pure_upload_start declared : pure_step (check_upload_start st declared).
Proof. unfold check_upload_start. auto 8 with maxio_pure. Qed.
Lemma wrap_body body v : wrap_upload_reader st body v =
  (mk_world (w_tree v) (w_index v) (S (w_tick v)),
   Ok (quota_reader_new body (st_quota st) (fun k => available_disk_bytes (w_tick v + k)))).
Proof. done. Qed.

Lemma start_quiet P s :
  at_place (object_path st bucket key) P s -> at_place (meta_path st bucket key) P (s +:+ ".meta.json") ->
  base P s (s +:+ ".meta.json") w0 (temp P w0) w0.
Proof.
  intros [_ Ho]%at_place_names [_ Hm]%at_place_names. destruct Hdirs as (D1 & D2 & _ & D3).
  rewrite Ho in D1. rewrite Hm in D2. split; try done; [by left|].
  intros l [(n & Hn & ->)|[->| ->]]; [by apply D3|done..].
Qed.

Lemma put_object_spec P s content_type body checksum encryption declared w' r :
  at_place (object_path st bucket key) P s -> at_place (meta_path st bucket key) P (s +:+ ".meta.json") ->
  Forall (fun s => starts_with s ".maxio-tmp-" = false) (P ++ [s; s +:+ ".meta.json"]) ->
  ends_with key "/" = false ->
  put_object st bucket key content_type body checksum encryption declared w0 = (w', r) ->
  match r with
  | Err _ => base P s (s +:+ ".meta.json") w0 (temp P w0) w'
  | Ok res => exists enc meta v1,
      enc_ok st encryption enc /\ src_end body = Eof /\
      stored bucket key P s (src_data body) enc meta (w_tree v1) /\ res = put_result meta /\
      base P s (s +:+ ".meta.json") w0 (either P s (s +:+ ".meta.json") w0) v1 /\
      w' = mk_world (w_tree v1) ((fun idx => index_upsert_row idx bucket meta) <$> w_index v1) (w_tick v1)
  end.
Proof.
  intros Ho Hm Hn He. pose proof (start_quiet P s Ho Hm) as Hq.
  unfold put_object, mbind, M_bind. unfold lift at 1 2. rewrite Hbucket, (proj1 Hkey).
  destruct (ensure_can_overwrite st bucket key w0) as [v1 [u1|e]] eqn:E1;
    apply pure_can_overwrite in E1 as (F1 & I1 & T1);
    assert (Hq1 : base P s (s +:+ ".meta.json") w0 (temp P w0) v1) by (by eapply base_pure);
    [|by intros [= <- <-]].
  destruct (check_upload_start st declared v1) as [v2 [u2|e]] eqn:E2;
    apply pure_upload_start in E2 as (F2 & I2 & T2);
    assert (Hq2 : base P s (s +:+ ".meta.json") w0 (temp P w0) v2) by (by eapply base_pure);
    [|by intros [= <- <-]].
  rewrite wrap_body, He. set (v3 := mk_world _ _ _).
  assert (Hq3 : base P s (s +:+ ".meta.json") w0 (temp P w0) v3) by (eapply base_pure; [exact Hq2|done|done|cbn; lia]).
  destruct (flat_settings v3) as [Hver Hec]; [cbn; congruence|]. rewrite Hec.
  intros Hp. by eapply put_object_flat_spec in Hp.
Qed.

Lemma stored_sidecar P s data enc meta v :
  at_place (meta_path st bucket key) P (s +:+ ".meta.json") ->
  stored bucket key P s data enc meta (w_tree v) -> read_object_meta st bucket key v = (v, Ok meta).
Proof.
  intros Hm Hs. unfold read_object_meta, read_json, fs_read.
  rewrite (resolve_place _ _ _ _ Hm (sd_reach _ _ _ _ _ _ _ _ Hs)). cbn.
  by rewrite (sd_meta _ _ _ _ _ _ _ _ Hs), parse_object_json.
Qed.

Lemma stored_payload P s data enc meta t c :
  at_place (object_path st bucket key) P s -> stored bucket key P s data enc meta t ->
  t_files t !! (P ++ [s]) = Some c -> fs_read t (object_path st bucket key) = Ok c.
Proof.
  intros Ho Hs Hc. unfold fs_read. rewrite (resolve_place _ _ _ _ Ho (sd_reach _ _ _ _ _ _ _ _ Hs)). cbn.
  by rewrite Hc.
Qed.

Lemma chunks_absent P s T v :
  at_place (ec_dir st bucket key) P (s +:+ ".ec") ->
  base P s (s +:+ ".meta.json") w0 T v -> names (ec_dir st bucket key) ∉ t_dirs (w_tree v).
Proof.
  intros He Hb. apply at_place_names in He as [Hp En]. intros Hin.
  apply (b_new _ _ _ _ _ _ Hb) in Hin as [Hin|Hin].
  - destruct Hdirs as (_ & _ & D3 & _). by apply D3.
  - rewrite En in Hin. apply prefix_length in Hin. rewrite length_app in Hin. cbn in Hin. lia.
Qed.

Lemma not_chunked P s T v :
  at_place (ec_dir st bucket key) P (s +:+ ".ec") ->
  base P s (s +:+ ".meta.json") w0 T v -> is_dir (w_tree v) (ec_dir st bucket key) = false.
Proof.
  intros He Hb. apply is_dir_absent; [by apply at_place_names in He as [? _]|by eapply chunks_absent].
Qed.

Lemma not_chunked_path w : is_dir (w_tree w) (ec_dir st bucket key) = false ->
  is_chunked_path (ec_dir st bucket key) w = (w, Ok false).
Proof. intros Hec. unfold is_chunked_path, get_tree, mbind, M_bind. by rewrite Hec. Qed.

(** The key of a stored object is found by a reader who brings the same customer
    key. *)
Lemma stored_key req em dek prefix data P s meta t :
  enc_ok st (Some req) (Some (em, (dek, prefix))) -> stored bucket key P s data (Some (em, (dek, prefix))) meta t ->
  exists em', om_encryption meta = Some em' /\ em_chunk_size em' = 65536%Z /\
    unlock st meta em' (er_customer_key req) = Ok dek.
Proof.
  intros (Hres & Hcs & _) Hs. destruct (sd_enc _ _ _ _ _ _ _ _ Hs) as ((mac & Em) & Hv & _).
  exists (with_sidecar_mac em mac). split_and!; [done|done|]. unfold unlock. rewrite ks_resolve_mac, Hres. cbn. by rewrite Hv.
Qed.

Lemma get_object_stored P s data encryption enc meta w :
  at_place (object_path st bucket key) P s -> at_place (meta_path st bucket key) P (s +:+ ".meta.json") ->
  is_dir (w_tree w) (ec_dir st bucket key) = false ->
  (Z.of_nat (length data) <= 2 ^ 47)%Z ->
  enc_ok st encryption enc -> stored bucket key P s data enc meta (w_tree w) ->
  exists stream, get_object st bucket key (encryption ≫= er_customer_key) w = (w, Ok (stream, meta)) /\
    delivers stream data Eof.
Proof.
  intros Ho Hm Hec Hlen Henc Hs.
  unfold get_object. rewrite (run_lift _ _ _ _ Hbucket), (run_lift _ _ _ _ (proj1 Hkey)).
  rewrite (run_ok _ _ _ _ _ (stored_sidecar P s data enc meta w Hm Hs)).
  destruct enc as [[em [dek prefix]]|], encryption as [req|]; try done.
  - destruct (stored_key _ _ _ _ _ _ _ _ _ Henc Hs) as (em' & Em & Hcs & Hu).
    destruct Henc as (_ & _ & Hpl). destruct (sd_enc _ _ _ _ _ _ _ _ Hs) as (_ & _ & ct & Hf & Hct).
    destruct (decrypted_file dek prefix _ data ct Hpl Hlen Hct) as (d & Hd & Hrd).
    exists (Decrypted d). split; [|done].
    rewrite (run_lift _ _ _ tt) by (unfold reject_sse_c_on_plaintext; by rewrite Em, andb_false_r).
    rewrite (run_ok _ _ _ _ _ (not_chunked_path w Hec)), Em. cbn [option_bind mbind].
    unfold serve_encrypted_file, with_missing, open_file, mbind, M_bind, lift, get_tree.
    cbn [option_bind mbind]. rewrite Hu, (stored_payload P s data _ meta _ _ Ho Hs Hf).
    cbn [map_err]. rewrite file_bytes_raw, Hcs.
    rewrite (sd_size _ _ _ _ _ _ _ _ Hs), Nat2Z.id. unfold object_aad. rewrite (sd_version _ _ _ _ _ _ _ _ Hs).
    unfold aad in Hd. unfold FRAME_CHUNK_SIZE in Hd. by rewrite Hd.
  - destruct (sd_enc _ _ _ _ _ _ _ _ Hs) as [Em Hf].
    exists (Plain (mk_source data Eof [])). split; [|by split].
    rewrite (run_lift _ _ _ tt) by done. rewrite (run_ok _ _ _ _ _ (not_chunked_path w Hec)), Em.
    destruct (_ <=? _)%Z; unfold with_missing, open_file, mbind, M_bind, lift, get_tree;
      rewrite (stored_payload P s data _ meta _ _ Ho Hs Hf); cbn; by rewrite file_bytes_raw.
Qed.

(** The same for a range within the object. *)
Lemma get_range_stored P s data encryption enc meta w offset len :
  at_place (object_path st bucket key) P s -> at_place (meta_path st bucket key) P (s +:+ ".meta.json") ->
  is_dir (w_tree w) (ec_dir st bucket key) = false ->
  (Z.of_nat (length data) <= 2 ^ 47)%Z -> offset + len <= length data ->
  enc_ok st encryption enc -> stored bucket key P s data enc meta (w_tree w) ->
  exists stream, get_object_range st bucket key offset len (encryption ≫= er_customer_key) w = (w, Ok (stream, meta)) /\
    delivers stream (take len (drop offset data)) Eof.
Proof.
  intros Ho Hm Hec Hlen Hrange Henc Hs.
  unfold get_object_range. rewrite (run_lift _ _ _ _ Hbucket), (run_lift _ _ _ _ (proj1 Hkey)).
  rewrite (run_ok _ _ _ _ _ (stored_sidecar P s data enc meta w Hm Hs)).
  destruct enc as [[em [dek prefix]]|], encryption as [req|]; try done.
  - destruct (stored_key _ _ _ _ _ _ _ _ _ Henc Hs) as (em' & Em & Hcs & Hu).
    destruct Henc as (_ & _ & Hpl). destruct (sd_enc _ _ _ _ _ _ _ _ Hs) as (_ & _ & ct & Hf & Hct).
    rewrite (run_lift _ _ _ tt) by (unfold reject_sse_c_on_plaintext; by rewrite Em, andb_false_r).
    rewrite (run_ok _ _ _ _ _ (not_chunked_path w Hec)), Em. cbn [option_bind mbind].
    unfold with_missing, open_file, mbind, M_bind, lift, get_tree.
    cbn [option_bind mbind]. rewrite Hu, (stored_payload P s data _ meta _ _ Ho Hs Hf).
    eexists. split; [reflexivity|]. rewrite file_bytes_raw, Hcs.
    rewrite (sd_size _ _ _ _ _ _ _ _ Hs), Nat2Z.id. unfold object_aad. rewrite (sd_version _ _ _ _ _ _ _ _ Hs).
    change (Z.to_nat 65536) with FRAME_CHUNK_SIZE.
    apply (decrypt_reads (R := source) FRAME_CHUNK_SIZE dek prefix _ data ct);
      [apply frame_size_pos|by apply frames_numbered|exact Hct|lia|by split].
  - destruct (sd_enc _ _ _ _ _ _ _ _ Hs) as [Em Hf].
    exists (Plain (mk_source (take len (drop offset data)) Eof [])). split; [|by split].
    rewrite (run_lift _ _ _ tt) by done. rewrite (run_ok _ _ _ _ _ (not_chunked_path w Hec)), Em.
    unfold with_missing, open_file, mbind, M_bind, lift, get_tree.
    rewrite (stored_payload P s data _ meta _ _ Ho Hs Hf). cbn [map_err]. rewrite file_bytes_raw.
    unfold read_exact, take_limit, seek. cbn [src_data src_end src_schedule].
    assert (Hl : len <= length (drop offset data)) by (rewrite length_drop; lia).
    destruct (_ <=? _)%Z; by rewrite decide_True.
Qed.
End upload.

(** ** The claims *)

(** A location no temporary file has. *)
Definition not_temporary (l : location) : Prop := Forall (fun s => starts_with s temp_prefix = false) l.

Section claims.
Context `{EnvironmentSpec} `{CratesSpec} `{SerdeSpec} `{SerdeJson} `{AeadSpec} `{ReedSolomon}.
Context `{!KeyService FilesystemStorage} `{!KeyServiceSpec FilesystemStorage}.

Lemma not_temporary_not_temp P w0 l : not_temporary l -> ~ temp P w0 l.
Proof.
  intros Hl (n & _ & ->). apply Forall_app in Hl as [_ [Hl _]%Forall_cons].
  rewrite temp_name_temp in Hl. done.
Qed.

(** What holds in the world a successful upload leaves. *)
Lemma upload_readable st bucket key content_type body checksum encryption declared w w' res :
  storage_ok st -> validate_bucket_name bucket = Ok tt -> object_key key ->
  flat_bucket st bucket (w_tree w) -> no_dirs st bucket key w ->
  (Z.of_nat (length (src_data body)) <= 2 ^ 47)%Z ->
  put_object st bucket key content_type body checksum encryption declared w = (w', Ok res) ->
  exists meta, put_result meta = res /\ om_size meta = Z.of_nat (length (src_data body)) /\ src_end body = Eof /\
    fs_read (w_tree w') (bucket_meta_path st bucket) = fs_read (w_tree w) (bucket_meta_path st bucket) /\
    head_object st bucket key w' = (w', Ok meta) /\
    (exists stream, get_object st bucket key (encryption ≫= er_customer_key) w' = (w', Ok (stream, meta)) /\
       delivers stream (src_data body) Eof) /\
    (forall offset len, offset + len <= length (src_data body) ->
       exists stream,
         get_object_range st bucket key offset len (encryption ≫= er_customer_key) w' = (w', Ok (stream, meta)) /\
         delivers stream (take len (drop offset (src_data body))) Eof).
Proof.
  intros Hst Hb Hk Hf Hd Hlen Hp. pose proof (upload_place st bucket key Hst Hb Hk) as Hplace.
  destruct Hplace as [P [s (Ho & Hm & He & Hend & Hn)]].
  pose proof (put_object_spec st bucket key w Hb Hk Hf Hd P s _ _ _ _ _ _ _ Ho Hm Hn Hend Hp)
    as (enc & meta & v1 & Henc & Heof & Hs & -> & Hbase & ->).
  pose proof (not_chunked st bucket key w Hd P s _ v1 He Hbase) as Hec.
  set (w' := mk_world (w_tree v1) ((fun idx => index_upsert_row idx bucket meta) <$> w_index v1) (w_tick v1)).
  exists meta. split_and!; [done|by eapply sd_size|done| | | |].
  - destruct Hf as (c & bm & Hc & _). rewrite Hc.
    by apply (upload_keeps_record st bucket key w Hst Hb Hk P s _ v1 c Ho Hm (fun l Hl => Hl) Hbase).
  - unfold head_object. rewrite (run_lift _ _ _ _ Hb), (run_lift _ _ _ _ (proj1 Hk)).
    by apply (stored_sidecar st bucket key P s (src_data body) enc meta w').
  - by apply (get_object_stored st bucket key Hb Hk P s (src_data body) encryption enc meta w').
  - intros offset len Hol. by apply (get_range_stored st bucket key Hb Hk P s (src_data body) encryption enc meta w' offset len).
Qed.

(** C2: what a successful upload stored as a single file, a download gives back:
    in a bucket that keeps no versions and no chunks ([flat_bucket]), with no
    directory in the way of the object ([no_dirs]) and a body of at most 2^47
    bytes, the stream served by [get_object] with the same customer key delivers
    exactly the bytes of the body and then ends, whether the object is plain or
    encrypted in any of the three modes, and the metadata returned is the one the
    upload reported. *)
Theorem put_then_get st bucket key content_type body checksum encryption declared w w' res :
  storage_ok st -> validate_bucket_name bucket = Ok tt -> object_key key ->
  flat_bucket st bucket (w_tree w) -> no_dirs st bucket key w ->
  (Z.of_nat (length (src_data body)) <= 2 ^ 47)%Z ->
  put_object st bucket key content_type body checksum encryption declared w = (w', Ok res) ->
  exists stream meta,
    get_object st bucket key (encryption ≫= er_customer_key) w' = (w', Ok (stream, meta)) /\
    delivers stream (src_data body) Eof /\ put_result meta = res /\
    om_size meta = Z.of_nat (length (src_data body)).
Proof.
  intros Hst Hb Hk Hf Hd Hlen Hp.
  destruct (upload_readable _ _ _ _ _ _ _ _ _ _ _ Hst Hb Hk Hf Hd Hlen Hp) as (meta & Hr & Hsz & _ & _ & _ & (stream & Hg & Hdel) & _).
  by exists stream, meta.
Qed.

(** C4: an upload is atomic and touches one object, in a bucket that keeps no
    versions and no chunks, with no directory in the way of the object.  Whatever
    its outcome, no directory is lost and every file outside the object's payload
    and sidecar keeps its content, temporary names aside; when it fails, the payload
    and sidecar of the object it was to replace are unchanged as well, and so is
    the metadata index. *)
Theorem upload_changes_one_object st bucket key content_type body checksum encryption declared w w' r l :
  storage_ok st -> validate_bucket_name bucket = Ok tt -> object_key key ->
  flat_bucket st bucket (w_tree w) -> no_dirs st bucket key w ->
  put_object st bucket key content_type body checksum encryption declared w = (w', r) ->
  not_temporary l ->
  is_err r = true \/ l <> names (object_path st bucket key) /\ l <> names (meta_path st bucket key) ->
  t_files (w_tree w') !! l = t_files (w_tree w) !! l /\ t_dirs (w_tree w) ⊆ t_dirs (w_tree w') /\
  (is_err r = true -> w_index w' = w_index w).
Proof.
  intros Hst Hb Hk Hf Hd Hp Hl Hr. pose proof (upload_place st bucket key Hst Hb Hk) as Hplace.
  destruct Hplace as [P [s (Ho & Hm & He & Hend & Hn)]].
  apply (put_object_spec st bucket key w Hb Hk Hf Hd P s) in Hp; [|done..].
  pose proof (not_temporary_not_temp P w l Hl) as Hnt.
  apply at_place_names in Ho as [_ Ho]. apply at_place_names in Hm as [_ Hm]. rewrite Ho, Hm in Hr.
  destruct r as [res|e].
  - destruct Hr as [Hr|[Hno Hnm]]; [done|].
    destruct Hp as (enc & meta & v1 & _ & _ & _ & _ & Hbase & ->). cbn.
    split_and!; [|by eapply b_dirs|done].
    apply (b_files _ _ _ _ _ _ Hbase). intros [?|[?|?]]; done.
  - split_and!; [by apply (b_files _ _ _ _ _ _ Hp)|by eapply b_dirs|].
    intros _. by eapply b_index.
Qed.
End claims.

(** ** Witnesses *)

Import Demo.Toys.

Definition flat_world : world := demo_world (demo_bucket false None None).
Lemma demo_flat ec : ec = false -> flat_bucket (demo_storage ec) "pets" (w_tree flat_world).
Proof. intros ->. exists (BucketJson (demo_bucket false None None)), (demo_bucket false None None). split_and!; [vm_compute; reflexivity..|by left]. Qed.
Lemma demo_no_dirs key :
  names (object_path (demo_storage false) "pets" key) ∉ t_dirs (w_tree flat_world) ->
  names (meta_path (demo_storage false) "pets" key) ∉ t_dirs (w_tree flat_world) ->
  names (ec_dir (demo_storage false) "pets" key) ∉ t_dirs (w_tree flat_world) ->
  no_dirs (demo_storage false) "pets" key flat_world.
Proof.
  intros. split_and!; [done..|]. intros n l _.
  apply no_temp_dirs_ok; [vm_compute; reflexivity|apply temp_name_temp].
Qed.

Lemma put_then_get_witness : exists w' res stream meta,
  put_object (demo_storage false) "pets" "cat" "text/plain" (body_of "meow") None (Some sse_s3) None flat_world = (w', Ok res) /\
  get_object (demo_storage false) "pets" "cat" None w' = (w', Ok (stream, meta)) /\
  delivers stream (as_bytes "meow") Eof.
Proof.
  destruct (put_object (demo_storage false) "pets" "cat" "text/plain" (body_of "meow") None (Some sse_s3) None flat_world)
    as [w' [res|e]] eqn:E; [|exfalso; vm_compute in E; discriminate].
  destruct (put_then_get (demo_storage false) "pets" "cat" "text/plain" (body_of "meow") None (Some sse_s3) None
    flat_world w' res) as (stream & meta & Hg & Hd & _); [apply demo_storage_ok|vm_compute; reflexivity| | | |vm_compute; discriminate|exact E|].
  - split; [vm_compute; reflexivity|]. exists [], "cat". split; [vm_compute; reflexivity|]. by intros [?|?].
  - by apply demo_flat.
  - apply demo_no_dirs; apply (bool_decide_unpack _); vm_compute; exact I.
  - exists w', res, stream, meta. exact (conj eq_refl (conj Hg Hd)).
Defined.

Lemma upload_changes_one_object_witness :
  let body := mk_source (as_bytes "me") (Fail (mk_io_error Other "reset")) [] in
  let l := ["data"; "buckets"; "pets"; ".bucket.json"] in
  exists w' e, put_object (demo_storage false) "pets" "cat" "text/plain" body None None None flat_world = (w', Err e) /\
    t_files (w_tree w') !! l = t_files (w_tree flat_world) !! l.
Proof.
  set (body := mk_source _ _ _). set (l := [_; _; _; _]). cbn zeta.
  destruct (put_object (demo_storage false) "pets" "cat" "text/plain" body None None None flat_world)
    as [w' [res|e]] eqn:E; [exfalso; vm_compute in E; discriminate|].
  destruct (upload_changes_one_object (demo_storage false) "pets" "cat" "text/plain" body None None None
    flat_world w' (Err e) l) as [Hl _]; [apply demo_storage_ok|vm_compute; reflexivity| | | |exact E| | |].
  - split; [vm_compute; reflexivity|]. exists [], "cat". split; [vm_compute; reflexivity|]. by intros [?|?].
  - by apply demo_flat.
  - apply demo_no_dirs; apply (bool_decide_unpack _); vm_compute; exact I.
  - subst l. by repeat constructor.
  - by left.
  - exists w', e. exact (conj eq_refl Hl).
Defined.
