(* ===== verification/ChunkedSpec.v ===== *)
(** * Uploads in chunks are read back after damage

    The erasure-coded layout of [Objects], plain and encrypted: what a successful
    [put_object] leaves in the chunk directory, and that [get_object] returns it
    as long as enough of the files of that directory are intact. *)

From stdpp Require Import base list gmap sets sorting numbers strings pretty.
From Stdlib Require Import ZArith Lia Ascii Strings.Byte.
From S2P Require Import Prelude Bytes Reader Types Quota Crypto ErasureCode ChunkReader ChunkWriter EncryptedEc MetadataIndex FileSystem Paths World Keyring TreeOk Storage BucketConfig Sidecar Encryption Publish Objects ObjectsSpec Demo.

Local Open Scope nat_scope.

(** ** The data *)



#[local] Existing Instance sha256_hex_of_crates.

Section data.
Context `{Crates} `{ReedSolomonSpec}.






End data.

(** ** Names of chunks *)





(** ** Renaming, whatever is renamed *)






(** ** Effects below some names of a directory *)

Section place.
Context `{EnvironmentSpec} (P : location).









Context (st : FilesystemStorage) (bucket key s : string).
Hypothesis ec_place : at_place (ec_dir st bucket key) P (s +:+ ".ec").
Hypothesis mp_place : at_place (meta_path st bucket key) P (s +:+ ".meta.json").
Hypothesis ec_not_temp : starts_with (s +:+ ".ec") ".maxio-tmp-" = false.
Hypothesis mp_not_temp : starts_with (s +:+ ".meta.json") ".maxio-tmp-" = false.








(** ** The staged files *)







(** ** The uploads *)

Context `{CratesSpec} `{SerdeSpec} `{SerdeJson} `{AeadSpec} `{ReedSolomonSpec}.
Context `{!KeyService FilesystemStorage} `{!KeyServiceSpec FilesystemStorage}.
Hypothesis chunk_size_pos : 0 < st_chunk_size st.







(** ** Reading *)






Hypothesis Hbucket : validate_bucket_name bucket = Ok tt.
Hypothesis Hkey : validate_key key = Ok tt.


End place.

(** ** The claim *)


Section claim.
Context `{EnvironmentSpec} `{CratesSpec} `{SerdeSpec} `{SerdeJson} `{AeadSpec} `{ReedSolomonSpec}.
Context `{!KeyService FilesystemStorage} `{!KeyServiceSpec FilesystemStorage}.
Context (st : FilesystemStorage) (bucket key : string).
Hypothesis Hst : storage_ok st.
Hypothesis Hbucket : validate_bucket_name bucket = Ok tt.
Hypothesis Hkey : object_key key.




End claim.

(** ** The first chunk is lost, and the object read *)

Import Demo.Toys.



