(* ===== verification/Versions.v ===== *)
(** * Versions and deletion

    [filesystem/encryption_io.rs] (delete markers, the current version, reading
    and deleting one version) and [delete_object] of [object_io.rs]. *)

From stdpp Require Import base list gmap sets sorting numbers strings pretty.
From Stdlib Require Import ZArith Lia Ascii Strings.Byte.
From S2P Require Import Prelude Bytes Reader Types Quota Crypto ErasureCode ChunkReader MetadataIndex FileSystem Paths World Storage BucketConfig Sidecar Objects.

Local Open Scope nat_scope.

Section versions.
Context `{Environment} `{Crates} `{Serde} `{SerdeJson} `{Aead} `{ReedSolomon}.
Context `{KeyService FilesystemStorage} (st : FilesystemStorage).

(** The three places an object may be at, removed without looking at errors. *)
Definition remove_current (bucket key : string) : M StorageError unit :=
  _ ← ignore (fun t => fs_remove_file t (object_path st bucket key));
  _ ← ignore (fun t => fs_remove_file t (meta_path st bucket key));
  ignore (fun t => fs_remove_dir_all t (ec_dir st bucket key)).

Definition marker_meta (key now version_id : string) : ObjectMeta :=
  mk_ObjectMeta key 0 "" "" now (Some version_id) true None None None None None None None None None.

Definition write_delete_marker (bucket key : string) : M StorageError DeleteResult :=
  version_id ← generate_version_id;
  now ← now_iso;
  let ver_dir := versions_dir st bucket key in
  _ ← call (fun t => fs_create_dir_all t ver_dir);
  _ ← call (fun t => fs_write t (join ver_dir (version_id +:+ ".meta.json"))
                       (ObjectJson (marker_meta key now version_id)));
  _ ← remove_current bucket key;
  mret (mk_DeleteResult (Some version_id) true).

(** ** The current version *)

Definition string_ge (a b : string) : Prop := String.leb b a = true.
Global Instance string_ge_dec a b : Decision (string_ge a b).
Proof. unfold string_ge. apply _. Defined.

(** The version sidecars of a directory, newest name first. *)
Definition version_names (entries : list (string * bool)) : list string :=
  merge_sort string_ge (filter (fun name => ends_with name ".meta.json" = true) (map fst entries)).

(** Making a version the current one: its chunks or its file, then its sidecar. *)
Definition restore_version (bucket key ver_dir : string) (meta : ObjectMeta) : M StorageError unit :=
  vid ← lift (ok_or (om_version_id meta) (IntegrityError "version metadata missing version_id"));
  let ver_ec := join ver_dir (vid +:+ ".ec") in
  t ← get_tree;
  _ ← (if is_dir t ver_ec then
         let dst_ec := ec_dir st bucket key in
         _ ← create_parent dst_ec;
         _ ← ignore (fun t => fs_remove_dir_all t dst_ec);
         _ ← call (fun t => fs_create_dir_all t dst_ec);
         copy_dir ver_ec dst_ec
       else
         let path := object_path st bucket key in
         _ ← create_parent path;
         call (fun t => fs_copy t (join ver_dir (vid +:+ ".data")) path));
  _ ← create_parent (meta_path st bucket key);
  call (fun t => fs_write t (meta_path st bucket key) (ObjectJson meta)).

(** The first sidecar that is no delete marker is restored. *)
Fixpoint restore_newest (bucket key ver_dir : string) (versions : list string) : M StorageError unit :=
  match versions with
  | [] => remove_current bucket key
  | name :: versions =>
      c ← query (fun t => fs_read t (join ver_dir name));
      meta ← lift (map_err Json (parse_object c));
      if negb (om_is_delete_marker meta) then restore_version bucket key ver_dir meta
      else restore_newest bucket key ver_dir versions
  end.

Definition update_current_version (bucket key : string) : M StorageError unit :=
  let ver_dir := versions_dir st bucket key in
  there ← exists_or_false ver_dir;
  if negb there then mret tt
  else
    entries ← query (fun t => fs_read_dir t ver_dir);
    restore_newest bucket key ver_dir (version_names entries).

(** ** One version *)

Definition read_version_meta (bucket key version_id : string) : M StorageError ObjectMeta :=
  read_json (version_meta_path st bucket key version_id) parse_object (VersionNotFound version_id).

Definition get_object_version (bucket key version_id : string) (customer_key : option bytes)
    : M StorageError (ByteStream * ObjectMeta) :=
  _ ← lift (validate_bucket_name bucket);
  _ ← lift (validate_key key);
  if decide (version_id = "null") then get_object st bucket key customer_key
  else
    meta ← read_version_meta bucket key version_id;
    _ ← fail_if (om_is_delete_marker meta) (NotFoundError key);
    _ ← lift (reject_sse_c_on_plaintext meta (bool_decide (is_Some customer_key)));
    let ver_ec_dir := version_ec_path st bucket key version_id in
    t ← get_tree;
    stream ←
      (if is_dir t ver_ec_dir then
         manifest ← read_json (join ver_ec_dir "manifest.json") parse_manifest (VersionNotFound version_id);
         serve_chunks st bucket key meta customer_key ver_ec_dir manifest
       else
         let path := version_data_path st bucket key version_id in
         match om_encryption meta with
         | Some em => serve_encrypted_file st bucket key meta em customer_key path (VersionNotFound version_id)
         | None => file ← with_missing (VersionNotFound version_id) (fun t => open_file t path); mret (Plain file)
         end);
    mret (stream, meta).

Definition head_object_version (bucket key version_id : string) : M StorageError ObjectMeta :=
  _ ← lift (validate_bucket_name bucket);
  _ ← lift (validate_key key);
  if decide (version_id = "null") then head_object st bucket key
  else
    meta ← read_version_meta bucket key version_id;
    _ ← fail_if (om_is_delete_marker meta) (NotFoundError key);
    mret meta.

Definition delete_null_version (bucket key : string) : M StorageError ObjectMeta :=
  meta ← read_object_meta st bucket key;
  p ← protected_now meta;
  _ ← fail_if p locked;
  _ ← remove_file_if_exists (object_path st bucket key);
  _ ← remove_file_if_exists (meta_path st bucket key);
  _ ← remove_dir_all_if_exists (ec_dir st bucket key);
  _ ← update_current_version bucket key;
  mret meta.

Definition delete_object_version (bucket key version_id : string) : M StorageError ObjectMeta :=
  _ ← lift (validate_bucket_name bucket);
  _ ← lift (validate_key key);
  if decide (version_id = "null") then delete_null_version bucket key
  else
    meta ← read_version_meta bucket key version_id;
    p ← protected_now meta;
    _ ← fail_if p version_locked;
    _ ← ignore (fun t => fs_remove_file t (version_meta_path st bucket key version_id));
    _ ← ignore (fun t => fs_remove_file t (version_data_path st bucket key version_id));
    _ ← ignore (fun t => fs_remove_dir_all t (version_ec_path st bucket key version_id));
    _ ← ignore (fun t => fs_remove_dir t (versions_dir st bucket key));
    _ ← update_current_version bucket key;
    mret meta.

(** ** Deletion *)

(** Empty parents of the object, up to the bucket: [fuel] is the depth. *)
Fixpoint remove_empty_parents (fuel : nat) (bucket : string) (dir : option string) (t : tree) : tree :=
  match fuel, dir with
  | S fuel, Some d =>
      if decide (components d = components (bucket_dir st bucket)) then t
      else match fs_remove_dir t d with
           | (t, Ok _) => remove_empty_parents fuel bucket (path_parent d) t
           | (t, Err _) => t
           end
  | _, _ => t
  end.

Definition delete_object (bucket key : string) : M StorageError DeleteResult :=
  _ ← lift (validate_bucket_name bucket);
  _ ← lift (validate_key key);
  versioned ← versioned_or_false st bucket;
  let obj_path := object_path st bucket key in
  let sidecar := meta_path st bucket key in
  let ec := ec_dir st bucket key in
  if versioned : bool then
    there ← exists_or_false sidecar;
    _ ← (if there : bool then meta ← read_object_meta st bucket key; ensure_can_delete_meta meta
         else mret tt);
    write_delete_marker bucket key
  else
    has_meta ← query (fun t => try_exists t sidecar);
    has_obj ← (if has_meta : bool then mret true else query (fun t => try_exists t obj_path));
    has_any ← (if has_obj : bool then mret true else query (fun t => try_exists t ec));
    if negb has_any then mret (mk_DeleteResult None false)
    else
      _ ← (if has_meta : bool then meta ← read_object_meta st bucket key; ensure_can_delete_meta meta
           else mret tt);
      _ ← remove_file_if_exists obj_path;
      _ ← remove_file_if_exists sidecar;
      _ ← remove_dir_all_if_exists ec;
      _ ← index_remove bucket key;
      _ ← on_world (fun w => (with_tree w (remove_empty_parents (length (components obj_path)) bucket
                                             (path_parent obj_path) (w_tree w)), Ok tt));
      mret (mk_DeleteResult None false).
End versions.
