(* ===== verification/Multipart.v ===== *)
(** * Multipart uploads

    [filesystem/multipart.rs]: an upload is a directory under [.uploads] with its
    record, and for each part a payload file and a record.  Completing it copies
    the parts, one after the other, into a new object in one of the three forms
    of [Objects]; aborting it removes the directory. *)

From stdpp Require Import base list gmap sets sorting numbers strings pretty.
From Stdlib Require Import ZArith Lia Ascii Strings.Byte.
From S2P Require Import Prelude IpAddr Glob Policy Bytes Reader Types Quota Crypto ErasureCode ChunkReader ChunkWriter EncryptedEc MetadataIndex FileSystem Paths World Keyring Storage BucketConfig Sidecar Encryption Objects.

Local Open Scope nat_scope.

(** The hex crate, which reads etags back. *)
Class HexDecode : Type := { hex_decode : string -> option bytes }.
Class HexDecodeSpec `{Crates} `{HexDecode} : Prop := {
  hex_decode_encode b : hex_decode (hex_encode b) = Some b;
  hex_encode_quotes b : contains_char "034"%char (hex_encode b) = false;
}.

(** tokio's [BufWriter]: of the bytes written, those that have reached the file
    when the writer is dropped without a flush. *)
Class Buffering : Type := { handed_over : bytes -> bytes }.
Class BufferingSpec `{Buffering} : Prop := { handed_over_prefix b : handed_over b `prefix_of` b }.

(** [trim_matches] of double quotes. *)
Fixpoint drop_quotes (l : list ascii) : list ascii :=
  match l with
  | c :: l' => if decide (c = "034"%char) then drop_quotes l' else l
  | [] => []
  end.
Definition trim_quotes (s : string) : string :=
  of_chars (rev (drop_quotes (rev (drop_quotes (chars s))))).

(** The loop of [pump], kept with the state in which an error found it. *)
Section pump_to.
Context {R St Er : Type} `{!AsyncRead R}.
Context (cap : nat) (read_error : io_error -> Er) (f : St -> bytes -> result Er St).

Fixpoint pump_to (fuel : nat) (s : St) (r : R) : St * option (result Er unit) :=
  match fuel with
  | O => (s, None)
  | S fuel =>
      match poll_read r cap with
      | (r, Pending) => pump_to fuel s r
      | (r, Ready (Ok [])) => (s, Some (Ok tt))
      | (r, Ready (Ok bs)) =>
          match f s bs with
          | Ok s => pump_to fuel s r
          | Err x => (s, Some (Err x))
          end
      | (r, Ready (Err x)) => (s, Some (Err (read_error x)))
      end
  end.

Lemma pump_to_pump fuel s r :
  pump cap read_error f fuel s r =
  match pump_to fuel s r with
  | (s, Some (Ok _)) => Some (Ok s)
  | (_, Some (Err x)) => Some (Err x)
  | (_, None) => None
  end.
Proof.
  revert s r. induction fuel as [|fuel IH]; intros s r; [done|]. cbn.
  destruct (poll_read r cap) as [r' [|[[|b bs]|x]]]; [apply IH|done| |done].
  destruct (f s (b :: bs)); [apply IH|done].
Qed.
End pump_to.

Definition MIN_PART_SIZE : Z := 5 * 1024 * 1024.

Section multipart.
Context `{Environment} `{Crates} `{Serde} `{SerdeJson} `{Aead} `{ReedSolomon} `{HexDecode} `{Buffering}.
Context `{!KeyService FilesystemStorage} (st : FilesystemStorage).

#[local] Existing Instance sha256_hex_of_crates.

(** ** The records *)

Definition read_upload_meta (bucket upload_id : string) : M StorageError MultipartUploadMeta :=
  read_json (upload_meta_path st bucket upload_id) parse_upload (UploadNotFound upload_id).
Definition read_part_meta (bucket upload_id : string) (part_number : Z) : M StorageError PartMeta :=
  read_json (part_meta_path st bucket upload_id part_number) parse_part
    (InvalidKey ("missing part " +:+ pretty part_number)).

(** ** Creation *)

Definition with_nonce_prefix (spec : UploadEncryptionSpec) (prefix : string) : UploadEncryptionSpec :=
  mk_UploadEncryptionSpec (ue_mode spec) (ue_customer_key_md5 spec) (ue_upload_dek_wrapped spec)
    (ue_upload_dek_wrap_nonce spec) (ue_upload_dek_key_id spec) (ue_kms_key_id spec) prefix.
Definition with_upload_dek (spec : UploadEncryptionSpec) (wrapped wrap_nonce : string)
    (key_id kms_key_id : option string) : UploadEncryptionSpec :=
  mk_UploadEncryptionSpec (ue_mode spec) (ue_customer_key_md5 spec) (Some wrapped)
    (Some wrap_nonce) key_id kms_key_id (ue_upload_nonce_prefix spec).

(** The upload's nonce prefix and data key, added to the requested encryption. *)
Definition augment_spec (spec : UploadEncryptionSpec) : M StorageError UploadEncryptionSpec :=
  prefix ← rand 8;
  let spec := with_nonce_prefix spec (b64_encode prefix) in
  match ue_mode spec with
  | SseS3 =>
      dek ← rand 32;
      let kid := kr_active_id (st_keyring st) in
      nonce ← rand 12;
      w ← lift (map_err EncryptionError (wrap_dek (st_keyring st) kid dek nonce));
      mret (with_upload_dek spec (b64_encode (fst w)) (b64_encode (snd w)) (Some kid) (ue_kms_key_id spec))
  | SseKms =>
      kms ← lift (ok_or (st_kms st) (EncryptionError "SSE-KMS not configured"));
      plaintext ← rand 32;
      wrap_nonce ← rand 12;
      g ← lift (map_err (fun e => EncryptionError (kms_error_to_string e))
                  (generate_data_key kms (ue_kms_key_id spec) plaintext wrap_nonce));
      mret (with_upload_dek spec (b64_encode (gd_ciphertext g)) (b64_encode (gd_wrap_nonce g))
              (ue_upload_dek_key_id spec) (Some (gd_kms_key_id g)))
  | SseC => mret spec
  end.

Definition create_multipart_upload (bucket key content_type : string)
    (checksum_algorithm : option ChecksumAlgorithm) (encryption_spec : option UploadEncryptionSpec)
    : M StorageError MultipartUploadMeta :=
  _ ← lift (validate_bucket_name bucket);
  _ ← lift (validate_key key);
  n ← tick;
  let upload_id := uuid_v4 n in
  _ ← call (fun t => fs_create_dir_all t (upload_dir st bucket upload_id));
  spec ← match encryption_spec with
         | Some spec => s ← augment_spec spec; mret (Some s)
         | None => mret None
         end;
  initiated ← now_iso;
  let meta := mk_MultipartUploadMeta upload_id bucket key content_type initiated checksum_algorithm spec in
  _ ← call (fun t => fs_write t (upload_meta_path st bucket upload_id) (UploadJson meta));
  mret meta.

(** ** A part *)

(** The key and nonce prefix its frames are sealed with. *)
Definition part_cipher (upload_meta : MultipartUploadMeta) (customer_key : option bytes)
    : result StorageError (option (bytes * bytes)) :=
  match mu_encryption_spec upload_meta with
  | None => Ok None
  | Some spec =>
      dek ← resolve_upload_dek st spec customer_key;
      prefix ← ok_or (b64_decode (ue_upload_nonce_prefix spec)) (EncryptionError "invalid upload_nonce_prefix");
      if negb (length prefix =? 4) && negb (length prefix =? 8) then
        Err (EncryptionError "upload_nonce_prefix must be 4 or 8 bytes")
      else Ok (Some (dek, prefix))
  end.

(** The file is created, filled piece by piece and flushed; an error leaves what
    the writer had handed over by then. *)
Definition fill_part (path : string) (cipher : option (bytes * bytes)) (aad : nat -> bytes)
    (body : QuotaReader source) : M StorageError (bytes * bytes) :=
  _ ← call (fun t => fs_write t path (Raw []));
  on_world (fun w =>
    let stop out (e : StorageError) :=
      (with_tree w (fst (fs_write (w_tree w) path (Raw (handed_over out)))), Err e) in
    let '(bw, r) := pump_to IO_BUFFER_SIZE map_read_quota_error (write_piece cipher aad)
                      (body_fuel body) (mk_body_writer [] (mk_frame_writer [] 0 [])) body in
    match r with
    | Some (Ok _) =>
        match finish_body cipher aad bw with
        | Ok (seen, out) => (_ ← call (fun t => fs_write t path (Raw out)); mret (seen, out)) w
        | Err e => stop (fw_written (bw_out bw)) e
        end
    | Some (Err e) => stop (fw_written (bw_out bw)) e
    | None => stop (fw_written (bw_out bw)) stalled
    end).

(** What a failure of the write leaves is removed. *)
Definition or_remove (path : string) {A} (m : M StorageError A) : M StorageError A :=
  on_world (fun w =>
    match m w with
    | (w, Ok a) => (w, Ok a)
    | (w, Err e) => (with_tree w (fst (fs_remove_file (w_tree w) path)), Err e)
    end).

Definition upload_part (bucket upload_id : string) (part_number : Z) (body : source)
    (checksum : option (ChecksumAlgorithm * option string)) (customer_key : option bytes)
    (declared_size : option Z) : M StorageError PartMeta :=
  _ ← lift (validate_bucket_name bucket);
  _ ← lift (validate_upload_id upload_id);
  _ ← check_upload_start st declared_size;
  body ← wrap_upload_reader st body;
  _ ← fail_if ((part_number =? 0) || (10000 <? part_number))%Z (InvalidKey "part number must be 1..=10000");
  there ← query (fun t => try_exists t (upload_dir st bucket upload_id));
  _ ← fail_if (negb there) (UploadNotFound upload_id);
  upload_meta ← read_upload_meta bucket upload_id;
  cipher ← lift (part_cipher upload_meta customer_key);
  let path := part_path st bucket upload_id part_number in
  out ← fill_part path cipher (part_aad_builder sha256 upload_id part_number) body;
  let data := fst out in
  sums ← or_remove path (lift (check_checksum checksum data));
  ciphertext_size ← match cipher with
                    | Some _ => c ← query (fun t => fs_read t path);
                                mret (Some (Z.of_nat (length (file_bytes c))))
                    | None => mret None
                    end;
  now ← now_iso;
  let meta := mk_PartMeta part_number (etag_of data) (Z.of_nat (length data)) now sums.1 sums.2
                (bool_decide (is_Some cipher)) ciphertext_size in
  _ ← or_remove path
        (call (fun t => fs_write t (part_meta_path st bucket upload_id part_number) (PartJson meta)));
  mret meta.

(** ** Completion *)

(** The records of the parts asked for, in the order asked. *)
Fixpoint select_parts (bucket upload_id : string) (parts : list (Z * string))
    : M StorageError (list PartMeta) :=
  match parts with
  | [] => mret []
  | (part_number, requested_etag) :: parts =>
      meta ← read_part_meta bucket upload_id part_number;
      _ ← fail_if (negb (bool_decide (pm_etag meta = requested_etag)))
            (InvalidKey ("etag mismatch for part " +:+ pretty part_number));
      _ ← fail_if (negb (bool_decide (parts = [])) && (pm_size meta <? MIN_PART_SIZE)%Z)
            (InvalidKey "part too small");
      selected ← select_parts bucket upload_id parts;
      mret (meta :: selected)
  end.

(** The customer's key is the one of the upload's creation. *)
Definition check_customer_key (spec : option UploadEncryptionSpec) (customer_key : option bytes)
    : result StorageError unit :=
  match spec with
  | Some spec =>
      match ue_mode spec with
      | SseC =>
          ck ← ok_or customer_key (EncryptionError "SSE-C requires customer key on CompleteMultipartUpload");
          match ue_customer_key_md5 spec with
          | Some stored =>
              if decide (b64_encode (md5 ck) = stored) then Ok tt
              else Err (EncryptionError "SSE-C key changed between Create and Complete")
          | None => Ok tt
          end
      | _ => Ok tt
      end
  | None => Ok tt
  end.

Definition pretty_bool (b : bool) : string := if b then "true" else "false".
Definition check_part_flags (upload_is_encrypted : bool) (selected : list PartMeta)
    : result StorageError unit :=
  for_each (fun part =>
    if Bool.eqb (pm_encrypted part) upload_is_encrypted then Ok tt
    else Err (IntegrityError ("part " +:+ pretty (pm_part_number part) +:+ " encryption flag ("
           +:+ pretty_bool (pm_encrypted part) +:+ ") disagrees with upload spec ("
           +:+ pretty_bool upload_is_encrypted +:+ ") — part meta may be tampered"))) selected.

(** The encryption asked for the object. *)
Definition object_request (spec : UploadEncryptionSpec) (customer_key : option bytes)
    : result StorageError EncryptionRequest :=
  match ue_mode spec with
  | SseS3 => Ok sse_s3
  | SseC =>
      ck ← ok_or customer_key (EncryptionError "SSE-C requires customer key on CompleteMultipartUpload");
      Ok (sse_c ck)
  | SseKms => Ok (sse_kms (ue_kms_key_id spec))
  end.

(** The loop over the parts: [stream] opens one, [f] takes a piece of it; the
    MD5s of the parts accumulate beside. *)
Inductive part_stream : Type := PlainPart (s : source) | SealedPart (d : FrameDecryptor source).

Definition pump_part {A} (f : A -> bytes -> result StorageError A) (a : A) (s : part_stream)
    : result StorageError A :=
  match s with
  | PlainPart s => pumped (pump IO_BUFFER_SIZE Io f (S (length (src_data s) + waits (src_schedule s))) a s) stalled
  | SealedPart d => pumped (pump IO_BUFFER_SIZE Io f (S (fd_remaining d + patience d)) a d) stalled
  end.

Fixpoint copy_parts {A} (stream : PartMeta -> result StorageError part_stream)
    (f : A -> bytes -> result StorageError A) (selected : list PartMeta) (a : A) (md5s : bytes)
    : result StorageError (A * bytes) :=
  match selected with
  | [] => Ok (a, md5s)
  | part :: selected =>
      s ← stream part;
      a ← pump_part f a s;
      raw_md5 ← ok_or (hex_decode (trim_quotes (pm_etag part))) (InvalidKey "invalid part etag");
      copy_parts stream f selected a (md5s ++ raw_md5)
  end.

Definition open_plain (t : tree) (bucket upload_id : string) (part : PartMeta)
    : result StorageError part_stream :=
  file ← map_err Io (open_file t (part_path st bucket upload_id (pm_part_number part)));
  Ok (PlainPart file).

(** A part flagged as encrypted, through the decryptor under the upload's key. *)
Definition open_part (t : tree) (bucket upload_id : string) (upload_dek : option bytes) (part : PartMeta)
    : result StorageError part_stream :=
  if pm_encrypted part then
    dek ← ok_or upload_dek (EncryptionError "encrypted part but upload spec has no DEK");
    file ← map_err Io (open_file t (part_path st bucket upload_id (pm_part_number part)));
    Ok (SealedPart (decryptor_new file dek (Z.to_nat (pm_size part)) FRAME_CHUNK_SIZE
                      (part_aad_builder sha256 upload_id (pm_part_number part))))
  else open_plain t bucket upload_id part.

Definition multipart_etag (md5s : bytes) (selected : list PartMeta) : string :=
  dquote +:+ hex_encode (md5 md5s) +:+ "-" +:+ pretty (length selected) +:+ dquote.

(** The composite checksum, over the parts' own checksums. *)
Definition raw_checksums (selected : list PartMeta) : bytes :=
  concat (omap (fun part => pm_checksum_value part ≫= b64_decode) selected).
Definition composite_checksum (algorithm : option ChecksumAlgorithm) (selected : list PartMeta)
    : option ChecksumAlgorithm * option string :=
  match algorithm with
  | Some algo =>
      match raw_checksums selected with
      | [] => (Some algo, None)
      | raw => (Some algo, Some (finalize_base64 (checksum_update (checksum_hasher_new algo) raw)
                                 +:+ "-" +:+ pretty (length selected)))
      end
  | None => (None, None)
  end.

Definition set_part_sizes (meta : ObjectMeta) (selected : list PartMeta) : ObjectMeta :=
  mk_ObjectMeta (om_key meta) (om_size meta) (om_etag meta) (om_content_type meta)
    (om_last_modified meta) (om_version_id meta) (om_is_delete_marker meta)
    (om_storage_format meta) (om_checksum_algorithm meta) (om_checksum_value meta)
    (om_tags meta) (Some (map pm_size selected)) (om_encryption meta)
    (om_object_lock_mode meta) (om_retain_until_date meta) (om_legal_hold_status meta).

(** The sidecar of the completed object. *)
Definition completed_meta (upload_meta : MultipartUploadMeta) (selected : list PartMeta) (size : nat)
    (md5s : bytes) (now : string) (version_id storage_format : option string) (em : option EncryptionMeta)
    : ObjectMeta :=
  set_part_sizes
    (new_meta (mu_key upload_meta) size (multipart_etag md5s selected) (mu_content_type upload_meta) now
       version_id storage_format (composite_checksum (mu_checksum_algorithm upload_meta) selected) em)
    selected.

(** The end of every completion: the version, the parts, the index. *)
Definition retire_upload (bucket upload_id : string) (versioned : bool)
    (version : M StorageError unit) (meta : ObjectMeta) : M StorageError PutResult :=
  _ ← (if versioned then version else mret tt);
  _ ← call (fun t => fs_remove_dir_all t (upload_dir st bucket upload_id));
  _ ← index_upsert bucket meta;
  mret (put_result meta).

Definition prepare_object_encryption (req : EncryptionRequest) : M StorageError EncryptionMeta :=
  on_world (fun w => match ks_prepare st req w with
                     | (w, Err e) => (w, Err (EncryptionError (storage_error_to_string e)))
                     | ok => ok
                     end).

Definition complete_multipart_chunked (bucket upload_id : string) (upload_meta : MultipartUploadMeta)
    (selected : list PartMeta) : M StorageError PutResult :=
  let key := mu_key upload_meta in
  let dir := ec_dir st bucket key in
  tmp ← temp_sibling_path dir;
  res ← guarded true tmp
    (_ ← create_parent dir;
     _ ← call (fun t => fs_create_dir_all t tmp);
     versioned ← versioned_or_false st bucket;
     version_id ← new_version_id versioned;
     t ← get_tree;
     copied ← lift (copy_parts (open_plain t bucket upload_id)
                      (fun '(total, w) piece => Ok (total + length piece, push_chunk_data (st_chunk_size st) w piece))
                      selected (0, chunk_writer_new) []);
     let '((total_size, w), md5s) := copied in
     manifest ← (r ← lift (finish_ec_object (st_chunk_size st) (st_parity_shards st) total_size None w);
                 stage_chunks tmp r);
     now ← now_iso;
     let meta := completed_meta upload_meta selected total_size md5s now version_id
                   (Some (storage_format_of manifest)) None in
     _ ← publish_object st tmp dir true bucket key meta;
     mret (versioned, meta));
  let '(versioned, meta) := res in
  retire_upload bucket upload_id versioned (write_version_chunked st bucket key meta) meta.

Definition complete_multipart_chunked_encrypted (bucket upload_id : string)
    (upload_meta : MultipartUploadMeta) (selected : list PartMeta) (customer_key : option bytes)
    : M StorageError PutResult :=
  let key := mu_key upload_meta in
  let dir := ec_dir st bucket key in
  tmp ← temp_sibling_path dir;
  res ← guarded true tmp
    (_ ← create_parent dir;
     _ ← call (fun t => fs_create_dir_all t tmp);
     versioned ← versioned_or_false st bucket;
     version_id ← new_version_id versioned;
     upload_spec ← lift (ok_or (mu_encryption_spec upload_meta)
        (IntegrityError "complete_multipart_chunked_encrypted called without encryption_spec"));
     upload_dek ← lift (resolve_upload_dek st upload_spec customer_key);
     req ← lift (object_request upload_spec customer_key);
     em ← prepare_object_encryption req;
     dek ← lift (map_err (fun e => EncryptionError (storage_error_to_string e)) (ks_resolve st em customer_key));
     prefix ← lift (ok_or (b64_decode (em_nonce_prefix em)) (EncryptionError "invalid nonce_prefix"));
     t ← get_tree;
     let aad := object_aad_builder sha256 bucket key version_id in
     copied ← lift (copy_parts (open_part t bucket upload_id (Some upload_dek))
                      (push_body FRAME_CHUNK_SIZE (st_chunk_size st) dek prefix aad)
                      selected (mk_ec_writer 0 0 0 [] chunk_writer_new) []);
     let '(w, md5s) := copied in
     flushed ← lift (flush_body (st_chunk_size st) dek prefix aad w);
     manifest ← (r ← lift (finish_ec_object (st_chunk_size st) (st_parity_shards st) (fst flushed)
                             (Some (ew_plaintext_size w)) (snd flushed));
                 stage_chunks tmp r);
     now ← now_iso;
     let meta := seal_sidecar dek
         (completed_meta upload_meta selected (ew_plaintext_size w) md5s now version_id
            (Some (storage_format_of manifest)) (Some em)) in
     _ ← publish_object st tmp dir true bucket key meta;
     mret (versioned, meta));
  let '(versioned, meta) := res in
  retire_upload bucket upload_id versioned (write_version_chunked st bucket key meta) meta.

(** The encryption of the object in one file, and the key of the parts. *)
Definition object_encryption (upload_meta : MultipartUploadMeta) (customer_key : option bytes)
    : M StorageError (option (EncryptionMeta * (bytes * bytes))) :=
  match mu_encryption_spec upload_meta with
  | None => mret None
  | Some spec =>
      req ← lift (object_request spec customer_key);
      em ← prepare_object_encryption req;
      dek ← lift (ks_resolve st em customer_key);
      prefix ← lift (ok_or (b64_decode (em_nonce_prefix em)) (EncryptionError "invalid nonce_prefix"));
      mret (Some (em, (dek, prefix)))
  end.
Definition upload_key (upload_meta : MultipartUploadMeta) (customer_key : option bytes)
    : result StorageError (option bytes) :=
  match mu_encryption_spec upload_meta with
  | None => Ok None
  | Some spec => dek ← resolve_upload_dek st spec customer_key; Ok (Some dek)
  end.

Definition complete_multipart_flat (bucket upload_id : string) (upload_meta : MultipartUploadMeta)
    (selected : list PartMeta) (customer_key : option bytes) : M StorageError PutResult :=
  let key := mu_key upload_meta in
  _ ← lift (check_customer_key (mu_encryption_spec upload_meta) customer_key);
  _ ← lift (check_part_flags (bool_decide (is_Some (mu_encryption_spec upload_meta))) selected);
  upload_dek ← lift (upload_key upload_meta customer_key);
  enc ← object_encryption upload_meta customer_key;
  versioned ← versioned_or_false st bucket;
  version_id ← new_version_id versioned;
  let path := object_path st bucket key in
  _ ← create_parent path;
  tmp ← temp_sibling_path path;
  meta ← guarded false tmp
    (_ ← call (fun t => fs_write t tmp (Raw []));
     t ← get_tree;
     let cipher := snd <$> enc in
     let aad := object_aad_builder sha256 bucket key version_id in
     copied ← lift (copy_parts (open_part t bucket upload_id upload_dek) (write_piece cipher aad)
                      selected (mk_body_writer [] (mk_frame_writer [] 0 [])) []);
     let '(bw, md5s) := copied in
     out ← lift (finish_body cipher aad bw);
     _ ← call (fun t => fs_write t tmp (Raw (snd out)));
     now ← now_iso;
     let meta := completed_meta upload_meta selected (length (fst out)) md5s now version_id None (fst <$> enc) in
     let meta := match cipher with Some (dek, _) => seal_sidecar dek meta | None => meta end in
     _ ← publish_object st tmp path false bucket key meta;
     mret meta);
  retire_upload bucket upload_id versioned (write_version st bucket key meta path) meta.

Definition complete_multipart_upload (bucket upload_id : string) (parts : list (Z * string))
    (customer_key : option bytes) : M StorageError PutResult :=
  _ ← lift (validate_bucket_name bucket);
  _ ← lift (validate_upload_id upload_id);
  _ ← fail_if (bool_decide (parts = [])) (InvalidKey "at least one part is required to complete upload");
  upload_meta ← read_upload_meta bucket upload_id;
  _ ← ensure_can_overwrite st bucket (mu_key upload_meta);
  selected ← select_parts bucket upload_id parts;
  _ ← lift (check_object_size (st_quota st) (foldr Z.add 0%Z (map pm_size selected)));
  n ← tick;
  _ ← lift (check_disk_reserve (st_quota st) (available_disk_bytes n));
  ec ← effective_erasure_coding st bucket;
  if ec : bool then
    if bool_decide (is_Some (mu_encryption_spec upload_meta)) then
      _ ← lift (check_customer_key (mu_encryption_spec upload_meta) customer_key);
      _ ← lift (check_part_flags true selected);
      complete_multipart_chunked_encrypted bucket upload_id upload_meta selected customer_key
    else complete_multipart_chunked bucket upload_id upload_meta selected
  else complete_multipart_flat bucket upload_id upload_meta selected customer_key.

(** ** Abort and listings *)

Definition abort_multipart_upload (bucket upload_id : string) : M StorageError unit :=
  _ ← lift (validate_bucket_name bucket);
  _ ← lift (validate_upload_id upload_id);
  there ← query (fun t => try_exists t (upload_dir st bucket upload_id));
  _ ← fail_if (negb there) (UploadNotFound upload_id);
  call (fun t => fs_remove_dir_all t (upload_dir st bucket upload_id)).

Definition part_number_le (a b : PartMeta) : Prop := (pm_part_number a <= pm_part_number b)%Z.
Global Instance part_number_le_dec a b : Decision (part_number_le a b).
Proof. unfold part_number_le. apply _. Defined.

(** The records among the files of the directory; a file that cannot be read is
    an error, one that does not parse is passed over. *)
Fixpoint parts_in (t : tree) (dir : string) (entries : list (string * bool))
    : result StorageError (list PartMeta) :=
  match entries with
  | [] => Ok []
  | (name, _) :: entries =>
      if negb (ends_with name ".meta.json") || bool_decide (name = ".meta.json") then parts_in t dir entries
      else
        c ← map_err Io (fs_read t (join dir name));
        rest ← parts_in t dir entries;
        Ok (match parse_part c with Ok pm => [pm] | Err _ => [] end ++ rest)
  end.

Definition list_parts (bucket upload_id : string) : M StorageError (MultipartUploadMeta * list PartMeta) :=
  _ ← lift (validate_bucket_name bucket);
  _ ← lift (validate_upload_id upload_id);
  meta ← read_upload_meta bucket upload_id;
  let dir := upload_dir st bucket upload_id in
  t ← get_tree;
  entries ← query (fun t => fs_read_dir t dir);
  parts ← lift (parts_in t dir entries);
  mret (meta, merge_sort part_number_le parts).

Definition initiated_le (a b : MultipartUploadMeta) : Prop := String.leb (mu_initiated a) (mu_initiated b) = true.
Global Instance initiated_le_dec a b : Decision (initiated_le a b).
Proof. unfold initiated_le. apply _. Defined.

Definition upload_in (t : tree) (bucket : string) (entry : string * bool) : option MultipartUploadMeta :=
  if snd entry then
    match fs_read t (upload_meta_path st bucket (fst entry)) with
    | Ok c => match parse_upload c with Ok meta => Some meta | Err _ => None end
    | Err _ => None
    end
  else None.

Definition list_multipart_uploads (bucket : string) : M StorageError (list MultipartUploadMeta) :=
  _ ← lift (validate_bucket_name bucket);
  there ← query (fun t => try_exists t (uploads_dir st bucket));
  if negb there then mret []
  else
    entries ← query (fun t => fs_read_dir t (uploads_dir st bucket));
    t ← get_tree;
    mret (merge_sort initiated_le (omap (upload_in t bucket) entries)).
End multipart.
