(* ===== verification/LockSpec.v ===== *)
(** * Object lock and the sidecar

    An object under retention or legal hold is neither overwritten nor deleted;
    changing the tags of an encrypted object keeps its sidecar valid, as its MAC
    does not cover them. *)

From stdpp Require Import base list gmap sets numbers strings pretty.
From Stdlib Require Import ZArith Lia Ascii Strings.Byte.
From S2P Require Import Prelude Bytes Reader Types Quota Crypto ErasureCode ChunkReader MetadataIndex FileSystem Paths World Keyring Storage BucketConfig Sidecar Encryption Publish Objects Demo ObjectsSpec Versions Multipart.

Local Open Scope nat_scope.

Section lock.
Context `{Environment} `{Crates} `{Serde} `{SerdeJson} `{Aead} `{ReedSolomon} `{HexDecode} `{Buffering}.
Context `{!KeyService FilesystemStorage} (st : FilesystemStorage).

(** The operation fails with [e], and only the clock has moved. *)
Definition refuses {A} (m : M StorageError A) (w : world) (e : StorageError) : Prop :=
  exists n, m w = (mk_world (w_tree w) (w_index w) n, Err e).

Lemma try_exists_read t p c : fs_read t p = Ok c -> try_exists t p = Ok true.
Proof.
  unfold fs_read, try_exists. destruct (resolve t p) as [l|e]; cbn; [|done].
  destruct (t_files t !! l) as [c'|]; [|by case_decide]. intros _. by rewrite orb_true_r.
Qed.

Lemma read_json_exists {A} path (parse : content -> result string A) missing w w' a :
  read_json path parse missing w = (w', Ok a) -> w' = w /\ try_exists (w_tree w) path = Ok true.
Proof.
  unfold read_json. destruct (fs_read (w_tree w) path) as [c|e] eqn:E; [|done].
  intros [= -> _]. split; [done|by eapply try_exists_read].
Qed.

Context (bucket key : string) (meta : ObjectMeta) (w : world).
Hypothesis Hbucket : validate_bucket_name bucket = Ok tt.
Hypothesis Hkey : validate_key key = Ok tt.
(** The object is protected at the next reading of the clock. *)
Definition protected_at : Prop := is_object_protected parse_rfc3339 (now (w_tick w)) meta = true.
Hypothesis Hprot : protected_at.

Lemma protected_now_true : protected_now meta w = (mk_world (w_tree w) (w_index w) (S (w_tick w)), Ok true).
Proof. unfold protected_now, mbind, M_bind, tick. unfold protected_at in Hprot. by rewrite Hprot. Qed.

Lemma can_delete_refused : refuses (ensure_can_delete_meta meta) w locked.
Proof. eexists. unfold ensure_can_delete_meta. by rewrite (run_ok _ _ _ _ _ protected_now_true). Qed.

Lemma refuses_bind {A B} (m : M StorageError A) (f : A -> M StorageError B) e :
  refuses m w e -> refuses (m ≫= f) w e.
Proof. intros [n Hn]. exists n. by apply run_err. Qed.

(** The current object. *)
Section current.
Hypothesis Hmeta : read_object_meta st bucket key w = (w, Ok meta).

Lemma sidecar_exists : try_exists (w_tree w) (meta_path st bucket key) = Ok true.
Proof. by eapply read_json_exists. Qed.
Lemma sidecar_there : exists_or_false (meta_path st bucket key) w = (w, Ok true).
Proof. unfold exists_or_false, get_tree, mbind, M_bind. by rewrite sidecar_exists. Qed.
Lemma sidecar_query : query (fun t => try_exists t (meta_path st bucket key)) w = (w, Ok true).
Proof. unfold query. by rewrite sidecar_exists. Qed.

Lemma overwrite_refused : refuses (ensure_can_overwrite st bucket key) w locked.
Proof.
  unfold ensure_can_overwrite. eexists. rewrite (run_ok _ _ _ _ _ sidecar_there). cbn [negb].
  by rewrite (run_ok _ _ _ _ _ Hmeta), (run_ok _ _ _ _ _ protected_now_true).
Qed.

Lemma put_refused content_type body checksum encryption declared :
  refuses (put_object st bucket key content_type body checksum encryption declared) w locked.
Proof.
  destruct overwrite_refused as [n Hn]. exists n. unfold put_object.
  by rewrite (run_lift _ _ _ _ Hbucket), (run_lift _ _ _ _ Hkey), (run_err _ _ _ _ _ Hn).
Qed.

Lemma versioned_pure : exists b, versioned_or_false st bucket w = (w, Ok b).
Proof.
  unfold versioned_or_false, on_world, is_versioned, read_bucket_meta, mbind, M_bind, lift.
  destruct (validate_bucket_name bucket); [|by exists false]. unfold read_json.
  destruct (fs_read _ _); [|by exists false].
  destruct (map_err _ _) as [bm|]; [by exists (bm_versioning bm)|by exists false].
Qed.

Lemma delete_refused : refuses (delete_object st bucket key) w locked.
Proof.
  destruct can_delete_refused as [n Hn]. exists n. unfold delete_object.
  rewrite (run_lift _ _ _ _ Hbucket), (run_lift _ _ _ _ Hkey).
  destruct versioned_pure as [b Hb]. rewrite (run_ok _ _ _ _ _ Hb). destruct b.
  - rewrite (run_ok _ _ _ _ _ sidecar_there). apply run_err. by rewrite (run_ok _ _ _ _ _ Hmeta).
  - rewrite (run_ok _ _ _ _ _ sidecar_query). cbn [negb]. unfold mbind at 1 2, M_bind at 1 2. cbn [mret M_ret negb].
    apply run_err. by rewrite (run_ok _ _ _ _ _ Hmeta).
Qed.

(** The completion of an upload in parts to the key. *)
Lemma complete_refused upload_id um parts ck :
  validate_upload_id upload_id = Ok tt -> parts <> [] ->
  read_upload_meta st bucket upload_id w = (w, Ok um) -> mu_key um = key ->
  refuses (complete_multipart_upload st bucket upload_id parts ck) w locked.
Proof.
  intros Hu Hp Hum Hk. destruct overwrite_refused as [n Hn]. exists n. unfold complete_multipart_upload.
  rewrite (run_lift _ _ _ _ Hbucket), (run_lift _ _ _ _ Hu), bool_decide_eq_false_2 by done.
  unfold fail_if. rewrite (run_ok _ _ w w tt) by done. rewrite (run_ok _ _ _ _ _ Hum), Hk. by apply run_err.
Qed.

Lemma delete_null_refused : refuses (delete_object_version st bucket key "null") w locked.
Proof.
  eexists. unfold delete_object_version. rewrite (run_lift _ _ _ _ Hbucket), (run_lift _ _ _ _ Hkey).
  rewrite decide_True by done. unfold delete_null_version.
  by rewrite (run_ok _ _ _ _ _ Hmeta), (run_ok _ _ _ _ _ protected_now_true).
Qed.
End current.

Lemma delete_version_refused vid :
  vid <> "null" -> read_version_meta st bucket key vid w = (w, Ok meta) ->
  refuses (delete_object_version st bucket key vid) w version_locked.
Proof.
  intros Hv Hm. eexists. unfold delete_object_version.
  rewrite (run_lift _ _ _ _ Hbucket), (run_lift _ _ _ _ Hkey), decide_False by done.
  by rewrite (run_ok _ _ _ _ _ Hm), (run_ok _ _ _ _ _ protected_now_true).
Qed.
End lock.

(** ** The claims *)

Section claims.
Context `{EnvironmentSpec} `{CratesSpec} `{SerdeSpec} `{SerdeJson} `{AeadSpec} `{ReedSolomon} `{HexDecode} `{Buffering}.
Context `{!KeyService FilesystemStorage} (st : FilesystemStorage).

(** C16: an object that is under legal hold, or under a retention that has not
    ended at the reading of the clock the operation makes, survives: an upload to
    its key in any layout, the completion of an upload in parts to it, its
    deletion and the deletion of its unversioned copy are refused with
    ObjectLocked before any file, directory or index row is touched, and so is the
    deletion of a protected version. *)
Theorem locked_object_survives bucket key meta w :
  validate_bucket_name bucket = Ok tt -> validate_key key = Ok tt -> protected_at meta w ->
  (read_object_meta st bucket key w = (w, Ok meta) ->
     (forall content_type body checksum encryption declared,
        refuses (put_object st bucket key content_type body checksum encryption declared) w locked) /\
     (forall upload_id um parts ck, validate_upload_id upload_id = Ok tt -> parts <> [] ->
        read_upload_meta st bucket upload_id w = (w, Ok um) -> mu_key um = key ->
        refuses (complete_multipart_upload st bucket upload_id parts ck) w locked) /\
     refuses (delete_object st bucket key) w locked /\
     refuses (delete_object_version st bucket key "null") w locked) /\
  (forall vid, vid <> "null" -> read_version_meta st bucket key vid w = (w, Ok meta) ->
     refuses (delete_object_version st bucket key vid) w version_locked).
Proof.
  intros Hb Hk Hp. split.
  - intros Hm. split_and!; [intros; by eapply put_refused|intros; by eapply complete_refused|by eapply delete_refused|by eapply delete_null_refused].
  - intros vid Hv Hm. by eapply delete_version_refused.
Qed.

(** Tags read back as written, and changing them keeps the object readable:
    everything else of the sidecar is unchanged, and its MAC remains valid (or
    invalid) under every key. *)
Theorem tags_read_back bucket key tags w w' :
  storage_ok st -> validate_bucket_name bucket = Ok tt -> object_key key ->
  put_object_tagging st bucket key tags w = (w', Ok tt) ->
  exists meta, let meta' := set_tags meta (if decide (tags = ∅) then None else Some tags) in
    head_object st bucket key w = (w, Ok meta) /\ head_object st bucket key w' = (w', Ok meta') /\
    get_object_tagging st bucket key w' = (w', Ok tags) /\
    (forall dek, verify_sidecar_mac meta' dek = verify_sidecar_mac meta dek) /\
    (forall l, l <> names (meta_path st bucket key) -> t_files (w_tree w') !! l = t_files (w_tree w) !! l).
Proof.
  intros Hst Hb Hk. unfold put_object_tagging. rewrite (run_lift _ _ _ _ (proj1 Hk)).
  intros (meta & w1 & Hr & Hw)%M_bind_ok.
  assert (w1 = w) as -> by (by eapply read_json_exists).
  set (meta' := set_tags _ _) in Hw. exists meta. cbn zeta. fold meta'.
  destruct (upload_place st bucket key Hst Hb Hk) as (P & s & _ & Hm & _).
  apply at_place_names in Hm as [Hp _]. unfold call in Hw.
  destruct (fs_write (w_tree w) (meta_path st bucket key) (ObjectJson meta')) as [t r] eqn:E.
  apply fs_write_effect in E as [[_ He]|(-> & -> & Hres & _)]; [|injection Hw as <-|done].
  { destruct r; [done|]. by injection Hw. }
  set (w' := with_tree _ _).
  assert (Hr' : read_object_meta st bucket key w' = (w', Ok meta')).
  { unfold read_object_meta, read_json. rewrite (proj2 (fs_read_ok _ _ (ObjectJson meta') Hp)).
    - by rewrite parse_object_json.
    - split; [by apply (resolve_mono (w_tree w))|apply lookup_insert_eq]. }
  unfold head_object, get_object_tagging. rewrite !(run_lift _ _ _ _ Hb), !(run_lift _ _ _ _ (proj1 Hk)).
  split_and!; [done|done| |done|].
  - rewrite (run_ok _ _ _ _ _ Hr'). subst meta'. cbn. by case_decide; subst.
  - intros l Hl. cbn. by apply lookup_insert_ne.
Qed.
End claims.

(** ** Witnesses *)

Import Demo.Toys.

Module Witness.
#[local] Instance toy_hex : HexDecode := {| hex_decode s := Some (ToyWorld.of_hexadecimal s) |}.
#[local] Instance toy_buffer : Buffering := {| handed_over b := b |}.
Definition st : FilesystemStorage := demo_storage false.
Definition retention : ObjectLockConfig := mk_ObjectLockConfig true (Some Compliance) (Some 30%Z).
Definition put : M StorageError PutResult :=
  put_object st "pets" "cat" "text/plain" (body_of "meow") None (Some sse_s3) None.
(** An object under legal hold, one under a retention of thirty days, and an ordinary one. *)
Definition locked_after : world :=
  fst ((_ ← put; put_object_legal_hold st "pets" "cat" None On) (demo_world (demo_bucket false None (Some retention)))).
Definition retained_after : world := fst (put (demo_world (demo_bucket false None (Some retention)))).
Definition plain_after : world := fst (put (demo_world (demo_bucket false None None))).
Definition meta_of (w : world) : ObjectMeta :=
  match snd (read_object_meta st "pets" "cat" w) with Ok m => m | Err _ => marker_meta "" "" "" end.
Definition tags : gmap string string := {[ "kind" := "cat" ]}.
End Witness.

#[local] Existing Instances Witness.toy_hex Witness.toy_buffer.
Lemma locked_object_survives_witness :
  (refuses (delete_object Witness.st "pets" "cat") Witness.locked_after locked /\
   refuses Witness.put Witness.locked_after locked) /\
  refuses (delete_object Witness.st "pets" "cat") Witness.retained_after locked.
Proof.
  split.
  - destruct (locked_object_survives Witness.st "pets" "cat" (Witness.meta_of Witness.locked_after) Witness.locked_after)
      as [Hc _]; [vm_compute; reflexivity..|].
    destruct Hc as (Hput & _ & Hdel & _); [vm_compute; reflexivity|]. split; [exact Hdel|apply Hput].
  - destruct (locked_object_survives Witness.st "pets" "cat" (Witness.meta_of Witness.retained_after) Witness.retained_after)
      as [Hc _]; [vm_compute; reflexivity..|].
    destruct Hc as (_ & _ & Hdel & _); [vm_compute; reflexivity|exact Hdel].
Defined.

Lemma tags_read_back_witness :
  let w' := fst (put_object_tagging Witness.st "pets" "cat" Witness.tags Witness.plain_after) in
  get_object_tagging Witness.st "pets" "cat" w' = (w', Ok Witness.tags).
Proof.
  cbv zeta. set (w' := fst _).
  destruct (tags_read_back Witness.st "pets" "cat" Witness.tags Witness.plain_after w') as (meta & _ & _ & Ht & _);
    [apply demo_storage_ok|vm_compute; reflexivity| |vm_compute; reflexivity|exact Ht].
  split; [vm_compute; reflexivity|]. exists [], "cat". split; [vm_compute; reflexivity|]. by intros [?|?].
Defined.
