(* ===== verification/Behaviours.v ===== *)
(** * Behaviours at the edges of the object operations

    Sequences of operations run on the store of [Demo]: uploads over a prefix of
    other keys, a bucket whose erasure coding is switched off, deletions of
    versions, retention set on an encrypted object.  Each theorem evaluates the
    model on the sequence its comment describes. *)

From stdpp Require Import base list gmap sets numbers strings pretty.
From Stdlib Require Import ZArith Lia Ascii Strings.Byte.
From S2P Require Import Prelude Bytes Reader Types Quota Crypto ErasureCode ChunkReader MetadataIndex FileSystem Paths World Keyring Storage BucketConfig Sidecar Encryption Publish Objects Demo ObjectsSpec Versions.

Import Demo.Toys.
#[local] Existing Instance sha256_hex_of_crates.

(** ** Running operations *)

(** The world after an operation, and its answer. *)
Definition after {A} (m : M StorageError A) (w : world) : world := fst (m w).
Definition answer {A} (m : M StorageError A) (w : world) : result StorageError A := snd (m w).
Definition succeeds {A} (m : M StorageError A) (w : world) : bool := is_ok (answer m w).
Definition fails_with {A} (m : M StorageError A) (w : world) (e : StorageError) : Prop := answer m w = Err e.

Definition flat : FilesystemStorage := demo_storage false.
Definition coded : FilesystemStorage := demo_storage true.
Definition upload (st : FilesystemStorage) (key text : string) : M StorageError PutResult :=
  put_object st "pets" key "text/plain" (body_of text) None None None.
Definition upload_encrypted (st : FilesystemStorage) (key text : string) : M StorageError PutResult :=
  put_object st "pets" key "text/plain" (body_of text) None (Some sse_s3) None.
Definition download (st : FilesystemStorage) (key : string) : M StorageError (ByteStream * ObjectMeta) :=
  get_object st "pets" key None.
Definition version_of (r : result StorageError PutResult) : string :=
  match r with Ok p => default "" (pr_version_id p) | Err _ => "" end.
Definition listed (w : world) (prefix : string) : list string :=
  match w_index w with Some idx => map om_key (index_list idx "pets" prefix) | None => [] end.

(** The size announced and the bytes that follow, of a stream that is not
    encrypted. *)
Definition delivered (r : result StorageError (ByteStream * ObjectMeta)) : option (Z * (bytes * stream_end)) :=
  match r with
  | Ok (Plain s, meta) => Some (om_size meta, (src_data s, src_end s))
  | Ok (Chunked r, meta) => Some (om_size meta, stream r)
  | _ => None
  end.

Definition compliance : ObjectLockConfig := mk_ObjectLockConfig true (Some Compliance) (Some 30%Z).
Definition plain_world : world := demo_world (demo_bucket false None None).
Definition locked_world : world := demo_world (demo_bucket false None (Some compliance)).
Definition versioned_world : world := demo_world (demo_bucket true None None).

(** ** Uploads over other objects *)

(** An upload to a key that is a directory prefix of existing objects
    destroys access to them.  Here [a/b] is under compliance retention, so that
    deleting or overwriting it is refused; uploading [a] succeeds, the directory
    [a] having been renamed away as the old payload of [a], and [a/b] can no
    longer be read, while a listing still shows it. *)
Theorem upload_over_directory_loses_objects :
  let w1 := after (upload flat "a/b" "kept") locked_world in
  let w2 := after (upload flat "a" "new") w1 in
  succeeds (download flat "a/b") w1 = true /\
  fails_with (delete_object flat "pets" "a/b") w1 locked /\
  fails_with (upload flat "a/b" "other") w1 locked /\
  succeeds (upload flat "a" "new") w1 = true /\
  fails_with (download flat "a/b") w2 (Io enotdir) /\
  listed w2 "a/" = ["a/b"].
Proof. cbv zeta. split_and!; vm_compute; reflexivity. Qed.

(** Once the erasure coding of a bucket is switched off, overwriting an
    object stored in chunks answers with success but leaves the chunk directory,
    which downloads prefer: the old bytes are served under the new metadata. *)
Theorem overwrite_of_chunked_object_is_lost :
  let w1 := after (upload coded "a" "first") plain_world in
  let w2 := after (set_bucket_erasure_coding coded "pets" (Some false)) w1 in
  let w3 := after (upload coded "a" "second!") w2 in
  succeeds (upload coded "a" "second!") w2 = true /\
  delivered (answer (download coded "a") w3) = Some (7%Z, (as_bytes "first", Eof)).
Proof. cbv zeta. split; vm_compute; reflexivity. Qed.

(** ** Versions *)

(** Deleting the only version of an object by its id leaves the object
    readable under its key, although the version itself is gone. *)
Theorem deleted_version_stays_current :
  let w1 := after (upload flat "a" "one") versioned_world in
  let vid := version_of (answer (upload flat "a" "one") versioned_world) in
  let w2 := after (delete_object_version flat "pets" "a" vid) w1 in
  succeeds (delete_object_version flat "pets" "a" vid) w1 = true /\
  fails_with (get_object_version flat "pets" "a" vid None) w2 (VersionNotFound vid) /\
  succeeds (download flat "a") w2 = true.
Proof. cbv zeta. split_and!; vm_compute; reflexivity. Qed.

(** After an object has been deleted, deleting one of its older versions
    brings another version back as the current object: the newest delete marker
    is ignored when the current version is recomputed.  The listing kept in the
    index shows the object all along, the delete marker having not removed it. *)
Theorem old_version_deletion_resurrects_object :
  let w1 := after (upload flat "a" "one") versioned_world in
  let vid := version_of (answer (upload flat "a" "one") versioned_world) in
  let w2 := after (upload flat "a" "two") w1 in
  let w3 := after (delete_object flat "pets" "a") w2 in
  let w4 := after (delete_object_version flat "pets" "a" vid) w3 in
  fails_with (download flat "a") w3 (NotFoundError "a") /\
  listed w3 "" = ["a"] /\
  succeeds (delete_object_version flat "pets" "a" vid) w3 = true /\
  succeeds (download flat "a") w4 = true.
Proof. cbv zeta. split_and!; vm_compute; reflexivity. Qed.

(** ** Retention of an encrypted object *)

(** Setting retention on an encrypted object makes it unreadable: the
    sidecar is rewritten with the retention but with the MAC computed without
    it, so a later download reports tampering. *)
Theorem retention_makes_encrypted_object_unreadable :
  let r := mk_ObjectLockRetention Governance "2030-01-01T00:00:00Z" in
  let w1 := after (upload_encrypted flat "a" "secret") locked_world in
  let w2 := after (put_object_retention flat "pets" "a" None r) w1 in
  succeeds (download flat "a") w1 = true /\
  succeeds (put_object_retention flat "pets" "a" None r) w1 = true /\
  fails_with (download flat "a") w2
    (IntegrityError "sidecar_mac mismatch — object metadata has been tampered").
Proof. cbv zeta. split_and!; vm_compute; reflexivity. Qed.
