(* ===== verification/Listing.v ===== *)
(** * Listing a bucket

    [filesystem/listing.rs]: the directory walks behind the object and version
    listings, the counts, and the bucket listing.  A walk is a function of the
    tree; its fuel bounds the depth. *)

From stdpp Require Import base list gmap sets sorting numbers strings pretty.
From Stdlib Require Import ZArith Lia Ascii Strings.Byte.
From S2P Require Import Prelude IpAddr Glob Policy Bytes Reader Types Quota Crypto MetadataIndex FileSystem Paths World TreeOk Keyring Storage Sidecar Demo Layout DeleteBucketSpec.

Local Open Scope nat_scope.

Section listing.
Context `{Serde} (st : FilesystemStorage).

(** The record in a file, when there is one that parses. *)
Definition parsed {A} (parse : content -> result string A) (t : tree) (path : string) : option A :=
  match fs_read t path with
  | Ok c => match parse c with Ok m => Some m | Err _ => None end
  | Err _ => None
  end.

(** ** Objects *)

(** The names [walk_dir] passes over. *)
Definition passed_over (name : string) : bool :=
  ends_with name ".meta.json" || bool_decide (name = ".bucket.json") || bool_decide (name = ".uploads")
  || bool_decide (name = ".versions") || bool_decide (name = ".folder").

(** An object listed under [key], from the sidecar at [path]. *)
Definition listed_meta (t : tree) (prefix key path : string) : list ObjectMeta :=
  if starts_with key prefix then
    match parsed parse_object t path with Some m => [m] | None => [] end
  else [].

(** [path.strip_prefix(base)] is [rel], the path walked from the bucket. *)
Fixpoint walk_dir (fuel : nat) (t : tree) (bucket prefix dir rel : string)
    : result StorageError (list ObjectMeta) :=
  match fuel with
  | O => Ok []
  | S fuel =>
      match fs_read_dir t dir with
      | Err e => if decide (io_error_kind e = NotFound) then Ok [] else Err (Io e)
      | Ok entries =>
          (fix go l :=
            match l with
            | [] => Ok []
            | (name, ft) :: l =>
                let path := join dir name in
                let rel_str := join rel name in
                if passed_over name then go l
                else
                  here ←
                    (if ends_with name ".ec" && (ft : bool) then
                       let key := default rel_str (strip_suffix rel_str ".ec") in
                       Ok (listed_meta t prefix key (meta_path st bucket key))
                     else if ft : bool then
                       let marker := join path ".folder.meta.json" in
                       below ← walk_dir fuel t bucket prefix path rel_str;
                       Ok ((if exists_path t marker then listed_meta t prefix (rel_str +:+ "/") marker else [])
                           ++ below)
                     else Ok (listed_meta t prefix rel_str (meta_path st bucket rel_str)));
                  rest ← go l;
                  Ok (here ++ rest)
            end) entries
      end
  end.

Definition list_objects_walk (bucket prefix : string) : M StorageError (list ObjectMeta) :=
  _ ← lift (validate_bucket_name bucket);
  t ← get_tree;
  results ← lift (walk_dir (tree_depth t) t bucket prefix (bucket_dir st bucket) "");
  mret (merge_sort key_le results).

Definition get_index {E} : M E (option index) := fun w => (w, Ok (w_index w)).

Definition list_objects (bucket prefix : string) : M StorageError (list ObjectMeta) :=
  idx ← get_index;
  match idx with
  | Some idx => mret (index_list idx bucket prefix)
  | None => list_objects_walk bucket prefix
  end.

Definition count_bucket_objects (bucket : string) : M StorageError nat :=
  idx ← get_index;
  match idx with
  | Some idx => mret (index_count_bucket idx bucket)
  | None => l ← list_objects_walk bucket ""; mret (length l)
  end.

(** ** Buckets *)

Definition name_le (a b : BucketMeta) : Prop := String.leb (bm_name a) (bm_name b) = true.
#[local] Instance name_le_dec a b : Decision (name_le a b).
Proof. unfold name_le. apply _. Defined.

Definition list_buckets : M StorageError (list BucketMeta) :=
  entries ← query (fun t => fs_read_dir t (st_buckets_dir st));
  t ← get_tree;
  mret (merge_sort name_le
    (omap (fun '(name, ft) =>
       if ft : bool then parsed parse_bucket t (join (join (st_buckets_dir st) name) ".bucket.json")
       else None) entries)).

Fixpoint count_each (buckets : list BucketMeta) : M StorageError nat :=
  match buckets with
  | [] => mret 0
  | b :: buckets => n ← count_bucket_objects (bm_name b); rest ← count_each buckets; mret (n + rest)
  end.
Definition count_all_objects : M StorageError nat := buckets ← list_buckets; count_each buckets.

(** ** Versions *)

(** The version records of one key. *)
Definition version_metas (t : tree) (key_ver_dir : string) : list ObjectMeta :=
  match fs_read_dir t key_ver_dir with
  | Err _ => []
  | Ok entries =>
      omap (fun '(vf, _) => if ends_with vf ".meta.json" then parsed parse_object t (join key_ver_dir vf) else None)
        entries
  end.

(** The keys under a [.versions] directory. *)
Definition versions_of_dir (t : tree) (prefix rel path : string) : list ObjectMeta :=
  match fs_read_dir t path with
  | Err _ => []
  | Ok key_dirs =>
      concat (map (fun '(key_name, ft) =>
        if ft : bool then
          let key := if decide (rel = "") then key_name else rel +:+ "/" +:+ key_name in
          if starts_with key prefix then version_metas t (join path key_name) else []
        else []) key_dirs)
  end.

Fixpoint walk_versions (fuel : nat) (t : tree) (prefix dir rel : string)
    : result StorageError (list ObjectMeta) :=
  match fuel with
  | O => Ok []
  | S fuel =>
      match fs_read_dir t dir with
      | Err e => if decide (io_error_kind e = NotFound) then Ok [] else Err (Io e)
      | Ok entries =>
          (fix go l :=
            match l with
            | [] => Ok []
            | (name, ft) :: l =>
                let path := join dir name in
                here ←
                  (if negb ft then Ok []
                   else if decide (name = ".versions") then Ok (versions_of_dir t prefix rel path)
                   else if bool_decide (name = ".uploads") || bool_decide (name = ".bucket.json") then Ok []
                   else walk_versions fuel t prefix path (join rel name));
                rest ← go l;
                Ok (here ++ rest)
            end) entries
      end
  end.

(** By key, then by version id, newest first. *)
Definition version_of (m : ObjectMeta) : string := default "" (om_version_id m).
Definition version_le (a b : ObjectMeta) : Prop :=
  if decide (om_key a = om_key b) then String.leb (version_of b) (version_of a) = true else key_le a b.
#[local] Instance version_le_dec a b : Decision (version_le a b).
Proof. unfold version_le. case_decide; apply _. Defined.

Definition list_object_versions (bucket prefix : string) : M StorageError (list ObjectMeta) :=
  _ ← lift (validate_bucket_name bucket);
  t ← get_tree;
  results ← lift (walk_versions (tree_depth t) t prefix (bucket_dir st bucket) "");
  current ← list_objects bucket prefix;
  mret (merge_sort version_le
    (results ++ filter (fun m => om_version_id m = None) current)).
End listing.

Lemma elem_of_concat_map {A B} (f : A -> list B) l y : y ∈ concat (map f l) <-> exists x, x ∈ l /\ y ∈ f x.
Proof.
  induction l as [|a l IH]; cbn; [split; [by intros ?%elem_of_nil|by intros (x & ?%elem_of_nil & _)]|].
  rewrite elem_of_app, IH. setoid_rewrite elem_of_cons. naive_solver.
Qed.

(** ** Relative paths *)

Lemma ends_with_app s u p : ends_with s p = true -> ends_with (u +:+ s) p = true.
Proof. rewrite !ends_with_spec. intros [r ->]. exists (u +:+ r). by rewrite str_app_assoc. Qed.

Lemma ends_with_slash s : ends_with s "/" = true <-> last (chars s) = Some "/"%char.
Proof.
  rewrite ends_with_spec. split.
  - intros [r ->]. by rewrite chars_app, last_app.
  - intros Hl. destruct (chars s) as [|c l _] eqn:E using rev_ind; [done|]. rewrite last_snoc in Hl. injection Hl as ->.
    exists (of_chars l). apply (inj chars). by rewrite chars_app, chars_of_chars.
Qed.

Lemma unsplit_segments r : Forall segment r -> r <> [] -> unsplit r <> "" /\ ends_with (unsplit r) "/" = false.
Proof.
  intros Hr. induction r as [|a r IH]; [done|]. intros _. apply Forall_cons in Hr as [(Ha & Hba & _) Hr].
  destruct r as [|b r].
  - change (unsplit [a]) with a. split; [intros ->; apply Hba; by left|]. apply not_true_is_false. rewrite ends_with_slash. intros Hl.
    unfold contains_char in Ha. rewrite bool_decide_eq_false in Ha. by apply Ha, last_Some_elem_of.
  - destruct (IH Hr ltac:(done)) as [H1 H2]. rewrite unsplit_cons. split.
    + intros E. apply (f_equal (fun s => length (chars s))) in E. rewrite chars_app, length_app in E. cbn in E. lia.
    + apply not_true_is_false. rewrite ends_with_slash, chars_app, last_app. intros Hl.
      revert H2. apply not_false_iff_true, ends_with_slash.
      destruct (unsplit (b :: r)) as [|c u]; [done|]. cbn [chars] in *. rewrite last_cons_cons in Hl.
      destruct (last (c :: chars u)) eqn:El; [done|by apply last_None in El].
Qed.

Lemma unsplit_snoc r s : r <> [] -> unsplit (r ++ [s]) = unsplit r +:+ "/" +:+ s.
Proof.
  intros Hn. induction r as [|a r IH]; [done|]. destruct r as [|b r]; [done|].
  specialize (IH ltac:(done)). rewrite <-!app_comm_cons in *. rewrite !(unsplit_cons a), IH.
  by rewrite str_app_assoc.
Qed.

(** ** What a walk finds *)

Section walk.
Context `{Serde} (st : FilesystemStorage) (t : tree) (bucket prefix : string).
Hypothesis Hok : tree_ok t.

Local Abbreviation B := (bucket_location st bucket).
Definition walked (s : string) : Prop := passed_over s = false /\ ends_with s ".ec" = false.

(** What the walk makes of one entry. *)
Definition shown (fuel : nat) (dir rel : string) (e : string * bool) : list ObjectMeta :=
  let '(name, ft) := e in
  let rel_str := join rel name in
  if passed_over name then []
  else if ends_with name ".ec" && ft then
    let key := default rel_str (strip_suffix rel_str ".ec") in
    listed_meta t prefix key (meta_path st bucket key)
  else if ft then
    let path := join dir name in
    let marker := join path ".folder.meta.json" in
    (if exists_path t marker then listed_meta t prefix (rel_str +:+ "/") marker else [])
    ++ match walk_dir st fuel t bucket prefix path rel_str with Ok l => l | Err _ => [] end
  else listed_meta t prefix rel_str (meta_path st bucket rel_str).

Lemma walk_step fuel dir rel entries :
  fs_read_dir t dir = Ok entries ->
  (forall s, (s, true) ∈ entries -> walked s ->
     is_ok (walk_dir st fuel t bucket prefix (join dir s) (join rel s)) = true) ->
  walk_dir st (S fuel) t bucket prefix dir rel = Ok (concat (map (shown fuel dir rel) entries)).
Proof.
  intros Hr Hrec. cbn [walk_dir]. rewrite Hr. clear Hr.
  induction entries as [|[s ft] entries IH]; [done|].
  assert (IH' := IH ltac:(intros s' Hs'; apply Hrec; by right)). clear IH. cbn [map concat]. unfold shown at 1.
  destruct (passed_over s) eqn:Ep; [done|]. destruct (ends_with s ".ec" && ft) eqn:Ee.
  - cbn [mbind result_bind]. by rewrite IH'.
  - destruct ft; [|cbn [mbind result_bind]; by rewrite IH'].
    rewrite andb_true_r in Ee. specialize (Hrec s ltac:(by left) (conj Ep Ee)).
    destruct (walk_dir st fuel t bucket prefix (join dir s) (join rel s)) as [l|e]; [|done].
    cbn [mbind result_bind]. by rewrite IH'.
Qed.

(** The object an entry [s] of the directory [r] of the bucket stands for. *)
Inductive stands_for (r : location) (s : string) (m : ObjectMeta) : Prop :=
| stands_chunks key :
    B ++ r ++ [s] ∈ t_dirs t -> ends_with s ".ec" = true -> unsplit (r ++ [s]) = key +:+ ".ec" ->
    m ∈ listed_meta t prefix key (meta_path st bucket key) -> stands_for r s m
| stands_folder c :
    B ++ r ++ [s] ∈ t_dirs t -> ends_with s ".ec" = false ->
    starts_with (unsplit (r ++ [s]) +:+ "/") prefix = true ->
    t_files t !! (B ++ r ++ [s; ".folder.meta.json"]) = Some c -> parse_object c = Ok m -> stands_for r s m
| stands_file :
    is_Some (t_files t !! (B ++ r ++ [s])) ->
    m ∈ listed_meta t prefix (unsplit (r ++ [s])) (meta_path st bucket (unsplit (r ++ [s]))) -> stands_for r s m.

Lemma join_unsplit r s : Forall segment (r ++ [s]) -> join (unsplit r) s = unsplit (r ++ [s]).
Proof.
  intros [Hr Hs]%Forall_app. apply Forall_cons in Hs as [(Hs & _) _].
  unfold join. rewrite (starts_with_slash_segment s Hs). destruct (decide (r = [])) as [->|Hn]; [done|].
  destruct (unsplit_segments r Hr Hn) as (H1 & H2). by rewrite decide_False, H2, unsplit_snoc.
Qed.

Lemma ec_key r s : ends_with s ".ec" = true ->
  exists key, strip_suffix (unsplit (r ++ [s])) ".ec" = Some key /\ unsplit (r ++ [s]) = key +:+ ".ec".
Proof.
  intros He. assert (Hu : ends_with (unsplit (r ++ [s])) ".ec" = true).
  { destruct (decide (r = [])) as [->|Hn]; [done|]. rewrite unsplit_snoc by done.
    rewrite <-str_app_assoc. by apply ends_with_app. }
  apply ends_with_spec in Hu as [key E]. exists key. split; [by apply strip_suffix_Some|done].
Qed.

Lemma parsed_at {A} (parse : content -> result string A) p l m : leads_to t p l ->
  parsed parse t p = Some m <-> exists c, t_files t !! l = Some c /\ parse c = Ok m.
Proof.
  intros (_ & _ & Hr). unfold parsed, fs_read. rewrite Hr. cbn [mbind result_bind].
  destruct (t_files t !! l) as [c|].
  - destruct (parse c) as [a|e] eqn:E; split; [intros [= <-]; by exists c|intros (c' & [= <-] & E'); congruence|done|].
    intros (c' & [= <-] & E'). congruence.
  - case_decide; (split; [done|by intros (? & ? & _)]).
Qed.
Lemma listed_meta_in key path m :
  m ∈ listed_meta t prefix key path <-> starts_with key prefix = true /\ parsed parse_object t path = Some m.
Proof.
  unfold listed_meta. destruct (starts_with key prefix); [|set_solver].
  destruct (parsed parse_object t path); set_solver.
Qed.

Lemma stands_present r s m : stands_for r s m -> present t (B ++ r ++ [s]).
Proof. intros [?|?|?]; [by left|by left|by right]. Qed.

Lemma shown_file fuel p r s m : passed_over s = false ->
  is_Some (t_files t !! (B ++ r ++ [s])) -> Forall segment (r ++ [s]) ->
  m ∈ shown fuel p (unsplit r) (s, false) <-> stands_for r s m.
Proof.
  intros Hp Hf Hs. unfold shown. rewrite Hp, andb_false_r, join_unsplit by done. split.
  - by apply stands_file.
  - assert (Hnd : B ++ r ++ [s] ∉ t_dirs t).
    { intros Hd%(to_disjoint t Hok). rewrite Hd in Hf. by destruct Hf. }
    by intros [? Hd|? Hd|].
Qed.

Lemma shown_dir fuel p r s m : passed_over s = false -> B ++ r ++ [s] ∈ t_dirs t -> Forall segment (r ++ [s]) ->
  leads_to t (join (join p s) ".folder.meta.json") (B ++ r ++ [s; ".folder.meta.json"]) ->
  m ∈ shown fuel p (unsplit r) (s, true) <->
  stands_for r s m \/ (true = true /\ walked s /\ exists l,
    walk_dir st fuel t bucket prefix (join p s) (join (unsplit r) s) = Ok l /\ m ∈ l).
Proof.
  intros Hp Hd Hs Hl. unfold shown. rewrite Hp, andb_true_r, join_unsplit by done.
  pose proof (to_disjoint t Hok _ Hd) as Hnf. destruct (ends_with s ".ec") eqn:Ee.
  - destruct (ec_key r s Ee) as (key & -> & E). cbn [default from_option id]. split.
    + intros Hm. left. by apply (stands_chunks r s m key).
    + intros [Hst|(_ & [_ Hw] & _)]; [|congruence]. destruct Hst as [key' _ _ E' Hm|? _ ?|[? Hf]]; [|congruence..].
      rewrite E in E'. apply (f_equal chars) in E'. rewrite !chars_app in E'.
      apply app_inj_2 in E' as [->%(inj chars) _]; done.
  - rewrite elem_of_app.
    assert (Hmark : m ∈ (if exists_path t (join (join p s) ".folder.meta.json")
        then listed_meta t prefix (unsplit (r ++ [s]) +:+ "/") (join (join p s) ".folder.meta.json") else [])
      <-> stands_for r s m).
    { split.
      - destruct (exists_path _ _); [|by intros ?%elem_of_nil].
        intros [Hpre (c & Hc & Hm)%(parsed_at _ _ _ _ Hl)]%listed_meta_in. by apply (stands_folder r s m c).
      - intros [? _ ?|c _ _ Hpre Hc Hm|[? ?]]; [congruence| |congruence].
        assert (Hex : exists_path t (join (join p s) ".folder.meta.json") = true).
        { destruct Hl as (_ & _ & Hr). unfold exists_path. rewrite Hr. apply orb_true_iff. right.
          apply bool_decide_eq_true. by exists c. }
        rewrite Hex. apply listed_meta_in. split; [done|]. apply (parsed_at _ _ _ _ Hl). by exists c. }
    rewrite Hmark. split.
    + intros [?|Hm]; [by left|right]. split_and!; [done|done|].
      destruct (walk_dir _ _ _ _ _ _ _) as [l|e]; [by exists l|by apply elem_of_nil in Hm].
    + intros [?|(_ & _ & l & -> & Hm)]; [by left|by right].
Qed.

Lemma walk_spec fuel p r :
  leads_to t p (B ++ r) -> B ++ r ∈ t_dirs t -> Forall segment r -> p <> "" ->
  exists l, walk_dir st fuel t bucket prefix p (unsplit r) = Ok l /\
    (forall m, m ∈ l -> exists q s, Forall walked q /\ passed_over s = false /\ stands_for (r ++ q) s m) /\
    (forall q s m, Forall walked q -> passed_over s = false -> length q < fuel -> stands_for (r ++ q) s m -> m ∈ l).
Proof.
  revert p r. induction fuel as [|fuel IH]; intros p r Hp Hd Hr Hne.
  { exists []. split_and!; [done|by intros m ?%elem_of_nil|]. intros. lia. }
  destruct (read_dir_entries t p (B ++ r) Hp Hd) as (entries & Hread & Hin).
  assert (Hsegs : forall s, present t ((B ++ r) ++ [s]) -> Forall segment (r ++ [s])).
  { intros s Hs. apply (to_names t Hok) in Hs. rewrite <-app_assoc in Hs. by apply Forall_app in Hs as [_ ?]. }
  assert (Hchild : forall s, (B ++ r) ++ [s] ∈ t_dirs t ->
    leads_to t (join p s) (B ++ r ++ [s]) /\ Forall segment (r ++ [s]) /\ join p s <> "").
  { intros s Hs. assert (Hsg : Forall segment (r ++ [s])) by (apply Hsegs; by left).
    pose proof (proj1 (Forall_app _ _ _) Hsg) as [_ [Hseg _]%Forall_cons].
    destruct (leads_to_child t Hok p (B ++ r) s Hp Hd Hseg Hne) as (H1 & H2 & H3). rewrite <-app_assoc in H2, H3.
    split_and!; [split_and!; done|done|]. intros E. rewrite app_assoc in H2. rewrite E in H2.
    by apply app_cons_not_nil in H2. }
  assert (Hrec : forall s, (B ++ r) ++ [s] ∈ t_dirs t -> exists l,
    walk_dir st fuel t bucket prefix (join p s) (join (unsplit r) s) = Ok l /\
    (forall m, m ∈ l -> exists q s', Forall walked q /\ passed_over s' = false /\ stands_for ((r ++ [s]) ++ q) s' m) /\
    (forall q s' m, Forall walked q -> passed_over s' = false -> length q < fuel ->
       stands_for ((r ++ [s]) ++ q) s' m -> m ∈ l)).
  { intros s Hs. destruct (Hchild s Hs) as (H1 & H2 & H3). rewrite join_unsplit by done.
    apply IH; [done| |done..]. by rewrite <-app_assoc in Hs. }
  eexists. split; [apply walk_step; [exact Hread|]|].
  { intros s [[_ Hs]|[? _]]%Hin _; [|done]. by destruct (Hrec s Hs) as (l & -> & _). }
  assert (Hshown : forall s ft, (s, ft) ∈ entries -> passed_over s = false -> forall m,
    m ∈ shown fuel p (unsplit r) (s, ft) <->
    stands_for r s m \/ (ft = true /\ walked s /\ exists l,
      walk_dir st fuel t bucket prefix (join p s) (join (unsplit r) s) = Ok l /\ m ∈ l)).
  { intros s ft [[-> Hs]|[-> Hf]]%Hin Hps m.
    - destruct (Hchild s Hs) as (Hl & Hsg & Hne'). rewrite <-app_assoc in Hs.
      apply shown_dir; [done..|]. destruct (leads_to_child t Hok _ _ ".folder.meta.json" Hl Hs) as (H1 & H2 & H3);
        [by split_and!; [|intros [?|?]|]|done|]. rewrite <-!app_assoc in H2, H3. by split_and!.
    - rewrite <-app_assoc in Hf. rewrite shown_file; [|done|done|apply Hsegs; right; by rewrite <-app_assoc].
      split; [by left|]. by intros [?|[? _]]. }
  split.
  - intros m ([s ft] & He & Hm)%elem_of_concat_map.
    destruct (passed_over s) eqn:Ep; [unfold shown in Hm; rewrite Ep in Hm; by apply elem_of_nil in Hm|].
    apply Hshown in Hm as [Hm|(-> & Hw & l & El & Hm)]; [|idtac|done..].
    + exists [], s. by rewrite app_nil_r.
    + apply Hin in He as [[_ Hs]|[? _]]; [|done]. destruct (Hrec s Hs) as (l' & El' & Hl & _).
      rewrite El in El'. injection El' as <-. destruct (Hl m Hm) as (q & s' & Hq & Hs' & Hst).
      exists (s :: q), s'. rewrite <-app_assoc in Hst. split_and!; [by constructor|done|done].
  - intros q s m Hq Hs Hlen Hst. pose proof (stands_present _ _ _ Hst) as Hpres. apply elem_of_concat_map.
    destruct q as [|a q].
    + rewrite app_nil_r in Hst, Hpres. rewrite app_assoc in Hpres.
      assert (exists ft, (s, ft) ∈ entries) as [ft He].
      { destruct Hpres as [Hd'|Hf]; [exists true|exists false]; apply Hin; [by left|by right]. }
      exists (s, ft). split; [done|]. apply Hshown; [done..|by left].
    + apply Forall_cons in Hq as [Ha Hq].
      assert (Hda : (B ++ r) ++ [a] ∈ t_dirs t).
      { apply (present_above t _ (q ++ [s]) Hok); [by destruct q|]. by rewrite <-!app_assoc in *. }
      destruct (Hrec a Hda) as (l & El & _ & Hl).
      assert (He : (a, true) ∈ entries) by (apply Hin; by left). exists (a, true). split; [done|].
      apply (Hshown a true He); [by apply Ha|]. right. split_and!; [done..|]. exists l. split; [done|].
      apply (Hl q s m); [done..|cbn in Hlen; lia|]. by rewrite <-app_assoc.
Qed.

(** *** No entry is listed twice *)

Definition entry_of (r : location) (e : string * bool) : Prop :=
  let '(s, ft) := e in (ft = true /\ (B ++ r) ++ [s] ∈ t_dirs t) \/ (ft = false /\ is_Some (t_files t !! ((B ++ r) ++ [s]))).

Lemma entry_child p r s : leads_to t p (B ++ r) -> B ++ r ∈ t_dirs t -> Forall segment r -> p <> "" ->
  (B ++ r) ++ [s] ∈ t_dirs t ->
  leads_to t (join p s) (B ++ r ++ [s]) /\ B ++ r ++ [s] ∈ t_dirs t /\ Forall segment (r ++ [s]) /\ join p s <> "".
Proof.
  intros Hp Hd Hr Hne Hs. assert (Hsg : Forall segment (r ++ [s])).
  { assert (Hn : Forall segment ((B ++ r) ++ [s])) by (apply (to_names t Hok); by left).
    rewrite <-app_assoc in Hn. by apply Forall_app in Hn as [_ ?]. }
  pose proof (proj1 (Forall_app _ _ _) Hsg) as [_ [Hseg _]%Forall_cons].
  destruct (leads_to_child t Hok p (B ++ r) s Hp Hd Hseg Hne) as (H1 & H2 & H3). rewrite <-app_assoc in H2, H3, Hs.
  split_and!; [split_and!; done|done..|]. intros E. rewrite app_assoc in H2. rewrite E in H2. by apply app_cons_not_nil in H2.
Qed.

(** What is shown of an entry is at or below it. *)
Lemma shown_below fuel p r s ft m : leads_to t p (B ++ r) -> B ++ r ∈ t_dirs t -> Forall segment r -> p <> "" ->
  entry_of r (s, ft) -> m ∈ shown fuel p (unsplit r) (s, ft) ->
  exists q s', Forall walked q /\ passed_over s' = false /\ stands_for (r ++ q) s' m /\ head (q ++ [s']) = Some s.
Proof.
  intros Hp Hd Hr Hne He Hm. destruct (passed_over s) eqn:Eps; [unfold shown in Hm; rewrite Eps in Hm; by apply elem_of_nil in Hm|].
  destruct He as [[-> Hs]|[-> Hf]].
  - destruct (entry_child p r s Hp Hd Hr Hne Hs) as (Hl & Hd' & Hsg & Hne').
    apply shown_dir in Hm; [|done..|].
    + destruct Hm as [Hm|(_ & Hw & l & El & Hm)]; [exists [], s; by rewrite app_nil_r|].
      rewrite join_unsplit in El by done. destruct (walk_spec fuel (join p s) (r ++ [s]) Hl Hd' Hsg Hne') as (l' & El' & Hin & _).
      rewrite El in El'. injection El' as <-. destruct (Hin m Hm) as (q & s' & Hq & Hs' & Hst).
      exists (s :: q), s'. rewrite <-app_assoc in Hst. split_and!; [by constructor|done|exact Hst|done].
    + destruct (leads_to_child t Hok _ _ ".folder.meta.json" Hl Hd') as (H1 & H2 & H3);
        [by split_and!; [|intros [?|?]|]|done|]. rewrite <-!app_assoc in H2, H3. by split_and!.
  - assert (Hsg : Forall segment (r ++ [s])).
    { assert (Hn : Forall segment ((B ++ r) ++ [s])) by (apply (to_names t Hok); by right).
      rewrite <-app_assoc in Hn. by apply Forall_app in Hn as [_ ?]. }
    rewrite <-app_assoc in Hf. apply shown_file in Hm; [|done..]. exists [], s. by rewrite app_nil_r.
Qed.

(** An object stands at one place only. *)
Hypothesis one_place : forall q s q' s' m, Forall walked q -> passed_over s = false -> Forall walked q' -> passed_over s' = false ->
  stands_for q s m -> stands_for q' s' m -> q ++ [s] = q' ++ [s'].

Lemma NoDup_concat_map {X Y} (f : X -> list Y) l : NoDup l -> (forall x, x ∈ l -> NoDup (f x)) ->
  (forall x x' y, x ∈ l -> x' ∈ l -> y ∈ f x -> y ∈ f x' -> x = x') -> NoDup (concat (map f l)).
Proof.
  induction l as [|x l IH]; intros Hl Hf Hd; [constructor|]. apply NoDup_cons in Hl as [Hx Hl]. cbn. apply NoDup_app. split_and!.
  - apply Hf. by left.
  - intros y Hy (x' & Hx' & Hy')%elem_of_concat_map. rewrite (Hd x x' y) in Hx; [done|by left|by right|done..].
  - apply IH; [done| |]; intros; [apply Hf; by right|eapply Hd; [by right..|done|done]].
Qed.
Lemma listed_meta_NoDup key path : NoDup (listed_meta t prefix key path).
Proof. unfold listed_meta. destruct (starts_with _ _), (parsed parse_object t path); repeat constructor; set_solver. Qed.

Lemma read_dir_NoDup p entries : fs_read_dir t p = Ok entries -> NoDup entries.
Proof.
  unfold fs_read_dir. destruct (resolve t p) as [l'|e]; [|done]. cbn. case_decide; [|done]. intros [= <-].
  assert (Hom : forall (b : bool) ks, NoDup ks -> NoDup (omap (fun k => (., b) <$> child_of l' k) ks)).
  { intros b ks Hk. induction Hk as [|k ks Hk Hks IH]; [constructor|]. cbn. destruct (child_of l' k) as [s|] eqn:E; cbn; [|done].
    constructor; [|done]. intros (k' & Hk' & E')%list_elem_of_omap. destruct (child_of l' k') as [s'|] eqn:E2; [|done]. injection E' as ->.
    apply child_of_spec in E, E2. congruence. }
  apply NoDup_app. split_and!.
  - apply Hom, NoDup_elements.
  - intros [s b] (k & _ & E)%list_elem_of_omap (k' & _ & E')%list_elem_of_omap.
    destruct (child_of l' k); [|done]. destruct (child_of l' k'); [|done]. cbn in E, E'. congruence.
  - apply Hom, NoDup_fst_map_to_list.
Qed.

Lemma same_entry r s ft ft' : entry_of r (s, ft) -> entry_of r (s, ft') -> ft = ft'.
Proof.
  intros [[-> Hd]|[-> Hf]] [[-> Hd']|[-> Hf']]; try done.
  - apply (to_disjoint t Hok) in Hd. by rewrite Hd in Hf'; destruct Hf'.
  - apply (to_disjoint t Hok) in Hd'. by rewrite Hd' in Hf; destruct Hf.
Qed.

Lemma walk_NoDup fuel p r l : leads_to t p (B ++ r) -> B ++ r ∈ t_dirs t -> Forall segment r -> p <> "" -> Forall walked r ->
  walk_dir st fuel t bucket prefix p (unsplit r) = Ok l -> NoDup l.
Proof.
  revert p r l. induction fuel as [|fuel IH]; intros p r l Hp Hd Hr Hne Hw; [intros [= <-]; constructor|].
  destruct (read_dir_entries t p (B ++ r) Hp Hd) as (entries & Hread & Hin).
  assert (Hentry : forall s ft, (s, ft) ∈ entries -> entry_of r (s, ft)) by (intros s ft He; by apply Hin).
  rewrite (walk_step fuel p (unsplit r) entries Hread).
  2:{ intros s He%Hentry _. destruct He as [[_ Hs]|[? _]]; [|done]. destruct (entry_child p r s Hp Hd Hr Hne Hs) as (Hl & Hd' & Hsg & Hne').
      rewrite join_unsplit by done. by destruct (walk_spec fuel (join p s) (r ++ [s]) Hl Hd' Hsg Hne') as (l' & -> & _). }
  intros [= <-].
  assert (Hplace : forall s ft s' ft' m, (s, ft) ∈ entries -> (s', ft') ∈ entries ->
    m ∈ shown fuel p (unsplit r) (s, ft) -> m ∈ shown fuel p (unsplit r) (s', ft') -> s = s').
  { intros s ft s' ft' m He He' Hm Hm'. apply Hentry in He, He'.
    destruct (shown_below fuel p r s ft m Hp Hd Hr Hne He Hm) as (q & u & Hq & Hu & Hst & Hh).
    destruct (shown_below fuel p r s' ft' m Hp Hd Hr Hne He' Hm') as (q' & u' & Hq' & Hu' & Hst' & Hh').
    assert (E : (r ++ q) ++ [u] = (r ++ q') ++ [u']).
    { eapply one_place; [|done| |done|exact Hst|exact Hst']; by apply Forall_app. }
    rewrite <-!app_assoc in E. apply app_inv_head in E. rewrite E in Hh. congruence. }
  apply NoDup_concat_map.
  - by eapply read_dir_NoDup.
  - intros [s ft] He. pose proof (Hentry s ft He) as Hent. unfold shown. destruct (passed_over s) eqn:Eps; [constructor|].
    destruct (ends_with s ".ec" && ft) eqn:Eec; [apply listed_meta_NoDup|]. destruct ft; [|apply listed_meta_NoDup].
    rewrite andb_true_r in Eec. destruct Hent as [[_ Hs]|[? _]]; [|done].
    destruct (entry_child p r s Hp Hd Hr Hne Hs) as (Hl & Hd' & Hsg & Hne'). apply NoDup_app. split_and!.
    + destruct (exists_path _ _); [apply listed_meta_NoDup|constructor].
    + intros m Hm Hm'. assert (Hmark : stands_for r s m).
      { assert (Hx : m ∈ shown 0 p (unsplit r) (s, true)).
        { unfold shown. rewrite Eps, Eec. cbn [andb]. apply elem_of_app. by left. }
        apply shown_dir in Hx; [|done..|].
        - destruct Hx as [?|(_ & _ & l & El & Hl0)]; [done|]. injection El as <-. by apply elem_of_nil in Hl0.
        - destruct (leads_to_child t Hok _ _ ".folder.meta.json" Hl Hd') as (H1 & H2 & H3);
            [by split_and!; [|intros [?|?]|]|done|]. rewrite <-!app_assoc in H2, H3. by split_and!. }
      rewrite join_unsplit in Hm' by done. destruct (walk_spec fuel (join p s) (r ++ [s]) Hl Hd' Hsg Hne') as (l' & El' & Hin' & _).
      rewrite El' in Hm'. destruct (Hin' m Hm') as (q & u & Hq & Hu & Hst).
      assert (E : r ++ [s] = ((r ++ [s]) ++ q) ++ [u]).
      { eapply one_place; [exact Hw|done| |done|exact Hmark|exact Hst]. apply Forall_app. split; [|done].
        apply Forall_app. split; [done|]. by repeat constructor. }
      apply (f_equal length) in E. rewrite !length_app in E. cbn in E. lia.
    + destruct (walk_dir _ _ _ _ _ _ _) as [l'|e] eqn:El; [|constructor]. rewrite join_unsplit in El by done.
      apply (IH (join p s) (r ++ [s])); try done. apply Forall_app. split; [done|]. by repeat constructor.
  - intros [s ft] [s' ft'] m He He' Hm Hm'. pose proof (Hplace _ _ _ _ _ He He' Hm Hm') as ->.
    by rewrite (same_entry r s' ft ft') by (by apply Hentry).
Qed.
End walk.

(** ** The listing of a bucket *)

Lemma parsed_place `{Serde} {A} (parse : content -> result string A) t path P s m : tree_ok t -> at_place path P s ->
  parsed parse t path = Some m <-> exists c, t_files t !! (P ++ [s]) = Some c /\ parse c = Ok m.
Proof.
  intros Hok Ha. destruct (at_place_names _ _ _ Ha) as [Hp Hn]. unfold parsed. split.
  - destruct (fs_read t path) as [c|] eqn:E; [|done]. apply fs_read_ok in E as [_ E]; [|done]. rewrite Hn in E.
    destruct (parse c) as [a|] eqn:Epc; [|done]. intros [= <-]. by exists c.
  - intros (c & Hc & Hm). rewrite (proj2 (fs_read_ok t path c Hp)); [by rewrite Hm|]. rewrite Hn. split; [|done].
    apply resolve_place; [done|]. intros d Hd. destruct Hd as [r ->].
    apply (present_above t d (r ++ [s]) Hok); [by destruct r|]. right. exists c. by rewrite app_assoc.
Qed.

Lemma unsplit_no_slash r : Forall segment r -> r <> [] -> starts_with (unsplit r) "/" = false.
Proof.
  intros Hr Hn. destruct r as [|s [|s' r]]; [done| |].
  - apply Forall_cons in Hr as [(Hs & _) _]. by apply starts_with_slash_segment.
  - apply Forall_cons in Hr as [(Hs & Hb & _) _]. rewrite unsplit_cons. destruct s as [|c s]; [by destruct Hb; left|].
    apply not_true_is_false. intros [k E]%starts_with_spec. rewrite str_app_cons in E. injection E as -> _.
    unfold contains_char in Hs. apply bool_decide_eq_false in Hs. apply Hs. cbn. by left.
Qed.
Lemma unsplit_path r : Forall segment r -> r <> [] -> plain (unsplit r) /\ names (unsplit r) = r.
Proof.
  intros Hr Hn. assert (Hs : Forall (fun s => contains_char "/" s = false) r) by (eapply Forall_impl; [exact Hr|by intros s []]).
  split.
  - apply plain_unsplit; [done|]. intros Hin. rewrite Forall_forall in Hr. by destruct (Hr _ Hin) as (_ & _ & ?).
  - rewrite names_unsplit by done. clear Hn Hs. induction r as [|s r IH]; [done|]. apply Forall_cons in Hr as [(_ & Hb & _) Hr].
    by rewrite filter_cons_True, IH.
Qed.

Lemma segment_suffix s : segment s -> segment (s +:+ ".ec").
Proof.
  intros (Hs & _ & _). pose proof (long_suffix ".ec" ltac:(cbn; lia) s) as (H1 & H2 & H3).
  split_and!; [|by intros [?|?]|done]. unfold contains_char in *. rewrite bool_decide_eq_false in *.
  rewrite chars_app, elem_of_app. intros [?|Hin]; [done|]. cbn in Hin. set_solver.
Qed.

Section bucket.
Context `{Serde} (st : FilesystemStorage) (bucket : string).
Hypothesis Hst : storage_ok st.
Hypothesis Hbucket : validate_bucket_name bucket = Ok tt.
Local Abbreviation B := (bucket_location st bucket).

(** The payload of an object or folder is there. *)
Definition payload (t : tree) (key : string) : Prop :=
  is_Some (t_files t !! names (object_path st bucket key)) \/ names (ec_dir st bucket key) ∈ t_dirs t \/
  (ends_with key "/" = true /\ B ++ names key ∈ t_dirs t).

(** A key spelt without repeated separators or [.]. *)
Definition canonical (key : string) : Prop :=
  key = unsplit (names key) \/ key = unsplit (names key) +:+ "/".

Lemma folder_meta_place r : Forall segment r -> r <> [] ->
  ends_with (unsplit r +:+ "/") "/" = true /\ names (unsplit r +:+ "/") = r /\
  at_place (meta_path st bucket (unsplit r +:+ "/")) (B ++ r) ".folder.meta.json".
Proof.
  intros Hr Hn. assert (He : ends_with (unsplit r +:+ "/") "/" = true) by (apply ends_with_spec; by eexists).
  destruct (unsplit_path r Hr Hn) as [Hp Hnm]. pose proof (unsplit_no_slash r Hr Hn) as Hs.
  destruct (slashes_names (unsplit r) 1) as [Hs1 Hs2]. cbn [replicate of_chars] in Hs1, Hs2.
  rewrite Hnm in Hs1. destruct (trim_names (unsplit r +:+ "/")) as [Ht1 Ht2]. rewrite Hs1 in Ht1.
  split_and!; [done|done|]. unfold meta_path. rewrite He.
  destruct (below_bucket st bucket Hst Hbucket (trim_end_slashes (unsplit r +:+ "/"))) as [H1 H2].
  { apply starts_with_trim. apply not_true_is_false. intros [k E]%starts_with_spec.
    destruct (unsplit r) as [|c u] eqn:Eu; [by destruct (unsplit_segments r Hr Hn) as [? _]|].
    rewrite str_app_cons in E. injection E as -> _. revert Hs. apply not_false_iff_true, starts_with_spec. by exists u. }
  { by apply Ht2, Hs2. }
  apply at_place_join; [done|by rewrite H2, Ht1|done|by intros [?|?]|done].
Qed.

(** Where the payload of a key is kept: in a file, in a directory of chunks, or, for
    a folder, in a directory with a marker.  The walk passes over the names the
    storage keeps for itself. *)
Inductive kept_at (t : tree) (key : string) (F : location) : Prop :=
| kept_file : is_Some (t_files t !! (B ++ F)) -> key = unsplit F ->
    Forall (fun s => passed_over s = false) F -> kept_at t key F
| kept_chunks : B ++ F ∈ t_dirs t -> key +:+ ".ec" = unsplit F ->
    Forall (fun s => passed_over s = false) F -> kept_at t key F
| kept_folder : B ++ F ∈ t_dirs t -> key = unsplit F +:+ "/" -> is_Some (t_files t !! (B ++ F ++ [".folder.meta.json"])) ->
    Forall (fun s => passed_over s = false) F -> kept_at t key F.
(** Every key has one payload, and its sidecar is its own. *)
Definition tidy (t : tree) : Prop :=
  (forall key F F', kept_at t key F -> kept_at t key F' -> F = F') /\
  (forall key F m, kept_at t key F -> parsed parse_object t (meta_path st bucket key) = Some m -> om_key m = key).

Lemma walked_passed q s : Forall walked q -> passed_over s = false -> Forall (fun s => passed_over s = false) (q ++ [s]).
Proof.
  intros Hq Hs. apply Forall_app. split; [|by repeat constructor]. eapply Forall_impl; [exact Hq|]. by intros x [? _].
Qed.
Lemma stands_kept t prefix q s m : tree_ok t -> Forall walked q -> passed_over s = false -> stands_for st t bucket prefix q s m ->
  exists key, kept_at t key (q ++ [s]) /\ parsed parse_object t (meta_path st bucket key) = Some m.
Proof.
  intros Hok Hq Hs Hst'. pose proof (walked_passed q s Hq Hs) as Hpass. pose proof (stands_present _ _ _ _ _ _ _ Hst') as Hpres.
  apply (to_names t Hok) in Hpres as [_ Hseg]%Forall_app. assert (Hn : q ++ [s] <> []) by (by destruct q).
  destruct Hst' as [key Hd _ E [_ Hm]%(listed_meta_in t prefix Hok)|c Hd _ _ Hc Hm|Hf [_ Hm]%(listed_meta_in t prefix Hok)].
  - exists key. split; [|done]. by apply kept_chunks.
  - destruct (folder_meta_place _ Hseg Hn) as (He & Hk & Ha). exists (unsplit (q ++ [s]) +:+ "/"). split.
    + apply kept_folder; [done|done| |done]. exists c. by rewrite <-!app_assoc.
    + apply (parsed_place _ _ _ _ _ _ Hok Ha). exists c. by rewrite <-!app_assoc.
  - exists (unsplit (q ++ [s])). split; [|done]. by apply kept_file.
Qed.
Lemma tidy_one_place t prefix : tree_ok t -> tidy t -> forall q s q' s' m,
  Forall walked q -> passed_over s = false -> Forall walked q' -> passed_over s' = false ->
  stands_for st t bucket prefix q s m -> stands_for st t bucket prefix q' s' m -> q ++ [s] = q' ++ [s'].
Proof.
  intros Hok [Hone Hown] q s q' s' m Hq Hs Hq' Hs' Hm Hm'.
  destruct (stands_kept t prefix q s m Hok Hq Hs Hm) as (key & Hk & Hp).
  destruct (stands_kept t prefix q' s' m Hok Hq' Hs' Hm') as (key' & Hk' & Hp').
  pose proof (Hown key _ m Hk Hp) as E. pose proof (Hown key' _ m Hk' Hp') as E'. rewrite <-E in Hk. rewrite <-E' in Hk'. by apply (Hone (om_key m)).
Qed.

(** What an entry of the tree stands for is the sidecar of some key. *)
Lemma stands_sound t prefix q s m : tree_ok t -> stands_for st t bucket prefix q s m ->
  exists key, starts_with key prefix = true /\ payload t key /\ parsed parse_object t (meta_path st bucket key) = Some m.
Proof.
  intros Hok Hst'. pose proof (stands_present _ _ _ _ _ _ _ Hst') as Hpres.
  apply (to_names t Hok) in Hpres as [_ Hseg]%Forall_app. assert (Hn : q ++ [s] <> []) by (by destruct q).
  destruct (unsplit_path _ Hseg Hn) as [Hp Hnm]. pose proof (unsplit_no_slash _ Hseg Hn) as Hs.
  destruct (below_bucket st bucket Hst Hbucket _ Hs Hp) as [Hpb Hnb]. rewrite Hnm in Hnb.
  destruct Hst' as [key Hd _ E [Hpre Hm]%(listed_meta_in t prefix Hok)
    |c Hd _ Hpre Hc Hm|Hf [Hpre Hm]%(listed_meta_in t prefix Hok)].
  - exists key. split_and!; [done| |done]. right; left. unfold ec_dir. by rewrite <-E, Hnb.
  - set (key := unsplit (q ++ [s]) +:+ "/"). destruct (folder_meta_place _ Hseg Hn) as (He & Hk & Ha). exists key.
    split_and!; [done|right; right; unfold key; by rewrite Hk|]. apply (parsed_place _ _ _ _ _ _ Hok Ha). exists c.
    by rewrite <-!app_assoc.
  - exists (unsplit (q ++ [s])). split_and!; [done| |done]. left. unfold object_path.
    rewrite (proj2 (unsplit_segments _ Hseg Hn)), Hnb. done.
Qed.

Lemma last_chars_ec s : last (chars (s +:+ ".ec")) = Some "c"%char.
Proof. by rewrite chars_app, last_app. Qed.
Lemma reserved_walked s : is_reserved_segment s = false ->
  walked s /\ passed_over (s +:+ ".ec") = false.
Proof.
  unfold is_reserved_segment, walked, passed_over. intros Hr. bool_to_prop.
  assert (Hl : forall x, last (chars x) <> Some "c"%char -> s +:+ ".ec" <> x).
  { intros x Hx <-. by rewrite last_chars_ec in Hx. }
  assert (Hm : ends_with (s +:+ ".ec") ".meta.json" = false).
  { apply not_true_is_false. intros [r E]%ends_with_spec. apply (f_equal (fun s => last (chars s))) in E.
    rewrite last_chars_ec, chars_app, last_app in E. done. }
  split; [|rewrite Hm; rewrite !bool_decide_eq_false_2 by (apply Hl; by vm_compute); done].
  repeat match goal with E : ?x = false |- context [?x] => rewrite E end.
  by rewrite !bool_decide_eq_false_2.
Qed.

Lemma reserved_segments key : validate_key key = Ok tt -> Forall segment (names key).
Proof.
  intros Hv. destruct (accepted_key key Hv) as (_ & Hp & _ & _). apply Forall_forall. intros s Hs.
  unfold names in Hs. apply list_elem_of_filter in Hs as [Hb Hs]. split_and!; [by apply (split_char_pieces "/" key)|done|].
  intros ->. by apply Hp.
Qed.

(** Every canonical key with a sidecar and a payload is found. *)
Lemma key_stands t prefix key m : tree_ok t -> validate_key key = Ok tt -> canonical key -> names key <> [] ->
  payload t key -> starts_with key prefix = true -> parsed parse_object t (meta_path st bucket key) = Some m ->
  exists q s, Forall walked q /\ passed_over s = false /\ stands_for st t bucket prefix q s m.
Proof.
  intros Hok Hv Hc Hn Hpay Hpre Hm. pose proof (reserved_segments key Hv) as Hseg.
  destruct (accepted_key key Hv) as (_ & _ & _ & Hres). unfold canonical in Hc.
  remember (names key) as F eqn:EF.
  assert (HFl : forall s, s ∈ F -> walked s /\ passed_over (s +:+ ".ec") = false).
  { intros s Hs. rewrite Forall_forall in Hres. by apply reserved_walked, Hres. }
  destruct F as [|s q _] using rev_ind; [done|]. clear Hn.
  assert (Hn : q ++ [s] <> []) by (by destruct q).
  assert (Hq : Forall walked q) by (apply Forall_forall; intros x Hx; apply HFl; set_solver).
  destruct (HFl s ltac:(set_solver)) as [[Hs1 Hs2] Hs3].
  destruct (unsplit_path _ Hseg Hn) as [Hup Hun]. pose proof (unsplit_no_slash _ Hseg Hn) as Hus.
  destruct (unsplit_segments _ Hseg Hn) as [Hu1 Hu2].
  destruct Hc as [Hc|Hc]; [|exists q, s; split_and!; [done..|]; subst key].
  2:{ destruct (folder_meta_place _ Hseg Hn) as (He & Hk & Ha). apply (parsed_place _ _ _ _ _ _ Hok Ha) in Hm as (c & Hf & Hm).
      apply (stands_folder _ _ _ _ _ _ _ c); [|done|done|by rewrite <-!app_assoc in Hf|done].
      apply (present_above t _ [".folder.meta.json"] Hok); [done|right]. by exists c. }
  subst key. unfold payload, object_path in Hpay. rewrite Hu2 in Hpay.
  destruct (below_bucket st bucket Hst Hbucket _ Hus Hup) as [Hb1 Hb2].
  destruct Hpay as [Hf|[Hd|[? _]]]; [| |done].
  - exists q, s. split_and!; [done..|]. rewrite Hb2, Hun in Hf. apply stands_file; [done|].
    by apply (listed_meta_in t prefix Hok).
  - exists q, (s +:+ ".ec"). split_and!; [done..|].
    assert (E : unsplit (q ++ [s +:+ ".ec"]) = unsplit (q ++ [s]) +:+ ".ec").
    { destruct (decide (q = [])) as [->|Hq']; [done|]. by rewrite !unsplit_snoc, !str_app_assoc. }
    apply (stands_chunks _ _ _ _ _ _ _ (unsplit (q ++ [s]))); [|by apply ends_with_spec; eexists|done|by apply (listed_meta_in t prefix Hok)].
    unfold ec_dir in Hd. rewrite <-E in Hd.
    assert (Hseg' : Forall segment (q ++ [s +:+ ".ec"])).
    { apply Forall_app in Hseg as [Hsq Hss]. apply Forall_app. split; [done|]. apply Forall_cons in Hss as [Hss _].
      constructor; [by apply segment_suffix|constructor]. }
    assert (Hn' : q ++ [s +:+ ".ec"] <> []) by (by destruct q).
    destruct (unsplit_path _ Hseg' Hn') as [Hp' Hn2]. pose proof (unsplit_no_slash _ Hseg' Hn') as Hs'.
    destruct (below_bucket st bucket Hst Hbucket _ Hs' Hp') as [_ Hb3]. by rewrite Hb3, Hn2 in Hd.
Qed.
End bucket.

Global Instance key_le_total : Total key_le.
Proof. intros a b. unfold key_le. destruct (String.leb_total (om_key a) (om_key b)); auto. Qed.

(** C33: the listing of a bucket, with any prefix: the walk always ends with an
    answer, sorted by key.  Every sidecar listed is a readable one of a key with
    the prefix and a payload; conversely the sidecar of every accepted key that is
    spelt without repeated separators or dots, has the prefix and has a payload
    is listed.  In a bucket where no key has two payloads, such as a file and a
    directory of chunks, and every sidecar is that of its key, no key is listed
    twice. *)
Theorem listing_is_complete `{Serde} st bucket prefix w :
  storage_ok st -> validate_bucket_name bucket = Ok tt -> tree_ok (w_tree w) ->
  bucket_location st bucket ∈ t_dirs (w_tree w) ->
  exists l, list_objects_walk st bucket prefix w = (w, Ok l) /\ Sorted key_le l /\
    (forall m, m ∈ l -> exists key, starts_with key prefix = true /\ payload st bucket (w_tree w) key /\
       read_object_meta st bucket key w = (w, Ok m)) /\
    (forall key m, validate_key key = Ok tt -> canonical key -> names key <> [] -> starts_with key prefix = true ->
       payload st bucket (w_tree w) key -> read_object_meta st bucket key w = (w, Ok m) -> m ∈ l) /\
    (tidy st bucket (w_tree w) -> NoDup (map om_key l)).
Proof.
  intros Hst Hb Hok Hd. set (t := w_tree w) in *.
  destruct (at_place_names _ _ _ (bucket_dir_place st bucket Hst Hb)) as [Hp Hn]. fold (bucket_location st bucket) in Hn.
  assert (Hl : leads_to t (bucket_dir st bucket) (bucket_location st bucket ++ [])).
  { rewrite app_nil_r. split_and!; [done..|]. apply resolve_place; [by apply bucket_dir_place|].
    intros d [r E]. apply (present_above t d (r ++ [bucket]) Hok); [by destruct r|left].
    rewrite app_assoc, <-E. exact Hd. }
  destruct (walk_spec st t bucket prefix Hok (tree_depth t) (bucket_dir st bucket) []) as (l & Hw & Hin & Hout);
    [done|by rewrite app_nil_r|done| |].
  { intros E. rewrite E in Hn. unfold bucket_location in Hn. by destruct (names (st_buckets_dir st)). }
  assert (Hread : forall key m, read_object_meta st bucket key w = (w, Ok m) <->
    parsed parse_object t (meta_path st bucket key) = Some m).
  { intros key m. unfold read_object_meta, read_json, parsed. fold t.
    destruct (fs_read t (meta_path st bucket key)) as [c|e]; [destruct (parse_object c); cbn|]; naive_solver. }
  exists (merge_sort key_le l). split_and!.
  - unfold list_objects_walk. rewrite (run_lift _ _ _ _ Hb). unfold get_tree. cbn [mbind M_bind].
    erewrite run_ok by done. fold t. by rewrite (run_lift _ _ _ _ Hw).
  - apply Sorted_merge_sort, _.
  - intros m Hm. rewrite (merge_sort_Permutation key_le) in Hm. apply Hin in Hm as (q & s & _ & _ & Hs).
    apply (stands_sound st bucket Hst Hb) in Hs as (key & ? & ? & ?); [|done]. exists key. by rewrite Hread.
  - intros key m Hv Hc Hne Hpre Hpay Hm. rewrite (merge_sort_Permutation key_le). apply Hread in Hm.
    destruct (key_stands st bucket Hst Hb t prefix key m Hok Hv Hc Hne Hpay Hpre Hm) as (q & s & Hq & Hs & Hs').
    apply (Hout q s m Hq Hs); [|done]. pose proof (stands_present _ _ _ _ _ _ _ Hs') as Hpres. cbn [app] in Hpres.
    pose proof (prefixes_in_dirs t _ (q ++ [s]) Hok ltac:(by destruct q) Hpres) as Hlen.
    rewrite !length_app in Hlen. unfold tree_depth. cbn in Hlen. lia.
  - intros Htidy. pose proof (tidy_one_place st bucket Hst Hb t prefix Hok Htidy) as Hone.
    rewrite (merge_sort_Permutation key_le). apply (NoDup_fmap_2_strong om_key).
    + intros m m' (q & s & Hq & Hs & Hm)%Hin (q' & s' & Hq' & Hs' & Hm')%Hin E.
      apply (stands_kept st bucket Hst Hb) in Hm as (key & Hk & Hp'); [|done..].
      apply (stands_kept st bucket Hst Hb) in Hm' as (key' & Hk' & Hp''); [|done..].
      destruct Htidy as [_ Hown]. rewrite (Hown _ _ _ Hk Hp'), (Hown _ _ _ Hk' Hp'') in E. subst key'. congruence.
    + apply (walk_NoDup st t bucket prefix Hok Hone (tree_depth t) (bucket_dir st bucket) []); try done; [by rewrite app_nil_r|].
      intros E. rewrite E in Hn. unfold bucket_location in Hn. by destruct (names (st_buckets_dir st)).
Qed.

(** ** Witness *)

Import Demo.Toys.

Module Witness.
Definition st : FilesystemStorage := demo_storage false.
Definition rex : ObjectMeta :=
  mk_ObjectMeta "dogs/rex" 4 "etag" "text/plain" "t" None false None None None None None None None None None.
Definition w : world := with_tree (demo_world (demo_bucket false None None))
  (mk_tree {[ ["data"; "buckets"; "pets"; ".bucket.json"] := BucketJson (demo_bucket false None None);
              ["data"; "buckets"; "pets"; "dogs"; "rex"] := Raw (as_bytes "woof");
              ["data"; "buckets"; "pets"; "dogs"; "rex.meta.json"] := ObjectJson rex ]}
     {[ []; ["data"]; ["data"; "buckets"]; ["data"; "buckets"; "pets"]; ["data"; "buckets"; "pets"; "dogs"] ]}).
End Witness.

Lemma witness_files F c : t_files (w_tree Witness.w) !! (["data"; "buckets"; "pets"] ++ F) = Some c ->
  F ∈ [[".bucket.json"]; ["dogs"; "rex"]; ["dogs"; "rex.meta.json"]].
Proof.
  cbn. rewrite !lookup_insert_Some, lookup_singleton_Some, !elem_of_cons. intros [[[= <-] _]|[_ [[[= <-] _]|[_ [[= <-] _]]]]]; auto.
Qed.
Lemma witness_dirs F : ["data"; "buckets"; "pets"] ++ F ∈ t_dirs (w_tree Witness.w) -> F = [] \/ F = ["dogs"].
Proof. cbn. rewrite !elem_of_union, !elem_of_singleton. intros Hd. repeat (destruct Hd as [Hd|Hd]; [|naive_solver]). naive_solver. Qed.
Lemma witness_kept key F : kept_at Witness.st "pets" (w_tree Witness.w) key F -> key = "dogs/rex" /\ F = ["dogs"; "rex"].
Proof.
  intros [[c Hc] Hk Hp|Hd Hk _|Hd _ [c Hc] _].
  - apply witness_files in Hc. rewrite !elem_of_cons in Hc.
    destruct Hc as [->|[->|[->|[]%elem_of_nil]]]; [by apply Forall_cons in Hp as [? _]|done|].
    by apply Forall_cons in Hp as [_ [? _]%Forall_cons].
  - exfalso. assert (He : ends_with (unsplit F) ".ec" = true) by (rewrite <-Hk; apply ends_with_spec; by exists key).
    by apply witness_dirs in Hd as [->| ->].
  - exfalso. apply witness_files in Hc. by apply witness_dirs in Hd as [->| ->]; set_solver.
Qed.

Lemma listing_is_complete_witness :
  exists l, list_objects_walk Witness.st "pets" "do" Witness.w = (Witness.w, Ok l) /\ Witness.rex ∈ l /\ NoDup (map om_key l).
Proof.
  destruct (listing_is_complete Witness.st "pets" "do" Witness.w) as (l & Hl & _ & _ & Hc & Hn);
    [apply demo_storage_ok|reflexivity|apply tree_okb_ok; vm_compute; reflexivity
    |apply (bool_decide_unpack _); vm_compute; exact I|].
  exists l. split; [exact Hl|]. split.
  - apply (Hc "dogs/rex" Witness.rex); [reflexivity|by left|discriminate|reflexivity| |vm_compute; reflexivity].
    left. exists (Raw (as_bytes "woof")). vm_compute. reflexivity.
  - apply Hn. split.
    + intros key F F' [_ ->]%witness_kept [_ ->]%witness_kept. reflexivity.
    + intros key F m [-> _]%witness_kept Hm. vm_compute in Hm. injection Hm as <-. reflexivity.
Defined.
