(* ===== verification/Housekeeping.v ===== *)
(** * Housekeeping

    [filesystem/housekeeping.rs]: the hourly sweep over all buckets, which aborts
    stale uploads, removes leftover temporary files and expires objects by the
    lifecycle rules.  A sweep reports what it removed and never fails.  Instants
    are in nanoseconds. *)

From stdpp Require Import base list gmap sets sorting numbers strings pretty.
From Stdlib Require Import ZArith Lia Ascii Strings.Byte.
From S2P Require Import Prelude Bytes Reader Types Quota Crypto ErasureCode ChunkReader MetadataIndex FileSystem Paths World Storage BucketConfig Sidecar Publish Objects Versions Listing.

Local Open Scope nat_scope.

(** [TimeDelta::num_days]. *)
Definition day : Z := (86400 * 10 ^ 9)%Z.
Definition num_days (age : Z) : Z := Z.quot age day.

(** ** The rule for a key *)

(** [max_by_key] keeps the last of the greatest. *)
Definition longer_prefix (best : option LifecycleRule) (r : LifecycleRule) : option LifecycleRule :=
  match best with
  | Some b => if String.length (lr_prefix r) <? String.length (lr_prefix b) then Some b else Some r
  | None => Some r
  end.
Definition longest_rule (rules : list LifecycleRule) (key : string) : option LifecycleRule :=
  fold_left longer_prefix (filter (fun r => starts_with key (lr_prefix r) = true) rules) None.
Definition lifecycle_expiry_days_for_key (rules : list LifecycleRule) (key : string) : option Z :=
  longest_rule rules key ≫= lr_expiration_days.
Definition lifecycle_noncurrent_expiry_days_for_key (rules : list LifecycleRule) (key : string) : option Z :=
  longest_rule rules key ≫= lr_noncurrent_expiration_days.

Section housekeeping.
Context `{Environment} `{Crates} `{Serde} `{SerdeJson} `{Aead} `{ReedSolomon}.
Context `{!KeyService FilesystemStorage} (st : FilesystemStorage).

(** What an operation answered; its error is only logged. *)
Definition outcome {A} (m : M StorageError A) : M StorageError (result StorageError A) :=
  on_world (fun w => let '(w, r) := m w in (w, Ok r)).
(** One removal, and how many it counts for. *)
Definition removing {A} (m : M StorageError A) : M StorageError nat :=
  r ← outcome m; mret (if is_ok r then 1 else 0).
Fixpoint sweep_each {A} (f : A -> M StorageError nat) (l : list A) : M StorageError nat :=
  match l with
  | [] => mret 0
  | a :: l => n ← f a; m ← sweep_each f l; mret (n + m)
  end.
(** The entries of a directory, none when it cannot be read. *)
Definition entries_of (dir : string) : M StorageError (list (string * bool)) :=
  t ← get_tree; mret match fs_read_dir t dir with Ok entries => entries | Err _ => [] end.

(** ** Stale uploads *)

Definition upload_initiated (t : tree) (upload_dir : string) : option string :=
  match fs_read t (join upload_dir ".meta.json") with
  | Ok c => match parse_upload c with Ok m => Some (mu_initiated m) | Err _ => None end
  | Err _ => None
  end.
Definition is_stale (at_time stale_after : Z) (initiated : option string) : bool :=
  match initiated with
  | Some ts => match parse_rfc3339 ts with Some t => (stale_after <? at_time - t)%Z | None => true end
  | None => true
  end.
Definition sweep_upload (at_time stale_after : Z) (uploads_dir : string) (entry : string * bool) : M StorageError nat :=
  let path := join uploads_dir (fst entry) in
  if negb (snd entry) then mret 0
  else
    t ← get_tree;
    if is_stale at_time stale_after (upload_initiated t path) then removing (call (fun t => fs_remove_dir_all t path))
    else mret 0.

(** ** Leftover temporary files *)

Definition sweep_temp_file (dir : string) (entry : string * bool) : M StorageError nat :=
  let '(name, is_directory) := entry in
  if negb (starts_with name temp_prefix) then mret 0
  else if is_directory : bool then removing (call (fun t => fs_remove_dir_all t (join dir name)))
  else removing (call (fun t => fs_remove_file t (join dir name))).
Definition sweep_temp_files (dir : string) : M StorageError nat :=
  entries ← entries_of dir; sweep_each (sweep_temp_file dir) entries.

(** ** Expiration *)

(** The days a key may stay have passed since a date; a date that is none never
    passes. *)
Definition expired (at_time : Z) (last_modified : string) (days : Z) : bool :=
  match parse_rfc3339 last_modified with
  | Some modified => (days <=? num_days (at_time - modified))%Z
  | None => false
  end.

Definition expire_object (bucket : string) (rules : list LifecycleRule) (at_time : Z) (meta : ObjectMeta)
    : M StorageError nat :=
  if om_is_delete_marker meta then mret 0
  else
    match lifecycle_expiry_days_for_key rules (om_key meta) with
    | None => mret 0
    | Some days =>
        if negb (expired at_time (om_last_modified meta) days) then mret 0
        else
          p ← protected_now meta;
          if p : bool then mret 0 else removing (delete_object st bucket (om_key meta))
    end.

(** [last_key] is the key of the version before. *)
Fixpoint expire_versions (bucket : string) (rules : list LifecycleRule) (at_time : Z) (last_key : option string)
    (versions : list ObjectMeta) : M StorageError nat :=
  match versions with
  | [] => mret 0
  | meta :: versions =>
      if om_is_delete_marker meta then expire_versions bucket rules at_time last_key versions
      else
        n ← (if decide (last_key = Some (om_key meta)) then
               match lifecycle_noncurrent_expiry_days_for_key rules (om_key meta), om_version_id meta with
               | Some days, Some version_id =>
                   if negb (expired at_time (om_last_modified meta) days) then mret 0
                   else removing (delete_object_version st bucket (om_key meta) version_id)
               | _, _ => mret 0
               end
             else mret 0);
        m ← expire_versions bucket rules at_time (Some (om_key meta)) versions;
        mret (n + m)
  end.
Definition sweep_noncurrent_version_expiration (bucket : string) (rules : list LifecycleRule) (at_time : Z)
    : M StorageError nat :=
  if negb (existsb (fun r => bool_decide (is_Some (lr_noncurrent_expiration_days r))) rules) then mret 0
  else
    versions ← outcome (list_object_versions st bucket "");
    match versions with
    | Ok versions => expire_versions bucket rules at_time None versions
    | Err _ => mret 0
    end.

Definition sweep_lifecycle_expiration (bucket : string) (at_time : Z) : M StorageError nat :=
  meta ← outcome (read_bucket_meta st bucket);
  match meta with
  | Err _ => mret 0
  | Ok meta =>
      let active_rules := filter (fun r => lr_enabled r = true) (default [] (bm_lifecycle_rules meta)) in
      if decide (active_rules = []) then mret 0
      else
        versioned ← versioned_or_false st bucket;
        if versioned : bool then sweep_noncurrent_version_expiration bucket active_rules at_time
        else
          objects ← outcome (list_objects st bucket "");
          match objects with
          | Ok objects => sweep_each (expire_object bucket active_rules at_time) objects
          | Err _ => mret 0
          end
  end.

(** ** The sweep *)

Record swept : Type := mk_swept { uploads_removed : nat; temp_removed : nat; objects_expired : nat }.
Definition add_swept (a b : swept) : swept :=
  mk_swept (uploads_removed a + uploads_removed b) (temp_removed a + temp_removed b) (objects_expired a + objects_expired b).

Definition sweep_bucket (at_time stale_after : Z) (entry : string * bool) : M StorageError swept :=
  let '(bucket_name, is_directory) := entry in
  if negb is_directory then mret (mk_swept 0 0 0)
  else
    let dir := join (st_buckets_dir st) bucket_name in
    let uploads_dir := join dir ".uploads" in
    uploads ← entries_of uploads_dir;
    u ← sweep_each (sweep_upload at_time stale_after uploads_dir) uploads;
    t1 ← sweep_temp_files dir;
    t2 ← sweep_temp_files uploads_dir;
    o ← sweep_lifecycle_expiration bucket_name at_time;
    mret (mk_swept u (t1 + t2) o).
Fixpoint sweep_buckets (at_time stale_after : Z) (entries : list (string * bool)) : M StorageError swept :=
  match entries with
  | [] => mret (mk_swept 0 0 0)
  | entry :: entries =>
      a ← sweep_bucket at_time stale_after entry;
      b ← sweep_buckets at_time stale_after entries;
      mret (add_swept a b)
  end.
Definition housekeeping_sweep (stale_after : Z) : M StorageError swept :=
  n ← tick;
  entries ← entries_of (st_buckets_dir st);
  sweep_buckets (now n) stale_after entries.

(** ** Counting *)

Definition count_uploads (t : tree) (entry : string * bool) : nat :=
  if negb (snd entry) then 0
  else match fs_read_dir t (join (join (st_buckets_dir st) (fst entry)) ".uploads") with
       | Ok uploads => length (filter (fun up : string * bool => up.2 = true) uploads)
       | Err _ => 0
       end.
Definition count_active_multipart_uploads (t : tree) : nat :=
  match fs_read_dir t (st_buckets_dir st) with
  | Ok entries => foldr Nat.add 0 (map (count_uploads t) entries)
  | Err _ => 0
  end.
End housekeeping.
