(* ===== verification/HousekeepingSpec.v ===== *)
(** * The sweep removes only what is due

    What the hourly sweep takes away from unversioned buckets: uploads that are
    stale, temporary files, and objects that a rule has expired and no lock
    protects.  Then what its version sweep does to a deleted object. *)

From stdpp Require Import base list gmap sets sorting numbers strings pretty.
From Stdlib Require Import ZArith Lia Ascii Strings.Byte.
From S2P Require Import Prelude Bytes Reader Types Quota Crypto ErasureCode ChunkReader MetadataIndex FileSystem Paths World TreeOk Keyring Storage BucketConfig Sidecar Encryption Publish Objects Demo Layout DeleteBucketSpec Versions LockSpec Behaviours Listing Housekeeping.

Local Open Scope nat_scope.

(** ** Steps that only remove *)

Record removes (own : location -> Prop) (v v' : world) : Prop := {
  rm_files l : t_files (w_tree v') !! l = t_files (w_tree v) !! l \/ (t_files (w_tree v') !! l = None /\ own l);
  rm_dirs : t_dirs (w_tree v') ⊆ t_dirs (w_tree v);
  rm_ok : tree_ok (w_tree v) -> tree_ok (w_tree v');
  rm_tick : w_tick v <= w_tick v';
}.
Definition shrinks : world -> world -> Prop := removes (fun _ => True).

Lemma removes_refl own v : removes own v v.
Proof. split; auto. Qed.
Lemma removes_trans own v1 v2 v3 : removes own v1 v2 -> removes own v2 v3 -> removes own v1 v3.
Proof.
  intros [F1 D1 K1 N1] [F2 D2 K2 N2]. split; [|set_solver|auto|lia].
  intros l. destruct (F2 l) as [-> |?]; [apply F1|by right].
Qed.
Lemma removes_weaken (own own' : location -> Prop) v v' :
  (forall l, own l -> own' l) -> removes own v v' -> removes own' v v'.
Proof. intros Ho [F D K N]. split; try done. intros l. destruct (F l) as [?|[? ?]]; auto. Qed.
Lemma removes_shrinks own v v' : removes own v v' -> shrinks v v'.
Proof. by apply removes_weaken. Qed.
Lemma removes_quiet own v v' : w_tree v' = w_tree v -> w_tick v <= w_tick v' -> removes own v v'.
Proof. intros E N. split; rewrite ?E; auto. Qed.

Lemma removes_tree own v t : (forall l, t_files t !! l = t_files (w_tree v) !! l \/ (t_files t !! l = None /\ own l)) ->
  t_dirs t ⊆ t_dirs (w_tree v) -> (tree_ok (w_tree v) -> tree_ok t) -> removes own v (with_tree v t).
Proof. by split. Qed.

(** What is read later was there before. *)
Lemma shrinks_read v v' p c : shrinks v v' -> fs_read (w_tree v') p = Ok c -> fs_read (w_tree v) p = Ok c.
Proof.
  intros Hs. unfold fs_read. cbn. destruct (resolve (w_tree v') p) as [l|e] eqn:E; cbn; [|done].
  rewrite (resolve_mono _ (w_tree v) p l (rm_dirs _ _ _ Hs) E). cbn.
  destruct (rm_files _ _ _ Hs l) as [-> |[-> _]]; [|by case_decide].
  destruct (t_files (w_tree v) !! l); [done|by case_decide].
Qed.

(** ** The calls *)

Lemma remove_file_removes v p own : plain p -> own (names p) -> removes own v (with_tree v (fst (fs_remove_file (w_tree v) p))).
Proof.
  intros Hp Ho. destruct (fs_remove_file (w_tree v) p) as [t r] eqn:E.
  apply removes_tree; [| |intros Hok; rewrite <-E; by apply remove_file_keeps];
    apply fs_remove_file_effect in E as [[-> _]|[_ ->]]; auto.
  intros l. cbn. destruct (decide (l = names p)) as [->|?]; [right|left]; simplify_map_eq; auto.
Qed.

Lemma lookup_filter_key {A} (P : location -> Prop) `{!forall k, Decision (P k)} (m : gmap location A) l :
  filter (fun '(k, _) => P k) m !! l = if decide (P l) then m !! l else None.
Proof.
  rewrite map_lookup_filter. destruct (m !! l) as [x|]; cbn; [|by case_decide].
  destruct (decide (P l)); [by rewrite option_guard_True|by rewrite option_guard_False].
Qed.

Lemma remove_dir_all_removes v p own : plain p -> (forall l, names p `prefix_of` l -> own l) ->
  removes own v (with_tree v (fst (fs_remove_dir_all (w_tree v) p))).
Proof.
  intros Hp Ho. apply removes_tree; [| |by apply remove_dir_all_keeps];
    unfold fs_remove_dir_all; destruct (resolve (w_tree v) p) as [l|e] eqn:E; auto;
    apply resolve_names in E as ->; auto; (case_decide; [|auto]); destruct (ends_in_dot p);
    cbn [fst clear_tree remove_tree t_files t_dirs]; [| |set_solver..].
  - intros l. rewrite lookup_filter_key. case_decide as D; [by left|right]. split; [done|].
    by apply Ho, D.
  - intros l. rewrite lookup_filter_key. case_decide as D; [by left|right]. split; [done|].
    by apply Ho.
Qed.

Lemma remove_dir_removes v p own : removes own v (with_tree v (fst (fs_remove_dir (w_tree v) p))).
Proof.
  apply removes_tree; [| |by apply remove_dir_keeps];
    unfold fs_remove_dir; destruct (resolve (w_tree v) p) as [l|e]; auto; (case_decide; [|auto]);
    destruct (empty_dir _ _); cbn; auto. set_solver.
Qed.

(** ** Operations *)

Section sweeping.
Context `{Environment} `{Crates} `{Serde} `{SerdeJson} `{Aead} `{ReedSolomon}.
Context `{!KeyService FilesystemStorage} (st : FilesystemStorage).
Context (w : world).

(** From any state the sweep can be in. *)
Definition prunes {A} (own : location -> Prop) (m : M StorageError A) : Prop :=
  forall v v' r, shrinks w v -> m v = (v', r) -> removes own v v'.

Context (own : location -> Prop).

Lemma prunes_bind {A B} (m : M StorageError A) (f : A -> M StorageError B) :
  prunes own m -> (forall a, prunes own (f a)) -> prunes own (m ≫= f).
Proof.
  intros Hm Hf v v' r Hv. unfold mbind, M_bind. destruct (m v) as [v1 [a|e]] eqn:E1.
  - intros E2. pose proof (Hm _ _ _ Hv E1) as Hr. eapply removes_trans; [exact Hr|]. eapply Hf; [|exact E2].
    eapply removes_trans; [exact Hv|by eapply removes_shrinks].
  - intros [= <- <-]. by eapply Hm.
Qed.
Lemma prunes_pure {A} (m : M StorageError A) : pure_step m -> prunes own m.
Proof. intros Hm v v' r _ (Ht & _ & Hn)%Hm. by apply removes_quiet. Qed.
Lemma prunes_outcome {A} (m : M StorageError A) : prunes own m -> prunes own (outcome m).
Proof.
  intros Hm v v' r Hv. unfold outcome, on_world. destruct (m v) as [v1 r1] eqn:E.
  intros [= <- <-]. by eapply Hm.
Qed.
Lemma prunes_removing {A} (m : M StorageError A) : prunes own m -> prunes own (removing m).
Proof. intros Hm. apply prunes_bind; [by apply prunes_outcome|intros a; apply prunes_pure, pure_ret]. Qed.
Lemma prunes_call {A} (f : tree -> tree * result io_error A) :
  (forall v, removes own v (with_tree v (fst (f (w_tree v))))) -> prunes own (call f).
Proof.
  intros Hf v v' r _. unfold call. specialize (Hf v). destruct (f (w_tree v)) as [t x]. by intros [= <- <-].
Qed.
Lemma prunes_attempt {A} (f : tree -> tree * result io_error A) :
  (forall v, removes own v (with_tree v (fst (f (w_tree v))))) -> prunes own (attempt f).
Proof.
  intros Hf v v' r _. unfold attempt, on_world. specialize (Hf v). destruct (f (w_tree v)) as [t x]. by intros [= <- <-].
Qed.
Lemma prunes_each {A} (f : A -> M StorageError nat) l : (forall a, a ∈ l -> prunes own (f a)) -> prunes own (sweep_each f l).
Proof.
  induction l as [|a l IH]; intros Hf; cbn; [apply prunes_pure, pure_ret|].
  apply prunes_bind; [apply Hf; by left|]. intros n. apply prunes_bind; [apply IH; intros b Hb; apply Hf; by right|].
  intros m. apply prunes_pure, pure_ret.
Qed.
Lemma prunes_remove_file p : plain p -> own (names p) -> prunes own (remove_file_if_exists p).
Proof.
  intros Hp Ho. apply prunes_bind; [apply prunes_attempt; intros v; by apply remove_file_removes|].
  intros [?|?]; apply prunes_pure; auto with maxio_pure.
Qed.
Lemma prunes_remove_dir_all p : plain p -> (forall l, names p `prefix_of` l -> own l) -> prunes own (remove_dir_all_if_exists p).
Proof.
  intros Hp Ho. apply prunes_bind; [apply prunes_attempt; intros v; by apply remove_dir_all_removes|].
  intros [?|?]; apply prunes_pure; auto with maxio_pure.
Qed.
Lemma prunes_index (f : index -> index) : prunes own (update_index f).
Proof. intros v v' r _ [= <- <-]. by apply removes_quiet. Qed.
End sweeping.

(** ** Deletion *)

(** The files of an object. *)
Definition object_files (st : FilesystemStorage) (bucket key : string) (l : location) : Prop :=
  l = names (object_path st bucket key) \/ l = names (meta_path st bucket key) \/
  names (ec_dir st bucket key) `prefix_of` l.

(** Steps that only look. *)
Definition looks {A} (m : M StorageError A) : Prop := forall v, fst (m v) = v.
Lemma looks_query {A} (f : tree -> result io_error A) : looks (query f).
Proof. done. Qed.
Lemma looks_ret {A} (a : A) : looks (mret a).
Proof. done. Qed.
Lemma look_first {A B} (m : M StorageError A) (f : A -> M StorageError B) v v' r : (m ≫= f) v = (v', r) -> looks m ->
  (exists a, m v = (v, Ok a) /\ f a v = (v', r)) \/ v' = v.
Proof.
  unfold mbind, M_bind. intros Hr Hm. specialize (Hm v). destruct (m v) as [v1 [a|e]]; cbn in Hm; subst v1;
    [left; by exists a|right; congruence].
Qed.

Section deletion.
Context `{Environment} `{Crates} `{Serde} `{SerdeJson} `{Aead} `{ReedSolomon}.
Context `{!KeyService FilesystemStorage} (st : FilesystemStorage) (w : world).
Hypothesis Hst : storage_ok st.

(** The sidecar of the object, where there is one, protects it no longer. *)
Definition sidecar_unlocked (bucket key : string) (v : world) : Prop :=
  forall meta, read_object_meta st bucket key v = (v, Ok meta) ->
    is_object_protected parse_rfc3339 (now (w_tick v)) meta = false.

Lemma shrinks_bucket bucket v bm : shrinks w v ->
  snd (read_bucket_meta st bucket v) = Ok bm -> snd (read_bucket_meta st bucket w) = Ok bm.
Proof.
  intros Hs. unfold read_bucket_meta, read_json, mbind, M_bind, lift.
  destruct (validate_bucket_name bucket); [|done].
  destruct (fs_read (w_tree v) _) as [c|e] eqn:E; [|done]. by rewrite (shrinks_read _ _ _ _ Hs E).
Qed.

Definition unversioned (bucket : string) : Prop :=
  forall bm, snd (read_bucket_meta st bucket w) = Ok bm -> bm_versioning bm = false.

Lemma read_json_same {A} path (parse : content -> result string A) missing v :
  fst (read_json path parse missing v) = v.
Proof. unfold read_json. by destruct (fs_read _ _). Qed.
Lemma read_bucket_same bucket v : fst (read_bucket_meta st bucket v) = v.
Proof.
  unfold read_bucket_meta, mbind, M_bind, lift. destruct (validate_bucket_name bucket); [apply read_json_same|done].
Qed.

Lemma never_versioned bucket v : unversioned bucket -> shrinks w v -> versioned_or_false st bucket v = (v, Ok false).
Proof.
  intros Hu Hs. unfold versioned_or_false, on_world, is_versioned, mbind, M_bind.
  pose proof (read_bucket_same bucket v) as Hv. destruct (read_bucket_meta st bucket v) as [v1 r] eqn:E. cbn in Hv. subst v1.
  destruct r as [bm|e]; cbn; [|done].
  rewrite (Hu bm); [done|]. apply (shrinks_bucket bucket v); [done|by rewrite E].
Qed.

Lemma remove_parents_removes own fuel bucket dir v :
  removes own v (with_tree v (remove_empty_parents st fuel bucket dir (w_tree v))).
Proof.
  revert v dir. induction fuel as [|fuel IH]; intros v dir; cbn; [by apply removes_quiet|].
  destruct dir as [d|]; [|by apply removes_quiet]. case_decide; [by apply removes_quiet|].
  pose proof (remove_dir_removes v d own) as Hr. destruct (fs_remove_dir (w_tree v) d) as [t [?|?]]; [|done].
  eapply removes_trans; [exact Hr|]. apply (IH (with_tree v t)).
Qed.

(** What [delete_object] does once it has checked the lock. *)
Lemma removal_prunes bucket key own : validate_bucket_name bucket = Ok tt -> validate_key key = Ok tt ->
  (forall l, object_files st bucket key l -> own l) ->
  prunes w own (_ ← remove_file_if_exists (object_path st bucket key);
    _ ← remove_file_if_exists (meta_path st bucket key);
    _ ← remove_dir_all_if_exists (ec_dir st bucket key);
    _ ← index_remove bucket key;
    _ ← on_world (fun w => (with_tree w (remove_empty_parents st (length (components (object_path st bucket key))) bucket
                                           (path_parent (object_path st bucket key)) (w_tree w)), Ok tt));
    mret (mk_DeleteResult None false)).
Proof.
  intros Hb Hk Ho.
  destruct (object_location st bucket Hst Hb key Hk) as [Po _], (meta_location st bucket Hst Hb key Hk) as [Pm _],
    (ec_location st bucket Hst Hb key Hk) as [Pe _].
  apply prunes_bind; [apply prunes_remove_file; [done|]; apply Ho; by left|intros _].
  apply prunes_bind; [apply prunes_remove_file; [done|]; apply Ho; right; by left|intros _].
  apply prunes_bind; [apply prunes_remove_dir_all; [done|]; intros l Hl; apply Ho; right; by right|intros _].
  apply prunes_bind; [apply prunes_index|intros _].
  apply prunes_bind; [|intros _; apply prunes_pure, pure_ret].
  intros v v' r _ [= <- <-]. apply remove_parents_removes.
Qed.

(** The check of the lock changes nothing, and passes only what is unlocked. *)
Lemma lock_checked bucket key there v v1 r :
  try_exists (w_tree v) (meta_path st bucket key) = Ok there ->
  (if there : bool then meta ← read_object_meta st bucket key; ensure_can_delete_meta meta else mret tt) v = (v1, r) ->
  w_tree v1 = w_tree v /\ w_tick v <= w_tick v1 /\ (r = Ok tt -> sidecar_unlocked bucket key v).
Proof.
  intros Ht. destruct there.
  - pose proof (read_json_same (meta_path st bucket key) parse_object (NotFoundError key) v) as Hs.
    unfold mbind at 1, M_bind at 1. fold (read_object_meta st bucket key) in Hs. unfold sidecar_unlocked.
    destruct (read_object_meta st bucket key v) as [v2 [meta|e]] eqn:E; cbn in Hs; subst v2; [|by intros [= <- <-]].
    unfold ensure_can_delete_meta, protected_now, mbind, M_bind, tick. cbn.
    destruct (is_object_protected _ _ _) eqn:Ep; intros [= <- <-]; cbn; (split_and!; [done|lia|]); [done|].
    intros _ m Hm. congruence.
  - intros [= <- <-]. split_and!; [done|lia|]. intros _ m Hm.
    apply read_json_exists in Hm as [_ Hm]. congruence.
Qed.

Lemma delete_prunes bucket key v v' r : unversioned bucket -> shrinks w v -> delete_object st bucket key v = (v', r) ->
  removes (fun l => object_files st bucket key l /\ sidecar_unlocked bucket key v) v v'.
Proof.
  intros Hu Hv. unfold delete_object.
  destruct (validate_bucket_name bucket) as [[]|e] eqn:Hb; [rewrite (run_lift (Ok tt) _ v tt eq_refl)|intros [= <- <-]; by apply removes_quiet].
  destruct (validate_key key) as [[]|e] eqn:Hk; [rewrite (run_lift (Ok tt) _ v tt eq_refl)|intros [= <- <-]; by apply removes_quiet].
  rewrite (run_ok _ _ _ _ _ (never_versioned bucket v Hu Hv)).
  unfold mbind at 1, M_bind at 1. unfold query at 1.
  destruct (try_exists (w_tree v) (meta_path st bucket key)) as [there|e] eqn:Et; [|intros [= <- <-]; by apply removes_quiet].
  cbn [negb].
  intros [(b & _ & Hr)| ->]%look_first; [|by apply removes_quiet|by destruct there].
  revert Hr. intros [(b' & _ & Hr)| ->]%look_first; [|by apply removes_quiet|by destruct b].
  destruct b'; [|injection Hr as <- _; by apply removes_quiet]. cbn [negb] in Hr.
  revert Hr. unfold mbind at 1, M_bind at 1.
  match goal with |- context [match ?m v with _ => _ end] => destruct (m v) as [v1 lock] eqn:E1 end.
  destruct (lock_checked bucket key there v v1 lock Et E1) as (T1 & N1 & Hl).
  destruct lock as [[]|e]; [|intros [= <- <-]; by apply removes_quiet].
  intros Hr. assert (Hv1 : removes (fun l => object_files st bucket key l /\ sidecar_unlocked bucket key v) v v1) by (by apply removes_quiet).
  eapply removes_trans; [exact Hv1|]. eapply (removal_prunes bucket key); [done|done|by auto| |exact Hr].
  eapply removes_trans; [exact Hv|by eapply removes_shrinks].
Qed.
End deletion.

(** ** Who removed a file *)

Definition gone (x : location) (v v' : world) : Prop := is_Some (t_files (w_tree v) !! x) /\ t_files (w_tree v') !! x = None.

Lemma gone_removes x own v v' : removes own v v' -> gone x v v' -> own x.
Proof. intros Hr [[c Hc] Hn]. destruct (rm_files _ _ _ Hr x) as [E|[_ ?]]; [|done]. congruence. Qed.
Lemma gone_between x v v1 v' : gone x v v' -> gone x v v1 \/ gone x v1 v'.
Proof. intros [Hs Hn]. unfold gone. destruct (t_files (w_tree v1) !! x) eqn:E; [right|left]; eauto. Qed.
Lemma not_gone x v v' : w_tree v' = w_tree v -> ~ gone x v v'.
Proof. intros E [[c Hc] Hn]. rewrite E in Hn. congruence. Qed.

(** The state [sweep_each] is in when it comes to an element. *)
Definition before {A} (f : A -> M StorageError nat) (pre : list A) (v : world) : world := fst (sweep_each f pre v).

Lemma blame {A} (f : A -> M StorageError nat) l x v v' r : sweep_each f l v = (v', r) -> gone x v v' ->
  exists pre a post, l = pre ++ a :: post /\ gone x (before f pre v) (fst (f a (before f pre v))).
Proof.
  revert v r. induction l as [|a l IH]; intros v r.
  - intros [= <- <-] Hg. by apply not_gone in Hg.
  - cbn [sweep_each]. unfold mbind at 1, M_bind at 1. destruct (f a v) as [v1 r1] eqn:E1. intros Hr Hg.
    destruct (gone_between x v v1 v' Hg) as [Hg1|Hg2].
    + exists [], a, l. cbn. by rewrite E1.
    + destruct r1 as [n|e]; [|injection Hr as -> _; by apply not_gone in Hg2].
      revert Hr. unfold mbind at 1, M_bind at 1. destruct (sweep_each f l v1) as [v2 r2] eqn:E2.
      intros Hr. assert (v2 = v') as -> by (by destruct r2; injection Hr).
      destruct (IH v1 r2 E2 Hg2) as (pre & b & post & -> & Hb). exists (a :: pre), b, post. split; [done|].
      assert (Hs : before f (a :: pre) v = before f pre v1); [|by rewrite Hs].
      unfold before. cbn [sweep_each]. unfold mbind, M_bind. rewrite E1.
      by destruct (sweep_each f pre v1) as [? [?|?]].
Qed.

(** ** Expiration *)

Section expiration.
Context `{Environment} `{Crates} `{Serde} `{SerdeJson} `{Aead} `{ReedSolomon}.
Context `{!KeyService FilesystemStorage} (st : FilesystemStorage) (w : world).
Hypothesis Hst : storage_ok st.

(** An object the sweep may remove at [v]: a rule has expired what the listing
    shows, neither it nor the sidecar on disk is locked. *)
Record due (bucket : string) (rules : list LifecycleRule) (at_time : Z) (v : world) (meta : ObjectMeta) : Prop := {
  du_current : om_is_delete_marker meta = false;
  du_expired : exists days, lifecycle_expiry_days_for_key rules (om_key meta) = Some days /\
    expired at_time (om_last_modified meta) days = true;
  du_unlocked : is_object_protected parse_rfc3339 (now (w_tick v)) meta = false;
  du_sidecar stored : snd (read_object_meta st bucket (om_key meta) v) = Ok stored ->
    is_object_protected parse_rfc3339 (now (S (w_tick v))) stored = false;
}.

Lemma expire_object_removes bucket rules at_time meta v v' r : unversioned st w bucket -> shrinks w v ->
  expire_object st bucket rules at_time meta v = (v', r) ->
  removes (fun x => object_files st bucket (om_key meta) x /\ due bucket rules at_time v meta) v v'.
Proof.
  intros Hu Hv. unfold expire_object.
  destruct (om_is_delete_marker meta) eqn:Em; [intros [= <- <-]; by apply removes_quiet|].
  destruct (lifecycle_expiry_days_for_key rules (om_key meta)) as [days|] eqn:Ed; [|intros [= <- <-]; by apply removes_quiet].
  destruct (expired _ _ _) eqn:Ee; [cbn [negb]|intros [= <- <-]; by apply removes_quiet].
  unfold protected_now, mbind at 1, M_bind at 1, mbind at 1, M_bind at 1, tick at 1. cbn [mret M_ret].
  destruct (is_object_protected _ _ meta) eqn:Ep; [intros [= <- <-]; by apply removes_quiet; [|cbn; lia]|].
  set (v1 := mk_world (w_tree v) (w_index v) (S (w_tick v))). intros Hr.
  assert (Hv1 : shrinks w v1) by (apply (removes_trans _ w v v1); [exact Hv|apply removes_quiet; [done|unfold v1; cbn; lia]]).
  revert Hr. unfold removing, outcome, on_world, mbind at 1, M_bind at 1.
  destruct (delete_object st bucket (om_key meta) v1) as [v2 r2] eqn:E. intros [= <- _].
  apply (delete_prunes st w Hst) in E; [|done..].
  apply (removes_trans _ v v1); [apply removes_quiet; [done|unfold v1; cbn; lia]|]. revert E. apply removes_weaken.
  intros x [Hx Hl]. split; [done|]. split; [done|by exists days|done|].
  intros stored Hs. apply (Hl stored). unfold read_object_meta in *.
  pose proof (read_json_same (meta_path st bucket (om_key meta)) parse_object (NotFoundError (om_key meta)) v1) as Hsame.
  destruct (read_json _ _ _ v1) as [v3 r3] eqn:E3. cbn in Hsame. subst v3. f_equal. revert Hs E3.
  unfold read_json. cbn. by destruct (fs_read (w_tree v) _); intros <- [= <-].
Qed.

Lemma expire_all_removes bucket rules at_time objects v v' r : unversioned st w bucket -> shrinks w v ->
  sweep_each (expire_object st bucket rules at_time) objects v = (v', r) -> shrinks v v'.
Proof.
  intros Hu Hv. apply (prunes_each w (fun _ => True)); [|done]. intros meta _ u u' r' Hu' Hr.
  eapply removes_shrinks. by eapply expire_object_removes.
Qed.

Lemma before_shrinks bucket rules at_time pre : unversioned st w bucket ->
  shrinks w (before (expire_object st bucket rules at_time) pre w).
Proof.
  intros Hu. unfold before. destruct (sweep_each _ pre w) as [v r] eqn:E. cbn.
  eapply expire_all_removes; [exact Hu|apply removes_refl|exact E].
Qed.

Lemma list_objects_looks bucket prefix : looks (list_objects st bucket prefix).
Proof.
  intros v. unfold list_objects, list_objects_walk, get_index, get_tree, mbind, M_bind, lift.
  destruct (w_index v); [done|]. destruct (validate_bucket_name bucket); [|done]. by destruct (walk_dir _ _ _ _ _ _ _).
Qed.
End expiration.

(** ** Uploads *)

Section uploads.
Context `{Environment} `{Crates} `{Serde} `{SerdeJson} `{Aead} `{ReedSolomon}.
Context (at_time stale_after : Z) (uploads_dir : string).
Hypothesis Hdir : plain uploads_dir.
Local Abbreviation sweep := (sweep_upload at_time stale_after uploads_dir).

Lemma sweep_upload_removes entry v v' r : segment (fst entry) -> sweep entry v = (v', r) ->
  removes (fun x => snd entry = true /\ names (join uploads_dir (fst entry)) `prefix_of` x /\
                    is_stale at_time stale_after (upload_initiated (w_tree v) (join uploads_dir (fst entry))) = true) v v'.
Proof.
  intros (Hs & _ & Hd). unfold sweep_upload. destruct (snd entry); [cbn [negb]|intros [= <- <-]; by apply removes_quiet].
  unfold mbind at 1, M_bind at 1, get_tree at 1.
  destruct (is_stale _ _ _) eqn:E; [|intros [= <- <-]; by apply removes_quiet].
  apply (prunes_removing v); [|apply removes_refl]. apply prunes_call. intros u. apply remove_dir_all_removes.
  - apply plain_join; [by apply starts_with_slash_segment|]. split; [done|by apply plain_segment].
  - by intros l Hl.
Qed.

(** An upload is aborted only when its record is too old, or missing, when its
    turn comes. *)
Theorem only_stale_uploads_are_aborted entries v v' r x :
  Forall (fun e => segment (fst e)) entries -> sweep_each sweep entries v = (v', r) ->
  t_files (w_tree v') !! x <> t_files (w_tree v) !! x ->
  t_files (w_tree v') !! x = None /\
  exists pre id post, entries = pre ++ (id, true) :: post /\ names (join uploads_dir id) `prefix_of` x /\
    is_stale at_time stale_after (upload_initiated (w_tree (before sweep pre v)) (join uploads_dir id)) = true.
Proof.
  intros Hall Hr Hx. rewrite Forall_forall in Hall.
  assert (Hs : shrinks v v').
  { revert Hr. apply (prunes_each v (fun _ => True)); [|apply removes_refl]. intros e He u u' r' _ Hu.
    eapply removes_shrinks. eapply sweep_upload_removes; [by apply Hall|exact Hu]. }
  destruct (rm_files _ _ _ Hs x) as [?|[Hnone _]]; [done|]. split; [done|].
  assert (Hg : gone x v v') by (split; [|done]; destruct (t_files (w_tree v) !! x); [by eexists|congruence]).
  destruct (blame _ _ _ _ _ _ Hr Hg) as (pre & [id b] & post & -> & Hgone). exists pre, id, post.
  revert Hgone. destruct (sweep (id, b) _) as [u' r'] eqn:Ee.
  apply sweep_upload_removes in Ee; [|apply (Hall (id, b)); apply elem_of_app; right; by left].
  intros (Eb & ? & ?)%(gone_removes _ _ _ _ Ee). cbn in Eb. by subst b.
Qed.
End uploads.

(** ** The claims *)

Section claims.
Context `{Environment} `{Crates} `{Serde} `{SerdeJson} `{Aead} `{ReedSolomon}.
Context `{!KeyService FilesystemStorage} (st : FilesystemStorage).

(** C21: in an unversioned bucket the hourly expiration changes a file only by
    removing it, and only if the file belongs to an object of the listing that is
    due when its turn comes: the longest enabled rule for its key has a number of
    days that have passed since its last change, and neither the listed record
    nor the sidecar then on disk is under retention or legal hold. *)
Theorem expiry_removes_only_due_objects bucket at_time w w' r x :
  storage_ok st -> unversioned st w bucket ->
  sweep_lifecycle_expiration st bucket at_time w = (w', r) ->
  t_files (w_tree w') !! x <> t_files (w_tree w) !! x ->
  t_files (w_tree w') !! x = None /\
  exists bm objects pre meta post,
    let rules := filter (fun r => lr_enabled r = true) (default [] (bm_lifecycle_rules bm)) in
    snd (read_bucket_meta st bucket w) = Ok bm /\
    snd (list_objects st bucket "" w) = Ok objects /\ objects = pre ++ meta :: post /\
    due st bucket rules at_time (before (expire_object st bucket rules at_time) pre w) meta /\
    object_files st bucket (om_key meta) x.
Proof.
  intros Hst Hu. unfold sweep_lifecycle_expiration, outcome, on_world, mbind at 1, M_bind at 1.
  pose proof (read_bucket_same st bucket w) as Hb. destruct (read_bucket_meta st bucket w) as [wb [bm|e]] eqn:Eb;
    cbn in Hb; subst wb; [|by intros [= <- <-]].
  case_decide as Ea; [by intros [= <- <-]|].
  rewrite (run_ok _ _ _ _ _ (never_versioned st w bucket w Hu (removes_refl _ w))).
  unfold mbind at 1, M_bind at 1.
  pose proof (list_objects_looks st bucket "" w) as Hl. destruct (list_objects st bucket "" w) as [wl [objects|e]] eqn:El;
    cbn in Hl; subst wl; [|by intros [= <- <-]].
  intros Hr Hx. set (rules := filter _ _) in *.
  pose proof (expire_all_removes st w Hst bucket rules at_time objects w w' r Hu (removes_refl _ w) Hr) as Hs.
  destruct (rm_files _ _ _ Hs x) as [?|[Hnone _]]; [done|]. split; [done|].
  assert (Hg : gone x w w') by (split; [|done]; destruct (t_files (w_tree w) !! x); [by eexists|congruence]).
  destruct (blame _ _ _ _ _ _ Hr Hg) as (pre & meta & post & -> & Hgone).
  exists bm, (pre ++ meta :: post), pre, meta, post. do 3 (split; [done|]). apply and_comm.
  - revert Hgone. destruct (expire_object _ _ _ _ _ _) as [v' r'] eqn:Ee.
    apply (expire_object_removes st w Hst) in Ee; [|done|by apply before_shrinks].
    by intros [? ?]%(gone_removes _ _ _ _ Ee).
Qed.
End claims.

(** ** Runs *)

Module HousekeepingDemo.
Import Demo.Toys.
Local Open Scope nat_scope.

(** [old/a] and [old/b] were last changed at the epoch, [new/c] too; [old/b] is
    under legal hold, and only keys below [old/] expire. *)
Definition old_meta (key : string) (hold : option LegalHoldStatus) : ObjectMeta :=
  mk_ObjectMeta key 3 "e" "text/plain" "later" None false None None None None None None None None hold.
Definition old_object (key : string) (hold : option LegalHoldStatus) (w : world) : world :=
  let w := after (upload flat key "old") w in
  mk_world (with_file (w_tree w) (names (meta_path flat "pets" key)) (ObjectJson (old_meta key hold))) None (w_tick w).
Definition rule (prefix : string) (days noncurrent : option Z) : LifecycleRule :=
  mk_LifecycleRule "r" prefix days None noncurrent true.
Definition full : world :=
  old_object "new/c" None (old_object "old/b" (Some On) (old_object "old/a" None
    (after (put_bucket_lifecycle flat "pets" [rule "old/" (Some 1%Z) None]) plain_world))).
Definition in_two_days : Z := (2 * day)%Z.
Definition swept_world : world := after (sweep_lifecycle_expiration flat "pets" in_two_days) full.

Example what_is_left :
  answer (sweep_lifecycle_expiration flat "pets" in_two_days) full = Ok 1 /\
  map (fun key => succeeds (download flat key) swept_world) ["old/a"; "old/b"; "new/c"] = [false; true; true].
Proof. split; vm_compute; reflexivity. Qed.

Lemma expiry_removes_only_due_objects_witness :
  let x := names (object_path flat "pets" "old/a") in
  t_files (w_tree swept_world) !! x = None /\
  exists meta v, due flat "pets" [rule "old/" (Some 1%Z) None] in_two_days v meta /\ object_files flat "pets" (om_key meta) x.
Proof.
  destruct (sweep_lifecycle_expiration flat "pets" in_two_days full) as [w' r] eqn:E.
  assert (Hw : swept_world = w') by (unfold swept_world, after; by rewrite E).
  destruct (expiry_removes_only_due_objects flat "pets" in_two_days full w' r (names (object_path flat "pets" "old/a")))
    as [Hn (bm & objects & pre & meta & post & Hb & _ & _ & Hd & Hf)]; [apply demo_storage_ok| |exact E| |].
  - intros bm Hb. vm_compute in Hb. by injection Hb as <-.
  - rewrite <-Hw. vm_compute. discriminate.
  - rewrite Hw. split; [exact Hn|]. exists meta, (before (expire_object flat "pets" [rule "old/" (Some 1%Z) None] in_two_days) pre full).
    split; [|exact Hf]. vm_compute in Hb. injection Hb as <-. exact Hd.
Defined.

(** Two versions of an object and its deletion, all at the epoch. *)
Definition aged (c : content) : content :=
  match c with
  | ObjectJson m =>
      ObjectJson (mk_ObjectMeta (om_key m) (om_size m) (om_etag m) (om_content_type m) "later" (om_version_id m)
        (om_is_delete_marker m) (om_storage_format m) (om_checksum_algorithm m) (om_checksum_value m) (om_tags m)
        (om_part_sizes m) (om_encryption m) (om_object_lock_mode m) (om_retain_until_date m) (om_legal_hold_status m))
  | c => c
  end.
Definition deleted_versions : world :=
  let w := after (delete_object flat "pets" "a") (after (upload flat "a" "two") (after (upload flat "a" "one")
    (after (put_bucket_lifecycle flat "pets" [rule "" None (Some 1%Z)]) versioned_world))) in
  mk_world (mk_tree (aged <$> t_files (w_tree w)) (t_dirs (w_tree w))) None (w_tick w).

(** A rule for noncurrent versions brings deleted objects back: the sweep
    skips delete markers when it looks for the current version, expires the older
    of the two versions a deleted object has, and that deletion makes the other
    one current again. *)
Theorem noncurrent_sweep_resurrects_object :
  let swept := after (sweep_lifecycle_expiration flat "pets" in_two_days) deleted_versions in
  fails_with (download flat "a") deleted_versions (NotFoundError "a") /\
  answer (sweep_lifecycle_expiration flat "pets" in_two_days) deleted_versions = Ok 1 /\
  succeeds (download flat "a") swept = true.
Proof. cbv zeta. split_and!; vm_compute; reflexivity. Qed.
End HousekeepingDemo.
