(* ===== verification/ApiError.v ===== *)
(** * S3 errors

    [maxio-server/src/error.rs]: the error codes of the S3 interface with their
    names and HTTP statuses, the constructors the handlers use, and the mapping
    of storage errors. *)

From stdpp Require Import base list gmap strings pretty.
From Stdlib Require Import ZArith Lia.
From S2P Require Import Prelude IpAddr Glob Policy Bytes Reader Types Quota.

Inductive S3ErrorCode : Type :=
| AccessDenied | BadDigest | BucketAlreadyOwnedByYou | S3BucketNotEmpty | InternalError
| InvalidAccessKeyId | InvalidArgument | InvalidBucketName | InvalidPart | MalformedXML
| NoSuchBucket | NoSuchKey | NoSuchUpload | NoSuchVersion | InvalidRange | NotImplemented
| EntityTooSmall | EntityTooLarge | S3InsufficientStorage | ExpiredPresignedUrl
| NoSuchCORSConfiguration | NoSuchLifecycleConfiguration | NoSuchBucketPolicy | MalformedPolicy
| PreconditionFailed | SignatureDoesNotMatch | InvalidEncryptionAlgorithm
| ServerSideEncryptionConfigurationNotFound | SlowDown.

Global Instance S3ErrorCode_eq_dec : EqDecision S3ErrorCode.
Proof. solve_decision. Defined.

Definition as_str (c : S3ErrorCode) : string :=
  match c with
  | AccessDenied => "AccessDenied"
  | BadDigest => "BadDigest"
  | BucketAlreadyOwnedByYou => "BucketAlreadyOwnedByYou"
  | S3BucketNotEmpty => "BucketNotEmpty"
  | InternalError => "InternalError"
  | InvalidAccessKeyId => "InvalidAccessKeyId"
  | InvalidArgument => "InvalidArgument"
  | InvalidBucketName => "InvalidBucketName"
  | InvalidPart => "InvalidPart"
  | MalformedXML => "MalformedXML"
  | NoSuchBucket => "NoSuchBucket"
  | NoSuchKey => "NoSuchKey"
  | NoSuchUpload => "NoSuchUpload"
  | NoSuchVersion => "NoSuchVersion"
  | InvalidRange => "InvalidRange"
  | NotImplemented => "NotImplemented"
  | EntityTooSmall => "EntityTooSmall"
  | EntityTooLarge => "EntityTooLarge"
  | S3InsufficientStorage => "InsufficientStorage"
  | ExpiredPresignedUrl => "AccessDenied"
  | PreconditionFailed => "PreconditionFailed"
  | NoSuchCORSConfiguration => "NoSuchCORSConfiguration"
  | NoSuchLifecycleConfiguration => "NoSuchLifecycleConfiguration"
  | NoSuchBucketPolicy => "NoSuchBucketPolicy"
  | MalformedPolicy => "MalformedPolicy"
  | SignatureDoesNotMatch => "SignatureDoesNotMatch"
  | InvalidEncryptionAlgorithm => "InvalidEncryptionAlgorithmError"
  | ServerSideEncryptionConfigurationNotFound => "ServerSideEncryptionConfigurationNotFoundError"
  | SlowDown => "SlowDown"
  end.

Definition status_code (c : S3ErrorCode) : Z :=
  match c with
  | AccessDenied | ExpiredPresignedUrl | InvalidAccessKeyId | SignatureDoesNotMatch => 403
  | NoSuchBucket | NoSuchKey | NoSuchUpload | NoSuchVersion | NoSuchCORSConfiguration
  | NoSuchLifecycleConfiguration | NoSuchBucketPolicy | ServerSideEncryptionConfigurationNotFound => 404
  | MalformedPolicy => 400
  | BucketAlreadyOwnedByYou | S3BucketNotEmpty => 409
  | InternalError => 500
  | S3InsufficientStorage => 507
  | SlowDown => 429
  | InvalidRange => 416
  | NotImplemented => 501
  | PreconditionFailed => 412
  | _ => 400
  end.

Record S3Error : Type := mk_S3Error {
  se_code : S3ErrorCode;
  se_message : string;
  se_resource : option string;
  se_retry_after_secs : option Z;
}.

Definition internal : S3Error :=
  mk_S3Error InternalError "We encountered an internal error. Please try again." None None.
Definition no_such_bucket (bucket : string) : S3Error :=
  mk_S3Error NoSuchBucket ("The specified bucket does not exist: " +:+ bucket) (Some ("/" +:+ bucket)) None.
Definition no_such_key (key : string) : S3Error :=
  mk_S3Error NoSuchKey "The specified key does not exist." (Some key) None.
Definition no_such_upload (upload_id : string) : S3Error :=
  mk_S3Error NoSuchUpload "The specified multipart upload does not exist." (Some upload_id) None.
Definition bucket_already_owned (bucket : string) : S3Error :=
  mk_S3Error BucketAlreadyOwnedByYou
    ("Your previous request to create the named bucket succeeded and you already own it: " +:+ bucket)
    (Some ("/" +:+ bucket)) None.
Definition bucket_not_empty (bucket : string) : S3Error :=
  mk_S3Error S3BucketNotEmpty "The bucket you tried to delete is not empty." (Some ("/" +:+ bucket)) None.
Definition invalid_bucket_name (name : string) : S3Error :=
  mk_S3Error InvalidBucketName ("The specified bucket is not valid: " +:+ name) (Some ("/" +:+ name)) None.
Definition invalid_argument (msg : string) : S3Error := mk_S3Error InvalidArgument msg None None.
Definition bad_digest : S3Error :=
  mk_S3Error BadDigest "The Content-MD5 you specified did not match what we received." None None.
Definition bad_checksum (algo : string) : S3Error :=
  mk_S3Error BadDigest ("The " +:+ algo +:+ " checksum you specified did not match what we received.") None None.
Definition malformed_xml : S3Error := mk_S3Error MalformedXML "The XML you provided was not well-formed." None None.
Definition invalid_part (msg : string) : S3Error := mk_S3Error InvalidPart msg None None.
Definition entity_too_small : S3Error :=
  mk_S3Error EntityTooSmall "Your proposed upload is smaller than the minimum allowed object size." None None.
Definition entity_too_large (max : Z) : S3Error :=
  mk_S3Error EntityTooLarge
    ("Your proposed upload exceeds the maximum allowed object size of " +:+ pretty max +:+ " bytes.") None None.
Definition insufficient_storage (msg : string) : S3Error := mk_S3Error S3InsufficientStorage msg None None.
Definition expired_presigned_url : S3Error := mk_S3Error ExpiredPresignedUrl "Request has expired" None None.
Definition access_denied (msg : string) : S3Error := mk_S3Error AccessDenied msg None None.
Definition signature_mismatch : S3Error :=
  mk_S3Error SignatureDoesNotMatch
    "The request signature we calculated does not match the signature you provided." None None.
Definition invalid_access_key : S3Error :=
  mk_S3Error InvalidAccessKeyId "The AWS Access Key Id you provided does not exist in our records." None None.
Definition no_such_version (version_id : string) : S3Error :=
  mk_S3Error NoSuchVersion "The specified version does not exist." (Some version_id) None.
Definition invalid_range : S3Error := mk_S3Error InvalidRange "The requested range is not satisfiable" None None.
Definition not_implemented (msg : string) : S3Error := mk_S3Error NotImplemented msg None None.
Definition no_such_cors_configuration : S3Error :=
  mk_S3Error NoSuchCORSConfiguration "The CORS configuration does not exist" None None.
Definition no_such_lifecycle_configuration : S3Error :=
  mk_S3Error NoSuchLifecycleConfiguration "The lifecycle configuration does not exist" None None.
Definition no_such_bucket_policy : S3Error :=
  mk_S3Error NoSuchBucketPolicy "The bucket policy does not exist" None None.
Definition malformed_policy (msg : string) : S3Error := mk_S3Error MalformedPolicy msg None None.
Definition precondition_failed : S3Error :=
  mk_S3Error PreconditionFailed "At least one of the pre-conditions you specified did not hold." None None.
Definition invalid_encryption_algorithm : S3Error :=
  mk_S3Error InvalidEncryptionAlgorithm
    "The encryption request you specified is not valid. Supported value: AES256." None None.
Definition no_such_bucket_encryption (bucket : string) : S3Error :=
  mk_S3Error ServerSideEncryptionConfigurationNotFound
    "The server side encryption configuration was not found." (Some ("/" +:+ bucket)) None.
Definition slow_down (retry_after_secs : Z) : S3Error :=
  mk_S3Error SlowDown "Please reduce your request rate." None (Some retry_after_secs).

Definition map_storage_object_error (err : StorageError) : S3Error :=
  match err with
  | ObjectLocked msg => access_denied msg
  | NotFoundError key => no_such_key key
  | VersionNotFound id => no_such_version id
  | InvalidKey msg => invalid_argument msg
  | _ => internal
  end.

Definition map_storage_upload_error (err : StorageError) : S3Error :=
  match err with
  | ObjectTooLarge max => entity_too_large max
  | InsufficientStorage msg => insufficient_storage msg
  | InvalidKey msg => invalid_argument msg
  | ChecksumMismatch _ => bad_checksum "x-amz-checksum"
  | EncryptionError msg => invalid_argument msg
  | IntegrityError msg => invalid_argument msg
  | other => map_storage_object_error other
  end.

(** ** Statuses *)

Local Open Scope Z_scope.

(** Every code has an error status, and retrying is advised only with 429. *)
Lemma status_is_error c : 400 <= status_code c < 600.
Proof. destruct c; cbn; lia. Qed.

(** A failure of the server itself, on disk or in the keyring, is reported as
    one only outside the upload path: there, errors of encryption and integrity
    come back as the client's. *)
Lemma object_error_server_side err : status_code (se_code (map_storage_object_error err)) = 500 <->
  match err with ObjectLocked _ | NotFoundError _ | VersionNotFound _ | InvalidKey _ => False | _ => True end.
Proof. destruct err; cbn; split; done || lia. Qed.
