(* ===== verification/Utf8.v ===== *)
(** * UTF-8

    [String::from_utf8]: the byte sequences that are Rust strings. *)

From stdpp Require Import base list strings.
From Stdlib Require Import ZArith Lia Ascii Strings.Byte.
From S2P Require Import Prelude Bytes Reader Crypto.

Definition between (lo hi : Z) (b : byte) : bool := (lo <=? Z_of_byte b)%Z && (Z_of_byte b <=? hi)%Z.
Definition continuation : byte -> bool := between 128 191.

Fixpoint is_utf8 (l : bytes) : bool :=
  match l with
  | [] => true
  | b :: l1 =>
      if between 0 127 b then is_utf8 l1
      else match l1 with
      | [] => false
      | c :: l2 =>
          if between 194 223 b then continuation c && is_utf8 l2
          else match l2 with
          | [] => false
          | d :: l3 =>
              if between 224 224 b then between 160 191 c && continuation d && is_utf8 l3
              else if between 237 237 b then between 128 159 c && continuation d && is_utf8 l3
              else if between 225 239 b then continuation c && continuation d && is_utf8 l3
              else match l3 with
              | [] => false
              | e :: l4 =>
                  if between 240 240 b then between 144 191 c && continuation d && continuation e && is_utf8 l4
                  else if between 241 243 b then continuation c && continuation d && continuation e && is_utf8 l4
                  else if between 244 244 b then between 128 143 c && continuation d && continuation e && is_utf8 l4
                  else false
              end
          end
      end
  end.

Definition from_utf8 (b : bytes) : option string :=
  if is_utf8 b then Some (String.string_of_list_byte b) else None.

(** ** [String::from_utf8_lossy]

    The first byte of a longer character gives the number of continuation bytes
    and the range of the first of them. *)
Definition lead (b : byte) : option (nat * (byte -> bool)) :=
  if between 194 223 b then Some (1, continuation)
  else if between 224 224 b then Some (2, between 160 191)
  else if between 237 237 b then Some (2, between 128 159)
  else if between 225 239 b then Some (2, continuation)
  else if between 240 240 b then Some (3, between 144 191)
  else if between 241 243 b then Some (3, continuation)
  else if between 244 244 b then Some (3, between 128 143)
  else None.
Fixpoint leading (n : nat) (l : bytes) : nat :=
  match n, l with
  | S n, b :: l => if continuation b then S (leading n l) else 0
  | _, _ => 0
  end.
(** The length of the character in front, or of the bytes one replacement
    character stands for. *)
Definition char_in_front (l : bytes) : nat * bool :=
  match l with
  | [] => (0, true)
  | b :: l =>
      if between 0 127 b then (1, true)
      else match lead b, l with
           | Some (n, second), c :: l =>
               if second c then let k := leading (n - 1) l in (2 + k, k =? n - 1) else (1, false)
           | _, _ => (1, false)
           end
  end%nat.
Definition REPLACEMENT_CHARACTER : bytes := [xef; xbf; xbd].
Fixpoint lossy (fuel : nat) (l : bytes) : bytes :=
  match fuel, l with
  | S fuel, _ :: _ =>
      let '(n, valid) := char_in_front l in
      (if valid then take n l else REPLACEMENT_CHARACTER) ++ lossy fuel (drop n l)
  | _, _ => []
  end.
Definition from_utf8_lossy (b : bytes) : string := String.string_of_list_byte (lossy (length b) b).

(** A Rust string. *)
Definition rust_string (s : string) : Prop := is_utf8 (as_bytes s) = true.

Lemma from_utf8_as_bytes s : rust_string s -> from_utf8 (as_bytes s) = Some s.
Proof.
  unfold rust_string, from_utf8. intros ->. f_equal. apply String.string_of_list_byte_of_string.
Qed.

Example ascii_is_utf8 : rust_string "photos/2026/cat.jpg".
Proof. reflexivity. Qed.
Example accents_are_utf8 : map is_utf8 [[xc3; xa9]; [xe2; x82; xac]; [xf0; x9f; x90; xb1]; [xc0; x80]; [xed; xa0; x80]; [xc3]]
  = [true; true; true; false; false; false].
Proof. reflexivity. Qed.

(** The lossy conversion changes no Rust string. *)
Lemma char_in_front_valid l : is_utf8 l = true -> l <> [] ->
  (char_in_front l).2 = true /\ 0 < (char_in_front l).1 /\ is_utf8 (drop (char_in_front l).1 l) = true.
Proof.
  destruct l as [|b l1]; [done|]. cbn [is_utf8]. intros Hl _. unfold char_in_front, lead.
  destruct (between 0 127 b); [split_and!; [done|cbn; lia|done]|].
  destruct l1 as [|c l2]; [done|].
  repeat (case_match; try done); bool_to_prop; cbn in *; try done.
  all: repeat match goal with Hc : continuation ?x = true |- context [continuation ?x] => rewrite Hc end.
  all: cbn; split_and!; [done|lia|done].
Qed.
Lemma from_utf8_lossy_valid s : rust_string s -> from_utf8_lossy (as_bytes s) = s.
Proof.
  intros Hs. unfold from_utf8_lossy.
  assert (Hl : forall fuel l, is_utf8 l = true -> (length l <= fuel)%nat -> lossy fuel l = l).
  { induction fuel as [|fuel IH]; intros [|b l] Hl Hn; cbn in Hn; [done|lia|done|]. cbn [lossy].
    destruct (char_in_front_valid (b :: l) Hl) as (H1 & H2 & H3); [done|].
    destruct (char_in_front (b :: l)) as [n ok]. cbn in H1, H2, H3. subst ok.
    rewrite IH; [apply take_drop|done|]. rewrite length_drop. cbn in *. lia. }
  rewrite Hl by done. apply String.string_of_list_byte_of_string.
Qed.

Example lossy_text : lossy 10 [x61; xe2; x82; x62; xf0; x9f; x90; xc0; x80; x63]
  = [x61] ++ REPLACEMENT_CHARACTER ++ [x62] ++ REPLACEMENT_CHARACTER ++ REPLACEMENT_CHARACTER ++ REPLACEMENT_CHARACTER ++ [x63].
Proof. reflexivity. Qed.
