(* ===== verification/ListApi.v ===== *)
(** * The listing handlers

    [maxio-server/src/api/list.rs]: pages of a bucket's objects, in both
    versions of the protocol, grouping by a delimiter, and the listing of
    versions.  A string is the bytes of a Rust string; a slice outside it or a
    conversion that fails panics. *)

From stdpp Require Import base list gmap sets sorting numbers strings pretty.
From Stdlib Require Import ZArith Lia Ascii Strings.Byte.
From S2P Require Import Prelude IpAddr Glob Policy Bytes Reader Utf8 Types Quota Crypto MetadataIndex FileSystem Paths World Storage Listing ApiError.

Local Open Scope nat_scope.

Abbreviation params := (gmap string string).

(** [raw.parse::<i64>()], where it is not negative: [-0] is a number too. *)
Definition i64_max : Z := 2 ^ 63 - 1.
Definition parse_not_negative (raw : string) : option Z :=
  match raw with
  | String "-"%char digits =>
      match chars digits with
      | [] => None
      | l => n ← parse_digits 10 (i64_max + 1) 0 l; if (n =? 0)%Z then Some 0%Z else None
      end
  | _ => parse_uint i64_max raw
  end.

Definition parse_max_keys (ps : params) : result S3Error nat :=
  match ps !! "max-keys" with
  | None => Ok 1000
  | Some raw =>
      match parse_not_negative raw with
      | Some n => Ok (Z.to_nat (n `min` 1000))
      | None => Err (invalid_argument "Invalid value for max-keys")
      end
  end.

(** ** Grouping by a delimiter *)

Record ObjectEntry : Type := mk_ObjectEntry {
  oe_key : string; oe_last_modified : string; oe_etag : string; oe_size : Z; oe_storage_class : string }.
Definition entry_of (o : ObjectMeta) : ObjectEntry :=
  mk_ObjectEntry (om_key o) (om_last_modified o) (om_etag o) (om_size o) "STANDARD".

(** [str::find]: the text before the first occurrence. *)
Fixpoint before_first (s pat : string) : option string :=
  if starts_with s pat then Some ""
  else match s with
       | EmptyString => None
       | String c s => String c <$> before_first s pat
       end.

Definition string_le (a b : string) : Prop := String.leb a b = true.
Global Instance string_le_dec a b : Decision (string_le a b).
Proof. unfold string_le. apply _. Defined.

(** [&obj.key[prefix.len()..]]. *)
Definition suffix_of (prefix key : string) : string := of_chars (drop (length (chars prefix)) (chars key)).

(** The common prefix an object is folded into, if any. *)
Definition folded (prefix delim : string) (o : ObjectMeta) : option string :=
  (fun before => prefix +:+ before +:+ delim) <$> before_first (suffix_of prefix (om_key o)) delim.

(** The prefixes are kept in a [BTreeSet]. *)
Definition split_by_delimiter (page : list ObjectMeta) (prefix : string) (delimiter : option string)
    : list ObjectEntry * list string :=
  match delimiter with
  | Some delim =>
      (map entry_of (filter (fun o => folded prefix delim o = None) page),
       merge_sort string_le (elements (list_to_set (omap (folded prefix delim) page) : gset string)))
  | None => (map entry_of page, [])
  end.

(** ** Pages *)

(** The objects after [start], the page, and whether there are more. *)
Definition is_after (start : option string) (o : ObjectMeta) : bool :=
  match start with Some s => String.ltb s (om_key o) | None => true end.
Definition page_after (start : option string) (max_keys : nat) (objects : list ObjectMeta)
    : list ObjectMeta * bool :=
  let filtered := filter (fun o => is_after start o = true) objects in
  (take max_keys filtered, max_keys <? length filtered).

Record ListBucketResult : Type := mk_ListBucketResult {
  lr_name : string; lr_prefix : string; lr_key_count : nat; lr_max_keys : nat; lr_is_truncated : bool;
  lr_contents : list ObjectEntry; lr_common_prefixes : list string;
  lr_continuation_token : option string; lr_next_continuation_token : option string;
  lr_delimiter : option string; lr_start_after : option string }.
Record ListBucketResultV1 : Type := mk_ListBucketResultV1 {
  l1_name : string; l1_prefix : string; l1_marker : string; l1_next_marker : option string;
  l1_max_keys : nat; l1_is_truncated : bool;
  l1_contents : list ObjectEntry; l1_common_prefixes : list string; l1_delimiter : option string }.

Definition Api (A : Type) : Type := M S3Error A.
Definition of_storage {A} (f : StorageError -> S3Error) (m : M StorageError A) : Api A := fun w =>
  match m w with (w, Ok a) => (w, Ok a) | (w, Err e) => (w, Err (f e)) end.

Section handlers.
Context `{Serde} `{Crates} (st : FilesystemStorage).

(** The token is the base64 of the last key of the page. *)
Definition effective_start (token start_after : option string) : option string :=
  match (t ← token; b ← b64_decode t; from_utf8 b) with
  | Some key => Some key
  | None => start_after
  end.

Definition page_v2 (bucket : string) (ps : params) (max_keys : nat) (all_objects : list ObjectMeta)
    : ListBucketResult :=
  let prefix := default "" (ps !! "prefix") in
  let delimiter := ps !! "delimiter" in
  let start_after := ps !! "start-after" in
  let token := ps !! "continuation-token" in
  let '(page, is_truncated) := page_after (effective_start token start_after) max_keys all_objects in
  let '(contents, common_prefixes) := split_by_delimiter page prefix delimiter in
  mk_ListBucketResult bucket prefix (length contents + length common_prefixes) max_keys is_truncated
    contents common_prefixes token
    (if is_truncated then (fun o => b64_encode (as_bytes (om_key o))) <$> last page else None)
    delimiter start_after.

Definition list_objects_v2 (bucket : string) (ps : params) : Api ListBucketResult :=
  max_keys ← lift (parse_max_keys ps);
  all_objects ← of_storage (fun _ => internal) (list_objects st bucket (default "" (ps !! "prefix")));
  mret (page_v2 bucket ps max_keys all_objects).

Definition page_v1 (bucket : string) (ps : params) (max_keys : nat) (all_objects : list ObjectMeta)
    : ListBucketResultV1 :=
  let prefix := default "" (ps !! "prefix") in
  let delimiter := ps !! "delimiter" in
  let marker := ps !! "marker" in
  let '(page, is_truncated) := page_after marker max_keys all_objects in
  let '(contents, common_prefixes) := split_by_delimiter page prefix delimiter in
  mk_ListBucketResultV1 bucket prefix (default "" marker)
    (if is_truncated then om_key <$> last page else None)
    max_keys is_truncated contents common_prefixes delimiter.

Definition list_objects_v1 (bucket : string) (ps : params) : Api ListBucketResultV1 :=
  max_keys ← lift (parse_max_keys ps);
  all_objects ← of_storage (fun _ => internal) (list_objects st bucket (default "" (ps !! "prefix")));
  mret (page_v1 bucket ps max_keys all_objects).

(** ** Versions *)

Record VersionEntry : Type := mk_VersionEntry {
  ve_key : string; ve_version_id : string; ve_is_latest : bool; ve_last_modified : string;
  ve_etag : string; ve_size : Z; ve_storage_class : string }.
Record DeleteMarkerEntry : Type := mk_DeleteMarkerEntry {
  dm_key : string; dm_version_id : string; dm_is_latest : bool; dm_last_modified : string }.

Definition vid_of (v : ObjectMeta) : string := default "null" (om_version_id v).

(** [entry(key).or_insert(vid)], over the versions in order. *)
Definition latest_per_key (versions : list ObjectMeta) : gmap string string :=
  fold_left (fun acc v => match acc !! om_key v with
                          | Some _ => acc
                          | None => <[om_key v := vid_of v]> acc
                          end) versions ∅.

Definition version_page (all_versions : list ObjectMeta) : list VersionEntry * list DeleteMarkerEntry :=
  let latest := latest_per_key all_versions in
  let is_latest v := bool_decide (latest !! om_key v = Some (vid_of v)) in
  (map (fun v => mk_VersionEntry (om_key v) (vid_of v) (is_latest v) (om_last_modified v) (om_etag v) (om_size v)
                     "STANDARD")
     (filter (fun v => om_is_delete_marker v = false) all_versions),
   map (fun v => mk_DeleteMarkerEntry (om_key v) (vid_of v) (is_latest v) (om_last_modified v))
     (filter (fun v => om_is_delete_marker v = true) all_versions)).

Definition list_object_versions_api (bucket : string) (ps : params)
    : Api (list VersionEntry * list DeleteMarkerEntry) :=
  all ← of_storage (fun _ => internal) (list_object_versions st bucket (default "" (ps !! "prefix")));
  mret (version_page all).
End handlers.

(** ** The order of keys *)

Lemma ltb_spec a b : String.ltb a b = true <-> String.leb a b = true /\ a <> b.
Proof.
  unfold String.ltb, String.leb. pose proof (String.compare_eq_iff a b) as He.
  assert (Hr : forall c, String.compare c c = Eq).
  { intros c. pose proof (String.compare_antisym c c) as Ha. by destruct (String.compare c c). }
  destruct (String.compare a b) eqn:E; split; try done.
  - intros [_ Hn]. destruct Hn. by apply He.
  - intros _. split; [done|]. intros ->. by rewrite Hr in E.
  - by intros [? _].
Qed.
Lemma leb_trans a b c : String.leb a b = true -> String.leb b c = true -> String.leb a c = true.
Proof.
  intros H1%Is_true_true H2%Is_true_true. apply Is_true_true.
  exact (transitivity (R := String.le) H1 H2).
Qed.
Lemma ltb_trans a b c : String.ltb a b = true -> String.ltb b c = true -> String.ltb a c = true.
Proof.
  rewrite !ltb_spec. intros [H1 N1] [H2 N2]. split; [by eapply leb_trans|]. intros ->.
  apply N1. by apply String.leb_antisym.
Qed.
Lemma ltb_irrefl a : String.ltb a a = false.
Proof. apply not_true_is_false. rewrite ltb_spec. by intros [_ ?]. Qed.

(** ** Following the pages *)

Definition key_lt (a b : ObjectMeta) : Prop := String.ltb (om_key a) (om_key b) = true.
Abbreviation listing := (StronglySorted key_lt).

Lemma listing_app l k : listing (l ++ k) ->
  listing l /\ listing k /\ forall a b, a ∈ l -> b ∈ k -> key_lt a b.
Proof.
  induction l as [|x l IH]; cbn; [intros Hk; split_and!; [constructor|done|by intros a b ?%elem_of_nil]|].
  intros [Hs Hx]%StronglySorted_inv. apply Forall_app in Hx as [Hx1 Hx2]. destruct (IH Hs) as (H1 & H2 & H3).
  split_and!; [by constructor|done|]. intros a b [->|Ha]%elem_of_cons Hb; [|by apply H3].
  rewrite Forall_forall in Hx2. by apply Hx2.
Qed.

Lemma filter_all {A} (P : A -> Prop) `{!forall x, Decision (P x)} l : Forall P l -> filter P l = l.
Proof. induction 1 as [|x l Hx _ IH]; [done|]. by rewrite filter_cons_True, IH. Qed.
Lemma filter_none {A} (P : A -> Prop) `{!forall x, Decision (P x)} l : Forall (fun x => ~ P x) l -> filter P l = [].
Proof. induction 1 as [|x l Hx _ IH]; [done|]. by rewrite filter_cons_False. Qed.

Lemma listing_filter (P : ObjectMeta -> Prop) `{!forall x, Decision (P x)} l : listing l -> listing (filter P l).
Proof.
  induction 1 as [|x l _ IH Hx]; [constructor|]. rewrite filter_cons. case_decide; [|done]. constructor; [done|].
  apply Forall_forall. intros y [_ Hy]%list_elem_of_filter. rewrite Forall_forall in Hx. by apply Hx.
Qed.

(** The page after the last key of a page is the rest. *)
Lemma after_page (l : list ObjectMeta) n x : listing l -> last (take n l) = Some x ->
  filter (fun o => is_after (Some (om_key x)) o = true) l = drop n l.
Proof.
  intros Hl Hx. rewrite <-(take_drop n l) at 1. rewrite <-(take_drop n l) in Hl.
  destruct (listing_app _ _ Hl) as (H1 & _ & H3). rewrite filter_app. apply last_Some in Hx as (front & E).
  rewrite E in *. destruct (listing_app _ _ H1) as (_ & _ & H4).
  rewrite filter_none, filter_all; [done| |].
  - apply Forall_forall. intros y Hy. apply H3; [|done]. set_solver.
  - apply Forall_forall. intros y [Hy| ->%list_elem_of_singleton]%elem_of_app; cbn; [|by rewrite ltb_irrefl].
    intros Ha. specialize (H4 y x Hy ltac:(set_solver)). unfold key_lt in H4.
    pose proof (ltb_trans _ _ _ Ha H4) as Hc. by rewrite ltb_irrefl in Hc.
Qed.

(** A start at a key after an earlier start filters as much. *)
Lemma after_after start x (l : list ObjectMeta) : is_after start x = true ->
  filter (fun o => is_after (Some (om_key x)) o = true) (filter (fun o => is_after start o = true) l) =
  filter (fun o => is_after (Some (om_key x)) o = true) l.
Proof.
  intros Hx. apply list_filter_filter_l. intros y Hy. destruct start as [s|]; [|done]. cbn in *.
  by eapply ltb_trans.
Qed.

(** Grouping, over a page and the next. *)
Lemma split_contents l k prefix delimiter :
  (split_by_delimiter (l ++ k) prefix delimiter).1 =
  (split_by_delimiter l prefix delimiter).1 ++ (split_by_delimiter k prefix delimiter).1.
Proof. destruct delimiter; cbn; [by rewrite filter_app, map_app|by rewrite map_app]. Qed.
Lemma split_prefixes l prefix delimiter p :
  p ∈ (split_by_delimiter l prefix delimiter).2 <->
  exists delim o, delimiter = Some delim /\ o ∈ l /\ folded prefix delim o = Some p.
Proof.
  destruct delimiter as [delim|]; cbn; [|split; [by intros ?%elem_of_nil|by intros (? & ? & ? & _)]].
  rewrite (merge_sort_Permutation string_le), elem_of_elements, elem_of_list_to_set, list_elem_of_omap. naive_solver.
Qed.
Lemma split_size l prefix delimiter : let r := split_by_delimiter l prefix delimiter in length r.1 + length r.2 <= length l.
Proof.
  destruct delimiter as [delim|]; cbn; rewrite length_map; [|lia].
  rewrite (merge_sort_Permutation string_le).
  assert (Hs : forall l : list string, length (elements (list_to_set l : gset string)) <= length l).
  { induction l0 as [|x l0 IH]; [done|]. cbn.
    change (size ({[x]} ∪ list_to_set l0 : gset string) <= S (length l0)).
    change (size (list_to_set l0 : gset string) <= length l0) in IH.
    pose proof (size_union_alt ({[x]} : gset string) (list_to_set l0)) as E. rewrite size_singleton in E.
    pose proof (subseteq_size (list_to_set l0 ∖ {[x]} : gset string) (list_to_set l0) ltac:(set_solver)). lia. }
  pose proof (Hs (omap (folded prefix delim) l)).
  assert (length (filter (fun o => folded prefix delim o = None) l) + length (omap (folded prefix delim) l) = length l); [|lia].
  clear H. induction l as [|o l IH]; [done|]. cbn [omap list_omap length]. rewrite filter_cons.
  destruct (folded prefix delim o); [rewrite decide_False by done|rewrite decide_True by done]; cbn; lia.
Qed.

Lemma page_size `{Crates} bucket ps max_keys objects :
  lr_key_count (page_v2 bucket ps max_keys objects) <= max_keys.
Proof.
  unfold page_v2, page_after. set (page := take max_keys _).
  pose proof (split_size page (default "" (ps !! "prefix")) (ps !! "delimiter")) as Hs. cbn zeta in Hs.
  destruct (split_by_delimiter page _ _) as [c p]. cbn [lr_key_count fst snd] in *.
  assert (length page <= max_keys) by (unfold page; rewrite length_take; lia). lia.
Qed.

Section crawl.
Context `{CratesSpec} (bucket : string) (max_keys : nat) (objects : list ObjectMeta).

(** A client that follows the continuation tokens. *)
Fixpoint crawl (fuel : nat) (ps : params) : list ListBucketResult :=
  match fuel with
  | O => []
  | S fuel =>
      let r := page_v2 bucket ps max_keys objects in
      r :: match lr_next_continuation_token r with
           | None => []
           | Some t => crawl fuel (<["continuation-token" := t]> ps)
           end
  end.

Hypothesis Hmax : 0 < max_keys.
Hypothesis Hsorted : listing objects.
Hypothesis Hkeys : Forall (fun o => rust_string (om_key o)) objects.

Definition start_of (ps : params) : option string := effective_start (ps !! "continuation-token") (ps !! "start-after").
Definition remaining (ps : params) : list ObjectMeta := filter (fun o => is_after (start_of ps) o = true) objects.

Lemma effective_token x ps : x ∈ objects ->
  start_of (<["continuation-token" := b64_encode (as_bytes (om_key x))]> ps) = Some (om_key x).
Proof.
  intros Hx. unfold start_of, effective_start. rewrite lookup_insert_eq. cbn.
  rewrite b64_decode_encode. cbn. rewrite Forall_forall in Hkeys. by rewrite (from_utf8_as_bytes _ (Hkeys x Hx)).
Qed.

(** One page, and what the next one starts from. *)
Lemma page_step ps :
  let r := page_v2 bucket ps max_keys objects in
  (lr_contents r, lr_common_prefixes r) =
    split_by_delimiter (take max_keys (remaining ps)) (default "" (ps !! "prefix")) (ps !! "delimiter") /\
  match lr_next_continuation_token r with
  | None => length (remaining ps) <= max_keys
  | Some t => remaining (<["continuation-token" := t]> ps) = drop max_keys (remaining ps) /\
      max_keys < length (remaining ps)
  end.
Proof.
  cbn zeta. unfold page_v2, page_after. fold (start_of ps). fold (remaining ps).
  destruct (split_by_delimiter _ _ _) as [contents prefixes] eqn:Es. cbn [lr_contents lr_common_prefixes lr_next_continuation_token].
  split; [done|]. destruct (Nat.ltb_spec max_keys (length (remaining ps))) as [Hl|Hl]; [|done].
  destruct (last (take max_keys (remaining ps))) as [x|] eqn:Ex; cbn.
  2:{ apply last_None in Ex. apply (f_equal length) in Ex. rewrite length_take in Ex. cbn in Ex. lia. }
  split; [|done]. assert (Hx : x ∈ remaining ps).
  { apply last_Some_elem_of in Ex. apply list_elem_of_lookup in Ex as [i Hi]. apply list_elem_of_lookup. exists i.
    by apply lookup_take_Some in Hi as [? _]. }
  unfold remaining in Hx. apply list_elem_of_filter in Hx as [Hax Hx].
  unfold remaining at 1. rewrite effective_token by done.
  rewrite <-(after_after (start_of ps) x objects Hax). fold (remaining ps).
  apply after_page; [by apply listing_filter|done].
Qed.

Lemma crawl_spec fuel : forall ps, length (remaining ps) < fuel ->
  let pages := crawl fuel ps in
  let all := split_by_delimiter (remaining ps) (default "" (ps !! "prefix")) (ps !! "delimiter") in
  concat (map lr_contents pages) = all.1 /\
  (forall p, p ∈ all.2 <-> exists r, r ∈ pages /\ p ∈ lr_common_prefixes r) /\
  (forall more, crawl (fuel + more) ps = pages).
Proof.
  induction fuel as [|fuel IH]; intros ps Hlen; [lia|]. cbn zeta. cbn [crawl].
  destruct (page_step ps) as [Hc Hn]. set (r := page_v2 bucket ps max_keys objects) in *.
  set (prefix := default "" (ps !! "prefix")) in *. set (delimiter := ps !! "delimiter") in *.
  destruct (lr_next_continuation_token r) as [t|] eqn:Et.
  - destruct Hn as [Hr Hm]. specialize (IH (<["continuation-token" := t]> ps)). rewrite Hr in IH.
    rewrite !lookup_insert_ne in IH by done. fold prefix delimiter in IH.
    destruct IH as (H1 & H2 & H3); [rewrite length_drop; lia|].
    rewrite <-(take_drop max_keys (remaining ps)), split_contents, <-Hc.
    cbn [map concat fst]. rewrite H1. split_and!; [done| |].
    + intros p. rewrite split_prefixes. setoid_rewrite elem_of_app. setoid_rewrite elem_of_cons.
      pose proof (split_prefixes (take max_keys (remaining ps)) prefix delimiter p) as Ht. rewrite <-Hc in Ht. cbn [snd] in Ht.
      specialize (H2 p). rewrite split_prefixes in H2. naive_solver.
    + intros more. cbn [Nat.add crawl]. fold r. by rewrite Et, H3.
  - rewrite take_ge in Hc by done. cbn [map concat]. rewrite app_nil_r, <-Hc. cbn [fst snd]. split_and!; [done| |].
    + intros p. setoid_rewrite list_elem_of_singleton. naive_solver.
    + intros more. cbn [Nat.add crawl]. fold r. by rewrite Et.
Qed.
End crawl.

(** C34: pagination.  Over a listing with distinct keys in order, a client that
    asks for more than no entries and follows the continuation tokens stops, and
    has then received every object after its start that no common prefix covers
    exactly once and in order, as contents, and every common prefix at least once,
    one that spans two pages with both ([prefix_on_two_pages]), and no other.  No
    page holds more entries than asked for. *)
Theorem pages_cover_the_listing `{CratesSpec} bucket ps max_keys objects fuel :
  0 < max_keys -> listing objects -> Forall (fun o => rust_string (om_key o)) objects ->
  ps !! "continuation-token" = None -> length objects < fuel ->
  let pages := crawl bucket max_keys objects fuel ps in
  let expected := split_by_delimiter (filter (fun o => is_after (ps !! "start-after") o = true) objects)
                    (default "" (ps !! "prefix")) (ps !! "delimiter") in
  concat (map lr_contents pages) = expected.1 /\
  (forall p, p ∈ expected.2 <-> exists r, r ∈ pages /\ p ∈ lr_common_prefixes r) /\
  (forall more, crawl bucket max_keys objects (fuel + more) ps = pages) /\
  (forall ps', lr_key_count (page_v2 bucket ps' max_keys objects) <= max_keys).
Proof.
  intros Hmax Hs Hk Ht Hf. cbn zeta.
  assert (Hstart : start_of ps = ps !! "start-after") by (unfold start_of, effective_start; by rewrite Ht).
  destruct (crawl_spec bucket max_keys objects Hmax Hs Hk fuel ps) as (H1 & H2 & H3).
  { unfold remaining. pose proof (length_filter (fun o => is_after (start_of ps) o = true) objects). lia. }
  unfold remaining in *. rewrite Hstart in *. split_and!; [done..|].
  intros ps'. apply page_size.
Qed.

(** ** Versions *)

(** The listing is in order of keys, newest version first: the first version of
    a key is its latest. *)
Lemma latest_is_first versions k :
  latest_per_key versions !! k = vid_of <$> head (filter (fun v => om_key v = k) versions).
Proof.
  unfold latest_per_key. assert (Hg : forall acc : gmap string string, fold_left (fun acc v => match acc !! om_key v with
      Some _ => acc | None => <[om_key v := vid_of v]> acc end) versions acc !! k =
    match acc !! k with Some x => Some x | None => vid_of <$> head (filter (fun v => om_key v = k) versions) end).
  { induction versions as [|v l IH]; intros acc; cbn [fold_left]; [by destruct (acc !! k)|]. rewrite IH, filter_cons.
    destruct (decide (om_key v = k)) as [<-|Hk]; [|destruct (acc !! om_key v); by rewrite ?lookup_insert_ne by done].
    destruct (acc !! om_key v) eqn:E; [by rewrite E|]. by rewrite lookup_insert_eq. }
  by rewrite Hg, lookup_empty.
Qed.

(** ** At the edges *)

Section edges.
Definition object_named (key : string) : ObjectMeta :=
  mk_ObjectMeta key 1 "e" "text/plain" "t" None false None None None None None None None None None.
Definition three : list ObjectMeta := map object_named ["a/1"; "a/2"; "b"].
Import World.ToyWorld.

(** A page may end inside a common prefix; the next page reports it again. *)
Lemma prefix_on_two_pages :
  map lr_common_prefixes (crawl "pets" 1 three 4 {[ "delimiter" := "/" ]}) = [["a/"]; ["a/"]; []].
Proof. vm_compute. reflexivity. Qed.

(** With [max-keys=0] the page is empty and truncated, but has no token. *)
Lemma no_keys_asked_for :
  let r := page_v2 "pets" ∅ 0 three in
  parse_max_keys {[ "max-keys" := "0" ]} = Ok 0 /\
  lr_is_truncated r = true /\ lr_contents r = [] /\ lr_next_continuation_token r = None.
Proof. vm_compute. split_and!; reflexivity. Qed.

Lemma pages_cover_the_listing_witness :
  concat (map lr_contents (crawl "pets" 2 three 4 {[ "start-after" := "a/1" ]})) = map entry_of (map object_named ["a/2"; "b"]).
Proof.
  destruct (pages_cover_the_listing "pets" {[ "start-after" := "a/1" ]} 2 three 4) as (Hp & _);
    [lia|repeat constructor|repeat constructor|reflexivity|cbn; lia|]. exact Hp.
Defined.
End edges.
