(* ===== verification/Events.v ===== *)
(** * Event notifications

    [maxio-server/src/events.rs]: the spool of events, a directory of JSON files
    beside the buckets; the webhook addresses that are accepted; the events that
    uploads and deletions emit; and one round of delivery.  The URL parser, the
    JSON of a record and the HTTP client are parameters. *)

From stdpp Require Import base list gmap numbers strings pretty.
From Stdlib Require Import ZArith Lia Ascii Strings.Byte.
From S2P Require Import Prelude IpAddr Glob Policy Bytes Reader Utf8 Types Quota Crypto MetadataIndex FileSystem Paths World Storage BucketConfig Sidecar ApiError ListApi.

Local Open Scope nat_scope.

Definition SPOOL_DIR_NAME : string := ".maxio-event-spool".

Record EventRecord : Type := mk_EventRecord {
  ev_id : string; ev_event : string; ev_bucket : string; ev_key : string; ev_time : string;
  ev_size : option Z; ev_etag : option string; ev_webhook_url : string }.

(** [Url::parse(url)?.host_str()]; [serde_json] on a record; whether the
    webhook answers a POST at a tick with success; [Utc::now().to_rfc3339()]. *)
Class Webhooks : Type := {
  url_host : string -> option string;
  event_to_json : EventRecord -> string;
  event_from_json : string -> option EventRecord;
  posted : nat -> EventRecord -> bool;
  rfc3339_at : nat -> string;
}.
Class WebhooksSpec `{Webhooks} : Prop := {
  event_from_to_json r : event_from_json (event_to_json r) = Some r;
  event_to_json_rust r : rust_string (event_to_json r);
}.

(** ** Addresses of webhooks *)

Definition in_block (o : list Z) (block : list Z) : bool := bool_decide (take (length block) o = block).

Definition is_internal_ip (ip : IpAddr) : bool :=
  match ip with
  | V4 o =>
      let loopback := in_block o [127%Z] in
      let private := in_block o [10%Z]
                     || (in_block o [172%Z] && (Z.land (default 0%Z (o !! 1%nat)) 240 =? 16)%Z)
                     || in_block o [192%Z; 168%Z] in
      let link_local := in_block o [169%Z; 254%Z] in
      if loopback || private || link_local then true
      else (default 0 (o !! 0%nat) =? 169)%Z && (default 0 (o !! 1%nat) =? 254)%Z
  | V6 o =>
      bool_decide (o = replicate 15 0%Z ++ [1%Z]) || (Z.land (default 0%Z (o !! 0%nat)) 254 =? 252)%Z
  end.

Section webhooks.
Context `{Webhooks}.

Definition is_internal_webhook_url (url : string) : bool :=
  match url_host url with
  | None => false
  | Some host =>
      if decide (host = "localhost") then true
      else match parse_ip host with Some ip => is_internal_ip ip | None => false end
  end.

Definition validate_webhook_url (url : string) (allow_external : bool) : result string unit :=
  if decide (url = "") then Err "webhook URL must not be empty"
  else if negb (starts_with url "http://") && negb (starts_with url "https://")
  then Err "webhook URL must use http or https"
  else if allow_external || is_internal_webhook_url url then Ok tt
  else Err "webhook URL must target an internal address (RFC1918/localhost); set MAXIO_ALLOW_EXTERNAL_WEBHOOKS=1 to override".

(** ** Which events a bucket asks for *)

(** [trim_end_matches] of a string. *)
Fixpoint trim_end_matches (fuel : nat) (p s : string) : string :=
  match fuel, strip_suffix s p with
  | S fuel, Some r => trim_end_matches fuel p r
  | _, _ => s
  end.

Definition event_matches (config : BucketNotificationConfig) (event_name : string) : bool :=
  existsb (fun e =>
    if decide (e = event_name) then true
    else if ends_with e ":*" then starts_with event_name (trim_end_matches (String.length e) ":*" e)
    else false) (bn_events config).

(** ** The spool *)

Section spool.
Context `{Environment} `{Serde} (st : FilesystemStorage) (data_dir : string).

Definition spool_dir : string := join data_dir SPOOL_DIR_NAME.

Definition enqueue (record : EventRecord) : M StorageError unit :=
  _ ← call (fun t => fs_create_dir_all t spool_dir);
  call (fun t => fs_write t (join spool_dir (ev_id record +:+ ".json")) (Raw (as_bytes (event_to_json record)))).

(** The part the two events share.  Nothing that goes wrong is reported. *)
Definition emit (bucket key event : string) (size : option Z) (etag : option string) : M StorageError unit :=
  config ← get_bucket_notification st bucket;
  match config with
  | Some config =>
      if negb (event_matches config event) then mret tt
      else
        n ← tick;
        m ← tick;
        enqueue (mk_EventRecord (uuid_v4 n) event bucket key (rfc3339_at m) size etag (bn_webhook_url config))
  | None => mret tt
  end.
Definition quietly (m : M StorageError unit) : Api unit := on_world (fun w => (fst (m w), Ok tt)).

Definition emit_object_created (bucket key : string) (size : Z) (etag : string) : Api unit :=
  quietly (emit bucket key "s3:ObjectCreated:Put" (Some size) (Some etag)).
Definition emit_object_removed (bucket key : string) : Api unit :=
  quietly (emit bucket key "s3:ObjectRemoved:Delete" None None).

(** ** Delivery *)

(** [Path::extension]. *)
Definition path_extension (name : string) : option string :=
  '(stem, ext) ← rsplit_once "." name; if decide (stem = "") then None else Some ext.

Definition remove_spooled (path : string) : M StorageError unit := ignore (fun t => fs_remove_file t path).

(** One entry of the spool; the answer is how many were delivered. *)
Definition drain_entry (name : string) : M StorageError nat :=
  let path := join spool_dir name in
  if bool_decide (path_extension name <> Some "json") then mret 0
  else
    t ← get_tree;
    match fs_read t path with
    | Err _ => mret 0
    | Ok c =>
        match from_utf8 (file_bytes c) with
        | None => mret 0
        | Some data =>
            match event_from_json data with
            | None => _ ← remove_spooled path; mret 0
            | Some record =>
                if is_err (validate_webhook_url (ev_webhook_url record) false) then
                  _ ← remove_spooled path; mret 0
                else
                  n ← tick;
                  if posted n record then _ ← remove_spooled path; mret 1 else mret 0
            end
        end
    end.

Fixpoint drain_entries (entries : list (string * bool)) : M StorageError nat :=
  match entries with
  | [] => mret 0
  | (name, _) :: entries => d ← drain_entry name; n ← drain_entries entries; mret (d + n)
  end.

Definition drain_once : M StorageError nat :=
  t ← get_tree;
  match fs_read_dir t spool_dir with
  | Err _ => mret 0
  | Ok entries => drain_entries entries
  end.
End spool.
End webhooks.
