(* ===== verification/EventsSpec.v ===== *)
(** * What becomes of an event

    An event that reached the spool is settled by the next round of delivery: it
    is posted and removed, kept for another round, or dropped. *)

From stdpp Require Import base list gmap numbers strings pretty.
From Stdlib Require Import ZArith Lia Ascii Strings.Byte.
From S2P Require Import Prelude IpAddr Glob Policy Bytes Reader Utf8 Types Quota Crypto MetadataIndex FileSystem Paths World Storage BucketConfig Sidecar ApiError ListApi Events.

Local Open Scope nat_scope.

(** The extension of a spooled file. *)
Lemma rsplit_once_last (stem r : string) : rsplit_once "." r = None -> rsplit_once "." (stem +:+ "." +:+ r) = Some (stem, r).
Proof.
  intros Hr. induction stem as [|a stem IH].
  - cbn [rsplit_once]. change ("" +:+ "." +:+ r) with (String "."%char r). cbn [rsplit_once]. rewrite Hr. cbn. by destruct r.
  - rewrite str_app_cons. cbn [rsplit_once]. by rewrite IH.
Qed.
Lemma spooled_extension (id : string) : id <> "" -> path_extension (id +:+ ".json") = Some "json".
Proof.
  intros Hid. unfold path_extension. change ".json" with ("." +:+ "json"). rewrite (rsplit_once_last id "json") by done.
  cbn. by rewrite decide_False.
Qed.
Lemma spooled_segment id : contains_char "/" id = false ->
  contains_char "/" (id +:+ ".json") = false /\ ~ blank (id +:+ ".json") /\ id +:+ ".json" <> "..".
Proof.
  intros Hid. split_and!.
  - unfold contains_char in *. rewrite bool_decide_eq_false, chars_app, elem_of_app in *. cbn. intros [?|Hin]; [done|].
    repeat (apply elem_of_cons in Hin as [Hin|Hin]; [done|]). by apply elem_of_nil in Hin.
  - destruct id as [|a [|b id]]; cbn; by intros [?|?].
  - destruct id as [|a [|b [|c id]]]; cbn; by intros ?.
Qed.

Section spool.
Context `{EnvironmentSpec} `{SerdeSpec} `{WebhooksSpec} (st : FilesystemStorage) (data_dir : string).
Hypothesis Hplain : plain data_dir.
Abbreviation file r := (join (spool_dir data_dir) (ev_id r +:+ ".json")).

Lemma spooled_plain r : contains_char "/" (ev_id r) = false -> plain (file r).
Proof.
  intros Hid. destruct (spooled_segment _ Hid) as (Hs & Hb & Hd).
  assert (Ha : at_place (spool_dir data_dir) (names data_dir) SPOOL_DIR_NAME).
  { apply at_place_join; try done. by intros [?|?]. }
  apply at_place_names in Ha as [Hp Hn]. by destruct (at_place_names _ _ _ (at_place_join _ _ _ Hp eq_refl Hs Hb Hd)).
Qed.

(** The spooled file holds the record. *)
Lemma enqueue_stores r w w' : contains_char "/" (ev_id r) = false -> enqueue data_dir r w = (w', Ok tt) ->
  fs_read (w_tree w') (file r) = Ok (Raw (as_bytes (event_to_json r))) /\ resolve (w_tree w') (file r) = Ok (names (file r)).
Proof.
  intros Hid (u & w1 & _ & Hw)%M_bind_ok. pose proof (spooled_plain r Hid) as Hp. unfold call in Hw.
  destruct (fs_write (w_tree w1) _ _) as [t x] eqn:E.
  apply fs_write_effect in E as [[_ He]|(-> & -> & Hres & _)]; [|injection Hw as <-|done].
  { destruct x; [done|]. by injection Hw as _ Hw. }
  assert (Hres' : resolve (with_file (w_tree w1) (names (file r)) (Raw (as_bytes (event_to_json r)))) (file r) = Ok (names (file r)))
    by (by apply (resolve_mono (w_tree w1))).
  split; [|done]. apply fs_read_ok; [done|]. split; [done|apply lookup_insert_eq].
Qed.
Lemma remove_spooled_ok r w c : contains_char "/" (ev_id r) = false -> fs_read (w_tree w) (file r) = Ok c ->
  remove_spooled (file r) w = (with_tree w (without_file (w_tree w) (names (file r))), Ok tt).
Proof.
  intros Hid [Hr Hf]%(fs_read_ok _ _ _ (spooled_plain r Hid)). unfold remove_spooled, ignore.
  unfold fs_remove_file. by rewrite Hr, Hf.
Qed.

(** A spooled event is settled by the next round.  The entry of an event whose
    webhook is an internal address is posted; it is removed and counted when the
    webhook accepts it and stays for the next round when it does not.  An event for
    any other address is removed and never posted, also where the configuration let
    that address be stored. *)
Theorem spooled_event_settles r w w' :
  contains_char "/" (ev_id r) = false -> ev_id r <> "" -> enqueue data_dir r w = (w', Ok tt) ->
  let gone v := with_tree v (without_file (w_tree v) (names (file r))) in
  let ticked := mk_world (w_tree w') (w_index w') (S (w_tick w')) in
  drain_entry data_dir (ev_id r +:+ ".json") w' =
  if is_ok (validate_webhook_url (ev_webhook_url r) false)
  then if posted (w_tick w') r then (gone ticked, Ok 1) else (ticked, Ok 0)
  else (gone w', Ok 0).
Proof.
  intros Hid Hne He gone ticked. destruct (enqueue_stores r w w' Hid He) as [Hr _].
  unfold drain_entry. rewrite spooled_extension, bool_decide_eq_false_2 by auto.
  rewrite (run_ok get_tree _ w' w' (w_tree w')) by done. rewrite Hr, file_bytes_raw, from_utf8_as_bytes by apply event_to_json_rust.
  rewrite event_from_to_json. destruct (validate_webhook_url (ev_webhook_url r) false) as [u|e]; cbn [is_ok is_err negb]; cbv iota.
  - rewrite (run_ok tick _ w' ticked (w_tick w')) by done. destruct (posted (w_tick w') r); [|done].
    rewrite (run_ok _ _ _ _ _ (remove_spooled_ok r ticked _ Hid Hr)). done.
  - rewrite (run_ok _ _ _ _ _ (remove_spooled_ok r w' _ Hid Hr)). done.
Qed.
End spool.

Module EventsDemo.
Import FileSystem.ToySerde World.ToyWorld.

(** A record as a string of bits. *)
Definition fields (r : EventRecord) :=
  (ev_id r, ev_event r, ev_bucket r, ev_key r, ev_time r, ev_size r, ev_etag r, ev_webhook_url r).
#[local] Instance EventRecord_eq_dec : EqDecision EventRecord.
Proof. solve_decision. Defined.
#[local] Instance EventRecord_countable : Countable EventRecord.
Proof.
  refine (inj_countable' fields (fun '(i, e, b, k, t, s, g, u) => mk_EventRecord i e b k t s g u) _). by intros [].
Defined.
Fixpoint bits (p : positive) : string :=
  match p with xH => "" | xO p => String "0" (bits p) | xI p => String "1" (bits p) end.
Fixpoint of_bits (s : string) : positive :=
  match s with "" => xH | String c s => if decide (c = "0"%char) then xO (of_bits s) else xI (of_bits s) end.
Lemma of_bits_bits p : of_bits (bits p) = p.
Proof. induction p as [p IH|p IH|]; cbn; by rewrite ?IH. Qed.
Lemma bits_rust p : rust_string (bits p).
Proof. unfold rust_string. induction p as [p IH|p IH|]; exact IH || reflexivity. Qed.

#[local] Instance toy_webhooks : Webhooks := {|
  url_host s := strip_prefix "https://" s; event_to_json r := bits (encode r);
  event_from_json s := decode (of_bits s); posted n r := bool_decide (n = 1%nat); rfc3339_at _ := "t" |}.
#[local] Instance toy_webhooks_spec : WebhooksSpec.
Proof. split; intros r; [|apply bits_rust]. cbn. by rewrite of_bits_bits, decode_encode. Qed.

Definition start : world := mk_world (mk_tree ∅ {[ []; ["data"] ]}) None 1.
Definition event (url : string) : EventRecord :=
  mk_EventRecord "u" "s3:ObjectCreated:Put" "pets" "cat" "t" (Some 4%Z) None url.

(** One delivered, one dropped. *)
Lemma spooled_event_settles_witness :
  (let w' := fst (enqueue "/data" (event "https://10.0.0.1") start) in snd (drain_entry "/data" "u.json" w') = Ok 1) /\
  (let w' := fst (enqueue "/data" (event "https://example.com") start) in
   validate_webhook_url "https://example.com" true = Ok tt /\ snd (drain_entry "/data" "u.json" w') = Ok 0 /\
   t_files (w_tree (fst (drain_entry "/data" "u.json" w'))) = ∅).
Proof.
  assert (Hp : plain "/data") by (unfold plain; apply (bool_decide_unpack _); vm_compute; exact I).
  split; cbv zeta.
  - destruct (enqueue "/data" (event "https://10.0.0.1") start) as [w' [[]|e]] eqn:E; [|exfalso; vm_compute in E; discriminate].
    cbn [fst]. pose proof (spooled_event_settles "/data" Hp (event "https://10.0.0.1") start w' eq_refl ltac:(done) E) as Hd.
    cbv zeta in Hd. change (ev_id (event "https://10.0.0.1") +:+ ".json") with "u.json" in Hd. rewrite Hd.
    assert (Ht : w_tick w' = 1%nat) by (apply (f_equal fst) in E; cbn [fst] in E; rewrite <-E; vm_compute; reflexivity).
    rewrite Ht. vm_compute. reflexivity.
  - destruct (enqueue "/data" (event "https://example.com") start) as [w' [[]|e]] eqn:E; [|exfalso; vm_compute in E; discriminate].
    cbn [fst]. split; [vm_compute; reflexivity|].
    pose proof (spooled_event_settles "/data" Hp (event "https://example.com") start w' eq_refl ltac:(done) E) as Hd.
    cbv zeta in Hd. change (ev_id (event "https://example.com") +:+ ".json") with "u.json" in Hd. rewrite Hd.
    assert (Hv : is_ok (validate_webhook_url (ev_webhook_url (event "https://example.com")) false) = false) by (vm_compute; reflexivity).
    rewrite Hv. split; [done|]. apply (f_equal fst) in E. cbn [fst] in E. rewrite <-E. vm_compute. reflexivity.
Defined.
End EventsDemo.
