(* ===== verification/Http.v ===== *)
(** * Requests, virtual hosts and client addresses

    The parts of an HTTP request the server's gates look at; virtual-hosted
    buckets ([api/virtual_host.rs], [audit.rs]); and the client address behind
    trusted proxies ([proxy.rs]). *)

From stdpp Require Import base list gmap numbers strings pretty.
From Stdlib Require Import ZArith Lia Ascii Strings.Byte.
From S2P Require Import Prelude IpAddr Glob Policy Bytes Reader Types Keyring Paths Sidecar.

Local Open Scope nat_scope.

(** ** Requests *)

(** The values of a header, in order, under [to_str]: [None] for one that is
    not text. *)
Abbreviation HeaderMap := (string -> list (option string)).
(** [headers.get(name).and_then(|v| v.to_str().ok())]. *)
Definition header (h : HeaderMap) (name : string) : option string := mjoin (head (h name)).

Record VirtualHostContext : Type := mk_VirtualHostContext { vh_bucket : string; vh_signature_path : string }.

Record Request : Type := mk_Request {
  rq_method : string;
  rq_path : string;
  rq_query : string;
  rq_headers : HeaderMap;
  rq_peer : option IpAddr;
  rq_vhost : option VirtualHostContext;
  rq_principal : option string;
}.

(** ** Virtual hosts *)

Definition trim_start_slashes (s : string) : string := of_chars (trim_slashes (chars s)).

Definition object_key_from_signature_path (signature_path : string) : option string :=
  let key := trim_start_slashes signature_path in if decide (key = "") then None else Some key.

Definition resolve_bucket (vhost : option VirtualHostContext) (path_bucket : string) : string :=
  match vhost with Some ctx => vh_bucket ctx | None => path_bucket end.

Definition virtual_host_object_key (params : gmap string string) (vhost : option VirtualHostContext) : option string :=
  if decide (params <> ∅) then None
  else ctx ← vhost; object_key_from_signature_path (vh_signature_path ctx).

Definition signature_path_from_request (r : Request) : string :=
  match rq_vhost r with Some ctx => vh_signature_path ctx | None => rq_path r end.

Definition to_lowercase (s : string) : string := of_chars (map to_ascii_lowercase (chars s)).

Definition extract_virtual_bucket (host server_host : string) : option string :=
  let host := to_lowercase (trim host) in
  let server_host := to_lowercase (trim server_host) in
  if decide (host = server_host) then None
  else
    bucket ← strip_suffix host ("." +:+ server_host);
    if decide (bucket = "") then None
    else match validate_bucket_name bucket with Ok _ => Some bucket | Err _ => None end.

Definition effective_server_host (server_host address : string) (port : Z) (listen_port : option Z) : string :=
  if decide (trim server_host <> "") then trim server_host
  else
    let host := if decide (address = "0.0.0.0") then "127.0.0.1" else address in
    host +:+ ":" +:+ pretty (default port listen_port).

Definition host_header_value (h : HeaderMap) : option string := header h "host".

(** [apply_virtual_host] and [virtual_host_middleware]. *)
Definition apply_virtual_host (server_host : string) (r : Request) : Request :=
  match (host ← host_header_value (rq_headers r); extract_virtual_bucket host server_host) with
  | None => r
  | Some bucket =>
      mk_Request (rq_method r) (rq_path r) (rq_query r) (rq_headers r) (rq_peer r)
        (Some (mk_VirtualHostContext bucket (rq_path r))) (rq_principal r)
  end.

(** A virtual-hosted bucket has a valid name, whatever the header. *)
Lemma extract_virtual_bucket_valid host server_host bucket :
  extract_virtual_bucket host server_host = Some bucket -> validate_bucket_name bucket = Ok tt.
Proof.
  unfold extract_virtual_bucket. case_decide; [done|]. destruct (strip_suffix _ _) as [b|]; cbn; [|done].
  case_decide; [done|]. destruct (validate_bucket_name b) as [[]|] eqn:E; [|done]. by intros [= <-].
Qed.

(** ** Addresses as text

    [Display] of [IpAddr]: an IPv6 address compresses its longest run of zero
    segments, the first of the longest, if longer than one. *)

Fixpoint segments (o : list Z) : list Z :=
  match o with a :: b :: o => (a * 256 + b)%Z :: segments o | _ => [] end.

Definition hex_digit (d : Z) : ascii := ascii_of_N (Z.to_N (if (d <? 10)%Z then 48 + d else 87 + d)%Z).
Definition hex16 (n : Z) : string :=
  let digits := map hex_digit [n / 4096; n / 256 mod 16; n / 16 mod 16; n mod 16]%Z in
  of_chars (if (n =? 0)%Z then ["0"%char]
            else (fix go l := match l with
                              | c :: l' => if decide (c = "0"%char) then go l' else l
                              | [] => [] end) digits).

Fixpoint join_with (sep : string) (l : list string) : string :=
  match l with [] => "" | [s] => s | s :: l => s +:+ sep +:+ join_with sep l end.

(** The start and length of the run of zeros at [i], given the best so far. *)
Fixpoint longest_zeros (segs : list Z) (i : nat) (cur best : nat * nat) : nat * nat :=
  match segs with
  | [] => best
  | s :: segs =>
      if (s =? 0)%Z then
        let cur := if decide (cur.2 = 0) then (i, 1) else (cur.1, S cur.2) in
        longest_zeros segs (S i) cur (if best.2 <? cur.2 then cur else best)
      else longest_zeros segs (S i) (0, 0) best
  end.

Definition ip_to_string (ip : IpAddr) : string :=
  match ip with
  | V4 o => join_with "." (map pretty o)
  | V6 o =>
      if decide (take 12 o = replicate 10 0%Z ++ [255; 255]%Z) then
        "::ffff:" +:+ join_with "." (map pretty (drop 12 o))
      else
        let segs := segments o in
        let '(start, len) := longest_zeros segs 0 (0, 0) (0, 0) in
        if 1 <? len then
          join_with ":" (map hex16 (take start segs)) +:+ "::" +:+ join_with ":" (map hex16 (drop (start + len) segs))
        else join_with ":" (map hex16 segs)
  end.

Example ip_text :
  (ip_to_string <$> omap parse_ip ["203.0.113.50"; "2001:db8::1"; "::"; "1:0:0:2:0:0:0:3"; "::ffff:10.0.0.1"; "fe80:0:1:2:3:4:5:6"])
  = ["203.0.113.50"; "2001:db8::1"; "::"; "1:0:0:2::3"; "::ffff:10.0.0.1"; "fe80:0:1:2:3:4:5:6"].
Proof. vm_compute. reflexivity. Qed.

(** ** Trusted proxies *)

Record Network : Type := mk_Network { nw_addr : IpAddr; nw_prefix_len : Z }.
Definition TrustedProxies : Type := list Network.

Definition parse_network (spec : string) : option Network :=
  match split_once "/"%char spec with
  | Some (addr, prefix) =>
      addr ← parse_ip (trim addr);
      prefix_len ← parse_uint u8_max (trim prefix);
      let max := (match addr with V4 _ => 32 | V6 _ => 128 end)%Z in
      if (max <? prefix_len)%Z then None else Some (mk_Network addr prefix_len)
  | None =>
      addr ← parse_ip spec;
      Some (mk_Network addr (match addr with V4 _ => 32 | V6 _ => 128 end)%Z)
  end.

Definition parse_proxies (spec : string) : TrustedProxies :=
  omap (fun part => let part := trim part in if decide (part = "") then None else parse_network part)
    (split_char ","%char spec).

(** [Network::contains]; [parse_network] keeps the indices in range. *)
Definition network_contains (n : Network) (ip : IpAddr) : bool :=
  match nw_addr n, ip with
  | V4 net, V4 addr =>
      let mask := (if nw_prefix_len n =? 0 then 0 else (2 ^ 32 - 1) * 2 ^ (32 - nw_prefix_len n) mod 2 ^ 32)%Z in
      (Z.land (from_be_bytes net) mask =? Z.land (from_be_bytes addr) mask)%Z
  | V6 net, V6 addr =>
      let full_bytes := Z.to_nat (nw_prefix_len n / 8)%Z in
      let remainder := (nw_prefix_len n mod 8)%Z in
      if bool_decide (take full_bytes net <> take full_bytes addr) then false
      else if (remainder =? 0)%Z then true
      else
        let mask := (255 * 2 ^ (8 - remainder) mod 2 ^ 8)%Z in
        (Z.land (default 0%Z (net !! full_bytes)) mask =? Z.land (default 0%Z (addr !! full_bytes)) mask)%Z
  | _, _ => false
  end.

Definition contains (trusted : TrustedProxies) (ip : IpAddr) : bool := existsb (fun n => network_contains n ip) trusted.

(** The loop of [client_ip], on the reversed chain: trusted hops and the peer
    are popped, and at least one address stays. *)
Fixpoint strip_hops (trusted : TrustedProxies) (peer_ip : IpAddr) (rev_chain : list IpAddr) : list IpAddr :=
  match rev_chain with
  | last :: ((_ :: _) as rest) =>
      if contains trusted last || bool_decide (last = peer_ip) then strip_hops trusted peer_ip rest else rev_chain
  | _ => rev_chain
  end.

Definition client_ip (trusted : TrustedProxies) (h : HeaderMap) (peer_ip : IpAddr) : string :=
  if bool_decide (trusted = []) || negb (contains trusted peer_ip) then ip_to_string peer_ip
  else
    match header h "x-forwarded-for" with
    | None => ip_to_string peer_ip
    | Some forwarded =>
        let chain := omap (fun s => parse_ip (trim s)) (split_char ","%char forwarded) ++ [peer_ip] in
        let chain := rev (strip_hops trusted peer_ip (rev chain)) in
        match head chain with Some ip => ip_to_string ip | None => ip_to_string peer_ip end
    end.

(** The address the handlers give to the policy of a bucket: the first one of the
    header, whoever sent it. *)
Definition client_ip_from_headers (h : HeaderMap) (trusted : TrustedProxies) : string :=
  match header h "x-forwarded-for" with
  | Some forwarded =>
      let client := trim (default "" (head (split_char ","%char forwarded))) in
      if decide (client = "") then "unknown" else client
  | None => "unknown"
  end.

Definition client_ip_from_request (trusted : TrustedProxies) (r : Request) : string :=
  match rq_peer r with Some addr => client_ip trusted (rq_headers r) addr | None => "unknown" end.

(** A network is the block of addresses that share its prefix: the same test as
    that of the policy conditions. *)
Lemma network_contains_spec n ip : wf_ip (nw_addr n) -> wf_ip ip -> (0 <= nw_prefix_len n <= width (nw_addr n))%Z ->
  network_contains n ip = bool_decide (width ip = width (nw_addr n) /\
    value (nw_addr n) / 2 ^ (width (nw_addr n) - nw_prefix_len n) = value ip / 2 ^ (width (nw_addr n) - nw_prefix_len n))%Z.
Proof.
  intros Hn Hip Hp.
  assert (E : ip_in_network ip (nw_addr n) (nw_prefix_len n) = Ret (network_contains n ip)).
  { destruct n as [net p]. unfold network_contains, ip_in_network. cbn [nw_addr nw_prefix_len] in *.
    destruct net as [net|net], ip as [a|a]; cbn [width] in Hp; [|done..|].
    - destruct (Z.leb_spec 32 p) as [|Hlt]; [by replace p with 32%Z by lia|done].
    - destruct Hn as [Ln _], Hip as [La _].
      assert (Hf : (Z.to_nat (p / 8) <= 16)%nat) by (pose proof (Z.div_le_upper_bound p 8 16); lia).
      rewrite decide_False by lia. case_bool_decide; [done|].
      destruct (Z.eqb_spec (p mod 8) 0) as [|Hr]; [done|].
      assert (Hlt : (Z.to_nat (p / 8) < 16)%nat) by (pose proof (Z.div_mod p 8); pose proof (Z.mod_pos_bound p 8); lia).
      destruct (lookup_lt_is_Some_2 net (Z.to_nat (p / 8))) as [x Hx]; [lia|].
      destruct (lookup_lt_is_Some_2 a (Z.to_nat (p / 8))) as [y Hy]; [lia|]. by rewrite Hx, Hy. }
  destruct ip as [a|a], n as [[net|net] p]; cbn [nw_addr nw_prefix_len] in *.
  - rewrite ip_in_network_v4 in E by done. injection E as <-. apply bool_decide_ext. cbn. tauto.
  - done.
  - done.
  - rewrite ip_in_network_v6 in E by done. injection E as <-. apply bool_decide_ext. cbn. tauto.
Qed.

(** A peer that is no trusted proxy is taken at its own address, whatever it
    claims in the headers. *)
Lemma untrusted_peer_is_itself trusted h peer : contains trusted peer = false -> client_ip trusted h peer = ip_to_string peer.
Proof. intros Hc. unfold client_ip. by rewrite Hc, orb_true_r. Qed.

(** Behind a trusted proxy the client chooses its own address.  A proxy
    appends the address it saw to the X-Forwarded-For header it received; of the
    chain, trusted hops removed on the right, the code takes the first address,
    the one the client wrote, and not the last untrusted one. *)
Theorem forwarded_address_is_forged trusted h peer claimed claimed_ip seen seen_ip :
  contains trusted peer = true -> contains trusted seen_ip = false ->
  contains_char "," claimed = false -> contains_char "," seen = false ->
  parse_ip (trim claimed) = Some claimed_ip -> parse_ip (trim seen) = Some seen_ip ->
  header h "x-forwarded-for" = Some (claimed +:+ "," +:+ seen) ->
  client_ip trusted h peer = ip_to_string claimed_ip.
Proof.
  intros Hp Hs Hc1 Hc2 Ec Es Hh. unfold client_ip. rewrite Hp, Hh, orb_false_r.
  rewrite bool_decide_eq_false_2 by (by intros ->).
  change (claimed +:+ "," +:+ seen) with (claimed +:+ String "," seen). rewrite split_char_app.
  rewrite !split_char_no by done. cbn [app omap list_omap]. rewrite Ec, Es. cbn [app rev strip_hops].
  rewrite Hp. cbn [orb]. rewrite Hs. assert (seen_ip <> peer) by congruence. by rewrite bool_decide_eq_false_2.
Qed.

Lemma forwarded_address_is_forged_witness :
  client_ip (parse_proxies "10.0.0.0/8") (fun name => if decide (name = "x-forwarded-for") then [Some "1.2.3.4, 203.0.113.50"] else [])
    (V4 [10; 0; 0; 1]%Z) = "1.2.3.4".
Proof.
  apply (forwarded_address_is_forged (parse_proxies "10.0.0.0/8") _ (V4 [10; 0; 0; 1]%Z) "1.2.3.4" (V4 [1; 2; 3; 4]%Z)
    " 203.0.113.50" (V4 [203; 0; 113; 50]%Z)); vm_compute; reflexivity.
Defined.
