(* ===== verification/Signature.v ===== *)
(** * AWS Signature Version 4

    [auth/signature_v4.rs]: the two ways a request carries its signature, the
    canonical request, and the check.  The percent-encoding crate is a
    parameter; digests are those of [World]. *)

From stdpp Require Import base list gmap sorting numbers strings pretty.
From Stdlib Require Import ZArith Lia Ascii Strings.Byte.
From S2P Require Import Prelude IpAddr Glob Policy Bytes Reader Types Quota Crypto MetadataIndex FileSystem Paths World Keyring Sidecar Utf8 ListApi Http.

Local Open Scope nat_scope.

(** [percent_decode_str(s).decode_utf8()], [.decode_utf8_lossy()], and
    [utf8_percent_encode(s, S3_URI_ENCODE)]. *)
Class PercentEncoding : Type := {
  percent_decode_utf8 : string -> option string;
  percent_decode_lossy : string -> string;
  percent_encode : string -> string;
}.
(** What is not percent-encoded. *)
Definition unreserved (c : ascii) : bool :=
  is_ascii_alphanumeric c || bool_decide (c ∈ ["-"%char; "_"%char; "."%char; "~"%char]).
Class PercentEncodingSpec `{PercentEncoding} : Prop := {
  decode_is_string s : rust_string (percent_decode_lossy s);
  decode_encode s : rust_string s -> percent_decode_lossy (percent_encode s) = s;
  encode_nil : percent_encode "" = "";
  decode_nil : percent_decode_lossy "" = "";
  encode_chars s c : c ∈ chars (percent_encode s) -> unreserved c = true \/ c = "%"%char;
  encode_unreserved s : Forall (fun c => unreserved c = true) (chars s) -> percent_encode s = s;
  decode_utf8_encode s : rust_string s -> percent_decode_utf8 (percent_encode s) = Some s;
}.

(** [str::splitn(n, c)]. *)
Fixpoint splitn (n : nat) (c : ascii) (s : string) : list string :=
  match n with
  | O => []
  | S O => [s]
  | S n => match split_once c s with Some (w, rest) => w :: splitn n c rest | None => [s] end
  end.
(** [pair.split('=').next()], [splitn(2, '=')]: the name and value of a pair. *)
Definition pair_name (pair : string) : string := default "" (head (split_char "="%char pair)).
Definition pair_of (pair : string) : string * string :=
  match split_once "="%char pair with Some kv => kv | None => (pair, "") end.
Definition pairs_of (qs : string) : list string := split_char "&"%char qs.

Record ParsedAuth : Type := mk_ParsedAuth {
  pa_access_key : string; pa_date : string; pa_region : string;
  pa_signed_headers : list string; pa_signature : string }.

Definition parsed_auth (credential signed_headers signature : string) : result string ParsedAuth :=
  match splitn 5 "/"%char credential with
  | [access_key; date; region; _; _] =>
      Ok (mk_ParsedAuth access_key date region (split_char ";"%char signed_headers) signature)
  | _ => Err "Invalid Credential format"
  end.

(** The last part with a given prefix wins. *)
Definition find_part (prefix : string) (parts : list string) : option string := last (omap (strip_prefix prefix) parts).

Definition parse_authorization_header (h : string) : result string ParsedAuth :=
  h ← ok_or (strip_prefix "AWS4-HMAC-SHA256 " h) "Invalid auth algorithm";
  let parts := map trim (split_char ","%char h) in
  credential ← ok_or (find_part "Credential=" parts) "Missing Credential";
  signed_headers ← ok_or (find_part "SignedHeaders=" parts) "Missing SignedHeaders";
  signature ← ok_or (find_part "Signature=" parts) "Missing Signature";
  parsed_auth credential signed_headers signature.

(** ** Presigned URLs *)

Definition query_param_key_eq (key expected : string) : bool := eq_ignore_ascii_case key expected.
Definition is_signature_query_pair (pair : string) : bool := query_param_key_eq (pair_name pair) "X-Amz-Signature".

Definition query_has_presigned_signature (query : string) : bool :=
  existsb is_signature_query_pair (filter (fun s => s <> "") (pairs_of query)).

Definition find_param (name : string) (query : string) : option string :=
  last (omap (fun pair => let '(k, v) := pair_of pair in
                          if query_param_key_eq k name then Some v else None) (pairs_of query)).

Section signature.
Context `{Crates} `{PercentEncoding}.

Definition parse_presigned_query (query : string) : result string (ParsedAuth * string * Z) :=
  algorithm ← ok_or (find_param "X-Amz-Algorithm" query) "Missing X-Amz-Algorithm";
  if negb (bool_decide (algorithm = "AWS4-HMAC-SHA256")) then Err "Invalid X-Amz-Algorithm"
  else
    credential ← ok_or (find_param "X-Amz-Credential" query) "Missing X-Amz-Credential";
    timestamp ← ok_or (find_param "X-Amz-Date" query) "Missing X-Amz-Date";
    expires_str ← ok_or (find_param "X-Amz-Expires" query) "Missing X-Amz-Expires";
    signed_headers ← ok_or (find_param "X-Amz-SignedHeaders" query) "Missing X-Amz-SignedHeaders";
    signature ← ok_or (find_param "X-Amz-Signature" query) "Missing X-Amz-Signature";
    expires_secs ← ok_or (parse_uint u64_max expires_str) "Invalid X-Amz-Expires";
    if (604800 <? expires_secs)%Z then Err "X-Amz-Expires exceeds maximum of 604800 seconds"
    else
      credential ← ok_or (percent_decode_utf8 credential) "Invalid Credential encoding";
      parsed ← parsed_auth credential signed_headers signature;
      Ok (parsed, timestamp, expires_secs).

(** ** The canonical request *)

Definition canonical_uri (uri : string) : string :=
  let path := default "/" (head (split_char "?"%char uri)) in
  if decide (path = "" \/ path = "/") then "/"
  else join_with "/" (map (fun s => percent_encode (percent_decode_lossy s)) (split_char "/"%char path)).

(** The order of pairs of strings. *)
Definition pair_le (a b : string * string) : Prop :=
  if decide (a.1 = b.1) then String.leb a.2 b.2 = true else String.leb a.1 b.1 = true.
#[export] Instance pair_le_dec a b : Decision (pair_le a b).
Proof. unfold pair_le. case_decide; apply _. Defined.

Definition query_pairs (qs : string) : list (string * string) :=
  merge_sort pair_le
    (map (fun pair => let '(k, v) := pair_of pair in (percent_decode_lossy k, percent_decode_lossy v))
       (filter (fun s => s <> "") (pairs_of qs))).

Definition canonical_query_string (qs : string) : string :=
  if decide (qs = "") then ""
  else join_with "&" (map (fun '(k, v) => percent_encode k +:+ "=" +:+ percent_encode v) (query_pairs qs)).

Definition newline : string := String "010"%char "".
Definition header_value (h : HeaderMap) (name : string) : string := trim (join_with "," (omap id (h name))).
Definition canonical_headers (h : HeaderMap) (signed_headers : list string) : string :=
  foldr (fun name rest => name +:+ ":" +:+ header_value h name +:+ newline +:+ rest) "" signed_headers.

Definition canonical_request (method uri query_string : string) (h : HeaderMap) (signed_headers : list string)
    (payload_hash : string) : string :=
  join_with newline [method; canonical_uri uri; canonical_query_string query_string;
                     canonical_headers h signed_headers; join_with ";" signed_headers; payload_hash].

Definition build_canonical_request (method uri query_string : string) (h : HeaderMap) (parsed : ParsedAuth) : string :=
  canonical_request method uri query_string h (pa_signed_headers parsed)
    (default "UNSIGNED-PAYLOAD" (header h "x-amz-content-sha256")).

Definition build_string_to_sign (canonical timestamp : string) (parsed : ParsedAuth) : string :=
  let scope := pa_date parsed +:+ "/" +:+ pa_region parsed +:+ "/s3/aws4_request" in
  join_with newline ["AWS4-HMAC-SHA256"; timestamp; scope; hex_encode (sha256 (as_bytes canonical))].

Definition derive_signing_key (secret_key date region : string) : bytes :=
  let date_key := hmac_sha256 (as_bytes ("AWS4" +:+ secret_key)) (as_bytes date) in
  let date_region_key := hmac_sha256 date_key (as_bytes region) in
  let date_region_service_key := hmac_sha256 date_region_key (as_bytes "s3") in
  hmac_sha256 date_region_service_key (as_bytes "aws4_request").

Definition constant_time_eq (a b : bytes) : bool :=
  if negb (length a =? length b) then false else (bytes_diff 0 a b =? 0)%Z.

(** The signature of a canonical request. *)
Definition computed_signature (canonical timestamp : string) (parsed : ParsedAuth) (secret_key : string) : string :=
  hex_encode (hmac_sha256 (derive_signing_key secret_key (pa_date parsed) (pa_region parsed))
                (as_bytes (build_string_to_sign canonical timestamp parsed))).

Definition verify_signature (method uri query_string : string) (h : HeaderMap) (parsed : ParsedAuth)
    (secret_key : string) : bool :=
  let canonical := build_canonical_request method uri query_string h parsed in
  let timestamp := default "" (header h "x-amz-date") in
  constant_time_eq (as_bytes (computed_signature canonical timestamp parsed secret_key))
    (as_bytes (pa_signature parsed)).

Definition filtered_query (query_string : string) : string :=
  join_with "&" (filter (fun pair => is_signature_query_pair pair = false) (pairs_of query_string)).

Definition verify_presigned_signature (method uri query_string : string) (h : HeaderMap) (parsed : ParsedAuth)
    (timestamp secret_key : string) : bool :=
  let canonical := canonical_request method uri (filtered_query query_string) h (pa_signed_headers parsed)
                     "UNSIGNED-PAYLOAD" in
  constant_time_eq (as_bytes (computed_signature canonical timestamp parsed secret_key))
    (as_bytes (pa_signature parsed)).
End signature.

(** ** Cutting text *)

Lemma not_in c s : contains_char c s = false <-> c ∉ chars s.
Proof. unfold contains_char. apply bool_decide_eq_false. Qed.
Lemma contains_app c s t : contains_char c (s +:+ t) = contains_char c s || contains_char c t.
Proof.
  unfold contains_char. rewrite chars_app. apply eq_true_iff_eq.
  rewrite orb_true_iff, !bool_decide_eq_true, elem_of_app. done.
Qed.

Lemma cut c x x' r r' : contains_char c x = false -> contains_char c x' = false ->
  x +:+ String c r = x' +:+ String c r' -> x = x' /\ r = r'.
Proof.
  rewrite !not_in. revert x'. induction x as [|a x IH]; intros [|b x'] Hx Hx'; rewrite ?str_app_nil, ?str_app_cons; cbn in *.
  - by intros [= ->].
  - intros [= ->]. rewrite not_elem_of_cons in Hx'. tauto.
  - intros [= ->]. rewrite not_elem_of_cons in Hx. tauto.
  - intros [= -> E]. rewrite not_elem_of_cons in Hx, Hx'. destruct (IH x') as [-> ->]; tauto.
Qed.

Lemma join_with_unsplit l : join_with "/" l = unsplit l.
Proof. induction l as [|s [|s' l] IH]; [done|done|]. cbn [join_with unsplit] in *. by rewrite IH. Qed.

(** Joining pieces free of the separator. *)
Lemma split_join_with c l : l <> [] -> Forall (fun s => contains_char c s = false) l ->
  split_char c (join_with (String c "") l) = l.
Proof.
  intros Hn Hf. induction l as [|s l IH]; [done|]. apply Forall_cons in Hf as [Hs Hf].
  destruct l as [|s' l]; [by apply split_char_no|].
  change (join_with (String c "") (s :: s' :: l)) with (s +:+ String c (join_with (String c "") (s' :: l))).
  by rewrite split_char_app, split_char_no, IH.
Qed.

(** Trimming and joining introduce no character. *)
Lemma trim_start_in c l : c ∈ trim_start l -> c ∈ l.
Proof. induction l as [|a l IH]; cbn; [done|]. case_decide; [|done]. intros Hin. right. by apply IH. Qed.
Lemma trim_without c s : contains_char c s = false -> contains_char c (trim s) = false.
Proof.
  rewrite !not_in. unfold trim. intros Hs Hin. apply Hs. rewrite chars_of_chars, elem_of_rev in Hin.
  apply trim_start_in in Hin. rewrite elem_of_rev in Hin. by apply trim_start_in in Hin.
Qed.
Lemma join_with_without c sep l : contains_char c sep = false -> Forall (fun s => contains_char c s = false) l ->
  contains_char c (join_with sep l) = false.
Proof.
  intros Hsep Hl. induction Hl as [|s l Hs Hl IH]; [done|]. destruct l as [|s' l]; [done|].
  change (join_with sep (s :: s' :: l)) with (s +:+ sep +:+ join_with sep (s' :: l)).
  by rewrite !contains_app, Hs, Hsep, IH.
Qed.
Lemma pieces_without c d s : contains_char c s = false -> Forall (fun w => contains_char c w = false) (split_char d s).
Proof.
  rewrite not_in. induction s as [|a s IH]; cbn; [by constructor|]. rewrite not_elem_of_cons. intros [Ha Hs].
  specialize (IH Hs). case_decide; [by constructor|]. destruct (split_char d s) as [|w ws].
  - constructor; [|constructor]. rewrite not_in. cbn. set_solver.
  - apply Forall_cons in IH as [Hw Hws]. constructor; [|done]. rewrite not_in in Hw |- *. cbn. set_solver.
Qed.
Lemma split_once_head c s w rest : split_once c s = Some (w, rest) -> contains_char c w = false.
Proof.
  rewrite not_in. revert w. induction s as [|a s IH]; intros w; cbn; [done|].
  case_decide; [intros [= <- <-]; cbn; by intros ?%elem_of_nil|].
  destruct (split_once c s) as [[w' r]|]; cbn; [|done]. intros [= <- <-]. cbn. rewrite not_elem_of_cons. split; [done|].
  by apply IH.
Qed.
Lemma splitn_pieces n c d s : contains_char d s = false ->
  Forall (fun w => contains_char d w = false) (splitn n c s) /\
  forall i w, splitn n c s !! i = Some w -> S i < length (splitn n c s) -> contains_char c w = false.
Proof.
  intros Hd. revert s Hd. induction n as [|n IH]; intros s Hd; [split; [constructor|done]|].
  destruct n as [|n]; [split; [by constructor|intros i w Hi Hl; cbn in *; lia]|].
  cbn [splitn]. destruct (split_once c s) as [[w rest]|] eqn:E; [|split; [by constructor|intros i w Hi Hl; cbn in *; lia]].
  pose proof (split_once_app c s w rest E) as ->. change (w +:+ String c rest) with (w +:+ String c "" +:+ rest) in Hd.
  rewrite !contains_app in Hd. apply orb_false_iff in Hd as [Hw [_ Hr]%orb_false_iff].
  destruct (IH rest Hr) as [H1 H2]. split; [by constructor|]. intros [|i] u Hu Hl.
  - injection Hu as <-. by apply split_once_head in E.
  - apply (H2 i); [done|]. by apply Nat.succ_lt_mono in Hl.
Qed.

(** ** The canonical request determines the request *)

Section canonical.
Context `{CratesSpec} `{PercentEncodingSpec}.

Definition no_newline (s : string) : Prop := contains_char "010" s = false.

Lemma encode_without c s : unreserved c = false -> c <> "%"%char -> contains_char c (percent_encode s) = false.
Proof. intros Hc Hp. rewrite not_in. intros [Hu|Hu]%encode_chars; congruence. Qed.

Lemma encode_inj s s' : percent_encode (percent_decode_lossy s) = percent_encode (percent_decode_lossy s') ->
  percent_decode_lossy s = percent_decode_lossy s'.
Proof.
  intros E. rewrite <-(decode_encode (percent_decode_lossy s)), E by apply decode_is_string.
  apply decode_encode, decode_is_string.
Qed.

(** The decoded segments of a path; [""] is [/]. *)
Definition uri_segments (uri : string) : list string :=
  let path := default "/" (head (split_char "?"%char uri)) in
  map percent_decode_lossy (split_char "/"%char (if decide (path = "") then "/" else path)).

Lemma join_encoded_inj (sep : ascii) (l k : list string) :
  unreserved sep = false -> sep <> "%"%char -> l <> [] -> k <> [] ->
  join_with (String sep "") (map percent_encode (map percent_decode_lossy l)) =
  join_with (String sep "") (map percent_encode (map percent_decode_lossy k)) ->
  map percent_decode_lossy l = map percent_decode_lossy k.
Proof.
  intros Hu Hp Hl Hk E. apply (f_equal (split_char sep)) in E.
  assert (Hf : forall l, Forall (fun s => contains_char sep s = false) (map percent_encode (map percent_decode_lossy l))).
  { intros l'. apply Forall_forall. intros x Hx. apply list_elem_of_fmap in Hx as (y & -> & _). by apply encode_without. }
  rewrite !split_join_with in E by (try apply Hf; by destruct l, k).
  clear Hl Hk. revert k E. induction l as [|s l IH]; intros [|s' k]; cbn; [done..|]. intros [= E1 E2].
  f_equal; [by apply encode_inj|by apply IH].
Qed.

Lemma split_char_nonempty c s : split_char c s <> [].
Proof. by destruct (split_char_cons c s) as (w & ws & ->). Qed.

Lemma canonical_uri_inj u u' : canonical_uri u = canonical_uri u' -> uri_segments u = uri_segments u'.
Proof.
  assert (Hc : forall u, canonical_uri u = join_with "/" (map percent_encode (uri_segments u))).
  { intros v. unfold canonical_uri, uri_segments. set (path := default "/" _).
    assert (E : map percent_encode (map percent_decode_lossy (split_char "/"%char "/")) = ["";""]).
    { change (split_char "/"%char "/") with [""; ""]. cbn [map]. by rewrite decode_nil, encode_nil. }
    destruct (decide (path = "" \/ path = "/")) as [D|D]; [|rewrite decide_False by tauto; by rewrite map_map].
    assert ((if decide (path = "") then "/" else path) = "/") as -> by (destruct D as [->| ->]; done).
    by rewrite E. }
  rewrite !Hc. unfold uri_segments. apply (join_encoded_inj "/"); try done; apply split_char_nonempty.
Qed.

(** The pairs of a query string. *)
Definition encode_pair (kv : string * string) : string := percent_encode kv.1 +:+ "=" +:+ percent_encode kv.2.

Lemma query_pairs_strings qs kv : kv ∈ query_pairs qs -> rust_string kv.1 /\ rust_string kv.2.
Proof.
  unfold query_pairs. rewrite (merge_sort_Permutation pair_le), list_elem_of_fmap.
  intros (pair & -> & _). destruct (pair_of pair). split; apply decode_is_string.
Qed.
Lemma encode_pair_inj kv kv' : rust_string kv.1 -> rust_string kv.2 -> rust_string kv'.1 -> rust_string kv'.2 ->
  encode_pair kv = encode_pair kv' -> kv = kv'.
Proof.
  destruct kv as [k v], kv' as [k' v']. unfold encode_pair. cbn. intros R1 R2 R3 R4 E.
  apply (cut "="%char) in E as [E1 E2]; [|by apply encode_without..].
  rewrite <-(decode_encode k), <-(decode_encode v), E1, E2 by done. by rewrite !decode_encode.
Qed.

Lemma canonical_query_inj q q' : canonical_query_string q = canonical_query_string q' -> query_pairs q = query_pairs q'.
Proof.
  assert (Hc : forall q, canonical_query_string q = join_with "&" (map encode_pair (query_pairs q))).
  { intros v. unfold canonical_query_string. case_decide as D; [by subst|]. f_equal. apply map_ext. by intros []. }
  rewrite !Hc. clear Hc. pose proof (query_pairs_strings q) as Hq. pose proof (query_pairs_strings q') as Hq'.
  set (l := query_pairs q) in *. set (k := query_pairs q') in *. clearbody l k.
  assert (Hf : forall l, Forall (fun s => contains_char "&" s = false) (map encode_pair l)).
  { intros m. apply Forall_forall. intros x Hx. apply list_elem_of_fmap in Hx as (y & -> & _).
    unfold encode_pair. rewrite !contains_app, !encode_without by done. done. }
  assert (Hne : forall kv l, join_with "&" (map encode_pair (kv :: l)) <> "").
  { intros kv m E. apply (f_equal (fun s => contains_char "=" s)) in E. revert E. destruct m as [|kv' m]; cbn [map].
    - cbn [join_with]. unfold encode_pair. by rewrite !contains_app, orb_true_r.
    - change (join_with "&" (encode_pair kv :: encode_pair kv' :: map encode_pair m)) with
        (encode_pair kv +:+ "&" +:+ join_with "&" (encode_pair kv' :: map encode_pair m)).
      rewrite contains_app. unfold encode_pair at 1. by rewrite !contains_app, orb_true_r. }
  intros E. destruct l as [|a l], k as [|b k]; [done|by destruct (Hne b k)|by destruct (Hne a l)|].
  apply (f_equal (split_char "&")) in E. rewrite !split_join_with in E by (try apply Hf; done).
  clear Hne Hf. set (l' := a :: l) in *. set (k' := b :: k) in *. clearbody l' k'. clear l k a b.
  revert k' Hq' E. induction l' as [|x l IH]; intros [|y k] Hq' E; [done..|]. injection E as E1 E2. f_equal.
  - destruct (Hq x ltac:(by left)), (Hq' y ltac:(by left)). by apply encode_pair_inj.
  - apply IH; [intros kv Hkv; apply Hq; by right|intros kv Hkv; apply Hq'; by right|done].
Qed.
End canonical.

(** ** What a signature covers *)

Lemma constant_time_eq_same a b : constant_time_eq a b = true <-> a = b.
Proof. exact (Sidecar.constant_time_eq_spec a b). Qed.

Section covered.
Context `{CratesSpec} `{PercentEncodingSpec}.
Context {hex_inj : Inj (=) (=) hex_encode}.

(** The values of a request that its signature depends on. *)
Record SignedRequest : Type := mk_SignedRequest {
  sr_method : string; sr_path : list string; sr_query : list (string * string);
  sr_names : list string; sr_headers : list string; sr_payload : string;
  sr_timestamp : string; sr_date : string; sr_region : string }.
Definition signed_request (method uri query : string) (h : HeaderMap) (p : ParsedAuth)
    (payload timestamp : string) : SignedRequest :=
  mk_SignedRequest method (uri_segments uri) (query_pairs query) (pa_signed_headers p)
    (map (header_value h) (pa_signed_headers p)) payload timestamp (pa_date p) (pa_region p).

(** The text of a header has no line break. *)
Definition clean_headers (h : HeaderMap) : Prop := forall name v, Some v ∈ h name -> no_newline v.

Lemma header_clean h name d : clean_headers h -> no_newline d -> no_newline (default d (header h name)).
Proof.
  intros Hh Hd. unfold header. destruct (h name) as [|[v|] vs] eqn:E; cbn; try done.
  apply (Hh name). rewrite E. by left.
Qed.
Lemma header_value_clean h name : clean_headers h -> no_newline (header_value h name).
Proof.
  intros Hh. apply trim_without, join_with_without; [done|]. apply Forall_forall. intros v Hv.
  apply list_elem_of_omap in Hv as (o & Ho & Eo). cbn in Eo. subst o. by apply (Hh name).
Qed.

Definition header_line (h : HeaderMap) (name : string) : string := name +:+ ":" +:+ header_value h name.
Lemma join_with_cons sep a l : l <> [] -> join_with sep (a :: l) = a +:+ sep +:+ join_with sep l.
Proof. by destruct l. Qed.
Lemma headers_lines h names x y :
  canonical_headers h names +:+ newline +:+ x +:+ newline +:+ y =
  join_with newline (map (header_line h) names ++ [""; x; y]).
Proof.
  induction names as [|n names IH]; [done|]. cbn [canonical_headers foldr map app]. fold (canonical_headers h names).
  rewrite join_with_cons by (by destruct (map (header_line h) names)). rewrite <-IH. unfold header_line.
  by rewrite !str_app_assoc.
Qed.
Lemma canonical_lines m u q h names payload :
  canonical_request m u q h names payload =
  join_with newline ([m; canonical_uri u; canonical_query_string q] ++ map (header_line h) names ++
                     [""; join_with ";" names; payload]).
Proof.
  cbn [app]. rewrite !(join_with_cons _ _ (_ :: _)) by done.
  rewrite join_with_cons by (by destruct (map (header_line h) names)). by rewrite <-headers_lines.
Qed.

Lemma uri_clean u : no_newline (canonical_uri u).
Proof.
  unfold canonical_uri. case_decide; [done|]. apply join_with_without; [done|]. apply Forall_forall.
  intros x Hx. apply list_elem_of_fmap in Hx as (y & -> & _). by apply encode_without.
Qed.
Lemma query_clean q : no_newline (canonical_query_string q).
Proof.
  unfold canonical_query_string. case_decide; [done|]. apply join_with_without; [done|]. apply Forall_forall.
  intros x Hx. apply list_elem_of_fmap in Hx as ([k v] & -> & _). unfold no_newline.
  by rewrite !contains_app, !encode_without by done.
Qed.

(** Names a signature lists: split at semicolons, of a text of one line. *)
Definition clean_names (names : list string) : Prop :=
  names <> [] /\ Forall (fun n => contains_char ";" n = false /\ no_newline n) names.

Lemma lines_clean m u q h names payload : no_newline m -> clean_headers h -> clean_names names -> no_newline payload ->
  Forall no_newline ([m; canonical_uri u; canonical_query_string q] ++ map (header_line h) names ++
                     [""; join_with ";" names; payload]).
Proof.
  intros Hm Hh [_ Hn] Hp. rewrite Forall_app, Forall_app. split; [|split].
  - repeat constructor; auto using uri_clean, query_clean.
  - apply Forall_map. eapply Forall_impl; [exact Hn|]. intros n [_ Hnn]. cbn. unfold header_line, no_newline in *.
    rewrite !contains_app, Hnn. by apply header_value_clean.
  - repeat constructor; [|done]. apply join_with_without; [done|]. eapply Forall_impl; [exact Hn|]. by intros n [_ ?].
Qed.

Lemma str_app_inv_head a b c : a +:+ b = a +:+ c -> b = c.
Proof. induction a as [|x a IH]; rewrite ?str_app_nil, ?str_app_cons; [done|]. intros [=]. auto. Qed.

(** The canonical request determines what it was made of. *)
Lemma canonical_request_inj m u q h names payload m' u' q' h' names' payload' :
  no_newline m -> no_newline m' -> clean_headers h -> clean_headers h' -> clean_names names -> clean_names names' ->
  no_newline payload -> no_newline payload' ->
  canonical_request m u q h names payload = canonical_request m' u' q' h' names' payload' ->
  m = m' /\ uri_segments u = uri_segments u' /\ query_pairs q = query_pairs q' /\ names = names' /\
  map (header_value h) names = map (header_value h') names' /\ payload = payload'.
Proof.
  intros Hm Hm' Hh Hh' Hn Hn' Hp Hp' E. rewrite !canonical_lines in E.
  apply (f_equal (split_char "010")) in E. unfold newline in E.
  rewrite !split_join_with in E by (try done; by apply lines_clean). cbn [app] in E.
  injection E as -> E1 E2 E. apply app_inj_2 in E as [El E]; [|done]. injection E as E3 ->.
  assert (names = names') as <-.
  { apply (f_equal (split_char ";")) in E3. destruct Hn as [Hne Hf], Hn' as [Hne' Hf'].
    rewrite !split_join_with in E3; try done; (eapply Forall_impl; [eassumption|by intros ? [? _]]). }
  split_and!; try done; [by apply canonical_uri_inj|by apply canonical_query_inj|].
  clear -El. induction names as [|n names IH]; [done|]. cbn [map] in *. injection El as E El. f_equal; [|by apply IH].
  apply str_app_inv_head in E. by apply str_app_inv_head in E.
Qed.

(** What a parsed [Authorization] header consists of. *)
Lemma parse_authorization_clean a p : no_newline a -> parse_authorization_header a = Ok p ->
  clean_names (pa_signed_headers p) /\ (no_newline (pa_date p) /\ contains_char "/" (pa_date p) = false) /\
  (no_newline (pa_region p) /\ contains_char "/" (pa_region p) = false).
Proof.
  intros Ha. unfold parse_authorization_header.
  destruct (strip_prefix _ a) as [h|] eqn:Eh; cbn [ok_or mbind result_bind]; [|done].
  assert (Hh : no_newline h).
  { apply strip_prefix_Some in Eh. subst a. unfold no_newline in Ha.
    rewrite contains_app in Ha. by apply orb_false_iff in Ha as [_ ?]. }
  assert (Hparts : forall pre v, find_part pre (map trim (split_char ","%char h)) = Some v -> no_newline v).
  { intros pre v Hv. unfold find_part in Hv. apply last_Some_elem_of, list_elem_of_omap in Hv as (x & Hx & Ex).
    apply list_elem_of_fmap in Hx as (y & -> & Hy). apply strip_prefix_Some in Ex.
    pose proof (proj1 (Forall_forall _ _) (pieces_without _ _ _ Hh) y Hy) as Hy'.
    apply trim_without in Hy'. rewrite Ex, contains_app in Hy'. by apply orb_false_iff in Hy' as [_ ?]. }
  destruct (find_part "Credential=" _) as [cr|] eqn:Ec; cbn [ok_or mbind result_bind]; [|done].
  destruct (find_part "SignedHeaders=" _) as [sh|] eqn:Es; cbn [ok_or mbind result_bind]; [|done].
  destruct (find_part "Signature=" _) as [sg|] eqn:Eg; cbn [ok_or mbind result_bind]; [|done].
  apply Hparts in Ec, Es. unfold parsed_auth.
  destruct (splitn_pieces 5 "/" "010" cr Ec) as [Hp1 Hp2].
  destruct (splitn 5 "/" cr) as [|k [|d [|r [|s5 [|t [|]]]]]]; try done. intros [= <-]. cbn.
  split; [split; [apply split_char_nonempty|]|].
  - apply Forall_forall. intros n Hn. split.
    + by apply split_char_pieces in Hn.
    + exact (proj1 (Forall_forall _ _) (pieces_without _ _ _ Es) n Hn).
  - rewrite !Forall_cons in Hp1. split; (split; [tauto|]); [apply (Hp2 1)|apply (Hp2 2)]; cbn; (done || lia).
Qed.

Lemma scope_inj d r d' r' : contains_char "/" d = false -> contains_char "/" d' = false ->
  contains_char "/" r = false -> contains_char "/" r' = false ->
  d +:+ "/" +:+ r +:+ "/s3/aws4_request" = d' +:+ "/" +:+ r' +:+ "/s3/aws4_request" -> d = d' /\ r = r'.
Proof. intros Hd Hd' Hr Hr' E. apply cut in E as [-> E]; [|done..]. by apply cut in E as [-> _]. Qed.

(** Equal strings to sign have equal timestamps, scopes and hashes. *)
Lemma string_to_sign_inj c t p c' t' p' : no_newline t -> no_newline t' ->
  no_newline (pa_date p) /\ contains_char "/" (pa_date p) = false ->
  no_newline (pa_region p) /\ contains_char "/" (pa_region p) = false ->
  no_newline (pa_date p') /\ contains_char "/" (pa_date p') = false ->
  no_newline (pa_region p') /\ contains_char "/" (pa_region p') = false ->
  build_string_to_sign c t p = build_string_to_sign c' t' p' ->
  t = t' /\ pa_date p = pa_date p' /\ pa_region p = pa_region p' /\
  sha256 (as_bytes c) = sha256 (as_bytes c').
Proof.
  intros Ht Ht' [Hd Hd2] [Hr Hr2] [Hd' Hd2'] [Hr' Hr2'] E. unfold build_string_to_sign in E. cbn [join_with] in E.
  apply str_app_inv_head, str_app_inv_head in E. apply cut in E as [-> E]; [|done..].
  apply cut in E as [Es Eh]; [|unfold no_newline in *; rewrite !contains_app; by rewrite ?Hd, ?Hr, ?Hd', ?Hr'..].
  apply scope_inj in Es as [-> ->]; [|done..]. by apply (inj hex_encode) in Eh.
Qed.

(** C12: a signature stands for one request.  When two requests that the
    [Authorization] header signs pass [verify_signature] with the same
    signature, they have the same method, decoded path segments, decoded query
    parameters, signed header names and values, payload hash, timestamp, date
    and region, or else the two canonical requests are a SHA-256 collision, or
    the two keys and strings to sign are an HMAC collision. *)
Theorem signature_covers_request (m u q a secret m' u' q' a' secret' : string) (h h' : HeaderMap) (p p' : ParsedAuth)
    (Hm : no_newline m) (Hm' : no_newline m') (Hh : clean_headers h) (Hh' : clean_headers h')
    (Ha : no_newline a) (Ha' : no_newline a')
    (Hp : parse_authorization_header a = Ok p) (Hp' : parse_authorization_header a' = Ok p')
    (Hv : verify_signature m u q h p secret = true) (Hv' : verify_signature m' u' q' h' p' secret' = true)
    (Hs : pa_signature p = pa_signature p') :
  let payload h := default "UNSIGNED-PAYLOAD" (header h "x-amz-content-sha256") in
  let timestamp h := default "" (header h "x-amz-date") in
  let canonical := build_canonical_request m u q h p in
  let canonical' := build_canonical_request m' u' q' h' p' in
  let key := derive_signing_key secret (pa_date p) (pa_region p) in
  let key' := derive_signing_key secret' (pa_date p') (pa_region p') in
  let text := build_string_to_sign canonical (timestamp h) p in
  let text' := build_string_to_sign canonical' (timestamp h') p' in
  signed_request m u q h p (payload h) (timestamp h) = signed_request m' u' q' h' p' (payload h') (timestamp h') \/
  (canonical <> canonical' /\ sha256 (as_bytes canonical) = sha256 (as_bytes canonical')) \/
  ((key, text) <> (key', text') /\ hmac_sha256 key (as_bytes text) = hmac_sha256 key' (as_bytes text')).
Proof.
  intros payload timestamp c c' key key' text text'.
  assert (Ek : hmac_sha256 key (as_bytes text) = hmac_sha256 key' (as_bytes text')).
  { apply constant_time_eq_same in Hv, Hv'. rewrite Hs, <-Hv' in Hv. by apply (inj as_bytes), (inj hex_encode) in Hv. }
  destruct (decide ((key, text) = (key', text'))) as [Et|]; [|by right; right].
  apply (f_equal snd) in Et. change (text = text') in Et. destruct (parse_authorization_clean a p Ha Hp) as (Hn & Hd & Hr).
  destruct (parse_authorization_clean a' p' Ha' Hp') as (Hn' & Hd' & Hr').
  apply string_to_sign_inj in Et as (Ets & Ed & Er & Eh); try done; try by apply header_clean.
  destruct (decide (c = c')) as [Ec|]; [left|by right; left].
  apply canonical_request_inj in Ec as (-> & Eu & Eq & En & Ehs & Ep); try done; try by apply header_clean.
  change (payload h = payload h') in Ep. unfold signed_request. by rewrite Eu, Eq, <-En, Ets, Ed, Er, Ep, Ehs, En.
Qed.
End covered.

(** ** An example coder *)

Module ToyPercent.
Import World.ToyWorld.
Fixpoint encode (s : string) : string :=
  match s with
  | "" => ""
  | String c s =>
      if unreserved c then String c (encode s)
      else let n := nat_of_ascii c in
           String "%" (String (hex_digit (n / 16)) (String (hex_digit (n mod 16)) (encode s)))
  end.
Fixpoint decode (s : string) : string :=
  match s with
  | String "%" (String a (String b rest)) =>
      match hex_value a, hex_value b with
      | Some x, Some y => String (ascii_of_nat (16 * x + y)) (decode rest)
      | _, _ => ""
      end
  | String c rest => String c (decode rest)
  | "" => ""
  end.
#[export] Instance toy_percent : PercentEncoding := {|
  percent_decode_utf8 s := if is_utf8 (as_bytes (decode s)) then Some (decode s) else None;
  percent_decode_lossy s := if is_utf8 (as_bytes (decode s)) then decode s else "";
  percent_encode := encode
|}.
Lemma toy_decode_encode s : decode (encode s) = s.
Proof. induction s as [|[[] [] [] [] [] [] [] []] s IH]; [done|..]; exact (f_equal (String _) IH). Qed.
Lemma hex_digit_unreserved n : unreserved (hex_digit n) = true.
Proof. do 17 (destruct n as [|n]; [done|]). done. Qed.
#[export] Instance toy_percent_spec : PercentEncodingSpec.
Proof.
  split.
  - intros s. unfold percent_decode_lossy, toy_percent. destruct (is_utf8 _) eqn:E; [exact E|done].
  - intros s Hs. change ((if is_utf8 (as_bytes (decode (encode s))) then decode (encode s) else "") = s). rewrite toy_decode_encode. unfold rust_string in Hs. by rewrite Hs.
  - done.
  - done.
  - intros s c. change (c ∈ chars (encode s) -> unreserved c = true \/ c = "%"%char).
    induction s as [|a s IH]; cbn [encode chars]; [by intros ?%elem_of_nil|].
    destruct (unreserved a) eqn:E; cbn [chars].
    + intros [->|Hin]%elem_of_cons; auto.
    + intros [->|[->|[->|Hin]%elem_of_cons]%elem_of_cons]%elem_of_cons; auto using hex_digit_unreserved.
  - intros s. change (Forall (fun c => unreserved c = true) (chars s) -> encode s = s). induction s as [|c s IH]; [done|].
    cbn [chars encode]. intros [-> Hs]%Forall_cons. by rewrite IH.
  - intros s Hs. change ((if is_utf8 (as_bytes (decode (encode s))) then Some (decode (encode s)) else None) = Some s).
    rewrite toy_decode_encode. unfold rust_string in Hs. by rewrite Hs.
Qed.
End ToyPercent.

Section toy_request.
Import World.ToyWorld ToyPercent.
#[local] Instance toy_hex_inj : Inj (=) (=) (@hex_encode toy_crates).
Proof. intros a b E. apply (f_equal of_hexadecimal) in E. unfold hex_encode, toy_crates in E. by rewrite !of_hexadecimal_hexadecimal in E. Qed.

Definition example_headers : HeaderMap := fun name =>
  if decide (name = "host") then [Some " s3.example.com"]
  else if decide (name = "x-amz-date") then [Some "20260102T030405Z"] else [].
Definition unsigned_authorization : string :=
  "AWS4-HMAC-SHA256 Credential=key/20260102/us-east-1/s3/aws4_request, SignedHeaders=host;x-amz-date, Signature=".
Definition example_authorization : string :=
  match parse_authorization_header unsigned_authorization with
  | Ok p => unsigned_authorization +:+
            computed_signature (build_canonical_request "GET" "/b/k%20y" "b=2&a=1" example_headers p) "20260102T030405Z" p "secret"
  | Err _ => ""
  end.

Lemma example_headers_clean : clean_headers example_headers.
Proof.
  intros name v. unfold example_headers.
  repeat (case_decide; [intros [[= ->]|[]%elem_of_nil]%elem_of_cons; reflexivity|]). by intros ?%elem_of_nil.
Qed.
Definition example_parsed : ParsedAuth :=
  match parse_authorization_header example_authorization with Ok p => p | Err _ => mk_ParsedAuth "" "" "" [] "" end.

Lemma signature_covers_request_witness :
  verify_signature "GET" "/b/k%20y" "b=2&a=1" example_headers example_parsed "secret" = true /\
  verify_signature "GET" "/b/%6B y?z" "a=1&b=2" example_headers example_parsed "secret" = true /\
  (uri_segments "/b/k%20y" = ["";"b";"k y"] /\ query_pairs "b=2&a=1" = [("a", "1"); ("b", "2")]).
Proof.
  assert (V : verify_signature "GET" "/b/k%20y" "b=2&a=1" example_headers example_parsed "secret" = true) by (vm_compute; reflexivity).
  assert (V' : verify_signature "GET" "/b/%6B y?z" "a=1&b=2" example_headers example_parsed "secret" = true) by (vm_compute; reflexivity).
  split; [exact V|]. split; [exact V'|].
  assert (P : parse_authorization_header example_authorization = Ok example_parsed) by (vm_compute; reflexivity).
  assert (A : no_newline example_authorization) by (vm_compute; reflexivity).
  destruct (signature_covers_request "GET" "/b/k%20y" "b=2&a=1" example_authorization "secret"
    "GET" "/b/%6B y?z" "a=1&b=2" example_authorization "secret" example_headers example_headers
    example_parsed example_parsed eq_refl eq_refl example_headers_clean example_headers_clean A A P P V V' eq_refl)
    as [E|[[E _]|[E _]]].
  - split; [|vm_compute; reflexivity]. apply (f_equal sr_path) in E. refine (eq_trans E _). vm_compute. reflexivity.
  - exfalso. apply E. vm_compute. reflexivity.
  - exfalso. apply E. vm_compute. reflexivity.
Defined.
End toy_request.
