(* ===== verification/RateLimit.v ===== *)
(** * Rate limiting

    [maxio-server/src/rate_limit.rs]: the in-memory limiter behind the login,
    admin and S3 limits.  An [Instant] is a number of nanoseconds; counters are
    32-bit and wrap, as in a release build. *)

From stdpp Require Import base list gmap strings.
From Stdlib Require Import ZArith Lia.
From S2P Require Import Prelude.

Local Open Scope Z_scope.

Definition nanos : Z := 1000000000.
(** [now.duration_since(start).as_secs()]: zero for a [start] in the future. *)
Definition elapsed (now start : Z) : Z := Z.max 0 (now - start) / nanos.

Record Bucket : Type := mk_Bucket { count : Z; window_start : Z }.
Record SlidingWindowLimiter : Type := mk_SlidingWindowLimiter {
  buckets : gmap string Bucket;
  max : Z;
  window_secs : Z;
}.

(** [SlidingWindowLimiter::new]. *)
Definition limiter_new (max window_secs : Z) : SlidingWindowLimiter := mk_SlidingWindowLimiter ∅ max window_secs.
Definition is_enabled (l : SlidingWindowLimiter) : bool := 0 <? max l.

(** [window * 2] and [count += 1] wrap. *)
Definition double (window : Z) : Z := (window * 2) mod 2 ^ 64.
Definition incr (count : Z) : Z := (count + 1) mod 2 ^ 32.

(** The bucket of a caller after one more request at [now]. *)
Definition next_bucket (window now : Z) (b : option Bucket) : Bucket :=
  let b := default (mk_Bucket 0 now) b in
  let b := if window <=? elapsed now (window_start b) then mk_Bucket 0 now else b in
  mk_Bucket (incr (count b)) (window_start b).

Definition verdict (max window now : Z) (b : Bucket) : option Z :=
  if max <? count b then Some (Z.max (Z.max 0 (window - elapsed now (window_start b))) 1) else None.

(** [try_acquire]: the answer is the number of seconds to wait, if any. *)
Definition try_acquire (l : SlidingWindowLimiter) (key : string) (now : Z) : SlidingWindowLimiter * option Z :=
  if negb (is_enabled l) then (l, None)
  else
    let window := window_secs l in
    let map := filter (fun '(_, b) => elapsed now (window_start b) < double window) (buckets l) in
    let b := next_bucket window now (map !! key) in
    (mk_SlidingWindowLimiter (<[key := b]> map) (max l) window, verdict (max l) window now b).

(** ** Logins and the admin API

    The counters of several consoles may be kept in Redis; its answers to the
    commands of a tick, [None] for an error. *)
Class Redis : Type := {
  redis_incr : nat -> string -> option Z;
  redis_ttl : nat -> string -> option Z;
}.
(** The expiry set on the first count is an effect on Redis alone. *)
Definition redis_check_and_increment `{Redis} (n : nat) (ip : string) (max : Z) : option Z :=
  if max =? 0 then None
  else
    let key := "maxio:login:" +:+ ip in
    match redis_incr n key with
    | None => None
    | Some count => if max <? count then Some (Z.max (default 1 (redis_ttl n key)) 1) else None
    end.

Inductive LoginRateLimiter : Type :=
| InMemory (l : SlidingWindowLimiter)
| InRedis (max window_secs : Z).
Definition DEFAULT_MAX : Z := 10.
Definition DEFAULT_WINDOW_SECS : Z := 300.
Definition login_limiter (redis : bool) : LoginRateLimiter :=
  if redis then InRedis DEFAULT_MAX DEFAULT_WINDOW_SECS else InMemory (limiter_new DEFAULT_MAX DEFAULT_WINDOW_SECS).
(** [check_and_increment] at tick [n] and time [now]. *)
Definition check_and_increment `{Redis} (l : LoginRateLimiter) (ip : string) (n : nat) (now : Z)
    : LoginRateLimiter * option Z :=
  match l with
  | InMemory inner => let '(inner, r) := try_acquire inner ip now in (InMemory inner, r)
  | InRedis max _ => (l, redis_check_and_increment n ip max)
  end.

(** A sequence of requests, each a caller and a time, and the answers. *)
Fixpoint serve_all (l : SlidingWindowLimiter) (requests : list (string * Z))
    : SlidingWindowLimiter * list (option Z) :=
  match requests with
  | [] => (l, [])
  | (key, now) :: requests =>
      let '(l, r) := try_acquire l key now in
      let '(l, rs) := serve_all l requests in (l, r :: rs)
  end.

(** How many requests of [key] with times in [a, b) were let through. *)
Fixpoint admitted (key : string) (a b : Z) (requests : list (string * Z)) (answers : list (option Z)) : Z :=
  match requests, answers with
  | (k, t) :: requests, r :: answers =>
      (if bool_decide (k = key) && (a <=? t) && (t <? b) && bool_decide (r = None) then 1 else 0)
      + admitted key a b requests answers
  | _, _ => 0
  end.

(** Times do not go back. *)
Fixpoint in_order (t : Z) (requests : list (string * Z)) : Prop :=
  match requests with
  | [] => True
  | (_, now) :: requests => t <= now /\ in_order now requests
  end.

(** ** Elapsed seconds *)

Lemma elapsed_ge now start w : 0 < w -> w <= elapsed now start <-> w * nanos <= now - start.
Proof.
  intros Hw. unfold elapsed, nanos. split; intros Hl.
  - assert (w * 1000000000 <= Z.max 0 (now - start)); [|lia].
    pose proof (Z.mul_div_le (Z.max 0 (now - start)) 1000000000 ltac:(lia)). nia.
  - apply Z.div_le_lower_bound; lia.
Qed.
Lemma elapsed_nonneg now start : 0 <= elapsed now start.
Proof. unfold elapsed, nanos. apply Z.div_pos; lia. Qed.
Lemma elapsed_lower now start : now - start < (elapsed now start + 1) * nanos.
Proof.
  unfold elapsed, nanos. pose proof (Z.mod_pos_bound (Z.max 0 (now - start)) 1000000000 ltac:(lia)).
  pose proof (Z.div_mod (Z.max 0 (now - start)) 1000000000 ltac:(lia)). lia.
Qed.

(** ** One caller *)

Section caller.
Context (m w : Z).
Hypothesis Hm : 0 < m.
Hypothesis Hw : 0 < w < 2 ^ 63.

Lemma double_window : double w = 2 * w.
Proof. unfold double. rewrite Z.mod_small; lia. Qed.

(** A request is let through when it opens a window or its window is not full. *)
Lemma next_bucket_spec now b :
  match b with
  | Some b0 => if w <=? elapsed now (window_start b0) then next_bucket w now b = mk_Bucket 1 now
               else next_bucket w now b = mk_Bucket (incr (count b0)) (window_start b0)
  | None => next_bucket w now b = mk_Bucket 1 now
  end.
Proof.
  unfold next_bucket. destruct b as [b0|]; cbn [default from_option id].
  - by destruct (w <=? elapsed now (window_start b0)).
  - cbn [window_start]. by destruct (w <=? elapsed now now).
Qed.

Lemma acquire_eq l key now : max l = m -> window_secs l = w ->
  exists map, map = filter (fun '(_, b) => elapsed now (window_start b) < 2 * w) (buckets l) /\
  try_acquire l key now =
    (mk_SlidingWindowLimiter (<[key := next_bucket w now (map !! key)]> map) m w,
     verdict m w now (next_bucket w now (map !! key))).
Proof.
  intros E1 E2. eexists. split; [done|]. unfold try_acquire, is_enabled.
  by rewrite E1, E2, (proj2 (Z.ltb_lt 0 m) Hm), <-double_window.
Qed.

Lemma filter_lookup_window (bs : gmap string Bucket) now k :
  filter (fun '(_, b) => elapsed now (window_start b) < 2 * w) bs !! k =
  match bs !! k with
  | Some b => if decide (elapsed now (window_start b) < 2 * w) then Some b else None
  | None => None
  end.
Proof.
  destruct (bs !! k) as [b|] eqn:E.
  - case_decide as D; [by apply map_lookup_filter_Some|]. apply map_lookup_filter_None. right.
    intros b' Hb'. rewrite E in Hb'. injection Hb' as <-. done.
  - apply map_lookup_filter_None. by left.
Qed.

(** What is known of the caller's bucket when [n] requests of the window that
    starts at [a] were let through, the last request being at [t], and no more
    than [calls] were served. *)
Definition fits (a t n calls : Z) (b : option Bucket) : Prop :=
  0 <= n <= 2 * m /\ (t < a -> n = 0) /\
  match b with
  | None => n <= m \/ a + w * nanos <= t
  | Some b => 0 <= count b <= calls /\ window_start b <= t /\
      (window_start b < a -> n <= Z.min (count b) m) /\
      (window_start b < a + w * nanos -> n <= m + Z.min (count b) m)
  end.

(** Discarding a stale bucket. *)
Lemma fits_discard a t now n calls b :
  t <= now -> fits a t n calls (Some b) -> 2 * w <= elapsed now (window_start b) -> fits a now n calls None.
Proof.
  intros Ht (Hn & Hz & Hc & Hs & H1 & H2) He%elapsed_ge; [|lia]. split_and!; [lia..|].
  destruct (Z.lt_ge_cases (window_start b) a); [left; specialize (H1 ltac:(done)); lia|right].
  unfold nanos in *. lia.
Qed.
Lemma fits_later a t now n calls b : t <= now -> fits a t n calls b -> fits a now n calls b.
Proof.
  intros Ht (Hn & Hz & Hb). split_and!; [lia..|]. destruct b as [b|]; [|lia].
  destruct Hb as (? & ? & ? & ?). split_and!; done || lia.
Qed.

(** A bucket as the next request of any caller finds it. *)
Definition kept (now : Z) (b : option Bucket) : option Bucket :=
  match b with
  | Some b => if decide (elapsed now (window_start b) < 2 * w) then Some b else None
  | None => None
  end.
Lemma fits_kept a t now n calls b : t <= now -> fits a t n calls b -> fits a now n calls (kept now b).
Proof.
  intros Ht Hf. destruct b as [b|]; cbn [kept]; [|by eapply fits_later].
  case_decide; [by eapply fits_later|]. eapply fits_discard; [exact Ht|exact Hf|lia].
Qed.

(** One more request of the caller. *)
Lemma fits_request a now n calls b :
  0 <= calls < 2 ^ 32 - 1 -> fits a now n calls b ->
  let b' := next_bucket w now b in
  fits a now (n + if (a <=? now) && (now <? a + w * nanos) && bool_decide (verdict m w now b' = None) then 1 else 0)
    (calls + 1) (Some b').
Proof.
  intros Hcalls (Hn & Hz & Hb). cbn zeta. pose proof (next_bucket_spec now b) as Hnext. unfold nanos in *.
  assert (Hv : forall b', verdict m w now b' = None <-> count b' <= m).
  { intros b'. unfold verdict. destruct (Z.ltb_spec m (count b')); split; done || lia. }
  assert (Hfresh : next_bucket w now b = mk_Bucket 1 now ->
    (forall b0, b = Some b0 -> w * 1000000000 <= now - window_start b0) ->
    fits a now (n + if (a <=? now) && (now <? a + w * 1000000000) && bool_decide (verdict m w now (next_bucket w now b) = None)
                    then 1 else 0) (calls + 1) (Some (next_bucket w now b))).
  { intros -> Hold. rewrite bool_decide_eq_true_2, andb_true_r by (apply Hv; cbn; lia).
    assert (Hin : a <= now < a + w * 1000000000 -> n <= m).
    { intros Ha. destruct b as [b0|]; [|lia]. destruct Hb as (_ & _ & H1 & _). specialize (Hold b0 eq_refl).
      specialize (H1 ltac:(lia)). lia. }
    unfold fits, nanos. cbn [count window_start].
    destruct (Z.leb_spec a now), (Z.ltb_spec now (a + w * 1000000000)); cbn [andb]; split_and!; lia. }
  destruct b as [b0|]; [|by apply Hfresh].
  destruct (w <=? elapsed now (window_start b0)) eqn:E.
  - apply Hfresh; [done|]. intros b1 [= <-]. apply Z.leb_le, elapsed_ge in E; unfold nanos in *; lia.
  - clear Hfresh. rewrite Hnext. destruct Hb as (Hc & Hs & H1 & H2). unfold incr in *.
    rewrite (Z.mod_small (count b0 + 1)) by lia. unfold fits, nanos. cbn [count window_start].
    destruct (Z.leb_spec a now), (Z.ltb_spec now (a + w * 1000000000)); cbn [andb]; [|split_and!; lia..].
    case_bool_decide as D; rewrite Hv in D; cbn [count] in D; split_and!; lia.
Qed.
End caller.

(** ** Sequences of requests *)

(** The time of the last request. *)
Fixpoint last_time (t : Z) (requests : list (string * Z)) : Z :=
  match requests with [] => t | (_, now) :: requests => last_time now requests end.
Lemma in_order_app t r1 r2 : in_order t (r1 ++ r2) <-> in_order t r1 /\ in_order (last_time t r1) r2.
Proof. revert t. induction r1 as [|[k now] r1 IH]; intros t; cbn; [tauto|]. rewrite IH. tauto. Qed.

Section requests.
Context (m w : Z) (key : string).
Hypothesis Hm : 0 < m.
Hypothesis Hw : 0 < w < 2 ^ 63.

Definition mine (k : string) (now : Z) (l : SlidingWindowLimiter) : Prop :=
  forall b, buckets l !! k = Some b -> window_start b <= now.

(** What one request does to the limiter, seen by one caller. *)
Lemma acquire_configured l k now : max l = m -> window_secs l = w ->
  max (try_acquire l k now).1 = m /\ window_secs (try_acquire l k now).1 = w.
Proof. intros E1 E2. by destruct (acquire_eq m w Hm Hw l k now E1 E2) as (map & _ & ->). Qed.
Lemma acquire_self l now : max l = m -> window_secs l = w ->
  let b := next_bucket w now (kept w now (buckets l !! key)) in
  buckets (try_acquire l key now).1 !! key = Some b /\ (try_acquire l key now).2 = verdict m w now b.
Proof.
  intros E1 E2. destruct (acquire_eq m w Hm Hw l key now E1 E2) as (map & Emap & ->). cbn [fst snd buckets].
  rewrite lookup_insert_eq, Emap, filter_lookup_window. done.
Qed.
Lemma acquire_other l k now : max l = m -> window_secs l = w -> k <> key ->
  buckets (try_acquire l k now).1 !! key = kept w now (buckets l !! key).
Proof.
  intros E1 E2 Hk. destruct (acquire_eq m w Hm Hw l k now E1 E2) as (map & Emap & ->). cbn [fst buckets].
  rewrite lookup_insert_ne by done. by rewrite Emap, filter_lookup_window.
Qed.

Lemma next_bucket_start now b : (forall b0, b = Some b0 -> window_start b0 <= now) -> window_start (next_bucket w now b) <= now.
Proof.
  intros Hb. pose proof (next_bucket_spec w now b) as Hn. destruct b as [b0|]; [|rewrite Hn; cbn; lia].
  destruct (w <=? elapsed now (window_start b0)); rewrite Hn; cbn; [lia|by apply Hb].
Qed.
Lemma kept_some now b b0 : kept w now b = Some b0 -> b = Some b0.
Proof. destruct b; cbn; [|done]. by case_decide. Qed.

Lemma acquire_started l k now t : max l = m -> window_secs l = w -> t <= now ->
  mine key t l -> mine key now (try_acquire l k now).1.
Proof.
  intros E1 E2 Ht Hl b Hb. destruct (decide (k = key)) as [->|Hk].
  - rewrite (proj1 (acquire_self l now E1 E2)) in Hb. injection Hb as <-. apply next_bucket_start.
    intros b0 H0%kept_some%Hl. lia.
  - rewrite (acquire_other l k now E1 E2 Hk) in Hb. apply kept_some in Hb. apply Hl in Hb. lia.
Qed.

Lemma serve_cons l k now requests :
  serve_all l ((k, now) :: requests) =
  ((serve_all (try_acquire l k now).1 requests).1,
   (try_acquire l k now).2 :: (serve_all (try_acquire l k now).1 requests).2).
Proof. cbn [serve_all]. destruct (try_acquire l k now) as [l1 r]. cbn. by destruct (serve_all l1 requests). Qed.

Lemma serve_started requests : forall l t, max l = m -> window_secs l = w -> in_order t requests -> mine key t l ->
  let l' := (serve_all l requests).1 in max l' = m /\ window_secs l' = w /\ mine key (last_time t requests) l'.
Proof.
  induction requests as [|[k now] requests IH]; intros l t E1 E2 Ho Hl; [done|]. rewrite serve_cons.
  destruct Ho as [Ht Ho]. destruct (acquire_configured l k now E1 E2) as [F1 F2].
  by apply IH; [..|eapply acquire_started].
Qed.

(** Requests of other callers leave the caller's bucket or drop it when stale. *)
Lemma serve_others requests : forall l, max l = m -> window_secs l = w -> Forall (fun q => q.1 <> key) requests ->
  let l' := (serve_all l requests).1 in max l' = m /\ window_secs l' = w /\
  (buckets l' !! key = buckets l !! key \/ buckets l' !! key = None).
Proof.
  induction requests as [|[k now] requests IH]; intros l E1 E2 Ho; [by split_and!; [..|left]|]. rewrite serve_cons.
  apply Forall_cons in Ho as [Hk Ho]. destruct (acquire_configured l k now E1 E2) as [F1 F2].
  destruct (IH _ F1 F2 Ho) as (G1 & G2 & G3). split_and!; [done..|]. rewrite (acquire_other l k now E1 E2 Hk) in G3.
  destruct (buckets l !! key) as [b|]; cbn [kept] in G3; [|tauto]. case_decide; tauto.
Qed.

Lemma serve_fits a requests : forall l t n calls, max l = m -> window_secs l = w -> in_order t requests ->
  0 <= calls -> calls + Z.of_nat (length requests) < 2 ^ 32 -> fits m w a t n calls (buckets l !! key) ->
  n + admitted key a (a + w * nanos) requests (serve_all l requests).2 <= 2 * m.
Proof.
  induction requests as [|[k now] requests IH]; intros l t n calls E1 E2 Ho Hc Hlen Hf.
  { cbn. destruct Hf. lia. }
  rewrite serve_cons. destruct Ho as [Ht Ho]. cbn [snd admitted length] in *.
  destruct (acquire_configured l k now E1 E2) as [F1 F2].
  pose proof (fits_kept m w Hm Hw a t now n calls _ Ht Hf) as Hk. destruct (decide (k = key)) as [->|Hne].
  - destruct (acquire_self l now E1 E2) as [Hb ->]. rewrite Z.add_assoc. apply (IH _ now _ (calls + 1) F1 F2 Ho); [lia..|].
    rewrite Hb, bool_decide_eq_true_2, andb_true_l by done. by apply (fits_request m w Hm Hw a now n calls); [lia|].
  - rewrite bool_decide_eq_false_2 by done. apply (IH _ now n calls F1 F2 Ho); [lia..|].
    by rewrite (acquire_other l k now E1 E2 Hne).
Qed.
End requests.

(** C39: whatever requests are made, a caller has at most twice the limit let
    through in any interval as long as the window (counting fewer than 2^32
    requests in all, the counter's width). *)
Theorem twice_the_limit_at_most m w key a requests :
  0 < m -> 0 < w < 2 ^ 63 -> in_order 0 requests -> Z.of_nat (length requests) < 2 ^ 32 ->
  admitted key a (a + w * nanos) requests (serve_all (limiter_new m w) requests).2 <= 2 * m.
Proof.
  intros Hm Hw Ho Hlen. apply (serve_fits m w key Hm Hw a requests (limiter_new m w) 0 0 0); [done..|lia|].
  cbn [buckets limiter_new]. rewrite lookup_empty. split_and!; [lia..|left; lia].
Qed.

(** C38: a refused caller that waits the number of seconds it was told to is let
    through, whatever other callers have asked for in between. *)
Theorem retry_after_is_honoured m w key before t r between now :
  0 < m -> 0 < w < 2 ^ 63 -> in_order 0 (before ++ [(key, t)]) ->
  let refused := try_acquire (serve_all (limiter_new m w) before).1 key t in
  refused.2 = Some r -> Forall (fun q => q.1 <> key) between -> t + r * nanos <= now ->
  (try_acquire (serve_all refused.1 between).1 key now).2 = None.
Proof.
  intros Hm Hw [Ho Ht]%in_order_app. cbn zeta. intros Hr Hb Hnow. destruct Ht as [Ht _].
  destruct (serve_started m w key Hm Hw before (limiter_new m w) 0) as (E1 & E2 & E3); [done..|].
  revert Hr. set (l := (serve_all _ before).1) in *. intros Hr.
  pose proof (acquire_started m w key Hm Hw l key t _ E1 E2 Ht E3) as Hs.
  destruct (acquire_configured m w Hm Hw l key t E1 E2) as [F1 F2].
  destruct (acquire_self m w key Hm Hw l t E1 E2) as [Hbk Hv]. rewrite Hr in Hv. apply Hs in Hbk as Hstart.
  destruct (serve_others m w key Hm Hw between _ F1 F2 Hb) as (G1 & G2 & G3).
  rewrite (proj2 (acquire_self m w key Hm Hw _ now G1 G2)). set (b := next_bucket w t _) in *. clearbody b.
  assert (Hone : forall b', b' = mk_Bucket 1 now -> verdict m w now b' = None).
  { intros b' ->. unfold verdict. cbn [count]. by destruct (Z.ltb_spec m 1); [lia|]. }
  apply Hone. rewrite Hbk in G3. destruct G3 as [->| ->]; [|apply (next_bucket_spec w now None)]. cbn [kept].
  case_decide; [|apply (next_bucket_spec w now None)]. pose proof (next_bucket_spec w now (Some b)) as Hn. cbn beta iota in Hn.
  destruct (Z.leb_spec w (elapsed now (window_start b))) as [|Hlt]; [exact Hn|exfalso].
  unfold verdict in Hv. destruct (m <? count b); [injection Hv as ->|done].
  apply (Zlt_not_le _ _ Hlt), elapsed_ge; [lia|]. clear Hn Hlt.
  assert (elapsed t (window_start b) * nanos <= t - window_start b); [|unfold nanos in *; lia].
  unfold elapsed, nanos. pose proof (Z.mul_div_le (Z.max 0 (t - window_start b)) 1000000000 ltac:(lia)). lia.
Qed.

(** A caller allowed three requests a minute: two callers, five requests. *)
Definition some_requests : list (string * Z) :=
  [("a", 0); ("b", 5); ("a", 1 * nanos); ("a", 2 * nanos); ("a", 3 * nanos)]%string.

Lemma twice_the_limit_at_most_witness :
  in_order 0 some_requests /\ admitted "a" 0 (0 + 60 * nanos) some_requests (serve_all (limiter_new 3 60) some_requests).2 <= 2 * 3.
Proof. split; [vm_compute; repeat split; discriminate|]. apply (twice_the_limit_at_most 3 60); [lia..| |]; vm_compute; [repeat split; discriminate|reflexivity]. Defined.

Lemma retry_after_is_honoured_witness :
  let refused := try_acquire (serve_all (limiter_new 3 60) (take 4 some_requests)).1 "a" (3 * nanos) in
  refused.2 = Some 57 /\
  (try_acquire (serve_all refused.1 [("b", 10 * nanos)]).1 "a" (60 * nanos)).2 = None.
Proof.
  split; [reflexivity|]. apply (retry_after_is_honoured 3 60 "a" (take 4 some_requests) (3 * nanos) 57);
    [lia..|vm_compute; repeat split; discriminate|reflexivity|constructor; [discriminate|constructor]|vm_compute; discriminate].
Defined.

(** The limiter is documented as a sliding window, and one window long; with a
    limit of two requests a minute, three are let through within two seconds. *)
Theorem window_does_not_slide :
  (serve_all (limiter_new 2 60) [("a", 0); ("a", 59 * nanos); ("a", 60 * nanos); ("a", 61 * nanos)]).2
  = [None; None; None; None].
Proof. reflexivity. Qed.

(** The counter wraps: the caller that has been refused 2^32 - 3 times in one
    window is let through again. *)
Theorem refused_caller_wraps_around start now :
  elapsed now start < 60 ->
  let l := mk_SlidingWindowLimiter {[ "a" := mk_Bucket (2 ^ 32 - 1) start ]} 3 60 in
  (try_acquire l "a" now).2 = None.
Proof.
  intros He. cbn zeta. set (l := mk_SlidingWindowLimiter _ _ _).
  rewrite (proj2 (acquire_self 3 60 "a" eq_refl (conj eq_refl eq_refl) l now eq_refl eq_refl)).
  cbn [l buckets]. rewrite lookup_singleton_eq. cbn [kept window_start].
  pose proof (next_bucket_spec 60 now (Some (mk_Bucket (2 ^ 32 - 1) start))) as Hn. cbn in Hn.
  case_decide; [|unfold verdict; rewrite (next_bucket_spec 60 now None); reflexivity].
  destruct (Z.leb_spec 60 (elapsed now start)); [lia|]. rewrite Hn. reflexivity.
Qed.
