(* ===== verification/Tenant.v ===== *)
(** * Credentials and tenants

    [auth/credentials.rs]: the access keys of the server, those of its
    configuration and those of the credentials file.  [auth/tenant.rs]: the
    tenant of a key and of a bucket, and who may reach a bucket.  Parsing the
    credentials file is a parameter. *)

From stdpp Require Import base list gmap numbers strings pretty.
From Stdlib Require Import ZArith Lia Ascii Strings.Byte.
From S2P Require Import Prelude IpAddr Glob Policy Bytes Reader Utf8 Types Quota MetadataIndex FileSystem Paths World Keyring Storage Sidecar Listing ApiError ListApi.

Local Open Scope nat_scope.

(** The part of [Config] the gates and the handlers read. *)
Record Config : Type := mk_Config {
  cf_data_dir : string; cf_access_key : string; cf_secret_key : string; cf_region : string; cf_default_tenant : string;
  cf_metrics_enabled : bool; cf_allow_external_webhooks : bool }.

(** ** Credentials *)

Record CredentialEntry : Type := mk_CredentialEntry {
  ce_access_key : string; ce_secret_key : string; ce_enabled : bool; ce_description : option string;
  ce_tenant_id : option string; ce_jwt_groups : list string; ce_jwt_roles : list string }.
Abbreviation CredentialStore := (gmap string CredentialEntry).

Definition DEFAULT_TENANT : string := "default".
Definition configured_default_tenant (config : Config) : string :=
  let trimmed := trim (cf_default_tenant config) in
  if decide (trimmed = "") then DEFAULT_TENANT else trimmed.

(** [tenant_id.as_deref().filter(|s| !s.is_empty())]. *)
Definition non_empty (t : option string) : option string :=
  s ← t; if decide (s = "") then None else Some s.
Definition assign_default_tenant (entry : CredentialEntry) (default_tenant : string) : CredentialEntry :=
  match non_empty (ce_tenant_id entry) with
  | Some _ => entry
  | None => mk_CredentialEntry (ce_access_key entry) (ce_secret_key entry) (ce_enabled entry) (ce_description entry)
              (Some default_tenant) (ce_jwt_groups entry) (ce_jwt_roles entry)
  end.

Definition bootstrap_entry (config : Config) : CredentialEntry :=
  mk_CredentialEntry (cf_access_key config) (cf_secret_key config) true (Some "server bootstrap credential") None [] [].

(** An entry of the file: a later one replaces an earlier one of the same key,
    the server's own included. *)
Definition load_entry (default_tenant : string) (store : CredentialStore) (entry : CredentialEntry) : CredentialStore :=
  if decide (ce_access_key entry = "" \/ ce_secret_key entry = "") then store
  else <[ce_access_key entry := assign_default_tenant entry default_tenant]> store.

Section load.
Context `{Serde} (parse_credentials : string -> result string (list CredentialEntry)).

(** [CredentialStore::load]: a file that cannot be read is passed over. *)
Definition load_credentials (t : tree) (config : Config) : result string CredentialStore :=
  let default_tenant := configured_default_tenant config in
  let store : CredentialStore := {[ cf_access_key config := assign_default_tenant (bootstrap_entry config) default_tenant ]} in
  let path := cf_data_dir config +:+ "/.maxio-credentials.json" in
  match fs_read t path with
  | Err _ => Ok store
  | Ok c =>
      match from_utf8 (file_bytes c) with
      | None => Ok store
      | Some raw =>
          match parse_credentials raw with
          | Err e => Err ("parse " +:+ path +:+ ": " +:+ e)
          | Ok entries => Ok (fold_left (load_entry default_tenant) entries store)
          end
      end
  end.
End load.

(** [CredentialStore::lookup], [list_access_keys], [len], [is_empty]. *)
Definition lookup_credential (store : CredentialStore) (access_key : string) : option CredentialEntry :=
  c ← store !! access_key; if ce_enabled c then Some c else None.
Definition enabled_entries (store : CredentialStore) : list CredentialEntry :=
  filter (fun c => ce_enabled c = true) (map snd (map_to_list store)).
Definition list_access_keys (store : CredentialStore) : list string := map ce_access_key (enabled_entries store).
Definition store_len (store : CredentialStore) : nat := length (enabled_entries store).
Definition store_is_empty (store : CredentialStore) : bool := store_len store =? 0.

(** ** Tenants *)

Definition effective_tenant_id (tenant_id : option string) (dflt : string) : string := default dflt (non_empty tenant_id).
Definition credential_tenant_id (cred : CredentialEntry) (dflt : string) : string := effective_tenant_id (ce_tenant_id cred) dflt.
Definition bucket_tenant_id (meta : BucketMeta) (dflt : string) : string := effective_tenant_id (bm_tenant_id meta) dflt.

Definition is_global_admin (access_key : string) (config : Config) : bool :=
  bool_decide (access_key = "admin:bearer") || bool_decide (access_key = cf_access_key config).

Definition bucket_access_allowed (meta : BucketMeta) (access_key : string) (cred : option CredentialEntry)
    (config : Config) : bool :=
  if is_global_admin access_key config then true
  else
    let dflt := configured_default_tenant config in
    match cred with
    | None => false
    | Some cred => bool_decide (bucket_tenant_id meta dflt = credential_tenant_id cred dflt)
    end.

Section access.
Context `{Serde} (st : FilesystemStorage) (config : Config) (credentials : CredentialStore).

Definition find_bucket_meta (bucket_name : string) : Api (option BucketMeta) := fun w =>
  match head_bucket st bucket_name w with
  | (w, Ok false) => (w, Ok None)
  | (w, Err (InvalidKey _)) => (w, Ok None)
  | (w, Err e) => (w, Err internal)
  | (w, Ok true) =>
      match get_bucket_meta st bucket_name w with
      | (w, Ok meta) => (w, Ok (Some meta))
      | (w, Err (NotFoundError _)) | (w, Err (InvalidKey _)) => (w, Ok None)
      | (w, Err _) => (w, Err internal)
      end
  end.

Definition ensure_bucket_access (access_key bucket_name : string) : Api BucketMeta :=
  let cred := lookup_credential credentials access_key in
  found ← find_bucket_meta bucket_name;
  match found with
  | None => fail (no_such_bucket bucket_name)
  | Some meta =>
      if bucket_access_allowed meta access_key cred config then mret meta
      else fail (access_denied "Access Denied")
  end.

Definition ensure_bucket_access_optional (access_key : option string) (bucket_name : string) : Api unit :=
  match access_key with
  | Some access_key => _ ← ensure_bucket_access access_key bucket_name; mret tt
  | None => mret tt
  end.

Definition filter_buckets_for_access (buckets : list BucketMeta) (access_key : string) : list BucketMeta :=
  if is_global_admin access_key config then buckets
  else
    let dflt := configured_default_tenant config in
    let cred_tenant := match lookup_credential credentials access_key with
                       | Some c => credential_tenant_id c dflt | None => dflt end in
    filter (fun b => bucket_tenant_id b dflt = cred_tenant) buckets.

Definition tenant_for_new_bucket (access_key : string) : string :=
  let dflt := configured_default_tenant config in
  if is_global_admin access_key config then dflt
  else match lookup_credential credentials access_key with
       | Some c => credential_tenant_id c dflt | None => dflt end.
End access.

(** ** The credential store *)

(** Entries are kept under their own key, with a tenant. *)
Definition wf_store (store : CredentialStore) : Prop := forall key c, store !! key = Some c ->
  ce_access_key c = key /\ exists t, non_empty (ce_tenant_id c) = Some t.

Lemma configured_default_nonempty config : configured_default_tenant config <> "".
Proof. unfold configured_default_tenant. case_decide; [done|by intros E]. Qed.
Lemma assign_default_access_key entry t : ce_access_key (assign_default_tenant entry t) = ce_access_key entry.
Proof. unfold assign_default_tenant. by destruct (non_empty _). Qed.
Lemma assign_default_tenant_some entry t : t <> "" -> exists t', non_empty (ce_tenant_id (assign_default_tenant entry t)) = Some t'.
Proof.
  intros Ht. unfold assign_default_tenant. destruct (non_empty (ce_tenant_id entry)) eqn:E; [by eauto|].
  exists t. cbn. by rewrite decide_False.
Qed.
Lemma load_entry_wf store entry t : t <> "" -> wf_store store -> wf_store (load_entry t store entry).
Proof.
  intros Ht Hs. unfold load_entry. case_decide; [done|]. intros key c.
  rewrite lookup_insert_Some. intros [[<- <-]|[_ Hc]]; [|by apply Hs].
  split; [apply assign_default_access_key|by apply assign_default_tenant_some].
Qed.

(** Whatever the credentials file holds, every entry of the loaded store is
    kept under its own key with a tenant. *)
Lemma load_credentials_wf `{Serde} parse t config store :
  load_credentials parse t config = Ok store -> wf_store store.
Proof.
  unfold load_credentials. set (d := configured_default_tenant config).
  assert (Hd : d <> "") by apply configured_default_nonempty.
  assert (H1 : wf_store {[ cf_access_key config := assign_default_tenant (bootstrap_entry config) d ]}).
  { intros key c [<- <-]%lookup_singleton_Some. split; [by rewrite assign_default_access_key|by apply assign_default_tenant_some]. }
  revert H1. generalize ({[ cf_access_key config := assign_default_tenant (bootstrap_entry config) d ]} : CredentialStore).
  intros s Hs. destruct (fs_read _ _) as [c|e]; [|by intros [= <-]].
  destruct (from_utf8 _) as [raw|]; [|by intros [= <-]]. destruct (parse raw) as [entries|]; [|done].
  intros [= <-]. revert s Hs. induction entries as [|e l IH]; intros s Hs; [done|]. by apply IH, load_entry_wf.
Qed.

(** Only enabled entries authenticate. *)
Lemma lookup_credential_Some store key c :
  lookup_credential store key = Some c <-> store !! key = Some c /\ ce_enabled c = true.
Proof.
  unfold lookup_credential. destruct (store !! key) as [c'|]; cbn; [|naive_solver].
  destruct (ce_enabled c') eqn:E; naive_solver congruence.
Qed.

(** ** Reaching a bucket *)

Section reaching.
Context `{Serde} (st : FilesystemStorage) (config : Config) (credentials : CredentialStore).

(** A principal reaches the buckets of its own tenant, or every bucket if it is
    the administrator. *)
Lemma bucket_access_allowed_spec meta key cred :
  bucket_access_allowed meta key cred config = true <->
  is_global_admin key config = true \/
  exists c, cred = Some c /\ bucket_tenant_id meta (configured_default_tenant config) =
                             credential_tenant_id c (configured_default_tenant config).
Proof.
  unfold bucket_access_allowed. destruct (is_global_admin key config); [naive_solver|].
  destruct cred as [c|]; [|naive_solver]. rewrite bool_decide_eq_true. naive_solver.
Qed.

(** Steps that only read. *)
Definition reads_only {E A} (m : M E A) : Prop := forall w, fst (m w) = w.
Lemma reads_bind {E A B} (m : M E A) (f : A -> M E B) :
  reads_only m -> (forall a, reads_only (f a)) -> reads_only (m ≫= f).
Proof.
  intros Hm Hf w. unfold mbind, M_bind. specialize (Hm w). destruct (m w) as [w1 [a|e]]; cbn in *; subst; [apply Hf|done].
Qed.
Lemma read_bucket_meta_reads b : reads_only (read_bucket_meta st b).
Proof. apply reads_bind; [done|]. intros _ w. unfold read_json. by destruct (fs_read _ _). Qed.
Lemma head_bucket_reads b : reads_only (head_bucket st b).
Proof. by apply reads_bind. Qed.
Lemma find_bucket_meta_reads b : reads_only (find_bucket_meta st b).
Proof.
  intros w. unfold find_bucket_meta. pose proof (head_bucket_reads b w) as Hh.
  destruct (head_bucket st b w) as [w1 [[]|e]]; cbn in Hh; subst w1; [|done|by destruct e].
  pose proof (read_bucket_meta_reads b w) as Hg. unfold get_bucket_meta.
  destruct (read_bucket_meta st b w) as [w1 [m|e]]; cbn in Hg; subst w1; [done|by destruct e].
Qed.

(** What [ensure_bucket_access] lets through. *)
Lemma ensure_bucket_access_ok key b w w' meta :
  ensure_bucket_access st config credentials key b w = (w', Ok meta) ->
  w' = w /\ get_bucket_meta st b w = (w, Ok meta) /\
  bucket_access_allowed meta key (lookup_credential credentials key) config = true.
Proof.
  unfold ensure_bucket_access. rewrite M_bind_ok. intros (found & w1 & Ef & Hk).
  pose proof (find_bucket_meta_reads b w) as Hw. rewrite Ef in Hw. cbn in Hw. subst w1.
  destruct found as [m|]; [|done]. destruct (bucket_access_allowed _ _ _ _) eqn:E; [|done].
  injection Hk as <- <-. split_and!; [done| |done]. unfold find_bucket_meta in Ef.
  pose proof (head_bucket_reads b w) as Hh.
  destruct (head_bucket st b w) as [w1 [[]|e]]; cbn in Hh; subst w1; [|done|by destruct e].
  pose proof (read_bucket_meta_reads b w) as Hg. unfold get_bucket_meta in *.
  destruct (read_bucket_meta st b w) as [w1 [m'|e]]; cbn in Hg; subst w1; [congruence|by destruct e].
Qed.
End reaching.
