(* ===== verification/Gate.v ===== *)
(** * The gates in front of the handlers

    [auth/middleware.rs], [auth/tenant_middleware.rs], [auth/bucket_policy.rs]
    and [api/request_context.rs]: signature, public buckets, tenants and bucket
    policies.  A gate runs on the state of the server: the storage and the two
    S3 rate limiters.  The handler behind [auth_middleware] is its argument
    [next].  The access log and the audit record, written after the handler,
    are left out. *)

From stdpp Require Import base list gmap numbers strings pretty.
From Stdlib Require Import ZArith Lia Ascii Strings.Byte.
From S2P Require Import Prelude IpAddr Glob Policy Bytes Reader Utf8 Types Quota Crypto MetadataIndex FileSystem Paths World Keyring Storage BucketConfig Sidecar Listing ApiError ListApi Http Signature RateLimit Tenant.

Local Open Scope nat_scope.

(** What the process reads besides [Environment]: [Instant::now()] and
    [Utc::now().naive_utc()] at a tick, in nanoseconds;
    [NaiveDateTime::parse_from_str(s, "%Y%m%dT%H%M%SZ")], in nanoseconds since
    the epoch; and the order in which a [HashMap] is iterated. *)
Class Process : Type := {
  instant : nat -> Z;
  utc_now : nat -> Z;
  parse_amz_date : string -> option Z;
  hash_order : params -> list (string * string);
}.

Record AppState : Type := mk_AppState {
  as_storage : FilesystemStorage; as_config : Config; as_trusted_proxies : TrustedProxies;
  as_credentials : CredentialStore; as_server_host : string }.

(** The state of the server; the last two are counters of the metrics. *)
Record Server : Type := mk_Server {
  sv_world : world; sv_put_requests : SlidingWindowLimiter; sv_auth_failures : SlidingWindowLimiter;
  sv_slow_downs : Z; sv_upload_bytes : Z }.

(** ** The monad of the gates: an error response, or a panic *)

Inductive refusal : Type := Refused (e : S3Error) | Panicked.
Definition Gate (A : Type) : Type := Server -> Server * result refusal A.

#[export] Instance Gate_ret : MRet Gate := fun A a s => (s, Ok a).
#[export] Instance Gate_bind : MBind Gate := fun A B f m s =>
  match m s with (s, Ok a) => f a s | (s, Err e) => (s, Err e) end.

Definition refuse {A} (e : S3Error) : Gate A := fun s => (s, Err (Refused e)).
Definition on_storage {A} (m : Api A) : Gate A := fun s =>
  let '(w, r) := m (sv_world s) in
  (mk_Server w (sv_put_requests s) (sv_auth_failures s) (sv_slow_downs s) (sv_upload_bytes s), map_err Refused r).
(** A step written on the state itself. *)
Definition on_server {A} (f : Server -> Server * result refusal A) : Gate A := f.
Definition gate_tick : Gate nat := on_storage tick.

(** ** The bucket and the operation a request names *)

Definition query_has_key (query key : string) : bool :=
  existsb (fun pair => eq_ignore_ascii_case (pair_name pair) key) (pairs_of query).

Definition contains_equals (query : string) : bool := contains_char "=" query.

(** Tenants. *)
Record TenantScopePlan : Type := mk_TenantScopePlan { tp_access_key : option string; tp_bucket : string }.

Definition is_create_bucket (method query : string) : bool :=
  if negb (bool_decide (method = "PUT")) then false
  else if bool_decide (query = "") then true
  else negb (contains_equals query).

(** The bucket of a virtual host, by the [Host] header. *)
Definition host_bucket (h : HeaderMap) (server_host : string) : option string :=
  host ← host_header_value h; extract_virtual_bucket host server_host.

Definition resolve_bucket_name (server_host : string) (r : Request) (path : string) : option string :=
  match host_bucket (rq_headers r) server_host with
  | Some bucket => Some bucket
  | None =>
      match rq_vhost r with
      | Some ctx => Some (vh_bucket ctx)
      | None =>
          bucket ← head (split_char "/" (trim_start_slashes path));
          if decide (bucket = "") then None else Some bucket
      end
  end.

Definition plan_tenant_scope (server_host : string) (r : Request) : option TenantScopePlan :=
  if decide (rq_path r = "/" \/ rq_path r = "") then None
  else
    bucket ← resolve_bucket_name server_host r (rq_path r);
    if is_create_bucket (rq_method r) (rq_query r) then None
    else Some (mk_TenantScopePlan (rq_principal r) bucket).

(** Policies. *)
Record BucketPolicyTarget : Type := mk_BucketPolicyTarget {
  bt_bucket : string; bt_object_key : option string; bt_action : string; bt_list_prefix : option string }.

Definition is_create_bucket_request (method query path : string) : bool :=
  eq_ignore_ascii_case method "PUT"
  && (bool_decide (query = "") || negb (contains_equals query))
  && match head (split_char "/" (trim_start_slashes path)) with
     | Some b => negb (bool_decide (b = ""))
     | None => false
     end
  && negb (contains_char "/" (trim_start_slashes path)).

(** The bucket and the rest of a path. *)
Definition split_path (path : string) : option (string * string) :=
  let trimmed := trim_start_slashes path in
  if decide (trimmed = "") then None
  else Some (default (trimmed, "") (split_once "/" trimmed)).

Definition extract_bucket_and_key (server_host path : string) (host : option string) (signature_path : option string)
    : option (string * option string) :=
  match (host ← host; extract_virtual_bucket host server_host) with
  | Some bucket => Some (bucket, object_key_from_signature_path (default path signature_path))
  | None =>
      '(bucket, rest) ← split_path path;
      Some (bucket, if decide (rest = "") then None else Some rest)
  end.

(** Every read of a bucket is a listing; the sub-resources the code names one by
    one have the same action. *)
Definition s3_action_for_request (method query : string) (has_object_key : bool) : option string :=
  if query_has_key query "uploadId" || query_has_key query "uploads" then Some "s3:PutObject"
  else if bool_decide (method = "GET") || bool_decide (method = "HEAD") then
    if has_object_key then Some "s3:GetObject"
    else if existsb (query_has_key query)
              ["location"; "versioning"; "encryption"; "cors"; "lifecycle"; "policy"; "acl"; "tagging"]
    then Some "s3:ListBucket" else Some "s3:ListBucket"
  else if bool_decide (method = "PUT") then Some "s3:PutObject"
  else if bool_decide (method = "DELETE") then Some "s3:DeleteObject"
  else if bool_decide (method = "POST") && query_has_key query "delete" then Some "s3:DeleteObject"
  else if bool_decide (method = "POST") && query_has_key query "uploads" then Some "s3:PutObject"
  else None.

(** The first [prefix] of the query, if it is not empty. *)
Definition list_prefix_of `{PercentEncoding} (query : string) : option string :=
  non_empty (head (omap (fun pair =>
    '(k, v) ← split_once "=" pair;
    if eq_ignore_ascii_case k "prefix" then Some (percent_decode_lossy v) else None) (pairs_of query))).

Definition resolve_policy_target_from_parts `{PercentEncoding} (server_host method path query : string)
    (h : HeaderMap) (signature_path : option string) : option BucketPolicyTarget :=
  if is_create_bucket_request method query path then None
  else
    '(bucket, object_key) ← extract_bucket_and_key server_host path (host_header_value h) signature_path;
    action ← s3_action_for_request method query (bool_decide (is_Some object_key));
    Some (mk_BucketPolicyTarget bucket object_key action (list_prefix_of query)).

Definition resolve_policy_target `{PercentEncoding} (server_host : string) (r : Request) : option BucketPolicyTarget :=
  resolve_policy_target_from_parts server_host (rq_method r) (rq_path r) (rq_query r) (rq_headers r)
    (vh_signature_path <$> rq_vhost r).

Section gates.
Context `{Serde} `{Crates} `{PercentEncoding} `{Process}.
Context (from_str : string -> result string BucketPolicy) (app : AppState).

Abbreviation st := (as_storage app).
Abbreviation config := (as_config app).
Abbreviation credentials := (as_credentials app).
Abbreviation server_host := (as_server_host app).

(** ** The bucket policy *)

Definition policy_context_for_principal (principal : option string) (client_ip : string) : PolicyContext :=
  let cred := key ← principal; lookup_credential credentials key in
  {| principal_access_key := principal; source_ip := Some client_ip;
     is_anonymous := bool_decide (principal = None);
     jwt_groups := match cred with Some c => ce_jwt_groups c | None => [] end;
     jwt_roles := match cred with Some c => ce_jwt_roles c | None => [] end;
     oidc_claims := None |}.

(** The decision, once the policy is read. *)
Definition policy_verdict (target : BucketPolicyTarget) (policy : string) (ctx : PolicyContext) : result refusal unit :=
  if negb (policy_requires_v2_enforcement from_str (bt_bucket target) policy) then Ok tt
  else
    let req := {| Policy.action := bt_action target; Policy.bucket := bt_bucket target; Policy.object_key := bt_object_key target;
                  Policy.list_prefix := bt_list_prefix target |} in
    match evaluate_policy_v2 from_str policy req ctx with
    | Panic => Err Panicked
    | Ret (Err e) => Err (Refused (malformed_policy e))
    | Ret (Ok Allow) => Ok tt
    | Ret (Ok _) => Err (Refused (access_denied "Access Denied"))
    end.

Definition enforce_policy_target (target : BucketPolicyTarget) (principal : option string) (client_ip : string)
    : Gate unit := fun s =>
  match get_bucket_policy st (bt_bucket target) (sv_world s) with
  | (_, Ok (Some policy)) => (s, policy_verdict target policy (policy_context_for_principal principal client_ip))
  | (_, Ok None) | (_, Err (NotFoundError _)) => (s, Ok tt)
  | (_, Err _) => (s, Err (Refused internal))
  end.

Definition enforce_bucket_policy_for_target (target : option BucketPolicyTarget) (principal : option string)
    (client_ip : string) : Gate unit :=
  match target with None => mret tt | Some target => enforce_policy_target target principal client_ip end.

Definition enforce_bucket_policy_for_parts (method path query : string) (h : HeaderMap)
    (vhost : option VirtualHostContext) (principal : option string) (client_ip : string) : Gate unit :=
  enforce_bucket_policy_for_target
    (resolve_policy_target_from_parts server_host method path query h (vh_signature_path <$> vhost)) principal client_ip.

(** ** Gates of the handlers *)

Record S3RequestContext : Type := mk_S3RequestContext {
  rc_principal : option string; rc_vhost : option VirtualHostContext }.
Definition from_request_parts (r : Request) : S3RequestContext := mk_S3RequestContext (rq_principal r) (rq_vhost r).

Definition enforce_tenant_bucket (ctx : S3RequestContext) (bucket : string) : Gate unit :=
  on_storage (ensure_bucket_access_optional st config credentials (rc_principal ctx) bucket).

Definition query_string (ps : params) : string :=
  join_with "&" (map (fun '(k, v) => k +:+ "=" +:+ v) (hash_order ps)).

Definition enforce_s3_bucket_gates (ctx : S3RequestContext) (method bucket : string) (object_key : option string)
    (ps : params) (h : HeaderMap) (client_ip : string) : Gate unit :=
  _ ← enforce_tenant_bucket ctx bucket;
  let path := match object_key with
              | Some key => "/" +:+ bucket +:+ "/" +:+ key
              | None => "/" +:+ bucket
              end in
  enforce_bucket_policy_for_parts method path (query_string ps) h (rc_vhost ctx) (rc_principal ctx) client_ip.

Definition enforce_copy_source_gates (ctx : S3RequestContext) (src_bucket src_key : string) (h : HeaderMap)
    (client_ip : string) : Gate unit :=
  _ ← enforce_tenant_bucket ctx src_bucket;
  enforce_bucket_policy_for_parts "GET" ("/" +:+ src_bucket +:+ "/" +:+ src_key) "" h (rc_vhost ctx)
    (rc_principal ctx) client_ip.

(** ** Anonymous reads of public buckets *)

Definition PUBLIC_BYPASS_FORBIDDEN_QUERY_KEYS : list string :=
  ["delete"; "uploads"; "tagging"; "versioning"; "cors"; "encryption"; "policy"; "acl"; "lifecycle"; "logging";
   "notification"; "object-lock"; "erasure"; "versions"; "retention"; "legal-hold"; "uploadId"; "partNumber"].
Definition query_has_forbidden_public_subresource (query : string) : bool :=
  existsb (query_has_key query) PUBLIC_BYPASS_FORBIDDEN_QUERY_KEYS.

(** The bucket and object the bypass looks at. *)
Definition public_target (path : string) (host signature_path : option string) : option (string * string) :=
  match host with
  | Some host =>
      match extract_virtual_bucket host server_host with
      | Some bucket =>
          let object_path := default path signature_path in
          Some (bucket, default (trim_start_slashes object_path) (object_key_from_signature_path object_path))
      | None =>
          if decide (path = "/" \/ path = "") then None
          else
            let trimmed := trim_start_slashes path in
            Some (default (trimmed, "") (split_once "/" trimmed))
      end
  | None => split_path path
  end.

Definition is_public_bypass_allowed (method path query : string) (host signature_path : option string) : Gate bool :=
  fun s =>
  if negb (bool_decide (method = "GET") || bool_decide (method = "HEAD") || bool_decide (method = "OPTIONS"))
  then (s, Ok false)
  else if query_has_forbidden_public_subresource query then (s, Ok false)
  else
    match public_target path host signature_path with
    | None => (s, Ok false)
    | Some (bucket, rest) =>
        if decide (bucket = "") then (s, Ok false)
        else
          match snd (get_bucket_public st bucket (sv_world s)) with
          | Err _ => (s, Ok false)
          | Ok (public_read, public_list) => (s, Ok (if decide (rest = "") then public_list else public_read))
          end
    end.

(** ** Rate limits *)

Definition acquire_put (client_ip : string) : Gate unit :=
  n ← gate_tick;
  on_server (fun s =>
    if negb (is_enabled (sv_put_requests s)) then (s, Ok tt)
    else
      let '(l, answer) := try_acquire (sv_put_requests s) client_ip (instant n) in
      match answer with
      | None => (mk_Server (sv_world s) l (sv_auth_failures s) (sv_slow_downs s) (sv_upload_bytes s), Ok tt)
      | Some retry_after =>
          (mk_Server (sv_world s) l (sv_auth_failures s) ((sv_slow_downs s + 1) mod 2 ^ 64)%Z (sv_upload_bytes s), Err (Refused (slow_down retry_after)))
      end).

(** A refusal that [auth_failure] counts. *)
Definition auth_failure {A} (client_ip : string) (err : S3Error) : Gate A :=
  n ← gate_tick;
  on_server (fun s =>
    if negb (is_enabled (sv_auth_failures s)) then (s, Err (Refused err))
    else
      let '(l, answer) := try_acquire (sv_auth_failures s) client_ip (instant n) in
      (mk_Server (sv_world s) (sv_put_requests s) l (sv_slow_downs s) (sv_upload_bytes s),
       Err (Refused (match answer with Some retry_after => slow_down retry_after | None => err end)))).

(** ** The middleware *)

Section middleware.
Context {A : Type} (next : Request -> Gate A).

Definition finalize_s3_request (r : Request) (principal_key : option string) (client_ip : string) : Gate A :=
  let tenant_plan := plan_tenant_scope server_host r in
  let policy_target := resolve_policy_target server_host r in
  _ ← match tenant_plan with
      | Some plan =>
          on_storage (ensure_bucket_access_optional st config credentials (tp_access_key plan) (tp_bucket plan))
      | None => mret tt
      end;
  _ ← enforce_bucket_policy_for_target policy_target principal_key client_ip;
  next r.

Definition with_principal (r : Request) (key : string) : Request :=
  mk_Request (rq_method r) (rq_path r) (rq_query r) (rq_headers r) (rq_peer r) (rq_vhost r) (Some key).

Definition invalid_region : S3Error := access_denied "Invalid region in credential scope".
Definition same_region (parsed : ParsedAuth) : bool :=
  constant_time_eq (as_bytes (pa_region parsed)) (as_bytes (cf_region config)).

Definition handle_presigned (client_ip : string) (r : Request) : Gate A :=
  match parse_presigned_query (rq_query r) with
  | Err e => auth_failure client_ip (access_denied e)
  | Ok (parsed, timestamp, expires_secs) =>
      match lookup_credential credentials (pa_access_key parsed) with
      | None => auth_failure client_ip invalid_access_key
      | Some cred =>
          if negb (same_region parsed) then auth_failure client_ip invalid_region
          else
            match parse_amz_date timestamp with
            | None => auth_failure client_ip (access_denied "Invalid X-Amz-Date format")
            | Some issued_at =>
                let expires_at := (issued_at + expires_secs * nanos)%Z in
                n ← gate_tick;
                if (expires_at <? utc_now n)%Z then auth_failure client_ip expired_presigned_url
                else if (utc_now n + 15 * 60 * nanos <? issued_at)%Z then
                  auth_failure client_ip (access_denied "X-Amz-Date is too far in the future")
                else if negb (verify_presigned_signature (rq_method r) (signature_path_from_request r) (rq_query r)
                                (rq_headers r) parsed timestamp (ce_secret_key cred))
                then auth_failure client_ip signature_mismatch
                else finalize_s3_request (with_principal r (pa_access_key parsed)) (Some (pa_access_key parsed)) client_ip
            end
      end
  end.

(** [(now - request_time).num_seconds().unsigned_abs()]. *)
Definition skew_secs (now request_time : Z) : Z := Z.abs (Z.quot (now - request_time) nanos).

Definition handle_signed (client_ip : string) (r : Request) (auth_header : string) : Gate A :=
  match parse_authorization_header auth_header with
  | Err e => auth_failure client_ip (access_denied e)
  | Ok parsed =>
      match lookup_credential credentials (pa_access_key parsed) with
      | None => auth_failure client_ip invalid_access_key
      | Some cred =>
          if negb (same_region parsed) then auth_failure client_ip invalid_region
          else
            match parse_amz_date (default "" (header (rq_headers r) "x-amz-date")) with
            | None => auth_failure client_ip (access_denied "Invalid or missing X-Amz-Date header")
            | Some request_time =>
                n ← gate_tick;
                if (15 * 60 <? skew_secs (utc_now n) request_time)%Z then
                  auth_failure client_ip
                    (access_denied "RequestTimeTooSkewed: The difference between the request time and the current time is too large.")
                else if negb (verify_signature (rq_method r) (signature_path_from_request r) (rq_query r)
                                (rq_headers r) parsed (ce_secret_key cred))
                then auth_failure client_ip signature_mismatch
                else finalize_s3_request (with_principal r (pa_access_key parsed)) (Some (pa_access_key parsed)) client_ip
            end
      end
  end.

Definition auth_middleware (r : Request) : Gate A :=
  let client_ip := client_ip_from_request (as_trusted_proxies app) r in
  let r := apply_virtual_host server_host r in
  _ ← (if bool_decide (rq_method r = "PUT") then acquire_put client_ip else mret tt);
  if query_has_presigned_signature (rq_query r) then handle_presigned client_ip r
  else
    let auth := head (rq_headers r "authorization") in
    bypass ← (if decide (auth = None) then
                is_public_bypass_allowed (rq_method r) (rq_path r) (rq_query r) (host_header_value (rq_headers r))
                  (vh_signature_path <$> rq_vhost r)
              else mret false);
    if bypass : bool then finalize_s3_request r None client_ip
    else
      match auth with
      | None => auth_failure client_ip (access_denied "Missing Authorization header")
      | Some None => auth_failure client_ip (access_denied "Invalid Authorization header")
      | Some (Some auth_header) => handle_signed client_ip r auth_header
      end.
End middleware.
End gates.
