(* ===== verification/GateSpec.v ===== *)
(** * What the gates let through

    Theorems on [Gate]: an admitted request is authentic or a public read; the
    bucket it names is of its tenant; and two ways around. *)

From stdpp Require Import base list gmap numbers strings pretty.
From Stdlib Require Import ZArith Lia Ascii Strings.Byte.
From S2P Require Import Prelude IpAddr Glob Policy Bytes Reader Utf8 Types Quota Crypto MetadataIndex FileSystem Paths World Keyring Storage BucketConfig Sidecar Demo Listing ApiError ListApi Http Signature RateLimit Tenant Gate.

Local Open Scope nat_scope.

(** ** The routes of the S3 API

    [api/router.rs]: which bucket and key the handlers get.  A segment is
    percent-decoded; a path that is no route is answered with an error. *)

Inductive Route : Type := ServiceRoute | BucketRoute (bucket : string) | ObjectRoute (bucket key : string).

Definition route_of `{PercentEncoding} (path : string) : option Route :=
  rest ← strip_prefix "/" path;
  if decide (rest = "") then Some ServiceRoute
  else
    let '(bucket, key) := default (rest, "") (split_once "/" rest) in
    if decide (bucket = "") then None
    else
      bucket ← percent_decode_utf8 bucket;
      if decide (key = "") then Some (BucketRoute bucket) else ObjectRoute bucket <$> percent_decode_utf8 key.

(** ** Inversion of the gates *)

Lemma Gate_bind_ok {A B} (m : Gate A) (f : A -> Gate B) s s' b :
  (m ≫= f) s = (s', Ok b) <-> exists a s1, m s = (s1, Ok a) /\ f a s1 = (s', Ok b).
Proof.
  unfold mbind, Gate_bind. destruct (m s) as [s1 [a|e]]; split; [by eauto|by intros (? & ? & [= <- <-] & ?)|done|].
  by intros (? & ? & ? & _).
Qed.
Lemma Gate_run_ok {A B} (m : Gate A) (f : A -> Gate B) s s1 a : m s = (s1, Ok a) -> (m ≫= f) s = f a s1.
Proof. intros Hm. unfold mbind, Gate_bind. by rewrite Hm. Qed.
Lemma Gate_bind_assoc {A B C} (m : Gate A) (f : A -> Gate B) (g : B -> Gate C) s :
  ((m ≫= f) ≫= g) s = (m ≫= (fun a => f a ≫= g)) s.
Proof. unfold mbind, Gate_bind. by destruct (m s) as [s1 [a|e]]. Qed.
Lemma Gate_bind_ext {A B} (m : Gate A) (f g : A -> Gate B) s :
  (forall a s1, f a s1 = g a s1) -> (m ≫= f) s = (m ≫= g) s.
Proof. intros Hfg. unfold mbind, Gate_bind. destruct (m s) as [s1 [a|e]]; [apply Hfg|done]. Qed.

Section spec.
Context `{Serde} `{Crates} `{PercentEncoding} `{Process}.
Context (from_str : string -> result string BucketPolicy) (app : AppState).

Abbreviation st := (as_storage app).
Abbreviation config := (as_config app).
Abbreviation credentials := (as_credentials app).
Abbreviation server_host := (as_server_host app).
Abbreviation auth_middleware := (auth_middleware from_str app).
Abbreviation finalize := (finalize_s3_request from_str app).

Lemma auth_failure_refuses {A} ip err s s' (a : A) : auth_failure ip err s <> (s', Ok a).
Proof.
  unfold auth_failure, gate_tick, on_storage, on_server, mbind, Gate_bind. cbn.
  destruct (is_enabled _); cbn; [|done]. by destruct (try_acquire _ _ _).
Qed.

(** The handler runs after the gates, on what they let through. *)
Lemma auth_failure_bind {A B} ip err (f : A -> Gate B) s : (auth_failure ip err ≫= f) s = auth_failure ip err s.
Proof.
  unfold auth_failure, gate_tick, on_storage, on_server, mbind, Gate_bind. cbn.
  destruct (is_enabled _); cbn; [|done]. by destruct (try_acquire _ _ _).
Qed.
Lemma finalize_next {A} (next : Request -> Gate A) r p ip s :
  finalize next r p ip s = (finalize mret r p ip ≫= next) s.
Proof.
  unfold finalize_s3_request. rewrite Gate_bind_assoc. apply Gate_bind_ext. intros _ s1.
  rewrite Gate_bind_assoc. by apply Gate_bind_ext.
Qed.
Lemma presigned_next {A} (next : Request -> Gate A) ip r s :
  handle_presigned from_str app next ip r s = (handle_presigned from_str app mret ip r ≫= next) s.
Proof.
  unfold handle_presigned. destruct (parse_presigned_query _) as [[[p t] e]|]; [|by rewrite auth_failure_bind].
  destruct (lookup_credential _ _) as [c|]; [|by rewrite auth_failure_bind].
  destruct (same_region _ _); cbn [negb]; [|by rewrite auth_failure_bind].
  destruct (parse_amz_date t) as [i|]; [|by rewrite auth_failure_bind].
  rewrite Gate_bind_assoc. apply Gate_bind_ext. intros n s1.
  repeat (match goal with |- context [if ?b then _ else _] => destruct b end; [by rewrite auth_failure_bind|]).
  apply finalize_next.
Qed.
Lemma signed_next {A} (next : Request -> Gate A) ip r a s :
  handle_signed from_str app next ip r a s = (handle_signed from_str app mret ip r a ≫= next) s.
Proof.
  unfold handle_signed. destruct (parse_authorization_header _) as [p|]; [|by rewrite auth_failure_bind].
  destruct (lookup_credential _ _) as [c|]; [|by rewrite auth_failure_bind].
  destruct (same_region _ _); cbn [negb]; [|by rewrite auth_failure_bind].
  destruct (parse_amz_date _) as [i|]; [|by rewrite auth_failure_bind].
  rewrite Gate_bind_assoc. apply Gate_bind_ext. intros n s1.
  repeat (match goal with |- context [if ?b then _ else _] => destruct b end; [by rewrite auth_failure_bind|]).
  apply finalize_next.
Qed.
Lemma handler_runs_last {A} (next : Request -> Gate A) r s :
  auth_middleware next r s = (auth_middleware mret r ≫= next) s.
Proof.
  unfold Gate.auth_middleware. rewrite Gate_bind_assoc. apply Gate_bind_ext. intros _ s1.
  destruct (query_has_presigned_signature _); [apply presigned_next|].
  rewrite Gate_bind_assoc. apply Gate_bind_ext. intros b s2. destruct b; [apply finalize_next|].
  destruct (head _) as [[a|]|]; [apply signed_next|by rewrite auth_failure_bind..].
Qed.

(** ** Authentic requests *)

(** The key of an enabled credential signed the request, at most 15 minutes and
    a second from the clock of the server. *)
Definition signed_by (r : Request) (key : string) : Prop :=
  exists auth parsed cred request_time n,
    head (rq_headers r "authorization") = Some (Some auth) /\
    parse_authorization_header auth = Ok parsed /\ pa_access_key parsed = key /\
    credentials !! key = Some cred /\ ce_enabled cred = true /\ pa_region parsed = cf_region config /\
    parse_amz_date (default "" (header (rq_headers r) "x-amz-date")) = Some request_time /\
    (Z.abs (utc_now n - request_time) < (15 * 60 + 1) * nanos)%Z /\
    verify_signature (rq_method r) (signature_path_from_request r) (rq_query r) (rq_headers r) parsed (ce_secret_key cred) = true.

(** The query is signed, for at most a week, and has not expired. *)
Definition presigned_by (r : Request) (key : string) : Prop :=
  exists parsed timestamp expires_secs cred issued_at n,
    parse_presigned_query (rq_query r) = Ok (parsed, timestamp, expires_secs) /\ pa_access_key parsed = key /\
    credentials !! key = Some cred /\ ce_enabled cred = true /\ pa_region parsed = cf_region config /\
    parse_amz_date timestamp = Some issued_at /\ (expires_secs <= 604800)%Z /\
    (issued_at - 15 * 60 * nanos <= utc_now n <= issued_at + expires_secs * nanos)%Z /\
    verify_presigned_signature (rq_method r) (signature_path_from_request r) (rq_query r) (rq_headers r)
      parsed timestamp (ce_secret_key cred) = true.

(** An unsigned read of what the flags of a bucket make public. *)
Definition public_read_of (r : Request) (w : world) : Prop :=
  head (rq_headers r "authorization") = None /\
  (rq_method r = "GET" \/ rq_method r = "HEAD" \/ rq_method r = "OPTIONS") /\
  query_has_forbidden_public_subresource (rq_query r) = false /\
  exists bucket rest w' public_read public_list,
    public_target app (rq_path r) (host_header_value (rq_headers r)) (vh_signature_path <$> rq_vhost r) = Some (bucket, rest) /\
    get_bucket_public st bucket w = (w', Ok (public_read, public_list)) /\
    (if decide (rest = "") then public_list else public_read) = true.

(** What is left to [finalize_s3_request]: the tenant and the policy. *)
Definition planned_tenant (r : Request) (w : world) : Prop :=
  forall key bucket, plan_tenant_scope server_host r = Some (mk_TenantScopePlan (Some key) bucket) ->
  exists meta, get_bucket_meta st bucket w = (w, Ok meta) /\
    bucket_access_allowed meta key (lookup_credential credentials key) config = true.
Definition planned_policy (r : Request) (key : option string) (ip : string) (w : world) : Prop :=
  forall target policy w', resolve_policy_target server_host r = Some target ->
  get_bucket_policy st (bt_bucket target) w = (w', Ok (Some policy)) ->
  policy_verdict from_str target policy (policy_context_for_principal app key ip) = Ok tt.

Lemma finalize_ok r p ip s s' r' : finalize mret r p ip s = (s', Ok r') ->
  s' = s /\ r' = r /\ planned_tenant r (sv_world s) /\ planned_policy r p ip (sv_world s).
Proof.
  unfold finalize_s3_request. rewrite Gate_bind_ok. intros (u & s1 & Ht & Hk).
  apply Gate_bind_ok in Hk as (u' & s2 & Hp & Hr). injection Hr as <- <-.
  assert (s1 = s /\ planned_tenant r (sv_world s)) as [-> Hten].
  { unfold planned_tenant. destruct (plan_tenant_scope server_host r) as [[k b]|]; [|by injection Ht as <- <-].
    unfold on_storage in Ht. cbn [tp_access_key tp_bucket] in Ht. destruct k as [k|]; cbn [ensure_bucket_access_optional] in Ht.
    - unfold mbind, M_bind in Ht. destruct (ensure_bucket_access st config credentials k b (sv_world s)) as [w1 [m|e]] eqn:E; [|done].
      apply ensure_bucket_access_ok in E as (-> & Hg & Ha). destruct s; injection Ht as <- <-.
      split; [done|]. intros key bucket [= <- <-]. eauto.
    - destruct s; injection Ht as <- <-. split; [done|]. by intros ? ? [=]. }
  assert (s2 = s /\ planned_policy r p ip (sv_world s)) as [-> Hpol]; [|done].
  unfold planned_policy. destruct (resolve_policy_target server_host r) as [t|]; cbn [enforce_bucket_policy_for_target] in Hp;
    [|by injection Hp as <- <-].
  unfold enforce_policy_target in Hp. destruct (get_bucket_policy st (bt_bucket t) (sv_world s)) as [w1 [[pol|]|e]] eqn:E.
  - injection Hp as <- Hv. split; [done|]. intros t' pol' w' [= <-]. rewrite E. intros [= _ <-]. rewrite Hv. by destruct u'.
  - injection Hp as <- <-. split; [done|]. intros t' pol' w' [= <-]. rewrite E. by intros [=].
  - split; [by destruct e; injection Hp as <- ?|]. intros t' pol' w' [= <-]. rewrite E. by intros [=].
Qed.

Lemma gate_tick_run s : gate_tick s =
  (mk_Server (mk_world (w_tree (sv_world s)) (w_index (sv_world s)) (S (w_tick (sv_world s)))) (sv_put_requests s)
     (sv_auth_failures s) (sv_slow_downs s) (sv_upload_bytes s), Ok (w_tick (sv_world s))).
Proof. done. Qed.
Lemma acquire_put_tree ip s : w_tree (sv_world (fst (acquire_put ip s))) = w_tree (sv_world s).
Proof.
  unfold acquire_put, mbind, Gate_bind, on_server. rewrite gate_tick_run. cbn.
  destruct (is_enabled _); cbn; [|done]. destruct (try_acquire _ _ _) as [l [a|]]; done.
Qed.

Lemma same_region_spec p : same_region app p = true -> pa_region p = cf_region config.
Proof. unfold same_region. rewrite constant_time_eq_same. apply (inj as_bytes). Qed.
Lemma presigned_at_most_a_week q p t e : parse_presigned_query q = Ok (p, t, e) -> (e <= 604800)%Z.
Proof.
  unfold parse_presigned_query.
  repeat (match goal with |- context [ok_or ?o] => destruct o; cbn [ok_or mbind result_bind]; [|done] end
          || match goal with |- context [if negb ?b then _ else _] => destruct b; cbn [negb]; [|done] end).
  destruct (Z.ltb_spec 604800 z) as [|Hz]; [done|].
  repeat (match goal with |- context [ok_or ?o] => destruct o; cbn [ok_or mbind result_bind]; [|done] end).
  destruct (parsed_auth _ _ _); cbn; [|done]. by intros [= _ _ <-].
Qed.
Lemma small_skew a b : (skew_secs a b <= 15 * 60)%Z -> (Z.abs (a - b) < (15 * 60 + 1) * nanos)%Z.
Proof.
  unfold skew_secs, nanos. rewrite <-Z.quot_abs by done. change (Z.abs 1000000000) with 1000000000%Z.
  intros Hs. pose proof (Z.quot_rem' (Z.abs (a - b)) 1000000000).
  pose proof (Z.rem_bound_pos (Z.abs (a - b)) 1000000000). lia.
Qed.

Lemma handle_signed_ok ip r auth s s' r' : head (rq_headers r "authorization") = Some (Some auth) ->
  handle_signed from_str app mret ip r auth s = (s', Ok r') ->
  exists key, r' = with_principal r key /\ signed_by r key /\ w_tree (sv_world s') = w_tree (sv_world s) /\
    planned_tenant r' (sv_world s') /\ planned_policy r' (Some key) ip (sv_world s').
Proof.
  intros Ha. unfold handle_signed. destruct (parse_authorization_header auth) as [p|] eqn:Ep; [|by intros ?%auth_failure_refuses].
  destruct (lookup_credential _ _) as [c|] eqn:Ec; [|by intros ?%auth_failure_refuses].
  apply lookup_credential_Some in Ec as [Ec He].
  destruct (same_region app p) eqn:Er; cbn [negb]; [|by intros ?%auth_failure_refuses]. apply same_region_spec in Er.
  destruct (parse_amz_date _) as [i|] eqn:Ed; [|by intros ?%auth_failure_refuses].
  rewrite Gate_bind_ok. intros (n & s1 & Hn & Hk). rewrite gate_tick_run in Hn. injection Hn as <- <-.
  destruct (Z.ltb_spec (15 * 60) (skew_secs (utc_now (w_tick (sv_world s))) i)) as [|Hs]; [by apply auth_failure_refuses in Hk|].
  apply small_skew in Hs. destruct (verify_signature _ _ _ _ _ _) eqn:Ev; cbn [negb] in Hk; [|by apply auth_failure_refuses in Hk].
  apply finalize_ok in Hk as (-> & -> & Ht & Hp). exists (pa_access_key p). split_and!; try done.
  exists auth, p, c, i, (w_tick (sv_world s)). by split_and!.
Qed.
Lemma handle_presigned_ok ip r s s' r' : handle_presigned from_str app mret ip r s = (s', Ok r') ->
  exists key, r' = with_principal r key /\ presigned_by r key /\ w_tree (sv_world s') = w_tree (sv_world s) /\
    planned_tenant r' (sv_world s') /\ planned_policy r' (Some key) ip (sv_world s').
Proof.
  unfold handle_presigned. destruct (parse_presigned_query _) as [[[p t] e]|] eqn:Ep; [|by intros ?%auth_failure_refuses].
  destruct (lookup_credential _ _) as [c|] eqn:Ec; [|by intros ?%auth_failure_refuses].
  apply lookup_credential_Some in Ec as [Ec He].
  destruct (same_region app p) eqn:Er; cbn [negb]; [|by intros ?%auth_failure_refuses]. apply same_region_spec in Er.
  destruct (parse_amz_date t) as [i|] eqn:Ed; [|by intros ?%auth_failure_refuses].
  rewrite Gate_bind_ok. intros (n & s1 & Hn & Hk). rewrite gate_tick_run in Hn. injection Hn as <- <-.
  set (n := w_tick (sv_world s)) in *.
  destruct (Z.ltb_spec (i + e * nanos) (utc_now n)) as [|H1']; [by apply auth_failure_refuses in Hk|].
  destruct (Z.ltb_spec (utc_now n + 15 * 60 * nanos) i) as [|H2']; [by apply auth_failure_refuses in Hk|].
  destruct (verify_presigned_signature _ _ _ _ _ _ _) eqn:Ev; cbn [negb] in Hk; [|by apply auth_failure_refuses in Hk].
  apply finalize_ok in Hk as (-> & -> & Ht & Hp). exists (pa_access_key p). split_and!; try done.
  exists p, t, e, c, i, n. split_and!; try done; [by eapply presigned_at_most_a_week|lia].
Qed.
Lemma public_bypass_same method path query host sp s :
  fst (is_public_bypass_allowed app method path query host sp s) = s.
Proof.
  unfold is_public_bypass_allowed. destruct (negb _); [done|]. destruct (query_has_forbidden_public_subresource _); [done|].
  destruct (public_target _ _ _ _) as [[b rest]|]; [|done]. case_decide; [done|].
  by destruct (snd (get_bucket_public _ _ _)) as [[pr pl]|e].
Qed.
Lemma public_bypass_ok r s s' : is_public_bypass_allowed app (rq_method r) (rq_path r) (rq_query r)
    (host_header_value (rq_headers r)) (vh_signature_path <$> rq_vhost r) s = (s', Ok true) ->
  head (rq_headers r "authorization") = None -> s' = s /\ public_read_of r (sv_world s).
Proof.
  unfold is_public_bypass_allowed. intros Hk Ha.
  destruct (negb _) eqn:Em; [done|]. destruct (query_has_forbidden_public_subresource _) eqn:Eq; [done|].
  destruct (public_target _ _ _ _) as [[b rest]|] eqn:Et; [|done]. case_decide; [done|].
  destruct (get_bucket_public _ _ _) as [w1 [[pr pl]|e]] eqn:Eb; cbn [snd] in Hk; [|done]. injection Hk as <- Hf.
  split; [done|]. split; [done|]. split.
  { apply negb_false_iff in Em. rewrite !orb_true_iff, !bool_decide_eq_true in Em. tauto. }
  split; [done|]. exists b, rest, w1, pr, pl. done.
Qed.

Lemma virtual_host_principal r : rq_principal (apply_virtual_host server_host r) = rq_principal r.
Proof. unfold apply_virtual_host. by destruct (_ ≫= _). Qed.

(** The bucket and object a request names: by its [Host], or else by its path. *)
Definition names_bucket (r : Request) (bucket : string) (object : option string) : Prop :=
  match (host ← host_header_value (rq_headers r); extract_virtual_bucket host server_host) with
  | Some b => bucket = b /\ object = object_key_from_signature_path (rq_path r)
  | None => exists rest, split_path (rq_path r) = Some (bucket, rest) /\ object = (if decide (rest = "") then None else Some rest)
  end.
(** What the gates look at: not the list of the buckets, and not a PUT that they
    take for the creation of a bucket, which is any whose query holds no [=]. *)
Definition gated (r : Request) : Prop :=
  rq_path r <> "" /\ rq_path r <> "/" /\
  (eq_ignore_ascii_case (rq_method r) "PUT" = false \/ contains_equals (rq_query r) = true).
Definition tenant_admits (key bucket : string) (w : world) : Prop := exists meta,
  get_bucket_meta st bucket w = (w, Ok meta) /\ bucket_access_allowed meta key (lookup_credential credentials key) config = true.
(** The policy of the bucket, if it is one the v2 evaluator decides on, allows the
    action of the request. *)
Definition policy_admits (r : Request) (bucket : string) (object key : option string) (ip : string) (w : world) : Prop :=
  forall w' policy act, get_bucket_policy st bucket w = (w', Ok (Some policy)) ->
  s3_action_for_request (rq_method r) (rq_query r) (bool_decide (is_Some object)) = Some act ->
  policy_requires_v2_enforcement from_str bucket policy = true ->
  evaluate_policy_v2 from_str policy
    {| Policy.action := act; Policy.bucket := bucket; Policy.object_key := object; Policy.list_prefix := list_prefix_of (rq_query r) |}
    (policy_context_for_principal app key ip) = Ret (Ok Allow).

Lemma head_of_split s : head (split_char "/" s) = Some (fst (default (s, "") (split_once "/" s))).
Proof.
  induction s as [|c s IH]; [done|]. cbn [split_char split_once]. case_decide; [done|].
  destruct (split_char "/" s) as [|x l]; [done|]. cbn in IH |- *. injection IH as ->. by destruct (split_once "/" s) as [[]|].
Qed.
Lemma split_path_first path bucket rest : split_path path = Some (bucket, rest) ->
  head (split_char "/" (trim_start_slashes path)) = Some bucket.
Proof. unfold split_path. case_decide; [done|]. intros [= E]. by rewrite head_of_split, E. Qed.
Lemma trimmed_no_slash s : starts_with (trim_start_slashes s) "/" = false.
Proof.
  unfold trim_start_slashes. apply not_true_is_false. intros [k E]%starts_with_spec. apply (f_equal chars) in E.
  rewrite chars_of_chars in E. induction (chars s) as [|c l IH]; [done|]. cbn in E. case_decide; [by apply IH|].
  rewrite chars_app in E. by injection E as -> _.
Qed.
Lemma split_path_named path bucket rest : split_path path = Some (bucket, rest) -> bucket <> "".
Proof.
  unfold split_path. case_decide as Hd; [done|]. intros [= E] ->.
  assert (Hs : starts_with (trim_start_slashes path) "/" = true).
  { destruct (split_once "/" _) as [[a b]|] eqn:Es; cbn in E; [|by injection E as E' _]. injection E as -> ->.
    apply split_once_app in Es as ->. apply starts_with_spec. by exists rest. }
  by rewrite trimmed_no_slash in Hs.
Qed.
(** The gates, up to the handler. *)
Lemma gate_lets_through r s r' s1 : rq_principal r = None -> auth_middleware mret r s = (s1, Ok r') ->
  let r0 := apply_virtual_host server_host r in
  let ip := client_ip_from_request (as_trusted_proxies app) r in
  w_tree (sv_world s1) = w_tree (sv_world s) /\
  ((exists key, r' = with_principal r0 key /\ (signed_by r0 key \/ presigned_by r0 key)) \/
   (r' = r0 /\ rq_principal r' = None /\ public_read_of r0 (sv_world s1))) /\
  planned_tenant r' (sv_world s1) /\ planned_policy r' (rq_principal r') ip (sv_world s1).
Proof.
  intros Hnone Hm. unfold Gate.auth_middleware in Hm.
  cbn zeta. set (r0 := apply_virtual_host server_host r) in *. set (ip := client_ip_from_request _ r) in *.
  assert (Hnone0 : rq_principal r0 = None).
  { unfold r0. by rewrite virtual_host_principal. }
  clearbody r0 ip. apply Gate_bind_ok in Hm as (u & s2 & Hput & Hm).
  assert (Ht : w_tree (sv_world s2) = w_tree (sv_world s)).
  { case_bool_decide; [|by injection Hput as <-]. pose proof (acquire_put_tree ip s) as E. by rewrite Hput in E. }
  rewrite <-Ht. destruct (query_has_presigned_signature _).
  { apply handle_presigned_ok in Hm as (k & -> & Hs & Hw & Hten & Hpol). split_and!; [done| |done|done]. left. eauto. }
  apply Gate_bind_ok in Hm as (b & s3 & Hb & Hm). destruct b.
  - case_decide as Ha; [|done]. apply public_bypass_ok in Hb as [-> Hpub]; [|done].
    apply finalize_ok in Hm as (-> & -> & Hten & Hpol). split_and!; [done| |done|by rewrite Hnone0]. by right.
  - assert (s3 = s2) as ->.
    { case_decide; [|by injection Hb as <-]. apply (f_equal fst) in Hb. rewrite public_bypass_same in Hb. exact (eq_sym Hb). }
    destruct (head _) as [[au|]|] eqn:Ea; [|by apply auth_failure_refuses in Hm..].
    apply handle_signed_ok in Hm as (k & -> & Hs & Hw & Hten & Hpol); [|done]. split_and!; [done| |done|done]. left. eauto.
Qed.

(** What the plans of the gates are about, on the request they see. *)
Lemma named_resolves r r' bucket object : rq_vhost r = None -> rq_headers r' = rq_headers r -> rq_path r' = rq_path r ->
  rq_vhost r' = rq_vhost (apply_virtual_host server_host r) -> names_bucket r bucket object ->
  resolve_bucket_name server_host r' (rq_path r') = Some bucket /\
  extract_bucket_and_key server_host (rq_path r') (host_header_value (rq_headers r')) (vh_signature_path <$> rq_vhost r')
  = Some (bucket, object).
Proof.
  unfold names_bucket, resolve_bucket_name, host_bucket, extract_bucket_and_key, apply_virtual_host. intros Hv -> -> ->.
  destruct (host_header_value (rq_headers r) ≫= _) as [b|]; [by intros [-> ->]|]. rewrite Hv.
  intros (rest & Hs & ->). pose proof (split_path_named _ _ _ Hs). rewrite Hs, (split_path_first _ _ _ Hs). cbn.
  by rewrite decide_False.
Qed.

Lemma planned_admits r r' bucket object ip w : rq_vhost r = None -> rq_headers r' = rq_headers r -> rq_path r' = rq_path r ->
  rq_vhost r' = rq_vhost (apply_virtual_host server_host r) -> rq_method r' = rq_method r -> rq_query r' = rq_query r ->
  names_bucket r bucket object -> gated r -> planned_tenant r' w -> planned_policy r' (rq_principal r') ip w ->
  (forall key, rq_principal r' = Some key -> tenant_admits key bucket w) /\ policy_admits r bucket object (rq_principal r') ip w.
Proof.
  intros Hv Hh Hp Hv' Hm Hq Hn (Hg1 & Hg2 & Hg3) Ht Hpol. destruct (named_resolves r r' bucket object Hv Hh Hp Hv' Hn) as [Hr He]. split.
  - intros key Hk. apply Ht. unfold plan_tenant_scope. rewrite decide_False by (rewrite Hp; by intros [?|?]). rewrite Hr. cbn.
    rewrite Hk, Hm, Hq. unfold is_create_bucket. case_bool_decide as Em; [|done]. rewrite Em in Hg3.
    destruct Hg3 as [Hg3|Hg3]; [done|]. rewrite Hg3. case_bool_decide as Eq; [|done]. by rewrite Eq in Hg3.
  - intros w' policy act Hpo Ha Hreq. unfold planned_policy in Hpol. unfold resolve_policy_target, resolve_policy_target_from_parts in Hpol.
    rewrite He, Hm, Hq in Hpol. cbn [mbind option_bind] in Hpol. rewrite Ha in Hpol. cbn [mbind option_bind] in Hpol.
    assert (Hc : is_create_bucket_request (rq_method r) (rq_query r) (rq_path r') = false).
    { unfold is_create_bucket_request. destruct Hg3 as [->|Hg3]; [done|]. rewrite Hg3, bool_decide_eq_false_2; [by rewrite andb_false_r|].
      intros E. by rewrite E in Hg3. }
    rewrite Hc in Hpol. specialize (Hpol _ policy w' eq_refl Hpo). unfold policy_verdict in Hpol.
    cbn [bt_bucket bt_action bt_object_key bt_list_prefix] in Hpol. rewrite Hreq in Hpol. cbn [negb] in Hpol.
    by destruct (evaluate_policy_v2 _ _ _ _) as [[[]|]|].
Qed.

(** C5: the gate.  The handler of an S3 request runs after [auth_middleware], on
    the request it let through and nothing else: one signed, in its header or its
    query, by the key of an enabled credential for the region of the server and
    within its time, with that key as principal; or an unsigned read of what a
    bucket's flags make public, without one.  The gates change no file.  Then the
    tenant of the principal, if there is one, is admitted by the bucket that the
    request names, by its [Host] or else by its path, and the policy of that bucket,
    when it is one that the v2 evaluator decides on, allows the action; except for a PUT whose query holds no [=], which counts as
    the creation of a bucket, and for the path [/]. *)
Theorem admitted_requests_are_authentic {A} (next : Request -> Gate A) r s s' a :
  rq_principal r = None -> rq_vhost r = None ->
  auth_middleware next r s = (s', Ok a) ->
  let r0 := apply_virtual_host server_host r in
  let ip := client_ip_from_request (as_trusted_proxies app) r in
  exists r' s1, next r' s1 = (s', Ok a) /\ w_tree (sv_world s1) = w_tree (sv_world s) /\
    ((exists key, r' = with_principal r0 key /\ (signed_by r0 key \/ presigned_by r0 key)) \/
     (r' = r0 /\ rq_principal r' = None /\ public_read_of r0 (sv_world s1))) /\
    (forall bucket object, names_bucket r bucket object -> gated r ->
       (forall key, rq_principal r' = Some key -> tenant_admits key bucket (sv_world s1)) /\
       policy_admits r bucket object (rq_principal r') ip (sv_world s1)).
Proof.
  intros Hnone Hvh Hm. rewrite handler_runs_last in Hm. apply Gate_bind_ok in Hm as (r' & s1 & Hm & Hn).
  cbn zeta. exists r', s1. split; [done|]. apply gate_lets_through in Hm as (Ht & Hr & Hten & Hpol); [|done].
  split_and!; [done|done|]. intros bucket object Hb Hg.
  assert (Hsame : rq_headers r' = rq_headers r /\ rq_path r' = rq_path r /\ rq_vhost r' = rq_vhost (apply_virtual_host server_host r) /\
    rq_method r' = rq_method r /\ rq_query r' = rq_query r).
  { unfold apply_virtual_host in *. destruct (host_header_value (rq_headers r) ≫= _) as [b|];
      destruct Hr as [(key & -> & _)|(-> & _)]; done. }
  destruct Hsame as (? & ? & ? & ? & ?). by eapply planned_admits.
Qed.

(** ** Two ways around *)

Lemma trim_start_slash path : trim_start_slashes ("/" +:+ path) = trim_start_slashes path.
Proof. done. Qed.
Lemma trim_start_other c path : c <> "/"%char -> trim_start_slashes (String c path) = String c path.
Proof.
  intros Hc. unfold trim_start_slashes. cbn [chars trim_slashes]. rewrite decide_False by done.
  exact (of_chars_chars (String c path)).
Qed.
Lemma first_char_not c d w : contains_char d (String c w) = false -> c <> d.
Proof. rewrite not_in. intros Hn ->. destruct Hn. by left. Qed.

Lemma on_storage_ret {A} (a : A) s : on_storage (mret a) s = (s, Ok a).
Proof. by destruct s. Qed.

(** The settings of a bucket are guarded by nothing but a valid signature.  A
    PUT of a bucket whose query has no [=] counts as the creation of the bucket,
    [?policy] and [?versioning] included, so neither the tenant of the bucket nor
    its policy is looked at: any key of the server passes. *)
Theorem bucket_settings_are_unguarded {A} (next : Request -> Gate A) r b key ip s :
  rq_method r = "PUT" -> rq_path r = "/" +:+ b -> b <> "" -> contains_char "/" b = false ->
  contains_equals (rq_query r) = false ->
  finalize next (with_principal r key) (Some key) ip s = next (with_principal r key) s.
Proof.
  intros Hm Hp Hb Hs Hq. unfold finalize_s3_request, plan_tenant_scope, resolve_policy_target, resolve_policy_target_from_parts.
  cbn [with_principal rq_path rq_method rq_query rq_headers rq_principal rq_vhost]. rewrite Hm, Hp.
  assert (Ht : trim_start_slashes ("/" +:+ b) = b).
  { destruct b as [|c b]; [done|]. rewrite trim_start_slash. apply trim_start_other. by eapply first_char_not. }
  assert (Hc : is_create_bucket "PUT" (rq_query r) = true).
  { unfold is_create_bucket. rewrite (bool_decide_eq_true_2 ("PUT" = "PUT")), Hq by done. by case_bool_decide. }
  assert (Hc' : is_create_bucket_request "PUT" (rq_query r) ("/" +:+ b) = true).
  { unfold is_create_bucket_request. rewrite Ht, split_char_no, Hs, Hq by done. cbn. rewrite orb_true_r.
    by rewrite bool_decide_eq_false_2. }
  rewrite Hc, Hc'.
  rewrite decide_False by (intros [E|E]; by destruct b). destruct (resolve_bucket_name _ _ _); reflexivity.
Qed.

(** The bucket of a virtual host is the one every gate looks at. *)
Lemma host_target pub method path query h sp t :
  host_bucket h server_host = Some pub ->
  resolve_policy_target_from_parts server_host method path query h sp = Some t -> bt_bucket t = pub.
Proof.
  unfold resolve_policy_target_from_parts, extract_bucket_and_key, host_bucket. intros ->.
  destruct (is_create_bucket_request _ _ _); [done|]. cbn. destruct (s3_action_for_request _ _ _); cbn; [|done].
  by intros [= <-].
Qed.
Lemma unpoliced pub meta method path query h vh p ip s :
  host_bucket h server_host = Some pub -> get_bucket_meta st pub (sv_world s) = (sv_world s, Ok meta) ->
  bm_bucket_policy meta = None ->
  enforce_bucket_policy_for_parts from_str app method path query h vh p ip s = (s, Ok tt).
Proof.
  intros Hh Hm Hp. unfold enforce_bucket_policy_for_parts. destruct (resolve_policy_target_from_parts _ _ _ _ _ _) as [t|] eqn:Et; [|done].
  apply (host_target pub) in Et; [|done]. cbn. unfold enforce_policy_target. rewrite Et.
  unfold get_bucket_policy, mbind, M_bind. unfold get_bucket_meta in Hm. rewrite Hm. cbn. by rewrite Hp.
Qed.

(** An object route has a first segment. *)
Lemma object_route_key path b k : route_of path = Some (ObjectRoute b k) -> exists key, object_key_from_signature_path path = Some key.
Proof.
  unfold route_of. destruct (strip_prefix "/" path) as [rest|] eqn:Er; cbn; [|done]. apply strip_prefix_Some in Er as ->.
  case_decide; [done|]. destruct (split_once "/" rest) as [[seg key]|] eqn:Es; cbn.
  2:{ case_decide; [done|]. destruct (percent_decode_utf8 rest); cbn; [|done]. by rewrite decide_True. }
  case_decide as Hseg; [done|]. intros _. unfold object_key_from_signature_path.
  pose proof (split_once_head _ _ _ _ Es) as Hn. apply split_once_app in Es as ->. destruct seg as [|c seg]; [done|].
  rewrite trim_start_slash. change (String c seg +:+ String "/" key) with (String c (seg +:+ String "/" key)).
  rewrite trim_start_other by (by eapply first_char_not). rewrite decide_False by done. eauto.
Qed.

(** The way of an unsigned read. *)
Lemma unsigned_read {A} (next : Request -> Gate A) r r' s :
  apply_virtual_host server_host r = r' -> rq_method r' <> "PUT" -> query_has_presigned_signature (rq_query r') = false ->
  head (rq_headers r' "authorization") = None ->
  is_public_bypass_allowed app (rq_method r') (rq_path r') (rq_query r') (host_header_value (rq_headers r'))
    (vh_signature_path <$> rq_vhost r') s = (s, Ok true) ->
  auth_middleware next r s = finalize next r' None (client_ip_from_request (as_trusted_proxies app) r) s.
Proof.
  intros Hv Hm Hq Ha Hp. unfold Gate.auth_middleware. rewrite Hv, bool_decide_eq_false_2 by done.
  rewrite (Gate_run_ok (mret tt) _ s s tt) by done. rewrite Hq, Ha.
  rewrite decide_True by done. by rewrite (Gate_run_ok _ _ _ _ _ Hp).
Qed.
(** The last gates of an unsigned read do not look at the tenant. *)
Lemma unsigned_finalize {A} (next : Request -> Gate A) r ip s :
  rq_principal r = None ->
  enforce_bucket_policy_for_target from_str app (resolve_policy_target server_host r) None ip s = (s, Ok tt) ->
  finalize next r None ip s = next r s.
Proof.
  intros Hn Hp. unfold finalize_s3_request. rewrite (Gate_run_ok _ _ s s tt); [by rewrite (Gate_run_ok _ _ s s tt)|].
  destruct (plan_tenant_scope server_host r) as [plan|] eqn:E; [|done].
  assert (tp_access_key plan = None) as ->; [|apply on_storage_ret].
  unfold plan_tenant_scope in E. case_decide; [done|]. destruct (resolve_bucket_name _ _ _); cbn in E; [|done].
  destruct (is_create_bucket _ _); simplify_eq. exact Hn.
Qed.

(** C40: a public bucket opens every other one.  The gates take the bucket of a
    virtual host from the [Host] header, while the routes of objects take it from
    the path: an unsigned GET whose [Host] names a bucket with public reads
    passes, and the gates of the handler, which is given the bucket and key of the
    path, let any of them through. *)
Theorem virtual_host_opens_private_buckets r s pub meta b k :
  rq_method r = "GET" -> rq_query r = "" -> head (rq_headers r "authorization") = None -> rq_principal r = None ->
  host_bucket (rq_headers r) server_host = Some pub ->
  get_bucket_meta st pub (sv_world s) = (sv_world s, Ok meta) ->
  bm_public_read meta = true -> bm_bucket_policy meta = None ->
  route_of (rq_path r) = Some (ObjectRoute b k) ->
  exists r', (forall A (next : Request -> Gate A), auth_middleware next r s = next r' s) /\
    route_of (rq_path r') = Some (ObjectRoute b k) /\
    forall ip, enforce_s3_bucket_gates from_str app (from_request_parts r') "GET" b (Some k) ∅ (rq_headers r') ip s = (s, Ok tt).
Proof.
  intros Hm Hq Ha Hn Hh Hg Hpr Hpol Hr.
  set (r' := mk_Request (rq_method r) (rq_path r) (rq_query r) (rq_headers r) (rq_peer r)
               (Some (mk_VirtualHostContext pub (rq_path r))) (rq_principal r)).
  assert (Hv : apply_virtual_host server_host r = r').
  { unfold apply_virtual_host. unfold host_bucket in Hh. by rewrite Hh. }
  exists r'. split_and!; [|done|].
  - intros A next.
    assert (Hpub : is_public_bypass_allowed app "GET" (rq_path r) "" (host_header_value (rq_headers r))
              (vh_signature_path <$> Some (mk_VirtualHostContext pub (rq_path r))) s = (s, Ok true)).
    { unfold is_public_bypass_allowed. cbn [negb orb fmap option_fmap option_map vh_signature_path].
      change (query_has_forbidden_public_subresource "") with false. unfold public_target.
      unfold host_bucket in Hh. destruct (host_header_value (rq_headers r)) as [host|]; [|done]. cbn in Hh. rewrite Hh.
      destruct (object_route_key _ _ _ Hr) as [key Hk]. cbn [from_option id]. rewrite Hk. cbn [from_option id].
      assert (pub <> "") by (intros ->; by apply extract_virtual_bucket_valid in Hh).
      assert (key <> "") by (intros ->; unfold object_key_from_signature_path in Hk; by case_decide; simplify_eq).
      rewrite decide_False by done. unfold get_bucket_public, mbind, M_bind. unfold get_bucket_meta in Hg. rewrite Hg. cbn.
      by rewrite decide_False, Hpr. }
    rewrite (unsigned_read next r r'); try done; cbn [r' rq_method rq_query rq_headers rq_path rq_vhost]; rewrite ?Hm, ?Hq; try done.
    apply unsigned_finalize; [done|]. by apply (unpoliced pub meta).
  - intros ip. unfold enforce_s3_bucket_gates, enforce_tenant_bucket, from_request_parts. cbn [r' rc_principal rc_vhost rq_principal].
    rewrite Hn. cbn [ensure_bucket_access_optional]. rewrite (Gate_run_ok _ _ s s tt) by apply on_storage_ret.
    by apply (unpoliced pub meta).
Qed.
End spec.

(** ** A server with two tenants *)

Module GateDemo.
Import Demo.Toys Signature.ToyPercent.
#[export] Existing Instance toy_percent.

#[export] Instance toy_process : Process := {|
  instant n := 0%Z; utc_now n := 5%Z;
  parse_amz_date s := if decide (s = "20260102T030405Z") then Some 0%Z else None;
  hash_order ps := map_to_list ps
|}.
Definition no_policies (raw : string) : result string BucketPolicy := Err "expected value".

Definition tenant_bucket (name tenant : string) (public_read : bool) : BucketMeta :=
  mk_BucketMeta name "t" "us-east-1" false None None public_read false None None None (Some tenant) None None None false None.
Definition two_tenants : world :=
  mk_world
    (mk_tree {[ ["data"; "buckets"; "photos"; ".bucket.json"] := BucketJson (tenant_bucket "photos" "north" true);
                ["data"; "buckets"; "vault"; ".bucket.json"] := BucketJson (tenant_bucket "vault" "south" false) ]}
       {[ []; ["data"]; ["data"; "buckets"]; ["data"; "buckets"; "photos"]; ["data"; "buckets"; "vault"] ]})
    None 1.
Definition alice : CredentialEntry := mk_CredentialEntry "alice" "secret" true None (Some "north") [] [].
Definition app : AppState :=
  mk_AppState (demo_storage false) (mk_Config "/data" "root" "root-secret" "us-east-1" "default" true false) []
    {[ "alice" := alice ]} "s3.test".
Definition server : Server := mk_Server two_tenants (limiter_new 0 60) (limiter_new 10 60) 0 0.

Definition request (method path query host : string) (authorization : option string) : Request :=
  mk_Request method path query (fun name =>
    if decide (name = "host") then [Some host]
    else if decide (name = "x-amz-date") then [Some "20260102T030405Z"]
    else if decide (name = "authorization") then match authorization with Some a => [Some a] | None => [] end
    else []) (Some (V4 [10; 0; 0; 1]%Z)) None None.

(** A request alice signed. *)
Definition unsigned : string :=
  "AWS4-HMAC-SHA256 Credential=alice/20260102/us-east-1/s3/aws4_request, SignedHeaders=host;x-amz-date, Signature=".
Definition signed (method path query : string) : Request :=
  let r := request method path query "s3.test" None in
  match parse_authorization_header unsigned with
  | Ok p =>
      request method path query "s3.test"
        (Some (unsigned +:+ computed_signature (build_canonical_request method path query (rq_headers r) p)
                              "20260102T030405Z" p "secret"))
  | Err _ => r
  end.

Definition run (r : Request) : Server * result refusal Request := auth_middleware no_policies app mret r server.

Lemma ran_ok (r r' : Request) s s' : (mret r : Gate Request) s = (s', Ok r') -> r = r'.
Proof. by intros [= _ ->]. Qed.

Lemma admitted_requests_are_authentic_witness :
  snd (run (signed "GET" "/photos/cat.jpg" "")) = Ok (with_principal (signed "GET" "/photos/cat.jpg" "") "alice") /\
  (signed_by app (signed "GET" "/photos/cat.jpg" "") "alice" \/ presigned_by app (signed "GET" "/photos/cat.jpg" "") "alice") /\
  snd (run (signed "GET" "/vault/cat.jpg" "")) = Err (Refused (access_denied "Access Denied")).
Proof.
  set (r := signed "GET" "/photos/cat.jpg" "").
  assert (E : run r = (fst (run r), Ok (with_principal r "alice"))) by (vm_compute; reflexivity).
  split; [by rewrite E|]. split; [|vm_compute; reflexivity].
  destruct (admitted_requests_are_authentic no_policies app (mret : Request -> Gate Request) r server _ _ eq_refl eq_refl E)
    as (r' & s1 & En & _ & [(key & Hr & Hs)|(_ & Hn & _)] & _).
  - apply ran_ok in En. rewrite En in Hr. apply (f_equal rq_principal) in Hr. injection Hr as <-. exact Hs.
  - exfalso. apply ran_ok in En. rewrite En in Hn. discriminate Hn.
Defined.

(** Alice rewrites the policy of a bucket of the other tenant; with an [=] after
    the name of the setting she is refused. *)
Lemma bucket_settings_are_unguarded_witness :
  (forall s, finalize_s3_request no_policies app mret (with_principal (signed "PUT" "/vault" "policy") "alice") (Some "alice") "10.0.0.1" s
     = (s, Ok (with_principal (signed "PUT" "/vault" "policy") "alice"))) /\
  is_ok (snd (run (signed "PUT" "/vault" "policy"))) = true /\
  snd (run (signed "PUT" "/vault" "policy=")) = Err (Refused (access_denied "Access Denied")).
Proof.
  split; [|split; vm_compute; reflexivity]. intros s.
  exact (bucket_settings_are_unguarded no_policies app (mret : Request -> Gate Request) (signed "PUT" "/vault" "policy") "vault"
    "alice" "10.0.0.1" s eq_refl eq_refl ltac:(done) eq_refl eq_refl).
Defined.

(** With a [Host] of photos.s3.test anyone reads the vault. *)
Lemma virtual_host_opens_private_buckets_witness :
  (exists r', (forall A (next : Request -> Gate A),
       auth_middleware no_policies app next (request "GET" "/vault/plans.txt" "" "photos.s3.test" None) server = next r' server) /\
     route_of (rq_path r') = Some (ObjectRoute "vault" "plans.txt") /\
     forall ip, enforce_s3_bucket_gates no_policies app (from_request_parts r') "GET" "vault" (Some "plans.txt") ∅ (rq_headers r') ip server
       = (server, Ok tt)) /\
  snd (run (request "GET" "/vault/plans.txt" "" "s3.test" None)) = Err (Refused (access_denied "Missing Authorization header")).
Proof.
  split; [|vm_compute; reflexivity].
  apply (virtual_host_opens_private_buckets no_policies app _ server "photos" (tenant_bucket "photos" "north" true) "vault" "plans.txt");
    vm_compute; reflexivity.
Defined.
End GateDemo.
