(* ===== verification/MultipartSpec.v ===== *)
(** * A completed upload is the concatenation of its parts

    An upload refines a finite map from part numbers to data: [represents] relates
    its directory to that map, each [upload_part] is one step of it, and
    completion publishes the concatenation of the parts named, which a download
    gives back.  Then what the frames of the parts share: their nonces. *)

From stdpp Require Import base list gmap sets sorting numbers strings pretty.
From Stdlib Require Import ZArith Lia Ascii Strings.Byte.
From S2P Require Import Prelude IpAddr Glob Policy Bytes Reader Types Quota Crypto ErasureCode ChunkReader ChunkWriter EncryptedEc MetadataIndex FileSystem Paths World Keyring Storage BucketConfig Sidecar Encryption Publish Objects Demo ObjectsSpec Behaviours Multipart.

Local Open Scope nat_scope.

(** ** Steps that change few files *)

Record touches (T : location -> Prop) (v v' : world) : Prop := {
  tc_files l : ~ T l -> t_files (w_tree v') !! l = t_files (w_tree v) !! l;
  tc_dirs : t_dirs (w_tree v') = t_dirs (w_tree v);
  tc_index : w_index v' = w_index v;
  tc_tick : w_tick v <= w_tick v';
}.

Definition stays {E A} (T : location -> Prop) (m : M E A) : Prop :=
  forall v v' r, m v = (v', r) -> touches T v v'.

Create HintDb maxio_stays.

Section stays.
Context (T : location -> Prop).

Lemma touches_refl v : touches T v v.
Proof. by split. Qed.
Lemma touches_trans v1 v2 v3 : touches T v1 v2 -> touches T v2 v3 -> touches T v1 v3.
Proof. intros [F1 D1 I1 N1] [F2 D2 I2 N2]. split; [|congruence..|lia]. intros l Hl. by rewrite F2, F1. Qed.

Lemma stays_bind {E A B} (m : M E A) (f : A -> M E B) :
  stays T m -> (forall a, stays T (f a)) -> stays T (m ≫= f).
Proof.
  intros Hm Hf v v' r. unfold mbind, M_bind. destruct (m v) as [v1 [a|e]] eqn:E1.
  - intros E2. eapply touches_trans; [by eapply Hm|by eapply Hf].
  - intros [= <- <-]. by eapply Hm.
Qed.
Lemma stays_pure {E A} (m : M E A) : pure_step m -> stays T m.
Proof. intros Hm v v' r E1. apply Hm in E1 as (Ht & Hi & Hn). split; rewrite ?Ht, ?Hi; auto. Qed.

Lemma touches_write v p c t r :
  plain p -> T (names p) -> fs_write (w_tree v) p c = (t, r) -> touches T v (with_tree v t).
Proof.
  intros Hp HT Hw. apply fs_write_effect in Hw as [[-> _]|(_ & -> & _)]; [|..|done]; split; cbn; try done.
  intros l Hl. rewrite lookup_insert_ne; [done|congruence].
Qed.
Lemma stays_write p c : plain p -> T (names p) -> stays T (call (fun t => fs_write t p c)).
Proof.
  intros Hp HT v v' r. unfold call. destruct (fs_write _ _ _) as [t res] eqn:E1.
  intros [= <- <-]. by eapply touches_write.
Qed.
Lemma touches_remove v p t r :
  plain p -> T (names p) -> fs_remove_file (w_tree v) p = (t, r) -> touches T v (with_tree v t).
Proof.
  intros Hp HT Hw. apply fs_remove_file_effect in Hw as [[-> _]|(_ & ->)]; [|..|done]; split; cbn; try done.
  intros l Hl. rewrite lookup_delete_ne; [done|congruence].
Qed.
Lemma stays_or_remove {A} p (m : M StorageError A) :
  plain p -> T (names p) -> stays T m -> stays T (or_remove p m).
Proof.
  intros Hp HT Hm v v' r. unfold or_remove, on_world. destruct (m v) as [v1 [a|e]] eqn:E1.
  - intros [= <- <-]. by eapply Hm.
  - intros [= <- <-]. eapply touches_trans; [by eapply Hm|].
    destruct (fs_remove_file _ _) as [t res] eqn:E2. by eapply touches_remove.
Qed.
End stays.
#[export] Hint Resolve stays_bind stays_pure stays_write stays_or_remove : maxio_stays.

Lemma touches_weaken (T T' : location -> Prop) v v' :
  (forall l, T l -> T' l) -> touches T v v' -> touches T' v v'.
Proof. intros HT [F D I N]. split; auto. Qed.

(** ** Where an upload lives *)

Section upload.
Context `{EnvironmentSpec} `{CratesSpec} `{SerdeSpec} `{SerdeJson} `{AeadSpec} `{ReedSolomon}.
Context `{!HexDecode} `{!HexDecodeSpec} `{!Buffering}.
Context `{!KeyService FilesystemStorage} `{!KeyServiceSpec FilesystemStorage}.
Context (st : FilesystemStorage) (bucket upload_id : string).
Hypothesis Hst : storage_ok st.
Hypothesis Hbucket : validate_bucket_name bucket = Ok tt.
Hypothesis Hid : validate_upload_id upload_id = Ok tt.
Hypothesis Hdot : upload_id <> ".".

#[local] Existing Instance sha256_hex_of_crates.

Definition upload_location : location := bucket_location st bucket ++ [".uploads"; upload_id].
Definition part_location (n : Z) : location := upload_location ++ [pretty n].
Definition part_meta_location (n : Z) : location := upload_location ++ [pretty n +:+ ".meta.json"].

Lemma upload_id_segment : contains_char "/" upload_id = false /\ ~ blank upload_id /\ upload_id <> "..".
Proof.
  unfold validate_upload_id in Hid. case_decide as E; [done|].
  destruct (contains_char "/" upload_id) eqn:Es; [done|]. destruct (contains_char "\" upload_id); [done|].
  destruct (contains_str ".." upload_id) eqn:Ed; [done|]. split_and!; [done|by intros [?|?]|].
  intros ->. done.
Qed.

Lemma upload_dir_place : at_place (upload_dir st bucket upload_id) (bucket_location st bucket ++ [".uploads"]) upload_id.
Proof.
  destruct upload_id_segment as (Hs & Hb & Hd).
  destruct (at_place_names _ _ _ (bucket_dir_place st bucket Hst Hbucket)) as [Hp Hn].
  assert (Hu : at_place (uploads_dir st bucket) (bucket_location st bucket) ".uploads").
  { apply at_place_join; [done|done|done| |done]. by intros [?|?]. }
  apply at_place_names in Hu as [Hpu Hnu]. by apply at_place_join.
Qed.

Lemma below_upload s : contains_char "/" s = false -> ~ blank s -> s <> ".." ->
  at_place (join (upload_dir st bucket upload_id) s) upload_location s.
Proof.
  intros Hs Hb Hd. destruct (at_place_names _ _ _ upload_dir_place) as [Hp Hn].
  apply at_place_join; [done| |done..]. by rewrite Hn, <-app_assoc.
Qed.

Lemma upload_meta_place : at_place (upload_meta_path st bucket upload_id) upload_location ".meta.json".
Proof. apply below_upload; [done| |done]. by intros [?|?]. Qed.

Lemma contains_char_app c a b : contains_char c (a +:+ b) = contains_char c a || contains_char c b.
Proof.
  apply eq_true_iff_eq. unfold contains_char.
  by rewrite orb_true_iff, !bool_decide_eq_true, chars_app, elem_of_app.
Qed.

Lemma part_place n : (0 <= n)%Z -> at_place (part_path st bucket upload_id n) upload_location (pretty n).
Proof.
  intros Hn. destruct (pretty_chars n Hn) as (Hs & Hd & He).
  apply below_upload; [done| |]; [intros [?|E]|intros E]; [done|by rewrite E in Hd..].
Qed.
Lemma part_meta_place n : (0 <= n)%Z ->
  at_place (part_meta_path st bucket upload_id n) upload_location (pretty n +:+ ".meta.json").
Proof.
  intros Hn. destruct (pretty_chars n Hn) as (Hs & Hd & He).
  apply below_upload; [by rewrite contains_char_app, Hs| |];
    [intros [E|E]|intros E]; apply (f_equal (fun s => length (chars s))) in E;
    rewrite chars_app, length_app in E; cbn in E; lia.
Qed.

(** The files of different parts are different. *)
Lemma part_locations_inj n m : part_location n = part_location m -> n = m.
Proof. intros [_ E]%app_inj_2; [|done]. injection E as E. by apply (inj pretty). Qed.
Lemma part_meta_locations_inj n m : part_meta_location n = part_meta_location m -> n = m.
Proof.
  intros [_ E]%app_inj_2; [|done]. injection E as E. apply (f_equal chars) in E.
  rewrite !chars_app in E. apply app_inv_tail in E. by apply (inj chars), (inj pretty) in E.
Qed.
Lemma part_location_not_meta n m : (0 <= n)%Z -> part_location n <> part_meta_location m.
Proof.
  intros Hn [_ E]%app_inj_2; [|done]. injection E as E. destruct (pretty_chars n Hn) as (_ & Hd & _).
  rewrite E, contains_char_app, orb_comm in Hd. done.
Qed.
Lemma upload_meta_not_part n : (0 <= n)%Z ->
  upload_location ++ [".meta.json"] <> part_location n /\
  upload_location ++ [".meta.json"] <> part_meta_location n.
Proof.
  intros Hn. destruct (pretty_chars n Hn) as (_ & Hd & He).
  split; intros [_ E]%app_inj_2; try done; injection E as E.
  - by rewrite <-E in Hd.
  - apply (f_equal (fun s => length (chars s))) in E. rewrite chars_app, length_app in E.
    destruct (pretty n); [done|]. cbn in E. lia.
Qed.

(** ** The parts an upload holds *)

Definition part_aad (n : Z) : nat -> bytes := part_aad_builder sha256 upload_id n.

(** What a part's file holds for its data. *)
Definition sealed_as (cipher : option (bytes * bytes)) (aad : nat -> bytes) (data out : bytes) : Prop :=
  match cipher with
  | Some (k, p) => encrypt_chunks k p aad 0 (chunks FRAME_CHUNK_SIZE data) = Ok out
  | None => out = data
  end.

Record holds_part (cipher : option (bytes * bytes)) (t : tree) (n : Z) (data : bytes) : Prop := {
  hp_number : (1 <= n <= 10000)%Z;
  hp_payload : exists out, t_files t !! part_location n = Some (Raw out) /\
    sealed_as cipher (part_aad n) data out;
  hp_record : exists pm, t_files t !! part_meta_location n = Some (PartJson pm) /\
    pm_part_number pm = n /\ pm_etag pm = etag_of data /\ pm_size pm = Z.of_nat (length data) /\
    pm_encrypted pm = bool_decide (is_Some cipher);
}.

(** The directory holds the record [um] and the parts [parts], all sealed with
    one cipher. *)
Record represents (cipher : option (bytes * bytes)) (um : MultipartUploadMeta) (parts : gmap Z bytes)
    (t : tree) : Prop := {
  rp_reach : reach t upload_location;
  rp_meta : t_files t !! (upload_location ++ [".meta.json"]) = Some (UploadJson um);
  rp_parts n data : parts !! n = Some data -> holds_part cipher t n data;
}.

Definition of_part (n : Z) (l : location) : Prop := l = part_location n \/ l = part_meta_location n.

(** Changing the files of one part leaves the others. *)
Lemma represents_other cipher um parts n v v' :
  (1 <= n)%Z -> represents cipher um parts (w_tree v) -> touches (of_part n) v v' ->
  represents cipher um (delete n parts) (w_tree v').
Proof.
  intros Hn [Hr Hm Hp] [Hf Hd _ _]. split.
  - intros d Hd'. rewrite Hd. by apply Hr.
  - rewrite Hf; [done|]. destruct (upload_meta_not_part n) as [Hu1 Hu2]; [lia|]. by intros [?|?].
  - intros m data [Hne Hl]%lookup_delete_Some. destruct (Hp m data Hl) as [Hmn (out & Ho & Hs) (pm & Hpm & Hrec)].
    split; [done|exists out|exists pm].
    + split; [|done]. rewrite Hf; [done|].
      intros [E%part_locations_inj|E%part_location_not_meta]; [congruence|done|lia].
    + split; [|done]. rewrite Hf; [done|].
      intros [E|E%part_meta_locations_inj]; [|congruence].
      symmetry in E. apply part_location_not_meta in E; [done|lia].
Qed.

Lemma represents_put cipher um parts n data v v' :
  represents cipher um parts (w_tree v) -> touches (of_part n) v v' -> holds_part cipher (w_tree v') n data ->
  represents cipher um (<[n := data]> parts) (w_tree v').
Proof.
  intros Hrep Ht Hh. destruct (represents_other cipher um parts n v v' ltac:(destruct Hh; lia) Hrep Ht) as [Hr Hm Hp].
  split; [done..|]. intros m d [[<- <-]|[Hne Hd]]%lookup_insert_Some; [done|].
  apply Hp. by rewrite lookup_delete_ne.
Qed.

Lemma read_upload_meta_ok cipher um parts v :
  represents cipher um parts (w_tree v) -> read_upload_meta st bucket upload_id v = (v, Ok um).
Proof.
  intros [Hr Hm _]. unfold read_upload_meta, read_json, fs_read.
  rewrite (resolve_place _ _ _ _ upload_meta_place Hr). cbn. by rewrite Hm, parse_upload_json.
Qed.

(** ** Uploading a part *)

Lemma fill_part_stays n cipher body : (0 <= n)%Z ->
  stays (of_part n) (fill_part (part_path st bucket upload_id n) cipher (part_aad n) body).
Proof.
  intros Hn. destruct (at_place_names _ _ _ (part_place n Hn)) as [Hp Hnm].
  assert (HT : of_part n (names (part_path st bucket upload_id n))) by (left; by rewrite Hnm).
  unfold fill_part. apply stays_bind; [by apply stays_write|intros _].
  intros v v' r. unfold on_world. destruct (pump_to _ _ _ _ _ _) as [bw o].
  assert (Hstop : forall b e, (with_tree v (fst (fs_write (w_tree v) (part_path st bucket upload_id n) (Raw b))),
    Err e : result StorageError (bytes * bytes)) = (v', r) -> touches (of_part n) v v').
  { intros b e [= <- _]. destruct (fs_write _ _ _) as [t res] eqn:Ew. by eapply touches_write. }
  destruct o as [[[]|e]|]; [|apply Hstop..].
  destruct (finish_body _ _ _) as [[seen out]|e]; [|apply Hstop].
  apply (stays_bind _ (call _)); [by apply stays_write|intros _; apply stays_pure; auto with maxio_pure].
Qed.

Lemma fill_part_ok n cipher body v v' seen out : (0 <= n)%Z ->
  fill_part (part_path st bucket upload_id n) cipher (part_aad n) body v = (v', Ok (seen, out)) ->
  src_end (qr_inner body) = Eof /\ seen = src_data (qr_inner body) /\ sealed_as cipher (part_aad n) seen out /\
  t_files (w_tree v') !! part_location n = Some (Raw out).
Proof.
  intros Hn. destruct (at_place_names _ _ _ (part_place n Hn)) as [Hp Hnm].
  unfold fill_part. intros (u & v1 & _ & Hf)%M_bind_ok. unfold on_world in Hf.
  pose proof (pump_to_pump IO_BUFFER_SIZE map_read_quota_error (write_piece cipher (part_aad n))
    (body_fuel body) (mk_body_writer [] (mk_frame_writer [] 0 [])) body) as Hpump.
  destruct (pump_to _ _ _ _ _ _) as [bw o]. destruct o as [[[]|e]|]; [|done..].
  destruct (finish_body cipher (part_aad n) bw) as [[seen' out']|e] eqn:Ef; [|done].
  apply M_bind_ok in Hf as (u' & v2 & Hw & [= -> -> ->]).
  destruct (body_ok _ _ _ _ _ _ Hpump Ef) as (He & -> & Ho). split_and!; [done..|].
  unfold call in Hw. destruct (fs_write (w_tree v1) _ _) as [t res] eqn:Ew.
  apply fs_write_effect in Ew as [[-> Hr]|(-> & -> & _)]; [by destruct res|..|done].
  injection Hw as <- _. cbn. rewrite Hnm. apply lookup_insert_eq.
Qed.

Lemma upload_start_pure declared : pure_step (check_upload_start st declared).
Proof. unfold check_upload_start. auto 8 with maxio_pure. Qed.
Lemma wrap_pure body : pure_step (wrap_upload_reader st body).
Proof. unfold wrap_upload_reader. auto 8 with maxio_pure. Qed.
Lemma read_meta_pure : pure_step (read_upload_meta st bucket upload_id).
Proof. unfold read_upload_meta. auto with maxio_pure. Qed.
Hint Resolve upload_start_pure wrap_pure read_meta_pure : maxio_pure.

Lemma stays_fail_if {B} T b e (m : M StorageError B) :
  (b = false -> stays T m) -> stays T (_ ← fail_if b e; m).
Proof.
  destruct b; intros Hm; [|by apply Hm].
  intros v v' r [= <- <-]. apply touches_refl.
Qed.

Lemma upload_part_stays n body checksum ck declared : (0 <= n)%Z ->
  stays (of_part n) (upload_part st bucket upload_id n body checksum ck declared).
Proof.
  intros Hn.
  destruct (at_place_names _ _ _ (part_place n Hn)) as [Hp Hnp].
  destruct (at_place_names _ _ _ (part_meta_place n Hn)) as [Hpm Hnm].
  assert (Ho : of_part n (names (part_path st bucket upload_id n))) by (left; by rewrite Hnp).
  assert (Hm : of_part n (names (part_meta_path st bucket upload_id n))) by (right; by rewrite Hnm).
  unfold upload_part. do 4 (apply stays_bind; [by apply stays_pure; auto with maxio_pure|intros ?]).
  apply stays_fail_if; intros _. apply stays_bind; [by apply stays_pure; auto with maxio_pure|intros there].
  apply stays_fail_if; intros _.
  apply stays_bind; [by apply stays_pure; auto with maxio_pure|intros um].
  apply stays_bind; [by apply stays_pure; auto with maxio_pure|intros cipher].
  apply stays_bind; [by apply fill_part_stays|intros out].
  apply stays_bind; [by apply stays_or_remove; auto with maxio_pure maxio_stays|intros sums].
  apply stays_bind; [apply stays_pure; destruct cipher; auto 8 with maxio_pure|intros size].
  apply stays_bind; [apply stays_pure; unfold now_iso; auto 8 with maxio_pure|intros now].
  apply stays_bind; [by apply stays_or_remove; auto with maxio_stays|intros _].
  apply stays_pure; auto with maxio_pure.
Qed.

Lemma or_remove_ok {A} p (m : M StorageError A) v v' a :
  or_remove p m v = (v', Ok a) -> m v = (v', Ok a).
Proof. unfold or_remove, on_world. by destruct (m v) as [v1 [b|e]]; intros [= -> ->]. Qed.

Lemma call_write_ok p c v v' u : plain p -> call (fun t => fs_write t p c) v = (v', Ok u) ->
  w_tree v' = with_file (w_tree v) (names p) c.
Proof.
  intros Hp. unfold call. destruct (fs_write _ _ _) as [t res] eqn:E.
  apply fs_write_effect in E as [[-> Hr]|(-> & -> & _)]; [by destruct res|..|done]. by intros [= <- _].
Qed.

Lemma pure_tree {E A} (m : M E A) v v' r : pure_step m -> m v = (v', r) -> w_tree v' = w_tree v.
Proof. intros Hm Hr. by apply Hm in Hr as (? & _ & _). Qed.

(** What a successful upload of a part leaves, and answers. *)
Lemma upload_part_ok cipher um parts n body checksum ck declared v v' pm : (0 <= n)%Z ->
  represents cipher um parts (w_tree v) -> part_cipher st um ck = Ok cipher ->
  upload_part st bucket upload_id n body checksum ck declared v = (v', Ok pm) ->
  src_end body = Eof /\ holds_part cipher (w_tree v') n (src_data body) /\
  pm_etag pm = etag_of (src_data body) /\ pm_size pm = Z.of_nat (length (src_data body)) /\
  t_files (w_tree v') !! part_meta_location n = Some (PartJson pm).
Proof.
  intros Hn Hrep Hc. unfold upload_part.
  destruct (at_place_names _ _ _ (part_place n Hn)) as [Hp Hnp].
  destruct (at_place_names _ _ _ (part_meta_place n Hn)) as [Hpm Hnm].
  intros (u1 & v1 & [_ ->]%lift_ok & Hr)%M_bind_ok. apply M_bind_ok in Hr as (u2 & v2 & [_ ->]%lift_ok & Hr).
  apply M_bind_ok in Hr as (u3 & v3 & E3 & Hr). apply pure_tree in E3 as F3; [|apply upload_start_pure].
  apply M_bind_ok in Hr as (qr & v4 & E4 & Hr). apply pure_tree in E4 as F4; [|apply wrap_pure].
  injection E4 as _ <-.
  apply M_bind_ok in Hr as (u5 & v5 & [Hn5 ->]%fail_if_ok & Hr). apply orb_false_iff in Hn5 as [Hn0 Hn1].
  apply M_bind_ok in Hr as (there & v6 & [= <- _] & Hr).
  apply M_bind_ok in Hr as (u7 & v7 & [_ ->]%fail_if_ok & Hr).
  assert (Hrep4 : represents cipher um parts (w_tree v4)) by (by rewrite F4, F3).
  rewrite (run_ok _ _ _ _ _ (read_upload_meta_ok _ _ _ _ Hrep4)), (run_lift _ _ _ _ Hc) in Hr.
  apply M_bind_ok in Hr as ([seen out] & v8 & Hfill & Hr).
  apply fill_part_ok in Hfill as (He & -> & Hs & Hf); [|done]. cbn in He, Hs, Hf. cbn [fst] in Hr.
  apply M_bind_ok in Hr as (sums & v9 & [_ ->]%or_remove_ok%lift_ok & Hr).
  apply M_bind_ok in Hr as (csize & v10 & E10 & Hr).
  apply pure_tree in E10 as F10; [|destruct cipher; auto 8 with maxio_pure].
  apply M_bind_ok in Hr as (now & v11 & [= <- <-] & Hr).
  apply M_bind_ok in Hr as (u12 & v12 & Hw%or_remove_ok & [= <- <-]).
  apply call_write_ok in Hw; [|done]. cbn in Hw. rewrite Hnm in Hw.
  cbn [pm_etag pm_size]. split_and!; try done.
  2:{ rewrite Hw. cbn. apply lookup_insert_eq. }
  apply Z.eqb_neq in Hn0. apply Z.ltb_ge in Hn1. split.
  - lia.
  - exists out. split; [|done]. rewrite Hw. cbn. rewrite lookup_insert_ne; [by rewrite F10|].
    apply not_eq_sym. by apply part_location_not_meta.
  - rewrite Hw. cbn. rewrite lookup_insert_eq. by eexists.
Qed.

(** ** Completing the upload *)

Definition part_reads (s : part_stream) (data : bytes) : Prop :=
  match s with
  | PlainPart s => src_data s = data /\ src_end s = Eof
  | SealedPart d => reads d data Eof /\ fd_remaining d = length data
  end.

Lemma pump_part_reads {A} (f : A -> bytes -> result StorageError A) a s data :
  part_reads s data ->
  exists pieces, concat pieces = data /\ pump_part f a s = fold_result f a pieces.
Proof.
  destruct s as [s|d]; cbn [part_reads pump_part].
  - intros [<- He]. destruct (pump_reads IO_BUFFER_SIZE Io f
      (S (length (src_data s) + waits (src_schedule s))) a s (src_data s) Eof) as (pieces & Hc & ->);
      [apply io_buffer_pos|by split|by cbn; lia|].
    exists pieces. split; [done|]. by destruct (fold_result _ _ _).
  - intros [Hr Hl]. destruct (pump_reads IO_BUFFER_SIZE Io f (S (fd_remaining d + patience d)) a d data Eof)
      as (pieces & Hc & ->); [apply io_buffer_pos|done|by rewrite Hl; lia|].
    exists pieces. split; [done|]. by destruct (fold_result _ _ _).
Qed.

(** The parts are one stream for the loop. *)
Lemma copy_parts_reads {A} stream (f : A -> bytes -> result StorageError A) selected datas a md5s :
  Forall2 (fun part data => (exists s, stream part = Ok s /\ part_reads s data) /\
             hex_decode (trim_quotes (pm_etag part)) = Some (md5 data)) selected datas ->
  exists pieces, concat pieces = concat datas /\
    copy_parts stream f selected a md5s =
      (a ← fold_result f a pieces; Ok (a, md5s ++ concat (map md5 datas))).
Proof.
  intros Hall. revert a md5s. induction Hall as [|part data selected datas [(s & Hs & Hd) Hx] _ IH]; intros a md5s.
  { exists []. split; [done|]. cbn. by rewrite app_nil_r. }
  destruct (pump_part_reads f a s data Hd) as (pieces & Hc & Hp). cbn [copy_parts map concat].
  rewrite Hs. cbn [mbind result_bind]. rewrite Hp.
  destruct (fold_result f a pieces) as [a'|e] eqn:E.
  - destruct (IH a' (md5s ++ md5 data)) as (pieces' & Hc' & IH').
    exists (pieces ++ pieces'). split; [by rewrite concat_app, Hc, Hc'|].
    rewrite Hx. cbn. rewrite IH', fold_result_app, E. cbn. by rewrite app_assoc.
  - exists (pieces ++ datas). split; [by rewrite concat_app, Hc|]. by rewrite fold_result_app, E.
Qed.

(** The etag of a part reads back as its MD5. *)
Lemma drop_quotes_none l : "034"%char ∉ l -> drop_quotes l = l.
Proof. destruct l as [|c l]; [done|]. intros Hc. cbn. rewrite decide_False; [done|]. intros ->. apply Hc. by left. Qed.
Lemma trim_quoted h : contains_char "034" h = false -> trim_quotes (dquote +:+ h +:+ dquote) = h.
Proof.
  intros Hq. unfold contains_char in Hq. apply bool_decide_eq_false in Hq.
  unfold trim_quotes. rewrite !chars_app. change (chars dquote) with ["034"%char]. cbn [app drop_quotes].
  rewrite decide_True by done. destruct (chars h) as [|c l] eqn:E.
  - cbn. apply (f_equal of_chars) in E. by rewrite of_chars_chars in E.
  - assert (Hc : c <> "034"%char) by (intros ->; apply Hq; by left).
    cbn [app drop_quotes]. rewrite decide_False by done.
    rewrite app_comm_cons, rev_unit. cbn [drop_quotes]. rewrite decide_True by done.
    rewrite drop_quotes_none, rev_involutive, <-E; [by rewrite of_chars_chars|].
    by rewrite elem_of_rev.
Qed.

Lemma part_etag_md5 data : hex_decode (trim_quotes (etag_of data)) = Some (md5 data).
Proof. unfold etag_of. rewrite trim_quoted by apply hex_encode_quotes. apply hex_decode_encode. Qed.

(** A part requested by number and etag, and the data it was uploaded with. *)
Definition requests (parts : gmap Z bytes) (request : Z * string) (data : bytes) : Prop :=
  parts !! fst request = Some data.
Definition selects (cipher : option (bytes * bytes)) (part : PartMeta) (request : Z * string) : Prop :=
  pm_part_number part = fst request /\ pm_etag part = snd request /\
  pm_encrypted part = bool_decide (is_Some cipher).
Definition records (part : PartMeta) (data : bytes) : Prop :=
  pm_etag part = etag_of data /\ pm_size part = Z.of_nat (length data).

Lemma read_part_meta_ok cipher um parts n data v :
  represents cipher um parts (w_tree v) -> parts !! n = Some data ->
  exists pm, read_part_meta st bucket upload_id n v = (v, Ok pm) /\ pm_part_number pm = n /\
    records pm data /\ pm_encrypted pm = bool_decide (is_Some cipher).
Proof.
  intros Hrep Hd. destruct (rp_parts _ _ _ _ Hrep n data Hd) as [Hn _ (pm & Hf & Hnum & He & Hs & Henc)].
  exists pm. split; [|by split_and!]. unfold read_part_meta, read_json, fs_read.
  rewrite (resolve_place _ _ _ _ (part_meta_place n ltac:(lia)) (rp_reach _ _ _ _ Hrep)). cbn.
  unfold part_meta_location in Hf. by rewrite Hf, parse_part_json.
Qed.

Lemma select_parts_ok cipher um parts l datas v v' selected :
  represents cipher um parts (w_tree v) -> Forall2 (requests parts) l datas ->
  select_parts st bucket upload_id l v = (v', Ok selected) ->
  v' = v /\ Forall2 (selects cipher) selected l /\ Forall2 records selected datas.
Proof.
  intros Hrep Hl. revert selected v'. induction Hl as [|[n etag] data l datas Hd _ IH]; intros selected v'; cbn [select_parts].
  { by intros [= <- <-]. }
  destruct (read_part_meta_ok _ _ _ _ _ _ Hrep Hd) as (pm & Hr & Hn & Hrec & Henc).
  rewrite (run_ok _ _ _ _ _ Hr). intros (u1 & v1 & [Hetag ->]%fail_if_ok & Hs)%M_bind_ok.
  apply M_bind_ok in Hs as (u2 & v2 & [_ ->]%fail_if_ok & Hs).
  apply M_bind_ok in Hs as (sel & v3 & Hs & [= <- <-]). apply IH in Hs as (-> & H1' & H2').
  apply negb_false_iff, bool_decide_eq_true in Hetag. split; [done|]. split; constructor; try done.
Qed.

Lemma part_cipher_prefix um ck k p : part_cipher st um ck = Ok (Some (k, p)) -> length p = 4 \/ length p = 8.
Proof.
  unfold part_cipher. destruct (mu_encryption_spec um) as [spec|]; [|done].
  intros (dek & _ & Hc)%result_bind_ok. apply result_bind_ok in Hc as (prefix & _ & Hc).
  destruct (Nat.eqb_spec (length prefix) 4), (Nat.eqb_spec (length prefix) 8); cbn in Hc; try done;
    injection Hc as <- <-; auto.
Qed.
Lemma upload_key_cipher um ck cipher : part_cipher st um ck = Ok cipher -> upload_key st um ck = Ok (fst <$> cipher).
Proof.
  unfold part_cipher, upload_key. destruct (mu_encryption_spec um) as [spec|]; [|by intros [= <-]].
  intros (dek & -> & Hc)%result_bind_ok. apply result_bind_ok in Hc as (prefix & _ & Hc).
  case_match; [done|]. by injection Hc as <-.
Qed.

(** Data short enough for the frame index of an 8-byte prefix. *)
Definition part_bound (data : bytes) : Prop := (Z.of_nat (length data) <= 2 ^ 47)%Z.

Lemma bounded_nonce_format p data : length p = 4 \/ length p = 8 -> part_bound data ->
  nonce_format p (frame_count (length data) FRAME_CHUNK_SIZE).
Proof.
  intros Hp Hd. assert (Hf : frame_count (length data) FRAME_CHUNK_SIZE <= Z.to_nat (2 ^ 31)).
  { apply frame_count_le; [apply frame_size_pos|]. unfold part_bound, FRAME_CHUNK_SIZE in *. nia. }
  destruct Hp as [Hp|Hp]; [left|right]; (split; [done|]); unfold u32_max; lia.
Qed.

Lemma open_part_ok cipher um parts t ck part n data :
  represents cipher um parts t -> part_cipher st um ck = Ok cipher ->
  parts !! n = Some data -> part_bound data -> pm_part_number part = n -> records part data ->
  pm_encrypted part = bool_decide (is_Some cipher) ->
  exists s, open_part st t bucket upload_id (fst <$> cipher) part = Ok s /\ part_reads s data.
Proof.
  intros Hrep Hc Hd Hb Hn [_ Hsize] Henc.
  destruct (rp_parts _ _ _ _ Hrep n data Hd) as [Hnum (out & Hf & Hs) _].
  assert (Hopen : open_file t (part_path st bucket upload_id n) = Ok (mk_source out Eof [])).
  { unfold open_file, fs_read.
    rewrite (resolve_place _ _ _ _ (part_place n ltac:(lia)) (rp_reach _ _ _ _ Hrep)). cbn.
    unfold part_location in Hf. by rewrite Hf, file_bytes_raw. }
  unfold open_part, open_plain. rewrite Henc, Hn, Hopen.
  destruct cipher as [[k p]|]; cbn in Hs |- *.
  - eexists. split; [done|]. cbn [part_reads]. rewrite Hsize, Nat2Z.id. split; [|done].
    apply part_cipher_prefix in Hc.
    destruct (decrypt_reads (R := source) FRAME_CHUNK_SIZE k p (part_aad n) data out) as [_ Hr];
      [apply frame_size_pos|by apply bounded_nonce_format|done|]. by apply Hr.
  - eexists. split; [done|]. by subst out.
Qed.

(** All the parts named, opened in turn. *)
Lemma open_parts_ok cipher um parts t ck l selected datas :
  represents cipher um parts t -> part_cipher st um ck = Ok cipher -> Forall part_bound datas ->
  Forall2 (requests parts) l datas -> Forall2 (selects cipher) selected l -> Forall2 records selected datas ->
  Forall2 (fun part data =>
      (exists s, open_part st t bucket upload_id (fst <$> cipher) part = Ok s /\ part_reads s data) /\
      hex_decode (trim_quotes (pm_etag part)) = Some (md5 data)) selected datas.
Proof.
  intros Hrep Hc Hb Hl Hs Hr. revert l Hl Hs Hb. induction Hr as [|part data selected datas Hrec _ IH];
    intros l Hl Hs Hb; [constructor|].
  inversion Hs as [|? [n etag] ? l' (Hn & _ & He) Hs']; subst. inversion Hl as [|? ? ? ? Hd Hl']; subst.
  apply Forall_cons in Hb as [Hb Hbs]. constructor; [split|by eapply IH].
  - by eapply open_part_ok.
  - destruct Hrec as [-> _]. apply part_etag_md5.
Qed.

(** ** The object published *)

Section object.
Context (um : MultipartUploadMeta) (F : location) (s : string) (w0 : world).
Local Abbreviation key := (mu_key um).
Local Abbreviation P := (bucket_location st bucket ++ F).
Hypothesis op_place : at_place (object_path st bucket key) P s.
Hypothesis mp_place : at_place (meta_path st bucket key) P (s +:+ ".meta.json").
Hypothesis names_ok : Forall (fun s => starts_with s ".maxio-tmp-" = false) (P ++ [s; s +:+ ".meta.json"]).
Hypothesis unreserved : Forall (fun s => is_reserved_segment s = false) (F ++ [s]).

Local Abbreviation quiet := (base P s (s +:+ ".meta.json") w0 (temp P w0)).
Local Abbreviation done_ := (base P s (s +:+ ".meta.json") w0 (either P s (s +:+ ".meta.json") w0)).

(** The object is not among the files of the upload. *)
Lemma upload_not_above : ~ upload_location `prefix_of` P.
Proof.
  intros [r Hr]. unfold upload_location in Hr. rewrite <-!app_assoc in Hr. apply app_inv_head in Hr.
  apply Forall_app in unreserved as [HF _]. rewrite Hr in HF. by apply Forall_cons in HF as [? _].
Qed.
Lemma object_apart a b : P ++ [a] <> upload_location ++ [b].
Proof.
  intros [E _]%app_inj_2; [|done]. apply upload_not_above. exists []. by rewrite app_nil_r.
Qed.
Lemma object_not_below : ~ upload_location `prefix_of` P ++ [s].
Proof.
  intros [r Hr]. unfold upload_location in Hr. rewrite <-!app_assoc in Hr. apply app_inv_head in Hr.
  rewrite Hr in unreserved. by apply Forall_cons in unreserved as [? _].
Qed.
Lemma sidecar_not_below : ~ upload_location `prefix_of` P ++ [s +:+ ".meta.json"].
Proof.
  intros [r Hr]. unfold upload_location in Hr. rewrite <-!app_assoc in Hr. apply app_inv_head in Hr.
  destruct F as [|f F']; [cbn in Hr; by injection Hr|]. injection Hr as -> _.
  by apply Forall_cons in unreserved as [? _].
Qed.

Lemma represents_base cipher parts (T : location -> Prop) v :
  (forall l, T l -> exists a, l = P ++ [a]) -> base P s (s +:+ ".meta.json") w0 T v ->
  represents cipher um parts (w_tree w0) -> represents cipher um parts (w_tree v).
Proof.
  intros HT Hb [Hr Hm Hp].
  assert (Hf : forall b, t_files (w_tree v) !! (upload_location ++ [b]) = t_files (w_tree w0) !! (upload_location ++ [b])).
  { intros b. apply (b_files _ _ _ _ _ _ Hb). intros Ht. destruct (HT _ Ht) as [a Ha]. by apply (object_apart a b). }
  split.
  - intros d Hd. apply (b_dirs _ _ _ _ _ _ Hb). by apply Hr.
  - by rewrite Hf.
  - intros n data Hd. destruct (Hp n data Hd) as [Hn Hpay Hrec].
    split; [done|unfold part_location|unfold part_meta_location]; by rewrite Hf.
Qed.
Lemma temp_below l : temp P w0 l -> exists a, l = P ++ [a].
Proof. intros (n & _ & ->). by eexists. Qed.

(** The encryption of the object, when there is one. *)
Definition enc_with (ck : option bytes) (enc : option (EncryptionMeta * (bytes * bytes))) : Prop :=
  match enc with
  | None => mu_encryption_spec um = None
  | Some (em, (dek, prefix)) => is_Some (mu_encryption_spec um) /\
      ks_resolve st em ck = Ok dek /\ em_chunk_size em = 65536%Z /\ length prefix = 8
  end.

Lemma object_encryption_pure ck : pure_step (object_encryption st um ck).
Proof.
  unfold object_encryption, prepare_object_encryption. destruct (mu_encryption_spec um); [|apply pure_ret].
  apply pure_bind; [apply pure_lift|intros req]. apply pure_bind; [|auto 8 with maxio_pure].
  intros v v' r. unfold on_world. destruct (ks_prepare st req v) as [v1 [em|e]] eqn:E;
    intros [= <- <-]; by eapply ks_prepare_world.
Qed.
Lemma object_encryption_ok ck v v' enc : object_encryption st um ck v = (v', Ok enc) -> enc_with ck enc.
Proof.
  unfold object_encryption. destruct (mu_encryption_spec um) as [spec|] eqn:Es; [|by intros [= _ <-]].
  intros (req & v1 & [_ ->]%lift_ok & Hr)%M_bind_ok.
  apply M_bind_ok in Hr as (em & v2 & Hem & Hr). apply M_bind_ok in Hr as (dek & v3 & [Hd ->]%lift_ok & Hr).
  apply M_bind_ok in Hr as (prefix & v4 & [Hp%ok_or_ok ->]%lift_ok & [= _ <-]).
  unfold prepare_object_encryption, on_world in Hem.
  destruct (ks_prepare st req v) as [v5 [em'|e]] eqn:E; [|done]. injection Hem as -> ->.
  split_and!; [by rewrite Es|done|by eapply ks_prepare_chunk_size|by eapply ks_prepare_prefix].
Qed.

(** The copy of the parts to a temporary file, then publication. *)
Definition copied_block (tmp : string) (selected : list PartMeta) (upload_dek : option bytes)
    (enc : option (EncryptionMeta * (bytes * bytes))) : M StorageError ObjectMeta :=
  _ ← call (fun t => fs_write t tmp (Raw []));
  t ← get_tree;
  let cipher := snd <$> enc in
  let aad := object_aad_builder sha256 bucket key None in
  copied ← lift (copy_parts (open_part st t bucket upload_id upload_dek) (write_piece cipher aad)
                   selected (mk_body_writer [] (mk_frame_writer [] 0 [])) []);
  let '(bw, md5s) := copied in
  out ← lift (finish_body cipher aad bw);
  _ ← call (fun t => fs_write t tmp (Raw (snd out)));
  now ← now_iso;
  let meta := completed_meta um selected (length (fst out)) md5s now None None (fst <$> enc) in
  let meta := match cipher with Some (dek, _) => seal_sidecar dek meta | None => meta end in
  _ ← publish_object st tmp (object_path st bucket key) false bucket key meta;
  mret meta.

(** The fields of the sidecar the download relies on, sealed or not. *)
Lemma completed_sidecar selected size md5s now (em_dek : option (EncryptionMeta * (bytes * bytes))) :
  let meta := completed_meta um selected size md5s now None None (fst <$> em_dek) in
  let meta := match snd <$> em_dek with Some (dek, _) => seal_sidecar dek meta | None => meta end in
  om_size meta = Z.of_nat size /\ om_version_id meta = None /\ om_etag meta = multipart_etag md5s selected /\
  match em_dek with
  | None => om_encryption meta = None
  | Some (em, (dek, _)) => (exists mac, om_encryption meta = Some (with_sidecar_mac em mac)) /\
      verify_sidecar_mac meta dek = Ok tt
  end.
Proof.
  cbn zeta. destruct em_dek as [[em [dek p]]|]; cbn [fmap option_fmap option_map fst snd]; [|done].
  set (m0 := completed_meta _ _ _ _ _ _ _ _).
  assert (E0 : om_encryption m0 = Some em) by done.
  destruct (seal_sidecar_ok dek m0 em E0) as (mac & Hs & Hver). rewrite Hs in Hver |- *.
  split_and!; [done|done|done|by exists mac|exact Hver].
Qed.

Lemma copied_block_spec cipher parts ck tmp np l datas selected enc v v' r :
  represents cipher um parts (w_tree w0) -> part_cipher st um ck = Ok cipher -> Forall part_bound datas ->
  Forall2 (requests parts) l datas -> Forall2 (selects cipher) selected l -> Forall2 records selected datas ->
  quiet v -> at_place tmp P (temp_name np) -> w_tick w0 <= np -> np < w_tick v ->
  copied_block tmp selected (fst <$> cipher) enc v = (v', r) ->
  match r with
  | Err _ => quiet v'
  | Ok meta => done_ v' /\ stored bucket key P s (concat datas) enc meta (w_tree v') /\
      om_etag meta = multipart_etag (concat (map md5 datas)) selected
  end.
Proof.
  intros Hrep Hc Hb Hl Hsel Hrec Hv Htmp Hn Hlt. unfold copied_block. unfold mbind at 1, M_bind at 1.
  destruct (call (fun t => fs_write t tmp (Raw [])) v) as [v1 r1] eqn:E1.
  apply (write_temp P s (s +:+ ".meta.json") w0 tmp np _ v v1 _ Htmp Hn Hv) in E1 as (Hv1 & T1 & _ & _).
  destruct r1 as [u1|e1]; [|by intros [= <- <-]].
  rewrite (run_ok get_tree _ v1 v1 (w_tree v1)) by done.
  pose proof (represents_base cipher parts _ v1 temp_below Hv1 Hrep) as Hrep1.
  destruct (copy_parts_reads (open_part st (w_tree v1) bucket upload_id (fst <$> cipher))
    (write_piece (snd <$> enc) (object_aad_builder sha256 bucket key None)) selected datas
    (mk_body_writer [] (mk_frame_writer [] 0 [])) []) as (pieces & Hpc & Hcopy); [by eapply open_parts_ok|].
  rewrite Hcopy. destruct (fold_result _ _ pieces) as [bw|e] eqn:Ef; [|by intros [= <- <-]].
  cbn [mbind result_bind]. rewrite (run_lift _ _ _ _ eq_refl).
  destruct (finish_body _ _ bw) as [[seen out]|e] eqn:Eo; [|by intros [= <- <-]].
  rewrite (run_lift _ _ _ _ eq_refl). destruct (pieces_ok _ _ _ _ _ _ Ef Eo) as [-> Hout].
  rewrite Hpc in Hout |- *. cbn [fst snd app]. unfold mbind at 1, M_bind at 1.
  destruct (call (fun t => fs_write t tmp (Raw out)) v1) as [v2 r2] eqn:E2.
  apply (write_temp P s (s +:+ ".meta.json") w0 tmp np _ v1 v2 _ Htmp Hn Hv1) in E2 as (Hv2 & T2 & _ & R2).
  destruct r2 as [[]|e2]; [|by intros [= <- <-]].
  unfold now_iso, mbind, M_bind, tick. set (v3 := mk_world (w_tree v2) (w_index v2) (S (w_tick v2))).
  assert (Hv3 : quiet v3) by (eapply base_pure; [exact Hv2|done|done|cbn; lia]). cbn [mret M_ret].
  pose proof (completed_sidecar selected (length (concat datas)) (concat (map md5 datas)) (now_string (w_tick v2)) enc)
    as (HS & HV & HE & HM).
  match goal with |- context [publish_object st tmp _ false bucket key ?m] => set (meta := m) in * end.
  destruct (publish_object st tmp _ false bucket key meta v3) as [v4 r4] eqn:E4.
  apply (publish_object_spec st bucket key P s w0 op_place mp_place names_ok tmp np (Raw out) meta v3 v4 r4 Hv3 Htmp Hn) in E4;
    [|cbn; lia|by apply R2].
  destruct r4 as [u4|e4]; [|by intros [= <- <-]]. intros [= <- <-]. destruct E4 as (Hd & Ho & Hm & Hr).
  split_and!; [done| |exact HE]. split; [done|done|done|done|].
  destruct enc as [[em [dek p]]|]; cbn in Hout; [|by rewrite Ho, Hout].
  destruct HM as [Hmac Hver]. split_and!; [done|done|]. by exists out.
Qed.

(** ** The end of the completion *)

Lemma remove_upload_ok v v' u :
  call (fun t => fs_remove_dir_all t (upload_dir st bucket upload_id)) v = (v', Ok u) ->
  v' = with_tree v (remove_tree (w_tree v) upload_location).
Proof.
  pose proof upload_dir_place as Hplace. destruct (at_place_names _ _ _ Hplace) as [Hp Hn].
  rewrite <-app_assoc in Hn. unfold call, fs_remove_dir_all.
  destruct (resolve (w_tree v) _) as [l|e] eqn:Er; [|done].
  apply resolve_names in Er as ->; [|done]. rewrite Hn. case_decide; [|done].
  assert (ends_in_dot (upload_dir st bucket upload_id) = false) as ->.
  { destruct Hplace as (l & E & _). unfold ends_in_dot. rewrite E, last_snoc.
    apply bool_decide_eq_false. congruence. }
  by intros [= <- _].
Qed.

Lemma remove_keeps t d : d `prefix_of` P -> d ∈ t_dirs t -> d ∈ t_dirs (remove_tree t upload_location).
Proof.
  intros Hd Hin. cbn. apply elem_of_filter. split; [|done]. intros Hu.
  apply upload_not_above. by etrans.
Qed.
Lemma stored_remove data enc meta t :
  stored bucket key P s data enc meta t -> stored bucket key P s data enc meta (remove_tree t upload_location).
Proof.
  assert (Hkeep : forall l c, ~ upload_location `prefix_of` l -> t_files t !! l = Some c ->
    t_files (remove_tree t upload_location) !! l = Some c) by (intros; by apply map_lookup_filter_Some).
  intros [Hr Hm Hs Hv He]. split; [|..|done|done|].
  - intros d Hd. apply remove_keeps; [done|]. by apply Hr.
  - apply Hkeep; [apply sidecar_not_below|done].
  - destruct enc as [[em [dek p]]|].
    + destruct He as (Hmac & Hver & ct & Hct & Hc). split_and!; [done|done|]. exists ct.
      split; [|done]. apply Hkeep; [apply object_not_below|done].
    + destruct He as [He Hf]. split; [done|]. apply Hkeep; [apply object_not_below|done].
Qed.
End object.

Section complete.
Context (um : MultipartUploadMeta) (w : world).
Hypothesis Hkey : object_key (mu_key um).
Hypothesis Hflat : flat_bucket st bucket (w_tree w).
Hypothesis Hdirs : no_dirs st bucket (mu_key um) w.

Lemma complete_flat_ok cipher parts ck l datas selected v v' res :
  represents cipher um parts (w_tree w) -> part_cipher st um ck = Ok cipher -> Forall part_bound datas ->
  Forall2 (requests parts) l datas -> Forall2 (selects cipher) selected l -> Forall2 records selected datas ->
  w_tree v = w_tree w -> w_index v = w_index w -> w_tick w <= w_tick v ->
  complete_multipart_flat st bucket upload_id um selected ck v = (v', Ok res) ->
  exists P s enc meta,
    at_place (object_path st bucket (mu_key um)) P s /\
    at_place (meta_path st bucket (mu_key um)) P (s +:+ ".meta.json") /\
    enc_with um ck enc /\ stored bucket (mu_key um) P s (concat datas) enc meta (w_tree v') /\
    om_etag meta = multipart_etag (concat (map md5 datas)) selected /\ res = put_result meta /\
    (names (ec_dir st bucket (mu_key um)) ∉ t_dirs (w_tree v')) /\ (upload_location ∉ t_dirs (w_tree v')).
Proof.
  intros Hrep Hc Hb Hl Hsel Hrec Ht Hi Hk Hr.
  destruct (object_place st bucket Hst Hbucket _ Hkey) as (F & s & Ho & Hm & He & _ & Hres & Hnames).
  assert (Hq : base (bucket_location st bucket ++ F) s (s +:+ ".meta.json") w
    (temp (bucket_location st bucket ++ F) w) w) by (by eapply start_quiet).
  unfold complete_multipart_flat in Hr.
  apply M_bind_ok in Hr as (u1 & v1 & [_ ->]%lift_ok & Hr). apply M_bind_ok in Hr as (u2 & v2 & [_ ->]%lift_ok & Hr).
  rewrite (run_lift _ _ _ _ (upload_key_cipher _ _ _ Hc)) in Hr.
  apply M_bind_ok in Hr as (enc & v3 & E3 & Hr).
  pose proof (object_encryption_ok _ _ _ _ _ E3) as Henc. apply object_encryption_pure in E3 as (F3 & I3 & T3).
  destruct (flat_settings st bucket w Hbucket Hflat v3) as [Hver _]; [congruence|].
  rewrite (run_ok _ _ _ _ _ Hver) in Hr. cbn [new_version_id] in Hr.
  rewrite (run_ok (mret None) _ v3 v3 None eq_refl) in Hr.
  assert (Hq3 : base (bucket_location st bucket ++ F) s (s +:+ ".meta.json") w
    (temp (bucket_location st bucket ++ F) w) v3) by (eapply base_pure; [exact Hq|congruence|congruence|lia]).
  apply M_bind_ok in Hr as (u4 & v4 & E4 & Hr).
  apply (create_parent_spec _ s (s +:+ ".meta.json") w Hnames (temp _ w) _ _ _ _ _ Ho Hq3) in E4 as (Hq4 & _ & _ & T4 & _).
  destruct (temp_sibling _ _ _ v4 Ho) as (tmp & Etmp & Htmp). rewrite (run_ok _ _ _ _ _ Etmp) in Hr.
  set (v5 := mk_world (w_tree v4) (w_index v4) (S (w_tick v4))) in *.
  assert (Hq5 : base (bucket_location st bucket ++ F) s (s +:+ ".meta.json") w
    (temp (bucket_location st bucket ++ F) w) v5) by (eapply base_pure; [exact Hq4|done..|cbn; lia]).
  pose proof (b_tick _ _ _ _ _ _ Hq4) as Ht4.
  apply M_bind_ok in Hr as (meta & v6 & E6 & Hr).
  assert (Hblock : forall u r', copied_block um tmp selected (fst <$> cipher) enc v5 = (u, r') ->
    match r' with
    | Err _ => base (bucket_location st bucket ++ F) s (s +:+ ".meta.json") w (temp (bucket_location st bucket ++ F) w) u
    | Ok meta => base (bucket_location st bucket ++ F) s (s +:+ ".meta.json") w
          (either (bucket_location st bucket ++ F) s (s +:+ ".meta.json") w) u /\
        stored bucket (mu_key um) (bucket_location st bucket ++ F) s (concat datas) enc meta (w_tree u) /\
        om_etag meta = multipart_etag (concat (map md5 datas)) selected
    end).
  { intros u r' Hbl. eapply (copied_block_spec um F s w Ho Hm Hnames Hres cipher parts ck tmp (w_tick v4));
      [done..|cbn; lia|exact Hbl]. }
  apply (guarded_spec _ s (s +:+ ".meta.json") w tmp (w_tick v4) _ v5 v6 (Ok meta) Htmp Ht4) in E6;
    [|intros u e Hbl; by apply Hblock in Hbl].
  apply Hblock in E6 as (Hd & Hs & Hetag).
  apply M_bind_ok in Hr as (u7 & v7 & [= <- _] & Hr). apply M_bind_ok in Hr as (u8 & v8 & E8 & Hr).
  apply remove_upload_ok in E8 as ->. apply M_bind_ok in Hr as (u9 & v9 & [= <- _] & [= <- <-]).
  exists (bucket_location st bucket ++ F), s, enc, meta. cbn [w_tree with_tree].
  split_and!; try done.
  - by eapply stored_remove.
  - intros [_ Hin]%elem_of_filter.
    by apply (chunks_absent st bucket (mu_key um) w Hdirs _ s _ _ He Hd) in Hin.
  - intros [Hin _]%elem_of_filter. by apply Hin.
Qed.
End complete.

(** A new upload holds no part. *)
Lemma created_represents cipher key content_type algo spec w w' um :
  create_multipart_upload st bucket key content_type algo spec w = (w', Ok um) ->
  mu_upload_id um = upload_id -> represents cipher um ∅ (w_tree w').
Proof.
  unfold create_multipart_upload. intros (u1 & v1 & [_ ->]%lift_ok & Hr)%M_bind_ok Hid'.
  apply M_bind_ok in Hr as (u2 & v2 & [_ ->]%lift_ok & Hr).
  apply M_bind_ok in Hr as (n & v3 & [= <- <-] & Hr).
  apply M_bind_ok in Hr as (u4 & v4 & E4 & Hr). apply M_bind_ok in Hr as (spec' & v5 & E5 & Hr).
  apply M_bind_ok in Hr as (now & v6 & [= <- <-] & Hr). apply M_bind_ok in Hr as (u7 & v7 & E7 & [= <- <-]).
  cbn in Hid'. rewrite Hid' in *.
  destruct (at_place_names _ _ _ upload_meta_place) as [Hp Hn].
  apply call_write_ok in E7; [|done]. cbn in E7.
  destruct (at_place_names _ _ _ upload_dir_place) as [Hpd Hnd]. rewrite <-app_assoc in Hnd.
  unfold call in E4. destruct (fs_create_dir_all _ _) as [t res] eqn:Ec. injection E4 as <- E4.
  apply fs_create_dir_all_effect in Ec as (_ & _ & _ & Hreach); [|done].
  assert (Hpure : w_tree v5 = t).
  { assert (Hs : pure_step (match spec with Some spec => s ← augment_spec st spec; mret (Some s) | None => mret None end)).
    { destruct spec as [sp|]; [|auto with maxio_pure]. apply pure_bind; [|auto with maxio_pure].
      unfold augment_spec. apply pure_bind; [apply pure_rand|intros p]. cbn zeta.
      destruct (ue_mode _); repeat (apply pure_bind; [first [apply pure_rand|apply pure_lift]|intros ?]);
        auto with maxio_pure. }
    by apply Hs in E5 as (-> & _ & _). }
  split; [|..|by intros ? ? ?].
  - intros d Hd. rewrite E7. cbn. rewrite Hpure. apply Hreach; [by destruct res as [[]|]|]. by rewrite Hnd.
  - rewrite E7. cbn. rewrite Hn. apply lookup_insert_eq.
Qed.
End upload.

(** ** The claims *)

Section claims.
Context `{EnvironmentSpec} `{CratesSpec} `{SerdeSpec} `{SerdeJson} `{AeadSpec} `{ReedSolomon}.
Context `{!HexDecode} `{!HexDecodeSpec} `{!Buffering}.
Context `{!KeyService FilesystemStorage} `{!KeyServiceSpec FilesystemStorage}.

#[local] Existing Instance sha256_hex_of_crates.

(** C18: an upload in progress refines a finite map from part numbers to data.
    Uploading a part, whatever its outcome, is a step of that map: it sets the
    part to the bytes of the body when it succeeds, at most forgets that part
    when it fails, and changes no file but the two of the part, no directory and
    not the metadata index. *)
Theorem upload_part_refines st bucket upload_id cipher um parts n body checksum ck declared w w' r :
  storage_ok st -> validate_bucket_name bucket = Ok tt -> validate_upload_id upload_id = Ok tt ->
  upload_id <> "." -> (0 <= n)%Z ->
  represents st bucket upload_id cipher um parts (w_tree w) -> part_cipher st um ck = Ok cipher ->
  upload_part st bucket upload_id n body checksum ck declared w = (w', r) ->
  represents st bucket upload_id cipher um
    (match r with Ok _ => <[n := src_data body]> parts | Err _ => delete n parts end) (w_tree w') /\
  touches (of_part st bucket upload_id n) w w'.
Proof.
  intros Hst Hb Hid Hdot Hn Hrep Hc Hu.
  assert (Htouch : touches (of_part st bucket upload_id n) w w') by (by eapply upload_part_stays).
  split; [|done]. destruct r as [pm|e].
  - destruct (upload_part_ok st bucket upload_id Hst Hb Hid Hdot cipher um parts n body checksum ck declared w w' pm)
      as (_ & Hh & _ & _ & _); [done..|].
    by eapply represents_put.
  - destruct (decide (1 <= n)%Z) as [Hn1|Hn1]; [by eapply represents_other|].
    assert (n = 0)%Z as -> by lia.
    assert (w_tree w' = w_tree w) as ->; [|].
    { clear Htouch. revert Hu. unfold upload_part. rewrite (run_lift _ _ _ _ Hb), (run_lift _ _ _ _ Hid).
      unfold mbind at 1, M_bind at 1. destruct (check_upload_start st declared w) as [v1 [u|e']] eqn:E1;
        apply pure_tree in E1; try apply upload_start_pure; [|by intros [= <- _]].
      intros [= <- _]. done. }
    destruct Hrep as [Hr Hm Hp]. split; [done..|]. intros m data [_ Hd]%lookup_delete_Some. by apply Hp.
Qed.

(** C7: completing an upload publishes the concatenation of the parts named, in
    the order named, and a download of the key gives it back, whether the upload
    is plain or encrypted in any of the three modes.  The bucket keeps no versions
    and no chunks, no directory is in the way of the object, the files of the parts
    are intact ([represents], which [upload_part_refines] establishes part by part),
    the upload id is not a dot, and the parts hold at most 2^47 bytes.  The etag is the MD5 of the
    parts' MD5s with their number, and the directory of the upload is gone. *)
Theorem multipart_then_get st bucket upload_id cipher um parts l datas ck w w' res :
  storage_ok st -> validate_bucket_name bucket = Ok tt -> validate_upload_id upload_id = Ok tt ->
  upload_id <> "." -> object_key (mu_key um) ->
  flat_bucket st bucket (w_tree w) -> no_dirs st bucket (mu_key um) w ->
  represents st bucket upload_id cipher um parts (w_tree w) -> part_cipher st um ck = Ok cipher ->
  Forall2 (requests parts) l datas -> Forall part_bound datas ->
  (Z.of_nat (length (concat datas)) <= 2 ^ 47)%Z ->
  complete_multipart_upload st bucket upload_id l ck w = (w', Ok res) ->
  exists stream meta,
    get_object st bucket (mu_key um) (mu_encryption_spec um ≫= fun _ => ck) w' = (w', Ok (stream, meta)) /\
    delivers stream (concat datas) Eof /\ put_result meta = res /\
    om_etag meta = dquote +:+ hex_encode (md5 (concat (map md5 datas))) +:+ "-" +:+ pretty (length l) +:+ dquote /\
    map snd l = map etag_of datas /\
    (upload_location st bucket upload_id ∉ t_dirs (w_tree w')).
Proof.
  intros Hst Hb Hid Hdot Hk Hflat Hd Hrep Hc Hl Hbounds Hlen.
  unfold complete_multipart_upload. rewrite (run_lift _ _ _ _ Hb), (run_lift _ _ _ _ Hid).
  intros (u1 & v1 & [_ ->]%fail_if_ok & Hr)%M_bind_ok.
  rewrite (run_ok _ _ _ _ _ (read_upload_meta_ok st bucket upload_id Hst Hb Hid Hdot _ _ _ _ Hrep)) in Hr.
  apply M_bind_ok in Hr as (u2 & v2 & E2 & Hr). apply pure_can_overwrite in E2 as (F2 & I2 & T2).
  apply M_bind_ok in Hr as (selected & v3 & E3 & Hr).
  apply (select_parts_ok st bucket upload_id Hst Hb Hid Hdot cipher um parts l datas) in E3 as (-> & Hsel & Hrec);
    [|by rewrite F2|done].
  apply M_bind_ok in Hr as (u4 & v4 & [_ ->]%lift_ok & Hr).
  apply M_bind_ok in Hr as (n & v5 & [= <- _] & Hr). apply M_bind_ok in Hr as (u6 & v6 & [_ ->]%lift_ok & Hr).
  set (v5 := mk_world (w_tree v2) (w_index v2) (S (w_tick v2))) in *.
  destruct (flat_settings st bucket w Hb Hflat v5) as [_ Hec]; [done|]. rewrite (run_ok _ _ _ _ _ Hec) in Hr.
  destruct (complete_flat_ok st bucket upload_id Hst Hb Hid Hdot um w Hk Hflat Hd cipher parts ck l datas selected v5 w' res)
    as (P & s & enc & meta & Ho & Hm & Henc & Hs & Hetag & -> & Hec' & Hgone); [done..|cbn; lia|done|].
  set (encryption := match enc with Some _ => Some (mk_EncryptionRequest SseC ck None) | None => None end).
  assert (Hok : enc_ok st encryption enc /\ encryption ≫= er_customer_key = mu_encryption_spec um ≫= fun _ => ck).
  { subst encryption. destruct enc as [[em [dek p]]|]; cbn in Henc |- *; [|by rewrite Henc].
    destruct Henc as ([spec ->] & ? & ? & ?). done. }
  destruct Hok as [Hok Hck].
  destruct (get_object_stored st bucket (mu_key um) Hb Hk P s (concat datas) encryption enc meta w')
    as (stream & Hg & Hdel); [done|done| |done..|].
  { apply is_dir_absent; [|done].
    destruct (object_place st bucket Hst Hb _ Hk) as (F & s' & _ & _ & He & _). by apply at_place_names in He as [? _]. }
  rewrite Hck in Hg. exists stream, meta. split_and!; try done.
  - rewrite Hetag. unfold multipart_etag. by rewrite (Forall2_length _ _ _ Hsel).
  - clear -Hsel Hrec. revert l Hsel. induction Hrec as [|pm d sel ds [He _] _ IH]; intros l Hsel;
      inversion Hsel as [|? [n e] ? l' (_ & He' & _) Hs']; subst; [done|].
    cbn in *. rewrite <-He', He. f_equal. by apply IH.
Qed.

(** The parts of an encrypted upload share their nonces.  The first frames
    of any two parts are sealed under the same key and the same nonce, which
    AES-GCM does not allow; the frame index starts again at 0 in every part and
    the part's number enters the associated data only. *)
Theorem part_nonces_repeat st bucket upload_id k p um parts n1 n2 data1 data2 t :
  represents st bucket upload_id (Some (k, p)) um parts t ->
  parts !! n1 = Some data1 -> parts !! n2 = Some data2 -> data1 <> [] -> data2 <> [] ->
  exists nonce c1 c2 rest1 rest2,
    t_files t !! part_location st bucket upload_id n1 = Some (Raw (nonce ++ c1 ++ rest1)) /\
    t_files t !! part_location st bucket upload_id n2 = Some (Raw (nonce ++ c2 ++ rest2)) /\
    seal k nonce (take FRAME_CHUNK_SIZE data1) (build_part_aad sha256 upload_id n1 0) = Some c1 /\
    seal k nonce (take FRAME_CHUNK_SIZE data2) (build_part_aad sha256 upload_id n2 0) = Some c2.
Proof.
  intros Hrep Hd1 Hd2 Hne1 Hne2.
  assert (Hfirst : forall n data, parts !! n = Some data -> data <> [] -> exists nonce c rest,
    make_frame_nonce p 0 = Ok nonce /\
    t_files t !! part_location st bucket upload_id n = Some (Raw (nonce ++ c ++ rest)) /\
    seal k nonce (take FRAME_CHUNK_SIZE data) (build_part_aad sha256 upload_id n 0) = Some c).
  { intros n data Hd Hne. destruct (rp_parts _ _ _ _ _ _ _ Hrep n data Hd) as [_ (out & Hf & Hs) _].
    cbn in Hs. rewrite chunks_step in Hs by (first [apply frame_size_pos|done]). cbn [encrypt_chunks] in Hs.
    apply result_bind_ok in Hs as (f & Hfr & Hs). apply result_bind_ok in Hs as (rest & _ & [= <-]).
    unfold encrypt_frame_to_vec in Hfr. apply result_bind_ok in Hfr as (nonce & Hn & Hfr).
    apply result_bind_ok in Hfr as (c & Hc%ok_or_ok & [= <-]).
    exists nonce, c, rest. split_and!; [done|by rewrite app_assoc|done]. }
  destruct (Hfirst n1 data1 Hd1 Hne1) as (nonce & c1 & rest1 & Hn1 & Hf1 & Hs1).
  destruct (Hfirst n2 data2 Hd2 Hne2) as (nonce' & c2 & rest2 & Hn2 & Hf2 & Hs2).
  rewrite Hn1 in Hn2. injection Hn2 as <-. by exists nonce, c1, c2, rest1, rest2.
Qed.

(** The upload identifier [.] is accepted and names the directory of all the
    uploads of the bucket: aborting it removes the files of every upload in
    progress, and then answers with an I/O error. *)
Theorem abort_dot_removes_every_upload st bucket w :
  storage_ok st -> validate_bucket_name bucket = Ok tt ->
  reach (w_tree w) (bucket_location st bucket ++ [".uploads"]) ->
  exists w', abort_multipart_upload st bucket "." w = (w', Err (Io einval)) /\
    forall l, t_files (w_tree w') !! l =
      if decide (below (bucket_location st bucket ++ [".uploads"]) l) then None else t_files (w_tree w) !! l.
Proof.
  intros Hst Hb Hr. unfold abort_multipart_upload. rewrite (run_lift _ _ _ _ Hb).
  rewrite (run_lift _ _ _ tt) by done.
  destruct (at_place_names _ _ _ (bucket_dir_place st bucket Hst Hb)) as [Hp Hn].
  set (U := bucket_location st bucket ++ [".uploads"]) in *.
  assert (Hu : at_place (uploads_dir st bucket) (bucket_location st bucket) ".uploads").
  { apply at_place_join; [done|done|done| |done]. by intros [?|?]. }
  assert (Hsplit : exists l, split_char "/" (upload_dir st bucket ".") = l ++ ["."] /\
    filter (fun c => ~ blank c) (l ++ ["."]) = U /\ (".." ∉ l ++ ["."])).
  { destruct (at_place_names _ _ _ Hu) as [Hpu Hnu].
    destruct (split_join (uploads_dir st bucket) "." eq_refl) as (l & E & Hl & Hd).
    exists l. unfold upload_dir. rewrite E. change (split_char "/" ".") with ["."]. split; [done|].
    split; [by rewrite filter_app, Hl, Hnu, app_nil_r|].
    rewrite elem_of_app, Hd. intros [?|?%list_elem_of_singleton]; done. }
  destruct Hsplit as (l & E & Hf & Hd).
  assert (Hres : resolve (w_tree w) (upload_dir st bucket ".") = Ok U).
  { unfold resolve. rewrite E, <-Hf. rewrite <-(app_nil_l (filter _ _)).
    apply walk_all; [done|]. intros d _ Hpre. apply Hr. by rewrite Hf in Hpre. }
  assert (HU : U ∈ t_dirs (w_tree w)) by (by apply Hr).
  rewrite (run_ok (query _) _ w w true).
  2:{ unfold query, try_exists. rewrite Hres. cbn. by rewrite bool_decide_true. }
  rewrite (run_ok (fail_if _ _) _ w w tt) by done. unfold call, fs_remove_dir_all. rewrite Hres, decide_True by done.
  assert (ends_in_dot (upload_dir st bucket ".") = true) as -> by (unfold ends_in_dot; by rewrite E, last_snoc).
  eexists. split; [reflexivity|]. intros k. cbn. destruct (decide (below U k)) as [Hk|Hk].
  - apply map_lookup_filter_None. right. intros c _ Hnk. by apply Hnk.
  - destruct (t_files (w_tree w) !! k) as [c|] eqn:Ek.
    + by apply map_lookup_filter_Some.
    + apply map_lookup_filter_None. by left.
Qed.
End claims.

(** ** Witnesses *)

Module ToyUploads.
#[export] Instance toy_hex_decode : HexDecode := {| hex_decode s := Some (ToyWorld.of_hexadecimal s) |}.
Lemma hexadecimal_quotes b : contains_char "034" (ToyWorld.hexadecimal b) = false.
Proof.
  unfold contains_char. apply bool_decide_eq_false. induction b as [|x b IH]; [by intros ?%elem_of_nil|].
  intros [E|[E|Hin]%elem_of_cons]%elem_of_cons; [..|done]; by destruct x.
Qed.
#[export] Instance toy_hex_decode_spec : @HexDecodeSpec ToyWorld.toy_crates toy_hex_decode.
Proof. split; [|apply hexadecimal_quotes]. intros b. exact (f_equal Some (ToyWorld.of_hexadecimal_hexadecimal b)). Qed.
(** Everything written reaches the file. *)
#[export] Instance toy_buffering : Buffering := {| handed_over b := b |}.
End ToyUploads.
Import Demo.Toys ToyUploads.
#[local] Existing Instance sha256_hex_of_crates.

(** An operation that answered, without the world it reached. *)
Lemma answered {A} (m : M StorageError A) w a :
  is_ok (snd (m w)) = true -> m w = (fst (m w), Ok match snd (m w) with Ok a => a | Err _ => a end).
Proof. by destruct (m w) as [w' [b|e]]. Qed.

Definition sse_s3_spec : UploadEncryptionSpec := mk_UploadEncryptionSpec SseS3 None None None None None "".
Definition upload_created : world * result StorageError MultipartUploadMeta :=
  create_multipart_upload (demo_storage false) "pets" "cat" "text/plain" None (Some sse_s3_spec) flat_world.
Definition upload_record : MultipartUploadMeta :=
  match snd upload_created with Ok um => um | Err _ => mk_MultipartUploadMeta "" "" "" "" "" None None end.
Definition upload_cipher : option (bytes * bytes) :=
  match part_cipher (demo_storage false) upload_record None with Ok c => c | Err _ => None end.
Local Abbreviation part_of n text :=
  (upload_part (demo_storage false) "pets" "u" n (body_of text) None None None).
Definition demo_etag (text : string) : string := etag_of (as_bytes text).

Lemma upload_created_ok :
  create_multipart_upload (demo_storage false) "pets" "cat" "text/plain" None (Some sse_s3_spec) flat_world =
  (fst upload_created, Ok upload_record).
Proof. apply answered. vm_compute. reflexivity. Qed.
Lemma upload_cipher_ok : part_cipher (demo_storage false) upload_record None = Ok upload_cipher.
Proof. vm_compute. reflexivity. Qed.
Lemma demo_created : represents (demo_storage false) "pets" "u" upload_cipher upload_record ∅ (w_tree (fst upload_created)).
Proof.
  refine (created_represents (demo_storage false) "pets" "u" (demo_storage_ok false) _ _ _ upload_cipher _ _ _ _ _ _ _
    upload_created_ok _); [vm_compute; reflexivity..|done|vm_compute; reflexivity].
Qed.

(** A part uploaded without an error. *)
Lemma demo_part parts n text w w' pm : (0 <= n)%Z ->
  represents (demo_storage false) "pets" "u" upload_cipher upload_record parts (w_tree w) ->
  part_of n text w = (w', Ok pm) ->
  represents (demo_storage false) "pets" "u" upload_cipher upload_record (<[n := as_bytes text]> parts) (w_tree w').
Proof.
  intros Hn Hrep E.
  destruct (upload_part_ok (demo_storage false) "pets" "u" (demo_storage_ok false) eq_refl eq_refl ltac:(done)
    upload_cipher upload_record parts n (body_of text) None None None w w' pm Hn Hrep upload_cipher_ok E) as (_ & Hh & _).
  eapply represents_put; [exact Hrep| |exact Hh].
  by eapply (upload_part_stays (demo_storage false) "pets" "u" (demo_storage_ok false) eq_refl eq_refl ltac:(done)).
Qed.

Definition one_part : world * result StorageError PartMeta := part_of 1 "meow" (fst upload_created).
Definition two_parts : world * result StorageError PartMeta := part_of 2 "purr" (fst one_part).
Definition part_meta_of (r : result StorageError PartMeta) : PartMeta :=
  match r with Ok pm => pm | Err _ => mk_PartMeta 0 "" 0 "" None None false None end.
Lemma one_part_ok : part_of 1 "meow" (fst upload_created) = (fst one_part, Ok (part_meta_of (snd one_part))).
Proof. apply answered. vm_compute. reflexivity. Qed.
Lemma two_parts_ok : part_of 2 "purr" (fst one_part) = (fst two_parts, Ok (part_meta_of (snd two_parts))).
Proof. apply answered. vm_compute. reflexivity. Qed.
Lemma one_part_held :
  represents (demo_storage false) "pets" "u" upload_cipher upload_record {[ 1%Z := as_bytes "meow" ]} (w_tree (fst one_part)).
Proof. by refine (demo_part ∅ 1 "meow" _ _ _ _ demo_created one_part_ok). Qed.
Lemma two_parts_held :
  represents (demo_storage false) "pets" "u" upload_cipher upload_record
    (<[2%Z := as_bytes "purr"]> {[ 1%Z := as_bytes "meow" ]}) (w_tree (fst two_parts)).
Proof. by refine (demo_part _ 2 "purr" _ _ _ _ one_part_held two_parts_ok). Qed.

Lemma multipart_then_get_witness : exists w' res stream meta,
  complete_multipart_upload (demo_storage false) "pets" "u" [(1%Z, demo_etag "meow")] None (fst one_part) = (w', Ok res) /\
  get_object (demo_storage false) "pets" "cat" None w' = (w', Ok (stream, meta)) /\
  delivers stream (as_bytes "meow") Eof.
Proof.
  destruct (complete_multipart_upload (demo_storage false) "pets" "u" [(1%Z, demo_etag "meow")] None (fst one_part))
    as [w' [res|e]] eqn:E; [|exfalso; vm_compute in E; discriminate].
  destruct (multipart_then_get (demo_storage false) "pets" "u" upload_cipher upload_record {[ 1%Z := as_bytes "meow" ]}
    [(1%Z, demo_etag "meow")] [as_bytes "meow"] None (fst one_part) w' res (demo_storage_ok false))
    as (stream & meta & Hg & Hd & _); [vm_compute; reflexivity..|done| | | |apply one_part_held|apply upload_cipher_ok| | | |exact E|].
  - split; [vm_compute; reflexivity|]. exists [], "cat". split; [vm_compute; reflexivity|]. by intros [?|?].
  - exists (BucketJson (demo_bucket false None None)), (demo_bucket false None None).
    split_and!; [vm_compute; reflexivity..|by left].
  - split_and!; [apply (bool_decide_unpack _); vm_compute; exact I..|].
    intros n l _. apply no_temp_dirs_ok; [vm_compute; reflexivity|apply temp_name_temp].
  - constructor; [|constructor]. unfold requests. cbn. apply lookup_insert_eq.
  - constructor; [|constructor]. vm_compute. discriminate.
  - vm_compute. discriminate.
  - exists w', res, stream, meta. split; [exact eq_refl|]. split; [|exact Hd].
    assert (K : mu_key upload_record = "cat") by (vm_compute; reflexivity).
    assert (N : (mu_encryption_spec upload_record ≫= fun _ => @None bytes) = None) by (by destruct (mu_encryption_spec upload_record)).
    rewrite K, N in Hg. exact Hg.
Defined.

Lemma part_nonces_repeat_witness : exists nonce c1 c2 rest1 rest2,
  t_files (w_tree (fst two_parts)) !! part_location (demo_storage false) "pets" "u" 1 = Some (Raw (nonce ++ c1 ++ rest1)) /\
  t_files (w_tree (fst two_parts)) !! part_location (demo_storage false) "pets" "u" 2 = Some (Raw (nonce ++ c2 ++ rest2)).
Proof.
  destruct upload_cipher as [[k p]|] eqn:E; [|exfalso; vm_compute in E; discriminate].
  pose proof two_parts_held as Hrep. rewrite E in Hrep.
  destruct (part_nonces_repeat (demo_storage false) "pets" "u" k p upload_record _ 1 2 (as_bytes "meow") (as_bytes "purr") _ Hrep)
    as (nonce & c1 & c2 & r1 & r2 & H1 & H2 & _); [vm_compute; reflexivity..|done|done|].
  exists nonce, c1, c2, r1, r2. exact (conj H1 H2).
Defined.

Lemma abort_dot_removes_every_upload_witness : exists w',
  abort_multipart_upload (demo_storage false) "pets" "." (fst one_part) = (w', Err (Io einval)) /\
  t_files (w_tree w') !! part_location (demo_storage false) "pets" "u" 1 = None.
Proof.
  destruct (abort_dot_removes_every_upload (demo_storage false) "pets" (fst one_part) (demo_storage_ok false))
    as (w' & Hw & Hf); [vm_compute; reflexivity| |].
  - intros d Hd. apply (rp_reach _ _ _ _ _ _ _ one_part_held). etrans; [exact Hd|].
    unfold upload_location. exists ["u"]. by rewrite <-app_assoc.
  - exists w'. split; [exact Hw|]. rewrite (Hf (part_location (demo_storage false) "pets" "u" 1)).
    rewrite decide_True; [reflexivity|]. apply (bool_decide_unpack _). vm_compute. exact I.
Defined.

Lemma upload_part_refines_witness :
  represents (demo_storage false) "pets" "u" upload_cipher upload_record
    (<[1%Z := as_bytes "meow"]> ∅) (w_tree (fst one_part)).
Proof.
  exact (proj1 (upload_part_refines (demo_storage false) "pets" "u" upload_cipher upload_record ∅ 1 (body_of "meow")
    None None None (fst upload_created) (fst one_part) (Ok (part_meta_of (snd one_part))) (demo_storage_ok false)
    eq_refl eq_refl ltac:(done) ltac:(done) demo_created upload_cipher_ok one_part_ok)).
Defined.

(** ** A part uploaded again *)

Definition plain_upload : M StorageError MultipartUploadMeta :=
  create_multipart_upload flat "pets" "cat" "text/plain" None None.
Definition put_part (body : source) : M StorageError PartMeta :=
  upload_part flat "pets" "u" 1 body None None None.
Definition complete_with (etag : string) : M StorageError PutResult :=
  complete_multipart_upload flat "pets" "u" [(1%Z, etag)] None.

(** A part whose second upload breaks off is corrupted while its record
    stays: the file is truncated when the upload starts and is not put back.  The
    upload then completes with the etag of the first body, which it checks
    against the record only, and the object served holds what had arrived of the
    second. *)
Theorem failed_reupload_corrupts_part :
  let reset := mk_io_error Other "connection reset" in
  let w1 := after plain_upload flat_world in
  let w2 := after (put_part (body_of "meow")) w1 in
  let w3 := after (put_part (mk_source (as_bytes "hi") (Fail reset) [])) w2 in
  let w4 := after (complete_with (demo_etag "meow")) w3 in
  succeeds (put_part (body_of "meow")) w1 = true /\
  fails_with (put_part (mk_source (as_bytes "hi") (Fail reset) [])) w2 (Io reset) /\
  succeeds (complete_with (demo_etag "meow")) w3 = true /\
  delivered (answer (download flat "cat") w4) = Some (2%Z, (as_bytes "hi", Eof)).
Proof. cbv zeta. split_and!; vm_compute; reflexivity. Qed.

(** A completed upload never gets the default retention of its bucket, which the
    upload of the same object in one request does. *)
Theorem multipart_escapes_default_retention :
  let retention r := match r with Ok (_, meta) => om_object_lock_mode meta | Err _ => None end in
  let w1 := after (complete_with (demo_etag "meow"))
              (after (put_part (body_of "meow")) (after plain_upload locked_world)) in
  let w2 := after (upload flat "cat" "meow") locked_world in
  retention (answer (download flat "cat") w2) = Some Compliance /\
  retention (answer (download flat "cat") w1) = None /\
  delivered (answer (download flat "cat") w1) = Some (4%Z, (as_bytes "meow", Eof)).
Proof. cbv zeta. split_and!; vm_compute; reflexivity. Qed.
