(* ===== verification/StorageInvariant.v ===== *)
(** * Every operation keeps the store well formed

    [tree_ok] is an invariant of every operation of the storage modelled here,
    on every path, failures included; so it holds in every state reached from a
    well-formed store. *)

From stdpp Require Import base list gmap sets numbers strings pretty.
From Stdlib Require Import ZArith Lia Ascii Strings.Byte.
From S2P Require Import Prelude IpAddr Glob Policy Bytes Reader Types Quota Crypto ErasureCode ChunkReader MetadataIndex FileSystem Paths World TreeOk Keyring Storage BucketConfig Sidecar Encryption Publish Objects Demo Versions Listing Housekeeping Multipart MultipartSpec.

Local Open Scope nat_scope.

(** ** Helpers of the operations *)

Section helpers.
Context `{Environment} `{Serde}.

Lemma keep_read_json {A} path (parse : content -> result string A) missing : keeps (read_json path parse missing).
Proof. apply keep_pure, pure_read_json. Qed.
Lemma keep_read_bucket_meta st b : keeps (read_bucket_meta st b).
Proof. apply keep_pure, pure_read_bucket_meta. Qed.
Lemma keep_attempt {A} (f : tree -> tree * result io_error A) : keeps_tree f -> keeps (attempt f).
Proof. intros Hf w Hw. specialize (Hf _ Hw). unfold attempt, on_world. by destruct (f (w_tree w)). Qed.
Lemma keep_guarded {A} is_dir path (m : M StorageError A) : keeps m -> keeps (guarded is_dir path m).
Proof.
  intros Hm w Hw. specialize (Hm w Hw). unfold guarded, on_world.
  destruct (m w) as [w' [a|e]]; [done|]. destruct is_dir; [by apply remove_dir_all_keeps|by apply remove_file_keeps].
Qed.
End helpers.
#[export] Hint Resolve keep_read_json keep_read_bucket_meta keep_attempt keep_guarded : maxio_keeps.

Section publish.
Context `{Environment} `{Serde}.

Lemma keep_create_parent p : keeps (create_parent p).
Proof. unfold create_parent. keeps. Qed.
Lemma keep_temp_sibling p : keeps (temp_sibling_path p).
Proof. unfold temp_sibling_path. keeps. Qed.
Lemma keep_remove_path p b : keeps (remove_path_if_exists p b).
Proof. unfold remove_path_if_exists. keeps. Qed.
Lemma keep_remove_file_if p : keeps (remove_file_if_exists p).
Proof. unfold remove_file_if_exists. keeps. Qed.
Lemma keep_remove_dir_all_if p : keeps (remove_dir_all_if_exists p).
Proof. unfold remove_dir_all_if_exists. keeps. Qed.
Lemma keep_exists p : keeps (exists_or_false p).
Proof. unfold exists_or_false. keeps. Qed.
#[local] Hint Resolve keep_create_parent keep_temp_sibling keep_remove_path keep_exists : maxio_keeps.
Lemma keep_backup p : keeps (backup_existing p).
Proof. unfold backup_existing. keeps. Qed.
Lemma keep_restore p b d : keeps (restore_backup p b d).
Proof. unfold restore_backup. keeps. Qed.
Lemma keep_cleanup b d : keeps (cleanup_backup b d).
Proof. unfold cleanup_backup. keeps. Qed.
#[local] Hint Resolve keep_backup keep_restore keep_cleanup : maxio_keeps.
Lemma keep_publish tp p d tm m : keeps (publish_temp_payload_and_meta tp p d tm m).
Proof. unfold publish_temp_payload_and_meta. keeps. Qed.
End publish.
#[export] Hint Resolve keep_create_parent keep_temp_sibling keep_remove_path keep_remove_file_if
  keep_remove_dir_all_if keep_exists keep_publish : maxio_keeps.

(** ** Buckets and their settings *)

Section buckets.
Context `{Environment} `{Serde} (st : FilesystemStorage).

Lemma keep_update_bucket b f : keeps (update_bucket_meta st b f).
Proof. unfold update_bucket_meta. keeps. Qed.
Lemma keep_head_bucket b : keeps (head_bucket st b).
Proof. unfold head_bucket. keeps. Qed.

Lemma keep_create_bucket meta : keeps (create_bucket st meta).
Proof.
  unfold create_bucket. keeps. intros w Hw. unfold on_world.
  pose proof (create_dir_keeps (bucket_dir st (bm_name meta)) _ Hw) as Hc. cbn beta in Hc.
  destruct (fs_create_dir _ _) as [t [u|e]]; [|done].
  pose proof (write_keeps (join (bucket_dir st (bm_name meta)) ".bucket.json") (BucketJson meta) t Hc) as Hwr.
  cbn beta in Hwr. destruct (fs_write _ _ _) as [t' [u'|e]]; [done|]. by apply (remove_dir_keeps (bucket_dir st (bm_name meta)) t').
Qed.

Lemma purge_keeps fuel dir : keeps_tree (purge_empty_bucket fuel dir).
Proof.
  revert dir. induction fuel as [|fuel IH]; intros dir t Hok; [done|]. cbn [purge_empty_bucket].
  destruct (fs_read_dir t dir) as [entries|e]; [|done]. revert t Hok.
  induction entries as [|[name ft] entries IHe]; intros t Hok; [done|].
  set (path := join dir name).
  assert (Hstep : forall x : tree * result io_error unit, tree_ok (fst x) ->
    tree_ok (fst (let '(t, r) := x in match r with
      | Ok _ => (fix go l t := match l with
          | [] => (t, Ok tt)
          | (name, ft) :: l =>
              let path := join dir name in
              let '(t, r) :=
                if internal_name name then
                  if ft : bool then fs_remove_dir_all t path else fs_remove_file t path
                else if ft : bool then
                  match purge_empty_bucket fuel path t with
                  | (t, Ok _) => fs_remove_dir t path
                  | (t, Err e) => (t, Err e)
                  end
                else (t, Ok tt) in
              match r with Ok _ => go l t | Err e => (t, Err e) end
          end) entries t
      | Err e => (t, Err e) end))).
  { intros [t1 [u|e]] Hx; [by apply IHe|done]. }
  apply Hstep. destruct (internal_name name); destruct ft.
  - by apply remove_dir_all_keeps.
  - by apply remove_file_keeps.
  - specialize (IH path t Hok). destruct (purge_empty_bucket fuel path t) as [t1 [u|e]]; [|done].
    by apply (remove_dir_keeps path t1).
  - done.
Qed.

Lemma keep_delete_bucket b : keeps (delete_bucket st b).
Proof.
  unfold delete_bucket. keeps.
  - apply keep_call. intros t. apply purge_keeps.
  - intros w Hw. unfold on_world. pose proof (remove_dir_keeps (bucket_dir st b) _ Hw) as Hr. cbn beta in Hr.
    by destruct (fs_remove_dir _ _) as [t [u|e]].
Qed.
End buckets.
#[export] Hint Resolve keep_update_bucket keep_head_bucket : maxio_keeps.

(** ** Objects *)

Section objects.
Context `{Environment} `{Crates} `{Serde} `{SerdeJson} `{Aead} `{ReedSolomon}.
Context `{!KeyService FilesystemStorage} `{!KeyServiceSpec FilesystemStorage} (st : FilesystemStorage).

Lemma keep_versioned b : keeps (versioned_or_false st b).
Proof.
  intros w Hw. unfold versioned_or_false, on_world.
  assert (Hk : keeps (is_versioned st b)) by (unfold is_versioned; keeps).
  specialize (Hk w Hw). by destruct (is_versioned st b w) as [w' [x|e]].
Qed.
Lemma keep_prepare req : keeps (prepare_cipher st req).
Proof.
  unfold prepare_cipher. keeps. intros w Hw. unfold on_world.
  destruct (ks_prepare st req w) as [w' r] eqn:E. pose proof E as E'. apply ks_prepare_world in E' as (Ht & _).
  destruct r; cbn; by rewrite Ht.
Qed.
Lemma keep_write_chunk_files dir files : keeps (write_chunk_files dir files).
Proof.
  intros w Hw. unfold write_chunk_files, on_world.
  assert (Hf : forall l t r, tree_ok t -> tree_ok (fst (fold_left (fun '(t, r) '(i, b) =>
        match r with
        | Ok _ => fs_write t (join dir (chunk_name i)) (Raw b)
        | Err e => (t, Err e)
        end) l (t, r)))).
  { induction l as [|[i b] l IH]; intros t r Ht; [done|]. cbn [fold_left].
    destruct r as [u|e]; [|by apply IH].
    pose proof (write_keeps (join dir (chunk_name i)) (Raw b) t Ht) as Hwr. cbn beta in Hwr.
    destruct (fs_write _ _ _). by apply IH. }
  specialize (Hf (map_to_list files) (w_tree w) (Ok tt) Hw). by destruct (fold_left _ _ _).
Qed.
Lemma copy_entries_keeps src dst l : keeps_tree (copy_entries src dst l).
Proof.
  induction l as [|[name ft] l IH]; intros t Ht; [done|]. cbn [copy_entries].
  pose proof (copy_keeps (join src name) (join dst name) t Ht) as Hc. cbn beta in Hc.
  destruct (fs_copy _ _ _) as [t' [u|e]]; [by apply IH|done].
Qed.
Lemma keep_copy_dir src dst : keeps (copy_dir src dst).
Proof. unfold copy_dir. keeps. apply keep_call, copy_entries_keeps. Qed.
#[local] Hint Resolve keep_versioned keep_prepare keep_write_chunk_files keep_copy_dir copy_entries_keeps : maxio_keeps.

Lemma keep_read_object_meta b k : keeps (read_object_meta st b k).
Proof. apply keep_read_json. Qed.
Lemma keep_now : keeps now_iso. Proof. unfold now_iso. keeps. Qed.
Lemma keep_version_id v : keeps (new_version_id v).
Proof. unfold new_version_id, generate_version_id. keeps. Qed.
Lemma keep_protected m : keeps (protected_now m). Proof. unfold protected_now. keeps. Qed.
#[local] Hint Resolve keep_read_object_meta keep_now keep_version_id keep_protected : maxio_keeps.
Lemma keep_can_delete m : keeps (ensure_can_delete_meta m). Proof. unfold ensure_can_delete_meta. keeps. Qed.
Lemma keep_can_overwrite b k : keeps (ensure_can_overwrite st b k). Proof. unfold ensure_can_overwrite. keeps. Qed.
Lemma keep_default_lock b : keeps (resolve_default_object_lock st b).
Proof. unfold resolve_default_object_lock. keeps. Qed.
Lemma keep_upsert b m : keeps (index_upsert b m). Proof. apply keep_index. Qed.
Lemma keep_index_remove b k : keeps (index_remove b k). Proof. apply keep_index. Qed.
Lemma keep_stage tmp r : keeps (stage_chunks tmp r). Proof. unfold stage_chunks. keeps. Qed.
Lemma keep_publish_object tp p d b k m : keeps (publish_object st tp p d b k m).
Proof. unfold publish_object. keeps. Qed.
Lemma keep_write_version b k m p : keeps (write_version st b k m p).
Proof. unfold write_version. keeps. Qed.
Lemma keep_write_version_chunked b k m : keeps (write_version_chunked st b k m).
Proof. unfold write_version_chunked. keeps. Qed.
#[local] Hint Resolve keep_can_delete keep_can_overwrite keep_default_lock keep_upsert keep_index_remove keep_stage
  keep_publish_object keep_write_version keep_write_version_chunked : maxio_keeps.

Lemma keep_put_flat b k ct body ck enc : keeps (put_object_flat st b k ct body ck enc).
Proof. unfold put_object_flat. keeps; apply keep_guarded; keeps. Qed.
Lemma keep_put_chunked b k ct body a : keeps (put_object_chunked st b k ct body a).
Proof. unfold put_object_chunked. keeps; apply keep_guarded; keeps. Qed.
Lemma keep_put_chunked_encrypted b k ct body ck req : keeps (put_object_chunked_encrypted st b k ct body ck req).
Proof. unfold put_object_chunked_encrypted. keeps; apply keep_guarded; keeps. Qed.
Lemma keep_folder b k : keeps (put_folder_marker st b k).
Proof. unfold put_folder_marker. keeps. Qed.
#[local] Hint Resolve keep_put_flat keep_put_chunked keep_put_chunked_encrypted keep_folder : maxio_keeps.
Lemma keep_put b k ct body ck enc d : keeps (put_object st b k ct body ck enc d).
Proof. unfold put_object, check_upload_start, wrap_upload_reader, effective_erasure_coding. keeps. Qed.

(** ** Versions and deletion *)

Lemma keep_remove_current b k : keeps (remove_current st b k).
Proof. unfold remove_current. keeps. Qed.
#[local] Hint Resolve keep_remove_current : maxio_keeps.
Lemma keep_marker b k : keeps (write_delete_marker st b k).
Proof. unfold write_delete_marker, generate_version_id. keeps. Qed.
Lemma keep_restore_version b k d m : keeps (restore_version st b k d m).
Proof. unfold restore_version. keeps. Qed.
#[local] Hint Resolve keep_marker keep_restore_version : maxio_keeps.
Lemma keep_restore_newest b k d l : keeps (restore_newest st b k d l).
Proof. induction l as [|name l IH]; cbn [restore_newest]; keeps. Qed.
#[local] Hint Resolve keep_restore_newest : maxio_keeps.
Lemma keep_update_current b k : keeps (update_current_version st b k).
Proof. unfold update_current_version. keeps. Qed.
#[local] Hint Resolve keep_update_current : maxio_keeps.
Lemma keep_delete_version b k v : keeps (delete_object_version st b k v).
Proof. unfold delete_object_version, delete_null_version, read_version_meta. keeps. Qed.

Lemma remove_parents_ok fuel b d t : tree_ok t -> tree_ok (remove_empty_parents st fuel b d t).
Proof.
  revert d t. induction fuel as [|fuel IH]; intros d t Ht; [done|]. cbn [remove_empty_parents].
  destruct d as [d|]; [|done]. case_decide; [done|].
  pose proof (remove_dir_keeps d t Ht) as Hr. cbn beta in Hr.
  destruct (fs_remove_dir t d) as [t' [u|e]]; [by apply IH|done].
Qed.
Lemma keep_delete b k : keeps (delete_object st b k).
Proof. unfold delete_object. keeps; intros w Hw; by apply remove_parents_ok. Qed.

Lemma keep_tags b k tags : keeps (put_object_tagging st b k tags) /\ keeps (delete_object_tagging st b k).
Proof. split; [unfold put_object_tagging|unfold delete_object_tagging]; keeps. Qed.
Lemma keep_lock b k v r s : keeps (put_object_retention st b k v r) /\ keeps (put_object_legal_hold st b k v s).
Proof.
  split; [unfold put_object_retention|unfold put_object_legal_hold];
    unfold require_object_lock, read_meta_at, write_meta_at; keeps.
Qed.
End objects.

#[export] Hint Resolve keep_versioned keep_now keep_version_id keep_protected keep_can_overwrite keep_upsert
  keep_stage keep_publish_object keep_write_version keep_write_version_chunked keep_delete keep_delete_version : maxio_keeps.

(** ** Multipart uploads *)

Section uploads.
Context `{Environment} `{Crates} `{Serde} `{SerdeJson} `{Aead} `{ReedSolomon} `{!HexDecode} `{!Buffering}.
Context `{!KeyService FilesystemStorage} `{!KeyServiceSpec FilesystemStorage} (st : FilesystemStorage).

Lemma keep_rand {E} n : keeps (rand n : M E bytes).
Proof. apply keep_pure, pure_rand. Qed.
#[local] Hint Resolve keep_rand : maxio_keeps.
Lemma keep_create_upload b k ct a spec : keeps (create_multipart_upload st b k ct a spec).
Proof. unfold create_multipart_upload, augment_spec. keeps. Qed.

Lemma keep_fill_part path cipher aad body : keeps (fill_part path cipher aad body).
Proof.
  unfold fill_part. keeps. intros w Hw. unfold on_world.
  destruct (pump_to _ _ _ _ _ _) as [bw [[u|e]|]]; [|by apply write_keeps..].
  destruct (finish_body _ _ _) as [[seen out]|e]; [|by apply write_keeps].
  revert w Hw. change (keeps (_ ← call (fun t => fs_write t path (Raw out)); mret (seen, out))). keeps.
Qed.
Lemma keep_or_remove {A} path (m : M StorageError A) : keeps m -> keeps (or_remove path m).
Proof.
  intros Hm w Hw. specialize (Hm w Hw). unfold or_remove, on_world.
  destruct (m w) as [w' [a|e]]; [done|by apply remove_file_keeps].
Qed.
#[local] Hint Resolve keep_fill_part keep_or_remove : maxio_keeps.
Lemma keep_upload_part b id n body ck key d : keeps (upload_part st b id n body ck key d).
Proof. unfold upload_part, check_upload_start, wrap_upload_reader, read_upload_meta. keeps. Qed.

Lemma keep_select_parts b id parts : keeps (select_parts st b id parts).
Proof. induction parts as [|[n e] parts IH]; cbn [select_parts]; unfold read_part_meta; keeps. Qed.
Lemma keep_retire b id v version meta : keeps version -> keeps (retire_upload st b id v version meta).
Proof. intros Hv. unfold retire_upload. keeps. Qed.
Lemma keep_object_key req : keeps (prepare_object_encryption st req).
Proof.
  intros w Hw. unfold prepare_object_encryption, on_world. destruct (ks_prepare st req w) as [w' r] eqn:E.
  pose proof E as E'. apply ks_prepare_world in E' as (Ht & _). destruct r; cbn; by rewrite Ht.
Qed.
#[local] Hint Resolve keep_select_parts keep_retire keep_object_key : maxio_keeps.
Lemma keep_complete_chunked b id um sel : keeps (complete_multipart_chunked st b id um sel).
Proof. unfold complete_multipart_chunked. keeps; apply keep_guarded; keeps. Qed.
Lemma keep_complete_encrypted b id um sel ck : keeps (complete_multipart_chunked_encrypted st b id um sel ck).
Proof. unfold complete_multipart_chunked_encrypted. keeps; apply keep_guarded; keeps. Qed.
Lemma keep_complete_flat b id um sel ck : keeps (complete_multipart_flat st b id um sel ck).
Proof. unfold complete_multipart_flat, object_encryption. keeps; apply keep_guarded; keeps. Qed.
#[local] Hint Resolve keep_complete_chunked keep_complete_encrypted keep_complete_flat : maxio_keeps.
Lemma keep_complete b id parts ck : keeps (complete_multipart_upload st b id parts ck).
Proof. unfold complete_multipart_upload, effective_erasure_coding, read_upload_meta. keeps. Qed.
Lemma keep_abort b id : keeps (abort_multipart_upload st b id).
Proof. unfold abort_multipart_upload. keeps. Qed.
End uploads.

(** ** The sweep *)

Section sweep.
Context `{Environment} `{Crates} `{Serde} `{SerdeJson} `{Aead} `{ReedSolomon}.
Context `{!KeyService FilesystemStorage} `{!KeyServiceSpec FilesystemStorage} (st : FilesystemStorage).

Lemma keep_outcome {A} (m : M StorageError A) : keeps m -> keeps (outcome m).
Proof. intros Hm w Hw. specialize (Hm w Hw). unfold outcome, on_world. by destruct (m w). Qed.
Lemma keep_each {A} (f : A -> M StorageError nat) l : (forall a, keeps (f a)) -> keeps (sweep_each f l).
Proof. intros Hf. induction l as [|a l IH]; cbn [sweep_each]; keeps. Qed.
#[local] Hint Resolve keep_outcome keep_each : maxio_keeps.
Lemma keep_removing {A} (m : M StorageError A) : keeps m -> keeps (removing m).
Proof. intros Hm. unfold removing. keeps. Qed.
Lemma keep_entries_of dir : keeps (entries_of dir).
Proof. unfold entries_of. keeps. Qed.
Lemma keep_list_objects b p : keeps (list_objects st b p).
Proof. apply keep_bind; [by intros w Hw|intros [idx|]]; unfold list_objects_walk; keeps. Qed.
#[local] Hint Resolve keep_list_objects : maxio_keeps.
Lemma keep_list_versions b p : keeps (list_object_versions st b p).
Proof. unfold list_object_versions. keeps. Qed.
#[local] Hint Resolve keep_removing keep_entries_of keep_list_versions : maxio_keeps.
Lemma keep_sweep_upload now stale dir e : keeps (sweep_upload now stale dir e).
Proof. unfold sweep_upload. keeps. Qed.
Lemma keep_sweep_temp_files dir : keeps (sweep_temp_files dir).
Proof. unfold sweep_temp_files. keeps. apply keep_each. intros e. unfold sweep_temp_file. keeps. Qed.
Lemma keep_expire_versions b rules now last l : keeps (expire_versions st b rules now last l).
Proof. revert last. induction l as [|m l IH]; intros last; cbn [expire_versions]; keeps. Qed.
Lemma keep_expire_object b rules now m : keeps (expire_object st b rules now m).
Proof. unfold expire_object. keeps. Qed.
#[local] Hint Resolve keep_sweep_upload keep_sweep_temp_files keep_expire_versions keep_expire_object : maxio_keeps.
Lemma keep_expiration b now : keeps (sweep_lifecycle_expiration st b now).
Proof. unfold sweep_lifecycle_expiration, sweep_noncurrent_version_expiration. keeps. Qed.
#[local] Hint Resolve keep_expiration : maxio_keeps.
Lemma keep_sweep_bucket now stale e : keeps (sweep_bucket st now stale e).
Proof. unfold sweep_bucket. keeps. Qed.
Lemma keep_sweep stale : keeps (housekeeping_sweep st stale).
Proof.
  unfold housekeeping_sweep. keeps.
  match goal with |- keeps (sweep_buckets st ?now stale ?l) => induction l as [|e l IH] end;
    cbn [sweep_buckets]; [keeps|]. apply keep_bind; [apply keep_sweep_bucket|intros]. apply keep_bind; [exact IH|intros]. keeps.
Qed.
End sweep.

(** ** Requests and the states they lead to *)

Inductive request : Type :=
| CreateBucket (meta : BucketMeta)
| DeleteBucket (bucket : string)
| PutObject (bucket key content_type : string) (body : source)
    (checksum : option (ChecksumAlgorithm * option string)) (encryption : option EncryptionRequest)
    (declared_size : option Z)
| DeleteObject (bucket key : string)
| DeleteObjectVersion (bucket key version_id : string)
| PutObjectTagging (bucket key : string) (tags : gmap string string)
| DeleteObjectTagging (bucket key : string)
| PutObjectRetention (bucket key : string) (version_id : option string) (retention : ObjectLockRetention)
| PutObjectLegalHold (bucket key : string) (version_id : option string) (status : LegalHoldStatus)
| SetVersioning (bucket : string) (enabled : bool)
| SetErasureCoding (bucket : string) (enabled : option bool)
| PutLifecycle (bucket : string) (rules : list LifecycleRule)
| SetPublic (bucket : string) (read list : bool)
| PutCors (bucket : string) (rules : list CorsRule)
| PutEncryption (bucket : string) (config : BucketEncryptionConfig)
| PutObjectLock (bucket : string) (config : ObjectLockConfig)
| PutLogging (bucket target prefix : string)
| CreateUpload (bucket key content_type : string) (algorithm : option ChecksumAlgorithm)
    (encryption : option UploadEncryptionSpec)
| UploadPart (bucket upload_id : string) (part_number : Z) (body : source)
    (checksum : option (ChecksumAlgorithm * option string)) (customer_key : option bytes) (declared_size : option Z)
| CompleteUpload (bucket upload_id : string) (parts : list (Z * string)) (customer_key : option bytes)
| AbortUpload (bucket upload_id : string)
| Sweep (stale_after : Z).

Section steps.
Context `{Environment} `{Crates} `{Serde} `{SerdeJson} `{Aead} `{ReedSolomon} `{!HexDecode} `{!Buffering}.
Context `{!KeyService FilesystemStorage} (st : FilesystemStorage).

(** The world a request leaves, whatever it answers. *)
Definition perform (r : request) (w : world) : world :=
  match r with
  | CreateBucket meta => fst (create_bucket st meta w)
  | DeleteBucket b => fst (delete_bucket st b w)
  | PutObject b k ct body ck enc d => fst (put_object st b k ct body ck enc d w)
  | DeleteObject b k => fst (delete_object st b k w)
  | DeleteObjectVersion b k v => fst (delete_object_version st b k v w)
  | PutObjectTagging b k tags => fst (put_object_tagging st b k tags w)
  | DeleteObjectTagging b k => fst (delete_object_tagging st b k w)
  | PutObjectRetention b k v r => fst (put_object_retention st b k v r w)
  | PutObjectLegalHold b k v s => fst (put_object_legal_hold st b k v s w)
  | SetVersioning b on => fst (set_versioning st b on w)
  | SetErasureCoding b on => fst (set_bucket_erasure_coding st b on w)
  | PutLifecycle b rules => fst (put_bucket_lifecycle st b rules w)
  | SetPublic b r l => fst (set_bucket_public st b r l w)
  | PutCors b rules => fst (put_bucket_cors st b rules w)
  | PutEncryption b c => fst (put_bucket_encryption st b c w)
  | PutObjectLock b c => fst (put_bucket_object_lock st b c w)
  | PutLogging b t p => fst (put_bucket_logging st b t p w)
  | CreateUpload b k ct a spec => fst (create_multipart_upload st b k ct a spec w)
  | UploadPart b id n body ck key d => fst (upload_part st b id n body ck key d w)
  | CompleteUpload b id parts key => fst (complete_multipart_upload st b id parts key w)
  | AbortUpload b id => fst (abort_multipart_upload st b id w)
  | Sweep stale_after => fst (housekeeping_sweep st stale_after w)
  end.

(** The worlds reached from [w] by requests. *)
Inductive reached (w : world) : world -> Prop :=
| reached_start : reached w w
| reached_step w1 r : reached w w1 -> reached w (perform r w1).

Context `{!KeyServiceSpec FilesystemStorage}.

Lemma perform_keeps r w : tree_ok (w_tree w) -> tree_ok (w_tree (perform r w)).
Proof.
  revert w. destruct r as [meta|b|b k ct body ck enc d|b k|b k v|b k tags|b k|b k v r|b k v s
    |b on|b on|b rules|b r l|b rules|b c|b c|b t p|b k ct a spec|b id n body ck key d|b id parts key|b id|stale]; cbn [perform].
  1: apply keep_create_bucket. 1: apply keep_delete_bucket. 1: apply keep_put. 1: apply keep_delete.
  1: apply keep_delete_version. 1: apply (proj1 (keep_tags st b k tags)). 1: apply (proj2 (keep_tags st b k ∅)).
  1: apply (proj1 (keep_lock st b k v r On)).
  1: apply (proj2 (keep_lock st b k v (mk_ObjectLockRetention Governance "") s)).
  9: apply keep_create_upload. 9: apply keep_upload_part. 9: apply keep_complete. 9: apply keep_abort. 9: apply keep_sweep.
  all: match goal with |- forall w, _ -> tree_ok (w_tree (fst (?m w))) => change (keeps m) end;
    unfold set_versioning, set_bucket_erasure_coding, put_bucket_lifecycle, set_bucket_public,
      put_bucket_cors, put_bucket_encryption, put_bucket_object_lock, put_bucket_logging; keeps.
Qed.

(** The store stays well formed: in every world reached from a well-formed
    one by any sequence of requests, successful or not, everything on disk lies
    in a directory, no name is a file and a directory at once, and every name is
    one path segment. *)
Theorem store_stays_well_formed w w' : tree_ok (w_tree w) -> reached w w' -> tree_ok (w_tree w').
Proof. intros Hw Hr. induction Hr as [|w1 r Hr IH]; [done|by apply perform_keeps]. Qed.
End steps.

(** ** Witness *)

Import Demo.Toys MultipartSpec.ToyUploads.

Module Witness.
Definition st : FilesystemStorage := demo_storage true.
Definition w : world := demo_world (demo_bucket false None None).
Definition requests : list request :=
  [PutObject "pets" "dogs/rex" "text/plain" (body_of "woof") None None None;
   SetErasureCoding "pets" (Some false);
   PutObject "pets" "cat" "text/plain" (body_of "meow") None (Some sse_s3) None;
   CreateUpload "pets" "film" "video/mp4" None None; Sweep 0; AbortUpload "pets" "u";
   DeleteObject "pets" "dogs/rex"; DeleteBucket "pets"].
End Witness.

Lemma store_stays_well_formed_witness :
  tree_ok (w_tree (fold_left (fun w r => perform Witness.st r w) Witness.requests Witness.w)).
Proof.
  apply (store_stays_well_formed Witness.st Witness.w); [apply tree_okb_ok; vm_compute; reflexivity|].
  cbn [fold_left Witness.requests]. do 8 apply reached_step. apply reached_start.
Defined.
