(* ===== verification/HttpBody.v ===== *)
(** * Bodies of requests and responses

    The answer of a handler, with the XML documents of [maxio-server/src/xml]
    as data; reading a request body, plain or in the [aws-chunked] encoding
    ([body_to_reader] of [api/object.rs]).  The XML crate and the part of axum
    that buffers a body are parameters. *)

From stdpp Require Import base list gmap numbers strings pretty.
From Stdlib Require Import ZArith Lia Ascii Strings.Byte.
From S2P Require Import Prelude IpAddr Glob Policy Bytes Reader Utf8 Types Quota Crypto MetadataIndex FileSystem Paths World Keyring Storage Sidecar Publish Objects Listing ApiError ListApi Http Tenant RateLimit Signature Gate.

Local Open Scope nat_scope.

(** ** Responses *)

Record PartEntry : Type := mk_PartEntry {
  pe_part_number : Z; pe_last_modified : string; pe_etag : string; pe_size : Z }.
Record MultipartUploadEntry : Type := mk_MultipartUploadEntry {
  me_key : string; me_upload_id : string; me_initiated : string }.
Record LifecycleRuleXml : Type := mk_LifecycleRuleXml {
  lx_id : string; lx_prefix : string; lx_status : string; lx_expiration : option Z;
  lx_transition : option (Z * string); lx_noncurrent_version_expiration : option Z }.

(** The documents of [xml/types.rs] the handlers serialise. *)
Inductive Document : Type :=
| ListAllMyBucketsResult (owner_id owner_name : string) (buckets : list (string * string))
| ListBucketDocument (r : ListBucketResult)
| ListBucketV1Document (r : ListBucketResultV1)
| ListVersionsResult (name prefix key_marker version_id_marker : string) (max_keys : nat) (is_truncated : bool)
    (versions : list VersionEntry) (delete_markers : list DeleteMarkerEntry)
| InitiateMultipartUploadResult (bucket key upload_id : string)
| CompleteMultipartUploadResult (location bucket key etag : string)
| ListPartsResult (bucket key upload_id : string) (is_truncated : bool) (parts : list PartEntry)
| ListMultipartUploadsResult (bucket : string) (is_truncated : bool) (uploads : list MultipartUploadEntry)
| Tagging (tags : list (string * string))
| CopyObjectResult (etag last_modified : string)
| CopyPartResult (etag last_modified : string)
| VersioningConfiguration (status : option string)
| ErasureConfiguration (status : string)
| LifecycleConfigurationOut (rules : list LifecycleRuleXml)
| CorsConfiguration (rules : list CorsRule).

(** A body: none, text the handler formats, a document, or a stream. *)
Inductive ResponseBody : Type := NoBody | Text (s : string) | Xml (d : Document) | Stream (s : ByteStream).
Record Response : Type := mk_Response {
  rs_status : Z; rs_headers : list (string * string); rs_body : ResponseBody }.

Definition xml_response (d : Document) : Response := mk_Response 200 [("content-type", "application/xml")] (Xml d).
Definition xml_text (s : string) : Response := mk_Response 200 [("content-type", "application/xml")] (Text s).
Definition empty_response (status : Z) : Response := mk_Response status [] NoBody.

Definition xml_declaration : string :=
  "<?xml version=" +:+ dquote +:+ "1.0" +:+ dquote +:+ " encoding=" +:+ dquote +:+ "UTF-8" +:+ dquote +:+ "?>".

(** ** XML read *)

Record RetentionXml : Type := mk_RetentionXml {
  rx_mode : string; rx_retain_until_date : option string; rx_days : option Z }.
Record DefaultRetentionXml : Type := mk_DefaultRetentionXml {
  dx_mode : string; dx_days : option Z; dx_years : option Z }.
Record ObjectLockConfiguration : Type := mk_ObjectLockConfiguration {
  ox_enabled : option string; ox_rule : option (option DefaultRetentionXml) }.

(** The events of [quick_xml::Reader] up to the end or an error; a text is
    [None] where it does not unescape. *)
Inductive XmlEvent : Type :=
| XStart (name : string) | XText (unescaped : option string) | XEnd (name : string) | XOther | XError.

Class XmlCrate : Type := {
  xml_events : string -> list XmlEvent;
  xml_escape : string -> string;
  retention_of_xml : string -> option RetentionXml;
  legal_hold_of_xml : string -> option string;
  cors_of_xml : string -> option (list CorsRule);
  lifecycle_of_xml : string -> option (list LifecycleRuleXml);
  object_lock_of_xml : string -> option ObjectLockConfiguration;
}.

(** [axum::body::to_bytes]: the whole body, within a limit. *)
Class BodyCrate : Type := { to_bytes : source -> nat -> option bytes }.
Class BodyCrateSpec `{BodyCrate} : Prop := {
  to_bytes_within body limit : src_end body = Eof -> length (src_data body) <= limit ->
    to_bytes body limit = Some (src_data body);
  to_bytes_over body limit : limit < length (src_data body) -> to_bytes body limit = None;
}.
Definition body_text `{BodyCrate} (body : source) (limit : nat) : result S3Error string :=
  bytes ← ok_or (to_bytes body limit) internal; Ok (from_utf8_lossy bytes).

(** ** The aws-chunked encoding *)

(** [read_line] of a buffered reader, up to and with a newline. *)
Fixpoint split_line (l : bytes) : bytes * bytes :=
  match l with
  | [] => ([], [])
  | b :: l => if decide (b = x0a) then ([b], l) else let '(line, rest) := split_line l in (b :: line, rest)
  end.
Definition read_line (s : source) : option (string * source) :=
  let '(line, rest) := split_line (src_data s) in
  if bool_decide (last line <> Some x0a) && match src_end s with Eof => false | Fail _ => true end then None
  else text ← from_utf8 line; Some (text, mk_source rest (src_end s) (src_schedule s)).

Definition trim_line_end (s : string) : string :=
  of_chars (rev ((fix go l := match l with
                              | c :: l' => if decide (c = "010"%char \/ c = "013"%char) then go l' else l
                              | [] => [] end) (rev (chars s)))).

(** [usize::from_str_radix] in base 16, on a 64-bit machine. *)
Definition parse_hex (s : string) : option Z :=
  let l := match chars s with c :: l => if decide (c = "+"%char) then l else c :: l | [] => [] end in
  match l with [] => None | _ => parse_digits 16 u64_max 0 l end.

(** The size a line announces; a vector longer than [isize::MAX] panics. *)
Definition chunk_size_of (line : string) : option Z :=
  parse_hex (trim (default "0" (head (split_char ";" (trim_line_end line))))).
Definition isize_max : Z := 2 ^ 63 - 1.

(** One round of the loop; [None] when it ends. *)
Inductive chunk_step : Type := Done | Failed (e : refusal) | More (chunk : bytes) (rest : source).
Definition next_chunk (s : source) : chunk_step :=
  match read_line s with
  | None => Failed (Refused internal)
  | Some (line, s) =>
      if decide (line = "") then Done
      else
        match chunk_size_of line with
        | None => Failed (Refused internal)
        | Some size =>
            if (size =? 0)%Z then Done
            else if (isize_max <? size)%Z then Failed Panicked
            else if (Z.of_nat (length (src_data s)) <? size)%Z then Failed (Refused internal)
            else
              let n := Z.to_nat size in
              More (take n (src_data s)) (seek (seek s n) 2)
        end
  end.
Fixpoint decode_chunks (fuel : nat) (s : source) (decoded : bytes) : option (result refusal bytes) :=
  match fuel with
  | O => None
  | S fuel =>
      match next_chunk s with
      | Done => Some (Ok decoded)
      | Failed e => Some (Err e)
      | More chunk rest => decode_chunks fuel rest (decoded ++ chunk)
      end
  end.

Definition is_aws_chunked (h : HeaderMap) : bool :=
  bool_decide (header h "x-amz-content-sha256" = Some "STREAMING-AWS4-HMAC-SHA256-PAYLOAD").

(** A round takes at least a byte, so that the length of the body is enough. *)
Definition body_to_reader (h : HeaderMap) (body : source) : result refusal source :=
  if is_aws_chunked h then
    decoded ← default (Err Panicked) (decode_chunks (S (length (src_data body))) body []);
    Ok (mk_source decoded Eof [])
  else Ok body.

Definition parse_content_length (h : HeaderMap) : option Z :=
  v ← header h "content-length"; parse_uint u64_max v.

(** ** The decoder *)

Lemma split_line_app l line rest : split_line l = (line, rest) -> l = line ++ rest.
Proof.
  revert line rest. induction l as [|b l IH]; cbn; [by intros ? ? [= <- <-]|]. intros line rest.
  case_decide; [by intros [= <- <-]; subst|]. destruct (split_line l) as [line' rest'].
  intros [= <- <-]. cbn. f_equal. by apply IH.
Qed.
Lemma split_line_newline line rest : x0a ∉ line -> split_line (line ++ x0a :: rest) = (line ++ [x0a], rest).
Proof.
  induction line as [|b line IH]; cbn; [done|]. intros [Hb Hl]%not_elem_of_cons.
  rewrite decide_False by congruence. by rewrite IH.
Qed.

(** A round that goes on makes the body shorter. *)
Lemma next_chunk_shorter s chunk rest : next_chunk s = More chunk rest -> length (src_data rest) < length (src_data s).
Proof.
  unfold next_chunk, read_line. destruct (split_line (src_data s)) as [line data] eqn:Es.
  apply split_line_app in Es as Hs. destruct (bool_decide _ && _); [done|]. destruct (from_utf8 line) as [text|] eqn:Et; [|done].
  cbn. case_decide as Hn; [done|].
  assert (line <> []) by (intros ->; by injection Et as <-).
  repeat (case_match; try done). intros [= _ <-]. cbn. rewrite Hs, length_app, !length_drop.
  destruct line; [done|cbn; lia].
Qed.

(** The decoder terminates: the fuel of [body_to_reader] is enough. *)
Lemma decode_chunks_terminates fuel s decoded : length (src_data s) < fuel -> is_Some (decode_chunks fuel s decoded).
Proof.
  revert s decoded. induction fuel as [|fuel IH]; intros s decoded Hf; [lia|]. cbn.
  destruct (next_chunk s) as [| |chunk rest] eqn:En; [by eauto..|]. apply next_chunk_shorter in En. apply IH. lia.
Qed.

(** *** Streams of chunks *)

(** A chunk as it is sent: a line that announces the size, whatever it says after
    a semicolon, and the data. *)
Record sent_chunk : Type := mk_sent_chunk { sc_line : string; sc_data : bytes }.
Definition crlf : bytes := [x0d; x0a].
Definition frame (c : sent_chunk) : bytes := as_bytes (sc_line c) ++ crlf ++ sc_data c ++ crlf.
Record announces (line : string) (size : Z) : Prop := {
  an_one_line : x0a ∉ as_bytes line;
  an_rust : rust_string (line +:+ of_chars ["013"%char; "010"%char]);
  an_size : chunk_size_of (line +:+ of_chars ["013"%char; "010"%char]) = Some size;
}.
Definition well_sent (c : sent_chunk) : Prop :=
  sc_data c <> [] /\ (Z.of_nat (length (sc_data c)) <= isize_max)%Z /\ announces (sc_line c) (Z.of_nat (length (sc_data c))).

Lemma read_announcement line size rest e sched : announces line size ->
  read_line (mk_source (as_bytes line ++ crlf ++ rest) e sched)
  = Some (line +:+ of_chars ["013"%char; "010"%char], mk_source rest e sched).
Proof.
  intros [Hl Hr _]. unfold read_line. cbn [src_data src_end src_schedule].
  replace (as_bytes line ++ crlf ++ rest) with ((as_bytes line ++ [x0d]) ++ x0a :: rest) by (by rewrite <-app_assoc).
  rewrite split_line_newline by set_solver. rewrite last_snoc, bool_decide_eq_false_2 by auto. cbn [andb].
  replace ((as_bytes line ++ [x0d]) ++ [x0a]) with (as_bytes (line +:+ of_chars ["013"%char; "010"%char]))
    by (rewrite as_bytes_app, <-app_assoc; done).
  by rewrite from_utf8_as_bytes.
Qed.

Lemma next_sent_chunk c rest e sched : well_sent c ->
  next_chunk (mk_source (frame c ++ rest) e sched) = More (sc_data c) (mk_source rest e sched).
Proof.
  intros (Hne & Hmax & Ha). unfold next_chunk, frame. rewrite <-!app_assoc.
  rewrite (read_announcement _ _ _ _ _ Ha). rewrite decide_False by (by destruct (sc_line c)).
  rewrite (an_size _ _ Ha). cbn [src_data].
  destruct (Z.eqb_spec (Z.of_nat (length (sc_data c))) 0) as [E|_]; [by destruct (sc_data c)|].
  rewrite (proj2 (Z.ltb_ge _ _)) by lia. rewrite (proj2 (Z.ltb_ge _ _)) by (rewrite length_app; lia).
  rewrite Nat2Z.id. unfold seek. cbn [src_data src_end src_schedule].
  by rewrite take_app_length, drop_app_length.
Qed.

Lemma decode_sent chunks : Forall well_sent chunks -> forall fuel rest e sched decoded,
  decode_chunks (length chunks + fuel) (mk_source (concat (map frame chunks) ++ rest) e sched) decoded
  = decode_chunks fuel (mk_source rest e sched) (decoded ++ concat (map sc_data chunks)).
Proof.
  induction 1 as [|c chunks Hc _ IH]; intros fuel rest e sched decoded; [cbn; by rewrite app_nil_r|].
  cbn [length plus map concat decode_chunks]. rewrite <-app_assoc, next_sent_chunk by done.
  by rewrite IH, <-app_assoc.
Qed.

Lemma frames_length chunks : length chunks <= length (concat (map frame chunks)).
Proof. induction chunks as [|c chunks IH]; cbn; [lia|]. unfold frame at 1. rewrite !length_app. cbn. lia. Qed.

(** How a stream may end: it just ends, or with a chunk of size zero and
    anything after it. *)
Definition stream_tail (tail : bytes) (e : stream_end) : Prop :=
  (tail = [] /\ e = Eof) \/ exists line rest, announces line 0 /\ tail = as_bytes line ++ crlf ++ rest.

Lemma next_tail tail e sched : stream_tail tail e -> next_chunk (mk_source tail e sched) = Done.
Proof.
  intros [[-> ->]|(line & rest & Ha & ->)]; [done|]. unfold next_chunk. rewrite (read_announcement _ _ _ _ _ Ha).
  rewrite decide_False by (by destruct line). by rewrite (an_size _ _ Ha).
Qed.

(** C37: Uploads in the aws-chunked encoding.  Whatever the chunks and the text of
    their lines, the signatures of the chunks included, the reader handed to the
    storage delivers the data of the chunks, in order, and the framing is gone.
    Nothing but the sizes is looked at: the signatures are not checked, and a
    stream cut after any chunk is taken for a complete upload. *)
Theorem aws_chunked_body h chunks tail e sched :
  is_aws_chunked h = true -> Forall well_sent chunks -> stream_tail tail e ->
  body_to_reader h (mk_source (concat (map frame chunks) ++ tail) e sched)
  = Ok (mk_source (concat (map sc_data chunks)) Eof []).
Proof.
  intros Hh Hc Ht. unfold body_to_reader. rewrite Hh. cbn [src_data]. rewrite length_app.
  pose proof (frames_length chunks).
  replace (S (length (concat (map frame chunks)) + length tail))
    with (length chunks + S (length (concat (map frame chunks)) + length tail - length chunks)) by lia.
  rewrite decode_sent by done. cbn [decode_chunks]. by rewrite next_tail.
Qed.

Definition chunked_headers : HeaderMap := fun name =>
  if decide (name = "x-amz-content-sha256") then [Some "STREAMING-AWS4-HMAC-SHA256-PAYLOAD"] else [].
Definition two_chunks : list sent_chunk :=
  [mk_sent_chunk "5;chunk-signature=0f3a" (as_bytes "meow,"); mk_sent_chunk "4;chunk-signature=forged" (as_bytes " rex")].
Lemma two_chunks_sent : Forall well_sent two_chunks.
Proof.
  repeat (apply Forall_cons; split); [..|done];
    (split_and!; [done|by vm_compute|split; [apply (bool_decide_unpack _); vm_compute; exact I|by vm_compute..]]).
Qed.
Lemma last_line : announces "0;chunk-signature=none" 0.
Proof. split; [apply (bool_decide_unpack _); vm_compute; exact I|by vm_compute..]. Qed.

(** The stream with its last chunk, and cut before it. *)
Lemma aws_chunked_body_witness :
  map (fun tail => body_to_reader chunked_headers (mk_source (concat (map frame two_chunks) ++ tail) Eof []))
    [as_bytes "0;chunk-signature=none" ++ crlf ++ crlf; []]
  = replicate 2 (Ok (mk_source (as_bytes "meow, rex") Eof [])).
Proof.
  refine (f_equal2 cons _ (f_equal2 cons _ eq_refl)).
  - refine (aws_chunked_body chunked_headers two_chunks _ Eof [] eq_refl two_chunks_sent _). right.
    exists "0;chunk-signature=none", crlf. split; [exact last_line|reflexivity].
  - exact (aws_chunked_body chunked_headers two_chunks [] Eof [] eq_refl two_chunks_sent (or_introl (conj eq_refl eq_refl))).
Defined.
