(* ===== verification/Headers.v ===== *)
(** * Headers of object requests

    The pure part of [maxio-server/src/api/object.rs]: encryption and checksum
    headers, the source of a copy, conditional requests and byte ranges. *)

From stdpp Require Import base list gmap numbers strings pretty.
From Stdlib Require Import ZArith Lia Ascii Strings.Byte.
From S2P Require Import Prelude IpAddr Glob Policy Bytes Reader Utf8 Types Quota Crypto MetadataIndex FileSystem Paths World Keyring Storage Sidecar Publish Objects Listing ApiError ListApi Http Signature Multipart HttpBody.

Local Open Scope nat_scope.

(** ** Dates: [chrono] *)

(** A [DateTime<FixedOffset>]: an instant and the offset it is written in. *)
Record DateTime : Type := mk_DateTime { dt_instant : Z; dt_offset : Z }.

(** The parsers and the format the code names; [parse_iso] is [parse_from_str]
    with ["%Y-%m-%dT%H:%M:%S%.3fZ"]. *)
Class HttpDates : Type := {
  parse_rfc2822 : string -> option DateTime;
  parse_iso : string -> option DateTime;
  parse_rfc3339_date : string -> option DateTime;
  format_http_date : DateTime -> string;
}.

Section dates.
Context `{HttpDates}.

Definition parse_http_date (s : string) : option DateTime := parse_rfc2822 s.
Definition parse_object_date (iso : string) : option DateTime :=
  match parse_iso iso with Some d => Some d | None => parse_rfc3339_date iso end.
Definition to_http_date (iso : string) : string :=
  match parse_object_date iso with Some d => format_http_date d | None => iso end.

(** ** Conditional requests *)

Inductive ConditionalResult : Type := NotModified | PreconditionFailed.

Definition etag_matches (header_value object_etag : string) : bool :=
  let value := trim header_value in
  if decide (value = "*") then true
  else existsb (fun part => bool_decide (trim_quotes (trim part) = trim_quotes object_etag)) (split_char "," value).

(** [f(threshold, obj_date)], where both dates are known. *)
Definition compare_dates (f : Z -> Z -> bool) (value last_modified : string) : bool :=
  match parse_http_date value, parse_object_date last_modified with
  | Some threshold, Some obj_date => f (dt_instant threshold) (dt_instant obj_date)
  | _, _ => false
  end.

Definition check_conditions (h : HeaderMap) (meta : ObjectMeta) : option ConditionalResult :=
  let precondition_failed :=
    match header h "if-match" with
    | Some value => negb (etag_matches value (om_etag meta))
    | None =>
        match header h "if-unmodified-since" with
        | Some value => compare_dates (fun threshold obj_date => threshold <? obj_date)%Z value (om_last_modified meta)
        | None => false
        end
    end in
  if precondition_failed then Some PreconditionFailed
  else
    match header h "if-none-match" with
    | Some value => if etag_matches value (om_etag meta) then Some NotModified else None
    | None =>
        match header h "if-modified-since" with
        | Some value =>
            if compare_dates (fun threshold obj_date => obj_date <=? threshold)%Z value (om_last_modified meta)
            then Some NotModified else None
        | None => None
        end
    end.

Definition not_modified_response (meta : ObjectMeta) : Response :=
  mk_Response 304 [("ETag", om_etag meta); ("Last-Modified", to_http_date (om_last_modified meta))] NoBody.
End dates.

(** ** Ranges *)

(** The positions are inclusive; [Err] stands for a range that selects nothing,
    [Ok None] for a header that is ignored. *)
Definition parse_range (h : string) (file_size : Z) : result unit (option (Z * Z)) :=
  match strip_prefix "bytes=" (trim h) with
  | None => Ok None
  | Some spec =>
      let spec := trim spec in
      if contains_char "," spec then Ok None
      else
        match split_once "-" spec with
        | None => Ok None
        | Some (start_str, end_str) =>
            if (file_size =? 0)%Z then Err tt
            else if decide (start_str = "") then
              suffix ← ok_or (parse_uint u64_max end_str) tt;
              if (suffix =? 0)%Z then Err tt
              else Ok (Some (Z.max 0 (file_size - suffix), (file_size - 1)%Z))
            else if decide (end_str = "") then
              start ← ok_or (parse_uint u64_max start_str) tt;
              if (file_size <=? start)%Z then Err tt else Ok (Some (start, (file_size - 1)%Z))
            else
              start ← ok_or (parse_uint u64_max start_str) tt;
              last ← ok_or (parse_uint u64_max end_str) tt;
              if (file_size <=? start)%Z then Err tt
              else
                let last := Z.min last (file_size - 1) in
                if (last <? start)%Z then Err tt else Ok (Some (start, last))
        end
  end.

Definition invalid_copy_range : S3Error := invalid_argument "invalid x-amz-copy-source-range format".
Definition parse_copy_source_range (h : HeaderMap) (src_size : Z) : result S3Error (option (Z * Z)) :=
  match header h "x-amz-copy-source-range" with
  | None => Ok None
  | Some value =>
      spec ← ok_or (strip_prefix "bytes=" value) invalid_copy_range;
      '(start_str, end_str) ← ok_or (split_once "-" spec) invalid_copy_range;
      start ← ok_or (parse_uint u64_max start_str) (invalid_argument "invalid range start");
      last ← ok_or (parse_uint u64_max end_str) (invalid_argument "invalid range end");
      if (last <? start)%Z || (src_size <=? last)%Z then Err invalid_range else Ok (Some (start, last))
  end.

(** ** Encryption and checksums *)

Section sse.
Context `{Crates}.

(** The three headers of a customer key, under a prefix, and the messages. *)
Definition customer_key_in (h : HeaderMap) (prefix what : string) : result S3Error bytes :=
  key_b64 ← ok_or (header h (prefix +:+ "-key")) (invalid_argument ("missing " +:+ prefix +:+ "-key"));
  raw ← ok_or (b64_decode key_b64) (invalid_argument ("invalid " +:+ what +:+ " key base64"));
  if negb (length raw =? 32) then Err (invalid_argument (what +:+ " key must be 32 bytes")) else Ok raw.

Definition sse_c_prefix : string := "x-amz-server-side-encryption-customer".
Definition copy_source_prefix : string := "x-amz-copy-source-server-side-encryption-customer".

(** The base64 of the digest of a key. *)
Definition key_md5 (key : bytes) : string := b64_encode (md5 key).

Definition extract_sse_request (h : HeaderMap) : result S3Error (option EncryptionRequest) :=
  match header h "x-amz-server-side-encryption-customer-algorithm" with
  | Some algo =>
      if decide (algo <> "AES256") then Err invalid_encryption_algorithm
      else
        key ← customer_key_in h sse_c_prefix "SSE-C";
        match header h "x-amz-server-side-encryption-customer-key-md5" with
        | Some md5_b64 =>
            if decide (key_md5 key <> md5_b64) then Err (invalid_argument "SSE-C key MD5 mismatch")
            else Ok (Some (sse_c key))
        | None => Ok (Some (sse_c key))
        end
  | None =>
      match header h "x-amz-server-side-encryption" with
      | Some sse =>
          if decide (sse = "AES256") then Ok (Some sse_s3)
          else if decide (sse = "aws:kms") then
            Ok (Some (sse_kms (header h "x-amz-server-side-encryption-aws-kms-key-id")))
          else Err invalid_encryption_algorithm
      | None => Ok None
      end
  end.

(** The key without the digest: for reads, and for the source of a copy. *)
Definition customer_key_under (h : HeaderMap) (prefix what : string) : result S3Error (option bytes) :=
  match header h (prefix +:+ "-algorithm") with
  | None => Ok None
  | Some algo =>
      if decide (algo <> "AES256") then Err invalid_encryption_algorithm
      else key ← customer_key_in h prefix what; Ok (Some key)
  end.
Definition extract_copy_source_customer_key (h : HeaderMap) : result S3Error (option bytes) :=
  customer_key_under h copy_source_prefix "copy-source SSE-C".
Definition extract_customer_key (h : HeaderMap) : result S3Error (option bytes) :=
  customer_key_under h sse_c_prefix "SSE-C".

Definition encryption_from_bucket_default (cfg : BucketEncryptionConfig) : EncryptionRequest :=
  if decide (be_sse_algorithm cfg = "aws:kms") then sse_kms (be_kms_key_id cfg) else sse_s3.

Definition spec_from_request (req : EncryptionRequest) : UploadEncryptionSpec :=
  mk_UploadEncryptionSpec (er_mode req) (key_md5 <$> er_customer_key req) None None None (er_kms_key_id req) "".

(** The headers that tell the client what was applied. *)
Definition sse_mode_headers (mode : EncryptionMode) (customer_key_md5 : option string) : list (string * string) :=
  match mode with
  | SseS3 => [("x-amz-server-side-encryption", "AES256")]
  | SseC =>
      ("x-amz-server-side-encryption-customer-algorithm", "AES256")
      :: match customer_key_md5 with
         | Some md5 => [("x-amz-server-side-encryption-customer-key-md5", md5)]
         | None => []
         end
  | SseKms => [("x-amz-server-side-encryption", "aws:kms")]
  end.
Definition add_sse_headers (enc : option EncryptionMeta) : list (string * string) :=
  match enc with Some em => sse_mode_headers (em_mode em) (em_customer_key_md5 em) | None => [] end.

Definition checksum_headers : list (string * ChecksumAlgorithm) :=
  [("x-amz-checksum-crc32", CRC32); ("x-amz-checksum-crc32c", CRC32C); ("x-amz-checksum-sha1", SHA1);
   ("x-amz-checksum-sha256", SHA256)].
Definition extract_checksum (h : HeaderMap) : option (ChecksumAlgorithm * option string) :=
  match head (omap (fun '(name, algo) => (fun v => (algo, Some v)) <$> header h name) checksum_headers) with
  | Some found => Some found
  | None => v ← header h "x-amz-checksum-algorithm"; algo ← from_header_str v; Some (algo, None)
  end.

Definition checksum_header (algo : option ChecksumAlgorithm) (value : option string) : list (string * string) :=
  match algo, value with Some algo, Some v => [(header_name algo, v)] | _, _ => [] end.
Definition add_checksum_header (meta : ObjectMeta) : list (string * string) :=
  checksum_header (om_checksum_algorithm meta) (om_checksum_value meta).
End sse.

(** ** The source of a copy *)

(** The header is percent-decoded, and must be UTF-8. *)
Definition parse_copy_source `{PercentEncoding} (h : HeaderMap) : result S3Error (string * string) :=
  copy_source ← ok_or (header h "x-amz-copy-source") (invalid_argument "missing x-amz-copy-source header");
  decoded ← ok_or (percent_decode_utf8 copy_source) (invalid_argument "invalid x-amz-copy-source encoding");
  ok_or (split_once "/" (trim_start_slashes decoded)) (invalid_argument "invalid x-amz-copy-source format").

(** ** What a range selects *)

(** The three forms of a range. *)
Inductive byte_range : Type := FromTo (a b : Z) | FromOn (a : Z) | Suffix (n : Z).
Definition range_header (r : byte_range) : string :=
  "bytes=" +:+ match r with
               | FromTo a b => pretty a +:+ "-" +:+ pretty b
               | FromOn a => pretty a +:+ "-"
               | Suffix n => "-" +:+ pretty n
               end.
Definition selects (r : byte_range) (size i : Z) : Prop :=
  match r with FromTo a b => a <= i <= b | FromOn a => a <= i | Suffix n => size - n <= i end%Z.
Definition range_ok (r : byte_range) : Prop :=
  match r with
  | FromTo a b => 0 <= a <= u64_max /\ 0 <= b <= u64_max
  | FromOn a => 0 <= a <= u64_max
  | Suffix n => 0 <= n <= u64_max
  end%Z.

Definition graphic (c : ascii) : Prop := (33 <= code c)%Z.
Lemma trim_start_graphic l : Forall graphic l -> trim_start l = l.
Proof.
  destruct 1 as [|c l Hc _]; [done|]. cbn. rewrite decide_False; [done|]. intros Hin. revert Hc.
  repeat (apply elem_of_cons in Hin as [->|Hin]; [intros Hc; by destruct Hc|]). by apply elem_of_nil in Hin.
Qed.
Lemma trim_graphic s : Forall graphic (chars s) -> trim s = s.
Proof.
  intros Hs. unfold trim. rewrite (trim_start_graphic (chars s)), trim_start_graphic by (done || by apply Forall_rev).
  by rewrite rev_involutive, of_chars_chars.
Qed.
Lemma split_once_first c l r : contains_char c l = false -> split_once c (l +:+ String c r) = Some (l, r).
Proof.
  induction l as [|a l IH]; [intros _; change ("" +:+ String c r) with (String c r); cbn; by rewrite decide_True|]. intros Hc.
  change (String a l +:+ String c r) with (String a (l +:+ String c r)). cbn.
  unfold contains_char in Hc. rewrite bool_decide_eq_false in Hc. cbn [chars] in Hc.
  apply not_elem_of_cons in Hc as [Hne Hc]. rewrite decide_False by congruence.
  rewrite IH; [done|]. unfold contains_char. by rewrite bool_decide_eq_false.
Qed.
Lemma pretty_graphic n : (0 <= n)%Z -> Forall graphic (chars (pretty n)).
Proof.
  intros Hn. apply Forall_forall. intros c Hc. unfold graphic.
  destruct (decide (c = "+"%char)) as [->|Hp]; [by vm_compute|].
  destruct (to_digit 10 c) as [d|] eqn:E.
  - unfold to_digit, is_ascii_digit in E. apply bind_Some in E as (v & Hv & _).
    destruct ((48 <=? code c) && (code c <=? 57))%Z eqn:E1; [bool_to_prop; lia|].
    unfold is_ascii_lowercase, is_ascii_uppercase in Hv.
    destruct ((97 <=? code c) && (code c <=? 122))%Z eqn:E2; [bool_to_prop; lia|].
    destruct ((65 <=? code c) && (code c <=? 90))%Z eqn:E3; [bool_to_prop; lia|done].
  - pose proof (pretty_no_char n c Hn Hp E) as Hf. unfold contains_char in Hf. by rewrite bool_decide_eq_false in Hf.
Qed.


Lemma parse_uint_bounds max x n : (0 <= max)%Z -> parse_uint max x = Some n -> (0 <= n <= max)%Z.
Proof.
  intros Hm. unfold parse_uint.
  assert (Hd : forall l acc, (0 <= acc <= max)%Z -> forall n, parse_digits 10 max acc l = Some n -> (0 <= n <= max)%Z).
  { induction l as [|c l IH]; intros acc Ha n0; cbn -[to_digit]; [by intros [= <-]|].
    destruct (to_digit 10 c) as [d|] eqn:E; cbn; [|done]. apply to_digit_bounds in E.
    destruct (Z.leb_spec (acc * 10 + d) max); [|done]. apply IH. lia. }
  destruct (match chars x with [] => [] | c :: l => if decide (c = "+"%char) then l else c :: l end); [done|].
  apply Hd. lia.
Qed.

(** The positions of a range are in the object: its length, [end - start + 1],
    neither underflows nor exceeds the size. *)
Lemma parse_range_bounds h size s e : (0 <= size)%Z -> parse_range h size = Ok (Some (s, e)) -> (0 <= s <= e /\ e < size)%Z.
Proof.
  intros Hs. unfold parse_range. destruct (strip_prefix _ _) as [spec|]; [|done].
  destruct (contains_char _ _); [done|]. destruct (split_once _ _) as [[a b]|]; [|done].
  destruct (Z.eqb_spec size 0); [done|].
  assert (Hu : forall x n, parse_uint u64_max x = Some n -> (0 <= n)%Z)
    by (intros x m Hx; by apply (parse_uint_bounds u64_max x m)).
  case_decide; [|case_decide].
  - destruct (parse_uint _ b) as [m|] eqn:E; cbn; [|done]. apply Hu in E.
    destruct (Z.eqb_spec m 0); [done|]. intros [= <- <-]. lia.
  - destruct (parse_uint _ a) as [m|] eqn:E; cbn; [|done]. apply Hu in E.
    destruct (Z.leb_spec size m); [done|]. intros [= <- <-]. lia.
  - destruct (parse_uint _ a) as [m|] eqn:E; cbn; [|done]. apply Hu in E.
    destruct (parse_uint _ b) as [k|] eqn:E'; cbn; [|done].
    destruct (Z.leb_spec size m); [done|]. destruct (Z.ltb_spec (Z.min k (size - 1)) m); [done|].
    intros [= <- <-]. lia.
Qed.

Lemma no_char_app c s t : contains_char c (s +:+ t) = contains_char c s || contains_char c t.
Proof.
  unfold contains_char. rewrite chars_app. apply eq_true_iff_eq. rewrite orb_true_iff, !bool_decide_eq_true. apply elem_of_app.
Qed.

(** The two numbers of a printed range. *)
Lemma parse_range_header r size : range_ok r ->
  parse_range (range_header r) size =
    if (size =? 0)%Z then Err tt
    else match r with
         | Suffix n => if (n =? 0)%Z then Err tt else Ok (Some (Z.max 0 (size - n), (size - 1)%Z))
         | FromOn a => if (size <=? a)%Z then Err tt else Ok (Some (a, (size - 1)%Z))
         | FromTo a b =>
             if (size <=? a)%Z then Err tt
             else if (Z.min b (size - 1) <? a)%Z then Err tt else Ok (Some (a, Z.min b (size - 1)))
         end.
Proof.
  intros Hr. assert (Hspec : exists l r', range_header r = "bytes=" +:+ (l +:+ String "-" r') /\
    contains_char "-" l = false /\ contains_char "," (l +:+ String "-" r') = false /\
    Forall graphic (chars (l +:+ String "-" r')) /\
    (l, r') = match r with FromTo a b => (pretty a, pretty b) | FromOn a => (pretty a, "") | Suffix n => ("", pretty n) end).
  { assert (Hc : forall x y, Forall graphic (chars x) -> Forall graphic (chars y) ->
      contains_char "," x = false -> contains_char "," y = false ->
      contains_char "," (x +:+ String "-" y) = false /\ Forall graphic (chars (x +:+ String "-" y))).
    { intros x y Hx Hy Ex Ey. rewrite no_char_app, Ex. change (String "-" y) with ("-" +:+ y).
      rewrite no_char_app, Ey, !chars_app. split; [done|]. repeat (apply Forall_app; split); [done| |done].
      by apply Forall_singleton. }
    destruct r as [a b|a|n]; cbn in Hr; [exists (pretty a), (pretty b)|exists (pretty a), ""|exists "", (pretty n)];
      (split; [reflexivity|]); (split; [first [done|apply pretty_no_char; [lia|done..]]|]); rewrite (assoc and);
      (split; [|reflexivity]); apply Hc; first [done|apply pretty_graphic; lia|apply pretty_no_char; [lia|done..]|constructor]. }
  destruct Hspec as (l & r' & Eh & Hl & Hcomma & Hg & Elr). unfold parse_range.
  rewrite (trim_graphic (range_header r)) by (rewrite Eh, chars_app; apply Forall_app; split; [by repeat constructor|done]).
  rewrite Eh, (proj2 (strip_prefix_Some _ _ _) eq_refl), (trim_graphic _ Hg), Hcomma, split_once_first by done.
  destruct (Z.eqb_spec size 0); [done|].
  destruct r as [a b|a|n0]; injection Elr as -> ->; cbn in Hr.
  - rewrite !decide_False by (apply pretty_chars; lia). by rewrite !parse_uint_pretty by lia.
  - rewrite decide_False by (apply pretty_chars; lia). by rewrite decide_True, parse_uint_pretty by (done || lia).
  - by rewrite decide_True, parse_uint_pretty by (done || lia).
Qed.

(** The interval the server answers for a range of any of the three forms is
    exactly the positions the range selects, and it refuses the request exactly
    when there is none. *)
Lemma range_selection r size : range_ok r -> (0 <= size)%Z ->
  match parse_range (range_header r) size with
  | Ok (Some (s, e)) => (0 <= s <= e /\ e < size)%Z /\ forall i, (0 <= i < size)%Z -> selects r size i <-> (s <= i <= e)%Z
  | Ok None => False
  | Err _ => forall i, (0 <= i < size)%Z -> ~ selects r size i
  end.
Proof.
  intros Hr Hs. pose proof (parse_range_header r size Hr) as Hp.
  destruct (parse_range (range_header r) size) as [[[s e]|]|] eqn:E; rename Hp into Hv.
  - split; [by eapply parse_range_bounds|]. intros i Hi.
    destruct (Z.eqb_spec size 0); [done|]. destruct r as [a b|a|n0]; cbn in *.
    + destruct (Z.leb_spec size a); [done|]. destruct (Z.ltb_spec (Z.min b (size - 1)) a); [done|].
      injection Hv as -> ->. lia.
    + destruct (Z.leb_spec size a); [done|]. injection Hv as -> ->. lia.
    + destruct (Z.eqb_spec n0 0); [done|]. injection Hv as -> ->. lia.
  - repeat case_match; done.
  - intros i Hi. destruct (Z.eqb_spec size 0); [lia|]. destruct r as [a b|a|n0]; cbn in *.
    + destruct (Z.leb_spec size a); [lia|]. destruct (Z.ltb_spec (Z.min b (size - 1)) a); [lia|done].
    + destruct (Z.leb_spec size a); [lia|done].
    + destruct (Z.eqb_spec n0 0); [lia|done].
Qed.

Example ranges_read :
  map (fun r => parse_range (range_header r) 10) [FromTo 2 5; FromOn 7; Suffix 3; FromTo 4 99; Suffix 0; FromOn 10]
  = [Ok (Some (2, 5)); Ok (Some (7, 9)); Ok (Some (7, 9)); Ok (Some (4, 9)); Err tt; Err tt]%Z.
Proof. vm_compute. reflexivity. Qed.

(** ** Entity tags *)

(** A tag of the server is matched by itself and by any list that has it. *)
Lemma etag_matches_self e : Forall graphic (chars e) -> contains_char "," e = false -> etag_matches e e = true.
Proof.
  intros Hg Hc. unfold etag_matches. rewrite (trim_graphic e Hg). case_decide; [done|].
  rewrite split_char_no by done. cbn. rewrite (trim_graphic e Hg), bool_decide_eq_true_2 by done. done.
Qed.
