(* ===== verification/ObjectApi.v ===== *)
(** * The object handlers

    [maxio-server/src/api/object.rs] and [api/multipart.rs]: uploads, copies,
    downloads, deletions, tags, retention and legal hold, and the requests of a
    multipart upload.  A handler takes the bucket and key of the route, the
    parameters of the query, the headers, the principal and the body.  The
    arithmetic of [u64] wraps, as in a release build. *)

From stdpp Require Import base list gmap sorting numbers strings pretty.
From Stdlib Require Import ZArith Lia Ascii Strings.Byte.
From S2P Require Import Prelude IpAddr Glob Policy Bytes Reader Utf8 Types Quota Crypto ErasureCode ChunkReader MetadataIndex FileSystem Paths World Keyring Storage BucketConfig Sidecar Publish Objects Versions Listing ApiError ListApi Events Http Signature RateLimit Tenant Gate Multipart HttpBody Headers.

Local Open Scope nat_scope.

(** The order in which the tasks of a [JoinSet] finish. *)
Class Tasks : Type := { completion_order : list string -> list string }.
Class TasksSpec `{Tasks} : Prop := { completion_order_perm l : completion_order l ≡ₚ l }.

(** ** Errors *)

Definition is_sidecar_integrity_violation (msg : string) : bool :=
  contains_str "sidecar_mac" msg || contains_str "encryption metadata" msg.

Definition map_read_object_err (key : string) (err : StorageError) : S3Error :=
  match err with
  | NotFoundError _ => no_such_key key
  | VersionNotFound id => no_such_version id
  | InvalidKey msg => invalid_argument msg
  | DecryptionError msg => invalid_argument msg
  | EncryptionError msg => invalid_argument msg
  | IntegrityError msg => if is_sidecar_integrity_violation msg then invalid_argument msg else internal
  | _ => internal
  end.

(** The errors of the source of a copy, and of requests about a key. *)
Definition map_copy_source_err (src_key : string) (err : StorageError) : S3Error :=
  match err with
  | NotFoundError _ => no_such_key src_key
  | InvalidKey msg | DecryptionError msg | IntegrityError msg => invalid_argument msg
  | _ => internal
  end.
Definition map_key_err (key : string) (err : StorageError) : S3Error :=
  match err with NotFoundError _ => no_such_key key | InvalidKey msg => invalid_argument msg | _ => internal end.

Definition map_storage_err (err : StorageError) : S3Error :=
  match err with
  | ObjectTooLarge max => entity_too_large max
  | InsufficientStorage msg => insufficient_storage msg
  | ChecksumMismatch _ => bad_checksum "x-amz-checksum"
  | UploadNotFound upload_id => no_such_upload upload_id
  | InvalidKey msg =>
      if contains_str "part too small" msg then entity_too_small
      else if contains_str "part" msg || contains_str "etag" msg || contains_str "upload" msg
              || contains_str "at least one" msg
      then invalid_part msg
      else invalid_argument msg
  | EncryptionError msg | DecryptionError msg | IntegrityError msg => invalid_argument msg
  | _ => internal
  end.

(** ** XML of the requests *)

(** The keys of a multi-object delete. *)
Fixpoint keys_in (in_key : bool) (events : list XmlEvent) : result S3Error (list string) :=
  match events with
  | [] => Ok []
  | XError :: _ => Err malformed_xml
  | XStart name :: events => keys_in (bool_decide (name = "Key") || in_key) events
  | XText t :: events => if in_key then keys ← keys_in false events; Ok (default "" t :: keys) else keys_in in_key events
  | XEnd name :: events => keys_in (negb (bool_decide (name = "Key")) && in_key) events
  | XOther :: events => keys_in in_key events
  end.

Fixpoint tags_in (current_key : option string) (in_key in_value : bool) (tags : gmap string string)
    (events : list XmlEvent) : result S3Error (gmap string string) :=
  match events with
  | [] => Ok tags
  | XError :: _ => Err malformed_xml
  | XStart name :: events =>
      tags_in current_key (bool_decide (name = "Key") || in_key) (bool_decide (name = "Value") || in_value) tags events
  | XText t :: events =>
      let text := default "" t in
      if in_key then tags_in (Some text) false in_value tags events
      else if in_value then
        tags_in None in_key false (match current_key with Some k => <[k := text]> tags | None => tags end) events
      else tags_in current_key in_key in_value tags events
  | XEnd name :: events =>
      tags_in current_key (negb (bool_decide (name = "Key")) && in_key)
        (negb (bool_decide (name = "Value")) && in_value) tags events
  | XOther :: events => tags_in current_key in_key in_value tags events
  end.

(** Where the loop of [parse_complete_parts] is. *)
Record parts_state : Type := mk_parts_state {
  ps_in_part : bool; ps_in_part_number : bool; ps_in_etag : bool; ps_part_number : option Z; ps_etag : option string }.
Definition normalized_etag (value : string) : string :=
  if starts_with value dquote && ends_with value dquote then value else dquote +:+ value +:+ dquote.

Fixpoint complete_parts (s : parts_state) (events : list XmlEvent) : result S3Error (list (Z * string)) :=
  let '(mk_parts_state in_part in_part_number in_etag part_number etag) := s in
  match events with
  | [] => Ok []
  | XError :: _ => Err malformed_xml
  | XStart name :: events =>
      if decide (name = "Part") then complete_parts (mk_parts_state true in_part_number in_etag None None) events
      else if bool_decide (name = "PartNumber") && in_part then
        complete_parts (mk_parts_state in_part true in_etag part_number etag) events
      else if bool_decide (name = "ETag") && in_part then
        complete_parts (mk_parts_state in_part in_part_number true part_number etag) events
      else complete_parts s events
  | XText t :: events =>
      if in_part_number then
        value ← ok_or t malformed_xml;
        n ← ok_or (parse_uint u32_max value) (invalid_part "invalid part number");
        complete_parts (mk_parts_state in_part false in_etag (Some n) etag) events
      else if in_etag then
        value ← ok_or t malformed_xml;
        complete_parts (mk_parts_state in_part in_part_number false part_number (Some (normalized_etag value))) events
      else complete_parts s events
  | XEnd name :: events =>
      if decide (name = "PartNumber") then complete_parts (mk_parts_state in_part false in_etag part_number etag) events
      else if decide (name = "ETag") then
        complete_parts (mk_parts_state in_part in_part_number false part_number etag) events
      else if decide (name = "Part") then
        n ← ok_or part_number malformed_xml;
        tag ← ok_or etag malformed_xml;
        rest ← complete_parts (mk_parts_state false in_part_number in_etag part_number etag) events;
        Ok ((n, tag) :: rest)
      else complete_parts s events
  | XOther :: events => complete_parts s events
  end.
Definition parse_complete_parts `{XmlCrate} (xml : string) : result S3Error (list (Z * string)) :=
  complete_parts (mk_parts_state false false false None None) (xml_events xml).

(** ** Retention as text *)

Definition upper (s : string) : string := of_chars (map to_ascii_uppercase (chars s)).
Definition parse_lock_mode (raw : string) : result S3Error ObjectLockMode :=
  if decide (upper raw = "GOVERNANCE") then Ok Governance
  else if decide (upper raw = "COMPLIANCE") then Ok Compliance
  else Err (invalid_argument "invalid ObjectLock retention Mode").
Definition lock_mode_text (m : ObjectLockMode) : string :=
  match m with Governance => "GOVERNANCE" | Compliance => "COMPLIANCE" end.
Definition element (name body : string) : string := "<" +:+ name +:+ ">" +:+ body +:+ "</" +:+ name +:+ ">".

Definition DELETE_BODY_MAX : nat := 1024 * 1024.
Definition TAGGING_BODY_MAX : nat := 64 * 1024.
Definition COMPLETE_BODY_MAX : nat := 1024 * 1024.
Definition has (ps : params) (name : string) : bool := bool_decide (is_Some (ps !! name)).

(** ** Streams as bodies

    The reader of a copy is the stream served for the source; here it is the
    body that gives the same pieces in the same order. *)
Definition stream_stalled : io_error := mk_io_error Other "stream stalled".
Fixpoint pieces_of {R} `{AsyncRead R} (fuel : nat) (r : R) : list (option bytes) * stream_end :=
  match fuel with
  | O => ([], Fail stream_stalled)
  | S fuel =>
      match poll_read r IO_BUFFER_SIZE with
      | (r, Pending) => let '(l, e) := pieces_of fuel r in (None :: l, e)
      | (_, Ready (Ok [])) => ([], Eof)
      | (r, Ready (Ok bs)) => let '(l, e) := pieces_of fuel r in (Some bs :: l, e)
      | (_, Ready (Err x)) => ([], Fail x)
      end
  end.
Definition replay (r : list (option bytes) * stream_end) : source :=
  mk_source (concat (map (default []) r.1)) r.2
    (map (fun p => match p with Some bs => Give (length bs) | None => Wait end) r.1).

Section streams.
Context `{Crates} `{Aead} `{ReedSolomon}.
#[local] Existing Instance sha256_hex_of_crates.

(** No reader serves more pieces than it has bytes left and waits to go through. *)
Definition pieces_left (s : ByteStream) : nat :=
  match s with
  | Plain s => length (src_data s) + waits (src_schedule s)
  | Chunked r => cr_remaining r
  | Decrypted d => fd_remaining d + length (fd_out_buf d) + waits (src_schedule (fd_inner d))
  | DecryptedChunks d => fd_remaining d + length (fd_out_buf d)
  end.
Definition as_body (s : ByteStream) : source :=
  let fuel := S (pieces_left s) in
  replay match s with
         | Plain s => pieces_of fuel s
         | Chunked r => pieces_of fuel r
         | Decrypted d => pieces_of fuel d
         | DecryptedChunks d => pieces_of fuel d
         end.
End streams.

(** ** The handlers *)

Section handlers.
Context `{Environment} `{Crates} `{Serde} `{SerdeJson} `{Aead} `{ReedSolomon} `{HexDecode} `{Buffering}.
Context `{!KeyService FilesystemStorage} `{Webhooks} `{XmlCrate} `{BodyCrate} `{HttpDates} `{PercentEncoding}.
Context `{Process} `{Tasks}.
Context (from_str : string -> result string BucketPolicy) (app : AppState).
#[local] Existing Instance sha256_hex_of_crates.

Abbreviation st := (as_storage app).

Definition ask {A} (r : result S3Error A) : Gate A := fun s => (s, map_err Refused r).
Definition storage {A} (f : StorageError -> S3Error) (m : M StorageError A) : Gate A := on_storage (of_storage f m).
Definition client_address (h : HeaderMap) : string := client_ip_from_headers h (as_trusted_proxies app).
Definition bucket_gates (ctx : S3RequestContext) (method bucket : string) (key : option string) (ps : params)
    (h : HeaderMap) : Gate unit :=
  enforce_s3_bucket_gates from_str app ctx method bucket key ps h (client_address h).

(** The check every handler makes of the bucket. *)
Definition ensure_bucket_exists (bucket : string) : Gate unit :=
  there ← storage (fun _ => internal) (head_bucket st bucket);
  if there : bool then mret tt else refuse (no_such_bucket bucket).

Definition record_upload_bytes (bytes : Z) : Gate unit :=
  on_server (fun s =>
    (if (0 <? bytes)%Z then
       mk_Server (sv_world s) (sv_put_requests s) (sv_auth_failures s) (sv_slow_downs s)
         ((sv_upload_bytes s + bytes) mod 2 ^ 64)%Z
     else s, Ok tt)).

Definition version_header (v : option string) : list (string * string) :=
  match v with Some vid => [("x-amz-version-id", vid)] | None => [] end.
Definition content_type_of (h : HeaderMap) : string := default "application/octet-stream" (header h "content-type").

(** *** Uploads *)

(** The whole body is read when it comes with a digest. *)
Definition verify_content_md5 (h : HeaderMap) (reader : source) : result S3Error source :=
  match header h "content-md5" with
  | None => Ok reader
  | Some expected =>
      match src_end reader with
      | Fail _ => Err internal
      | Eof =>
          if decide (b64_encode (md5 (src_data reader)) <> expected) then Err bad_digest
          else Ok (mk_source (src_data reader) Eof [])
      end
  end.

(** What the request asks for, or else the default of the bucket. *)
Definition resolve_encryption (bucket : string) (h : HeaderMap) : Gate (option EncryptionRequest) :=
  encryption ← ask (extract_sse_request h);
  match encryption with
  | Some _ => mret encryption
  | None =>
      cfg ← storage (fun _ => internal) (get_bucket_encryption st bucket);
      mret (encryption_from_bucket_default <$> cfg)
  end.
(** The same, where an unreadable bucket record counts as no default. *)
Definition resolve_encryption_leniently (bucket : string) (h : HeaderMap) : Gate (option EncryptionRequest) :=
  encryption ← ask (extract_sse_request h);
  match encryption with
  | Some _ => mret encryption
  | None =>
      on_server (fun s =>
        match get_bucket_encryption st bucket (sv_world s) with
        | (_, Ok (Some cfg)) => (s, Ok (Some (encryption_from_bucket_default cfg)))
        | _ => (s, Ok None)
        end)
  end.

Definition upload_headers (result : PutResult) (encryption : option EncryptionRequest) : list (string * string) :=
  [("ETag", pr_etag result); ("Content-Length", pretty (pr_size result))]
  ++ version_header (pr_version_id result)
  ++ checksum_header (pr_checksum_algorithm result) (pr_checksum_value result)
  ++ match encryption with
     | Some e => sse_mode_headers (er_mode e) (key_md5 <$> er_customer_key e)
     | None => []
     end.

Definition put_plain_object (bucket key : string) (ps : params) (h : HeaderMap) (ctx : S3RequestContext)
    (body : source) : Gate Response :=
  _ ← ensure_bucket_exists bucket;
  _ ← bucket_gates ctx "PUT" bucket (Some key) ps h;
  reader ← (fun s => (s, body_to_reader h body));
  reader ← ask (verify_content_md5 h reader);
  encryption ← resolve_encryption bucket h;
  result ← storage map_storage_upload_error
             (Objects.put_object st bucket key (content_type_of h) reader (extract_checksum h) encryption
                (parse_content_length h));
  _ ← on_storage (emit_object_created st (cf_data_dir (as_config app)) bucket key (pr_size result) (pr_etag result));
  _ ← (if cf_metrics_enabled (as_config app) then record_upload_bytes (pr_size result) else mret tt);
  mret (mk_Response 200 (upload_headers result encryption) NoBody).

(** *** Copies *)

Definition copy_gates (bucket key : string) (ps : params) (h : HeaderMap) (ctx : S3RequestContext) : Gate unit :=
  _ ← bucket_gates ctx "PUT" bucket (Some key) ps h;
  '(src_bucket, src_key) ← ask (parse_copy_source h);
  enforce_copy_source_gates from_str app ctx src_bucket src_key h (client_address h).

Definition part_number_of (ps : params) : result S3Error Z :=
  raw ← ok_or (ps !! "partNumber") (invalid_argument "missing partNumber");
  ok_or (parse_uint u32_max raw) (invalid_part "invalid part number").
Definition upload_id_of (ps : params) : result S3Error string :=
  ok_or (ps !! "uploadId") (invalid_argument "missing uploadId").

Definition open_copy_source (src_bucket src_key : string) (range : option (Z * Z)) (src_ck : option bytes)
    : Gate ByteStream :=
  r ← storage (map_copy_source_err src_key)
        match range with
        | None => Objects.get_object st src_bucket src_key src_ck
        | Some (start, last) =>
            Objects.get_object_range st src_bucket src_key (Z.to_nat start) (Z.to_nat (last - start + 1)) src_ck
        end;
  mret (fst r).

(** The key of the source is read from the headers of the destination. *)
Definition upload_part_copy (bucket : string) (ps : params) (h : HeaderMap) : Gate Response :=
  '(src_bucket, src_key) ← ask (parse_copy_source h);
  upload_id ← ask (upload_id_of ps);
  part_number ← ask (part_number_of ps);
  _ ← ensure_bucket_exists bucket;
  src_meta ← storage (fun e => match e with NotFoundError _ => no_such_key src_key | _ => internal end)
               (Objects.head_object st src_bucket src_key);
  range ← ask (parse_copy_source_range h (om_size src_meta));
  src_ck ← ask (extract_customer_key h);
  reader ← open_copy_source src_bucket src_key range src_ck;
  dst_ck ← ask (extract_customer_key h);
  part ← storage map_storage_err
           (Multipart.upload_part st bucket upload_id part_number (as_body reader) (extract_checksum h) dst_ck
              (parse_content_length h));
  mret (xml_response (CopyPartResult (pm_etag part) (om_last_modified src_meta))).

Definition copied_content_type (h : HeaderMap) (src_meta : ObjectMeta) : result S3Error string :=
  let directive := default "COPY" (header h "x-amz-metadata-directive") in
  if decide (directive = "COPY") then Ok (om_content_type src_meta)
  else if decide (directive = "REPLACE") then Ok (content_type_of h)
  else Err (invalid_argument "invalid x-amz-metadata-directive").

Definition copy_object (bucket key : string) (h : HeaderMap) : Gate Response :=
  '(src_bucket, src_key) ← ask (parse_copy_source h);
  _ ← ensure_bucket_exists bucket;
  src_ck ← ask (extract_copy_source_customer_key h);
  '(reader, src_meta) ← storage (map_copy_source_err src_key) (Objects.get_object st src_bucket src_key src_ck);
  content_type ← ask (copied_content_type h src_meta);
  let checksum := (., None) <$> om_checksum_algorithm src_meta in
  encryption ← resolve_encryption_leniently bucket h;
  result ← storage map_storage_upload_error
             (Objects.put_object st bucket key content_type (as_body reader) checksum encryption
                (Some (om_size src_meta)));
  dst_meta ← storage (fun _ => internal) (Objects.head_object st bucket key);
  mret (mk_Response 200
          ([("content-type", "application/xml")] ++ version_header (pr_version_id result)
           ++ add_sse_headers (om_encryption dst_meta))
          (Xml (CopyObjectResult (pr_etag result) (om_last_modified dst_meta)))).

(** *** Tags *)

Definition tag_le (a b : string * string) : Prop := String.leb a.1 b.1 = true.
#[local] Instance tag_le_dec a b : Decision (tag_le a b).
Proof. unfold tag_le. apply _. Defined.

Definition get_object_tagging (bucket key : string) : Gate Response :=
  tags ← storage (map_key_err key) (Objects.get_object_tagging st bucket key);
  mret (mk_Response 200 [("Content-Type", "application/xml")] (Xml (Tagging (merge_sort tag_le (hash_order tags))))).

(** The limits are in bytes. *)
Definition check_tag (tag : string * string) : result S3Error unit :=
  if (128 <? String.length tag.1) then Err (invalid_argument "Tag key exceeds maximum length of 128 characters")
  else if (256 <? String.length tag.2) then Err (invalid_argument "Tag value exceeds maximum length of 256 characters")
  else Ok tt.
Definition parse_tagging (xml : string) : result S3Error (gmap string string) :=
  tags ← tags_in None false false ∅ (xml_events xml);
  if (10 <? size tags) then Err (invalid_argument "Object tags cannot exceed 10 entries")
  else _ ← for_each check_tag (hash_order tags); Ok tags.
Definition put_object_tagging (bucket key : string) (body : source) : Gate Response :=
  xml ← ask (body_text body TAGGING_BODY_MAX);
  tags ← ask (parse_tagging xml);
  _ ← storage (map_key_err key) (Objects.put_object_tagging st bucket key tags);
  mret (empty_response 200).
Definition delete_object_tagging (bucket key : string) : Gate Response :=
  _ ← storage (map_key_err key) (Objects.delete_object_tagging st bucket key);
  mret (empty_response 204).

(** *** Retention and legal hold *)

Definition retention_from_xml (xml : RetentionXml) : Gate ObjectLockRetention :=
  mode ← ask (parse_lock_mode (rx_mode xml));
  match rx_retain_until_date xml, rx_days xml with
  | Some until, _ => mret (mk_ObjectLockRetention mode until)
  | None, Some days => n ← gate_tick; mret (mk_ObjectLockRetention mode (now_plus_days n days))
  | None, None => refuse (invalid_argument "Retention must specify RetainUntilDate or Days")
  end.
Definition put_object_retention (bucket key : string) (ps : params) (body : source) : Gate Response :=
  text ← ask (body_text body (64 * 1024));
  xml ← ask (ok_or (retention_of_xml text) malformed_xml);
  retention ← retention_from_xml xml;
  _ ← storage map_storage_object_error (Sidecar.put_object_retention st bucket key (ps !! "versionId") retention);
  mret (empty_response 200).
Definition get_object_retention (bucket key : string) (ps : params) : Gate Response :=
  r ← storage map_storage_object_error (Sidecar.get_object_retention st bucket key (ps !! "versionId"));
  mret (xml_text (xml_declaration +:+ element "Retention"
    (element "Mode" (lock_mode_text (olr_mode r)) +:+ element "RetainUntilDate" (olr_retain_until_date r)))).

Definition parse_legal_hold (status : string) : result S3Error LegalHoldStatus :=
  if decide (upper status = "ON") then Ok On
  else if decide (upper status = "OFF") then Ok Off
  else Err (invalid_argument "LegalHold Status must be ON or OFF").
Definition put_object_legal_hold (bucket key : string) (ps : params) (body : source) : Gate Response :=
  text ← ask (body_text body (64 * 1024));
  hold ← ask (ok_or (legal_hold_of_xml text) malformed_xml);
  status ← ask (parse_legal_hold hold);
  _ ← storage map_storage_object_error (Sidecar.put_object_legal_hold st bucket key (ps !! "versionId") status);
  mret (empty_response 200).
Definition get_object_legal_hold (bucket key : string) (ps : params) : Gate Response :=
  status ← storage map_storage_object_error (Sidecar.get_object_legal_hold st bucket key (ps !! "versionId"));
  mret (xml_text (xml_declaration +:+ element "LegalHold"
    (element "Status" (match status with On => "ON" | Off => "OFF" end)))).

(** *** Multipart uploads *)

Definition create_multipart_upload (bucket key : string) (h : HeaderMap) : Gate Response :=
  _ ← ensure_bucket_exists bucket;
  encryption ← resolve_encryption_leniently bucket h;
  upload ← storage map_storage_err
             (Multipart.create_multipart_upload st bucket key (content_type_of h)
                (v ← header h "x-amz-checksum-algorithm"; from_header_str v) (spec_from_request <$> encryption));
  mret (mk_Response 200
          ([("content-type", "application/xml")]
           ++ match encryption with Some e => sse_mode_headers (er_mode e) None | None => [] end)
          (Xml (InitiateMultipartUploadResult bucket key (mu_upload_id upload)))).

(** The key of the route is not looked at, here and in the requests below. *)
Definition upload_part (bucket : string) (ps : params) (h : HeaderMap) (body : source) : Gate Response :=
  _ ← ensure_bucket_exists bucket;
  upload_id ← ask (upload_id_of ps);
  part_number ← ask (part_number_of ps);
  customer_key ← ask (extract_customer_key h);
  reader ← (fun s => (s, body_to_reader h body));
  part ← storage map_storage_err
           (Multipart.upload_part st bucket upload_id part_number reader (extract_checksum h) customer_key
              (parse_content_length h));
  mret (mk_Response 200
          (("ETag", pm_etag part) :: checksum_header (pm_checksum_algorithm part) (pm_checksum_value part)) NoBody).

Definition complete_multipart_upload (bucket key : string) (ps : params) (h : HeaderMap) (body : source)
    : Gate Response :=
  _ ← ensure_bucket_exists bucket;
  upload_id ← ask (upload_id_of ps);
  xml ← ask (body_text body COMPLETE_BODY_MAX);
  parts ← ask (parse_complete_parts xml);
  customer_key ← ask (extract_customer_key h);
  result ← storage map_storage_err (Multipart.complete_multipart_upload st bucket upload_id parts customer_key);
  mret (mk_Response 200
          (("content-type", "application/xml")
           :: checksum_header (pr_checksum_algorithm result) (pr_checksum_value result))
          (Xml (CompleteMultipartUploadResult ("/" +:+ bucket +:+ "/" +:+ key) bucket key (pr_etag result)))).

Definition abort_multipart_upload (bucket : string) (ps : params) : Gate Response :=
  _ ← ensure_bucket_exists bucket;
  upload_id ← ask (upload_id_of ps);
  _ ← storage map_storage_err (Multipart.abort_multipart_upload st bucket upload_id);
  mret (empty_response 204).

Definition list_parts (bucket : string) (ps : params) : Gate Response :=
  _ ← ensure_bucket_exists bucket;
  upload_id ← ask (upload_id_of ps);
  '(upload, parts) ← storage map_storage_err (Multipart.list_parts st bucket upload_id);
  mret (xml_response (ListPartsResult bucket (mu_key upload) upload_id false
    (map (fun p => mk_PartEntry (pm_part_number p) (pm_last_modified p) (pm_etag p) (pm_size p)) parts))).

Definition list_multipart_uploads (bucket : string) : Gate Response :=
  _ ← ensure_bucket_exists bucket;
  uploads ← storage map_storage_err (Multipart.list_multipart_uploads st bucket);
  mret (xml_response (ListMultipartUploadsResult bucket false
    (map (fun u => mk_MultipartUploadEntry (mu_key u) (mu_upload_id u) (mu_initiated u)) uploads))).

(** *** [put_object] *)

Definition put_object (bucket key : string) (ps : params) (h : HeaderMap) (ctx : S3RequestContext) (body : source)
    : Gate Response :=
  let copies := bool_decide (h "x-amz-copy-source" <> []) in
  if has ps "retention" then put_object_retention bucket key ps body
  else if has ps "legal-hold" then put_object_legal_hold bucket key ps body
  else if has ps "uploadId" && copies then
    _ ← copy_gates bucket key ps h ctx; upload_part_copy bucket ps h
  else if copies then _ ← copy_gates bucket key ps h ctx; copy_object bucket key h
  else if has ps "tagging" then put_object_tagging bucket key body
  else if has ps "uploadId" then upload_part bucket ps h body
  else put_plain_object bucket key ps h ctx body.

(** *** Downloads *)

Definition content_range (start last size : Z) : string :=
  "bytes " +:+ pretty start +:+ "-" +:+ pretty last +:+ "/" +:+ pretty size.

Definition parse_part_number (raw : string) : result S3Error Z :=
  ok_or (parse_uint u32_max raw) (invalid_argument "invalid partNumber").
(** The offset and length of a part, and the number of parts. *)
Definition locate_part (meta : ObjectMeta) (part_num : Z) : result S3Error (Z * Z * nat) :=
  part_sizes ← ok_or (om_part_sizes meta) (invalid_argument "object is not a multipart upload");
  if (part_num =? 0)%Z then Err (invalid_argument "partNumber must be >= 1")
  else
    let idx := Z.to_nat (part_num - 1) in
    length ← ok_or (part_sizes !! idx) (invalid_argument "partNumber exceeds total parts");
    Ok (foldr Z.add 0%Z (take idx part_sizes), length, List.length part_sizes).
(** The headers of a part; the last position is computed modulo [2^64]. *)
Definition part_headers (meta : ObjectMeta) (offset length : Z) (total_parts : nat) : list (string * string) :=
  [("Content-Type", om_content_type meta); ("Content-Length", pretty length);
   ("Content-Range", content_range offset ((offset + length - 1) mod 2 ^ 64) (om_size meta));
   ("ETag", om_etag meta); ("Last-Modified", to_http_date (om_last_modified meta));
   ("x-amz-mp-parts-count", pretty total_parts)].

Definition get_part (bucket key raw : string) (customer_key : option bytes) : Gate Response :=
  part_num ← ask (parse_part_number raw);
  meta ← storage (map_read_object_err key) (Objects.head_object st bucket key);
  '(offset, length, total_parts) ← ask (locate_part meta part_num);
  '(reader, _) ← storage (map_read_object_err key)
                   (Objects.get_object_range st bucket key (Z.to_nat offset) (Z.to_nat length) customer_key);
  mret (mk_Response 206 (part_headers meta offset length total_parts) (Stream reader)).

(** The answer of the conditional headers, if they settle it. *)
Definition short_circuit (h : HeaderMap) (meta : ObjectMeta) : option (result S3Error Response) :=
  match check_conditions h meta with
  | Some NotModified => Some (Ok (not_modified_response meta))
  | Some PreconditionFailed => Some (Err precondition_failed)
  | None => None
  end.

(** [None] when the header is ignored and the whole object is to be sent. *)
Definition get_range (bucket key range_str : string) (h : HeaderMap) (customer_key : option bytes)
    : Gate (option Response) :=
  meta ← storage (map_read_object_err key) (Objects.head_object st bucket key);
  match short_circuit h meta with
  | Some answer => r ← ask answer; mret (Some r)
  | None =>
      match parse_range range_str (om_size meta) with
      | Ok None => mret None
      | Err _ => refuse invalid_range
      | Ok (Some (start, last)) =>
          let length := (last - start + 1)%Z in
          '(reader, _) ← storage (map_read_object_err key)
                           (Objects.get_object_range st bucket key (Z.to_nat start) (Z.to_nat length) customer_key);
          mret (Some (mk_Response 206
            [("Content-Type", om_content_type meta); ("Content-Length", pretty length);
             ("Content-Range", content_range start last (om_size meta)); ("Accept-Ranges", "bytes");
             ("ETag", om_etag meta); ("Last-Modified", to_http_date (om_last_modified meta))] (Stream reader)))
      end
  end.

Definition get_whole (bucket key : string) (version_id : option string) (h : HeaderMap) (customer_key : option bytes)
    : Gate Response :=
  '(reader, meta) ← storage (map_read_object_err key)
                      match version_id with
                      | Some v => Versions.get_object_version st bucket key v customer_key
                      | None => Objects.get_object st bucket key customer_key
                      end;
  match short_circuit h meta with
  | Some answer => ask answer
  | None =>
      mret (mk_Response 200
        ([("Content-Type", om_content_type meta); ("Content-Length", pretty (om_size meta));
          ("Accept-Ranges", "bytes"); ("ETag", om_etag meta);
          ("Last-Modified", to_http_date (om_last_modified meta))]
         ++ version_header (om_version_id meta) ++ add_checksum_header meta ++ add_sse_headers (om_encryption meta))
        (Stream reader))
  end.

Definition get_object (bucket key : string) (ps : params) (h : HeaderMap) (ctx : S3RequestContext) : Gate Response :=
  _ ← bucket_gates ctx "GET" bucket (Some key) ps h;
  if has ps "retention" then get_object_retention bucket key ps
  else if has ps "legal-hold" then get_object_legal_hold bucket key ps
  else if has ps "tagging" then get_object_tagging bucket key
  else if has ps "uploadId" then list_parts bucket ps
  else
    customer_key ← ask (extract_customer_key h);
    match ps !! "partNumber" with
    | Some raw => get_part bucket key raw customer_key
    | None =>
        ranged ← match header h "range" with
                 | Some range_str => get_range bucket key range_str h customer_key
                 | None => mret None
                 end;
        match ranged with
        | Some response => mret response
        | None => get_whole bucket key (ps !! "versionId") h customer_key
        end
    end.

Definition map_head_version_err (key version_id : string) (err : StorageError) : S3Error :=
  match err with VersionNotFound _ => no_such_version version_id | _ => map_key_err key err end.

Definition head_object (bucket key : string) (ps : params) (h : HeaderMap) (ctx : S3RequestContext) : Gate Response :=
  _ ← bucket_gates ctx "HEAD" bucket (Some key) ps h;
  meta ← match ps !! "versionId" with
         | Some v => storage (map_head_version_err key v) (Versions.head_object_version st bucket key v)
         | None => storage (map_key_err key) (Objects.head_object st bucket key)
         end;
  match short_circuit h meta with
  | Some answer => ask answer
  | None =>
      match ps !! "partNumber" with
      | Some raw =>
          part_num ← ask (parse_part_number raw);
          '(offset, length, total_parts) ← ask (locate_part meta part_num);
          mret (mk_Response 206 (part_headers meta offset length total_parts ++ version_header (om_version_id meta)) NoBody)
      | None =>
          mret (mk_Response 200
            ([("Content-Type", om_content_type meta); ("Content-Length", pretty (om_size meta));
              ("ETag", om_etag meta); ("Last-Modified", to_http_date (om_last_modified meta)); ("Accept-Ranges", "bytes")]
             ++ version_header (om_version_id meta) ++ add_checksum_header meta ++ add_sse_headers (om_encryption meta))
            NoBody)
      end
  end.

(** *** Deletions *)

Definition delete_marker_header (is_delete_marker : bool) : list (string * string) :=
  if is_delete_marker then [("x-amz-delete-marker", "true")] else [].

Definition delete_plain_object (bucket key : string) (ps : params) (h : HeaderMap) (ctx : S3RequestContext)
    : Gate Response :=
  _ ← ensure_bucket_exists bucket;
  _ ← bucket_gates ctx "DELETE" bucket (Some key) ps h;
  match ps !! "versionId" with
  | Some v =>
      deleted ← storage (fun e => match e with VersionNotFound _ => no_such_version v | _ => internal end)
                  (Versions.delete_object_version st bucket key v);
      mret (mk_Response 204 (("x-amz-version-id", v) :: delete_marker_header (om_is_delete_marker deleted)) NoBody)
  | None =>
      result ← storage map_storage_object_error (Versions.delete_object st bucket key);
      _ ← on_storage (emit_object_removed st (cf_data_dir (as_config app)) bucket key);
      mret (mk_Response 204 (version_header (dr_version_id result) ++ delete_marker_header (dr_is_delete_marker result))
              NoBody)
  end.

Definition delete_object (bucket key : string) (ps : params) (h : HeaderMap) (ctx : S3RequestContext) : Gate Response :=
  if has ps "tagging" then delete_object_tagging bucket key
  else if has ps "uploadId" then abort_multipart_upload bucket ps
  else delete_plain_object bucket key ps h ctx.

Definition post_object (bucket key : string) (ps : params) (h : HeaderMap) (ctx : S3RequestContext) (body : source)
    : Gate Response :=
  _ ← bucket_gates ctx "POST" bucket (Some key) ps h;
  if has ps "uploads" then create_multipart_upload bucket key h
  else if has ps "uploadId" then complete_multipart_upload bucket key ps h body
  else refuse (not_implemented "Unsupported POST object operation").

(** The entry of a key in the answer: deleted, or an error. *)
Definition delete_entry (key : string) (r : result StorageError DeleteResult) : string * string :=
  match r with
  | Ok dr =>
      ("<Deleted>" +:+ element "Key" (xml_escape key)
         +:+ match dr_version_id dr with Some vid => element "VersionId" vid | None => "" end
         +:+ (if dr_is_delete_marker dr then "<DeleteMarker>true</DeleteMarker>" else "") +:+ "</Deleted>", "")
  | Err e =>
      ("", element "Error" (element "Key" (xml_escape key) +:+ element "Code" "InternalError"
                              +:+ element "Message" (xml_escape (storage_error_to_string e))))
  end.

(** The tasks, one after another in the order they finish. *)
Fixpoint delete_each (bucket : string) (keys : list string) : Gate (string * string) :=
  match keys with
  | [] => mret ("", "")
  | key :: keys =>
      entry ← on_server (fun s =>
                let '(w, r) := Versions.delete_object st bucket key (sv_world s) in
                (mk_Server w (sv_put_requests s) (sv_auth_failures s) (sv_slow_downs s) (sv_upload_bytes s),
                 Ok (delete_entry key r)));
      rest ← delete_each bucket keys;
      mret ((entry.1 +:+ rest.1)%string, (entry.2 +:+ rest.2)%string)
  end.

Fixpoint gate_each (ctx : S3RequestContext) (bucket : string) (h : HeaderMap) (keys : list string) : Gate unit :=
  match keys with
  | [] => mret tt
  | key :: keys => _ ← bucket_gates ctx "DELETE" bucket (Some key) ∅ h; gate_each ctx bucket h keys
  end.

Definition delete_objects (bucket : string) (h : HeaderMap) (ctx : S3RequestContext) (body : source) : Gate Response :=
  _ ← ensure_bucket_exists bucket;
  _ ← bucket_gates ctx "POST" bucket None {[ "delete" := "" ]} h;
  xml ← ask (body_text body DELETE_BODY_MAX);
  keys ← ask (keys_in false (xml_events xml));
  if (1000 <? length keys) then
    refuse (invalid_argument "Cannot delete more than 1000 objects in a single request")
  else
    _ ← gate_each ctx bucket h keys;
    '(deleted_xml, error_xml) ← delete_each bucket (completion_order keys);
    mret (mk_Response 200 [("Content-Type", "application/xml")]
      (Text (xml_declaration +:+ "<DeleteResult xmlns=" +:+ dquote +:+ "http://s3.amazonaws.com/doc/2006-03-01/" +:+ dquote
             +:+ ">" +:+ deleted_xml +:+ error_xml +:+ "</DeleteResult>"))).
End handlers.
