(* ===== verification/BucketApi.v ===== *)
(** * The bucket handlers and the router

    [maxio-server/src/api/bucket.rs]: buckets and their settings; the reads of a
    bucket ([handle_bucket_get] of [api/list.rs]); and [api/router.rs], which puts
    the handlers together. *)

From stdpp Require Import base list gmap sorting numbers strings pretty.
From Stdlib Require Import ZArith Lia Ascii Strings.Byte.
From S2P Require Import Prelude IpAddr Glob Policy Bytes Reader Utf8 Types Quota Crypto ErasureCode ChunkReader MetadataIndex FileSystem Paths World Keyring Storage BucketConfig Sidecar Publish Objects Versions Listing ApiError ListApi Events Http Signature RateLimit Tenant Gate GateSpec Multipart HttpBody Headers ObjectApi.

Local Open Scope nat_scope.

(** ** XML by hand *)

(** The text between a tag and its end. *)
Definition extract_xml_tag (xml tag : string) : option string :=
  let opening := "<" +:+ tag +:+ ">" in
  let closing := "</" +:+ tag +:+ ">" in
  before ← before_first xml opening;
  let rest := of_chars (drop (length (chars before) + length (chars opening)) (chars xml)) in
  inner ← before_first rest closing;
  Some (trim inner).
Definition says_enabled (xml : string) : bool := contains_str "<Status>Enabled</Status>" xml.

(** ** Settings as data *)

Definition cors_methods : list string := ["GET"; "PUT"; "POST"; "DELETE"; "HEAD"].
Definition check_cors_rule (rule : CorsRule) : result S3Error unit :=
  if bool_decide (allowed_origins rule = []) || bool_decide (allowed_methods rule = []) then Err malformed_xml
  else for_each (fun method => if decide (method ∈ cors_methods) then Ok tt
                               else Err (invalid_argument ("Invalid HTTP method in CORS rule: " +:+ method)))
         (allowed_methods rule).
Definition parse_cors `{XmlCrate} (text : string) : result S3Error (list CorsRule) :=
  rules ← ok_or (cors_of_xml text) malformed_xml;
  if 100 <? length rules then Err (invalid_argument "CORS configuration cannot have more than 100 rules")
  else _ ← for_each check_cors_rule rules; Ok rules.

Definition lifecycle_rule (r : LifecycleRuleXml) : LifecycleRule :=
  mk_LifecycleRule (lx_id r) (lx_prefix r) (lx_expiration r) (fst <$> lx_transition r)
    (lx_noncurrent_version_expiration r) (eq_ignore_ascii_case (lx_status r) "Enabled").
Definition lifecycle_rule_out (r : LifecycleRule) : LifecycleRuleXml :=
  mk_LifecycleRuleXml (Types.lr_id r) (Types.lr_prefix r) (if lr_enabled r then "Enabled" else "Disabled") (lr_expiration_days r)
    ((., "GLACIER") <$> lr_transition_days r) (lr_noncurrent_expiration_days r).

Definition parse_encryption (has_kms : bool) (text : string) : result S3Error BucketEncryptionConfig :=
  sse_algorithm ← ok_or (extract_xml_tag text "SSEAlgorithm") malformed_xml;
  if bool_decide (sse_algorithm <> "AES256") && bool_decide (sse_algorithm <> "aws:kms")
  then Err invalid_encryption_algorithm
  else if bool_decide (sse_algorithm = "aws:kms") && negb has_kms
  then Err (invalid_argument "SSE-KMS requires MAXIO_KMS_MASTER_KEY")
  else Ok (mk_BucketEncryptionConfig sse_algorithm (extract_xml_tag text "KMSMasterKeyID")).

Definition parse_notification `{Webhooks} (allow_external : bool) (text : string)
    : result S3Error BucketNotificationConfig :=
  webhook_url ← ok_or (extract_xml_tag text "Endpoint") malformed_xml;
  _ ← map_err invalid_argument (validate_webhook_url webhook_url allow_external);
  let events := filter (fun event => contains_str (element "Event" event) text = true)
                  ["s3:ObjectCreated:Put"; "s3:ObjectRemoved:Delete"] in
  if decide (events = []) then Err (invalid_argument "notification must specify at least one supported Event")
  else Ok (mk_BucketNotificationConfig webhook_url events).

(** [y.saturating_mul(365)] on [u32]. *)
Definition retention_days (r : DefaultRetentionXml) : option Z :=
  match dx_days r with Some d => Some d | None => (fun y => Z.min u32_max (y * 365)) <$> dx_years r end.
Definition parse_object_lock (config : ObjectLockConfiguration) : result S3Error ObjectLockConfig :=
  default_retention ← match mjoin (ox_rule config) with
                      | Some r => mode ← parse_lock_mode (dx_mode r); Ok (Some (mode, retention_days r))
                      | None => Ok None
                      end;
  Ok (mk_ObjectLockConfig
        (match ox_enabled config with Some v => eq_ignore_ascii_case v "Enabled" | None => false end)
        (fst <$> default_retention) (default_retention ≫= snd)).

(** ** Errors *)

Definition map_lifecycle_storage_error (err : StorageError) : S3Error :=
  match err with InvalidKey msg => invalid_argument msg | NotFoundError name => no_such_bucket name | _ => internal end.
Definition map_policy_storage_error (err : StorageError) : S3Error :=
  match err with InvalidKey msg => malformed_policy msg | NotFoundError name => no_such_bucket name | _ => internal end.
Definition map_missing_bucket (bucket : string) (err : StorageError) : S3Error :=
  match err with NotFoundError _ => no_such_bucket bucket | _ => internal end.

(** ** The handlers *)

Section handlers.
Context `{Environment} `{Crates} `{Serde} `{SerdeJson} `{Aead} `{ReedSolomon} `{HexDecode} `{Buffering}.
Context `{!KeyService FilesystemStorage} `{Webhooks} `{XmlCrate} `{BodyCrate} `{HttpDates} `{PercentEncoding}.
Context `{Process} `{Tasks}.
Context (from_str : string -> result string BucketPolicy) (app : AppState).

Abbreviation st := (as_storage app).
Abbreviation internally := (storage (fun _ => internal)).
Abbreviation ensure := (ensure_bucket_exists app).

Definition principal_of (ctx : S3RequestContext) : Gate string :=
  match rc_principal ctx with Some p => mret p | None => refuse (access_denied "Missing principal") end.

Definition list_buckets (ctx : S3RequestContext) : Gate Response :=
  principal ← principal_of ctx;
  buckets ← internally (Listing.list_buckets st);
  let buckets := filter_buckets_for_access (as_config app) (as_credentials app) buckets principal in
  mret (xml_response (ListAllMyBucketsResult "maxio" "maxio" (map (fun b => (bm_name b, bm_created_at b)) buckets))).

Definition new_bucket_meta (bucket now tenant_id : string) (object_lock_enabled : bool) : BucketMeta :=
  mk_BucketMeta bucket now (cf_region (as_config app)) false None None false false None None None (Some tenant_id)
    None None None object_lock_enabled None.
Definition create_bucket (ctx : S3RequestContext) (bucket : string) (h : HeaderMap) : Gate Response :=
  principal ← principal_of ctx;
  _ ← (if is_valid_bucket_name bucket then mret tt else refuse (invalid_bucket_name bucket));
  n ← gate_tick;
  let tenant_id := tenant_for_new_bucket (as_config app) (as_credentials app) principal in
  let object_lock_enabled := match header h "x-amz-bucket-object-lock-enabled" with
                             | Some v => eq_ignore_ascii_case v "true" | None => false end in
  created ← internally (Storage.create_bucket st (new_bucket_meta bucket (now_string n) tenant_id object_lock_enabled));
  if created : bool then mret (mk_Response 200 [("Location", "/" +:+ bucket)] NoBody)
  else refuse (bucket_already_owned bucket).

Definition head_bucket (bucket : string) (ctx : S3RequestContext) : Gate Response :=
  _ ← enforce_tenant_bucket app ctx bucket;
  there ← on_storage (fun w => match Storage.head_bucket st bucket w with
                               | (w, Ok b) => (w, Ok b)
                               | (w, Err (InvalidKey _)) => (w, Ok false)
                               | (w, Err _) => (w, Err internal)
                               end);
  if there : bool then mret (mk_Response 200 [("x-amz-bucket-region", cf_region (as_config app))] NoBody)
  else refuse (no_such_bucket bucket).

(** *** Reads of the settings *)

Definition get_bucket_versioning (bucket : string) : Gate Response :=
  versioned ← internally (is_versioned st bucket);
  mret (xml_response (VersioningConfiguration (if versioned : bool then Some "Enabled" else None))).
Definition get_bucket_cors (bucket : string) : Gate Response :=
  rules ← storage (map_missing_bucket bucket) (BucketConfig.get_bucket_cors st bucket);
  rules ← ask (ok_or rules no_such_cors_configuration);
  mret (xml_response (CorsConfiguration rules)).
Definition get_bucket_encryption (bucket : string) : Gate Response :=
  cfg ← storage (map_missing_bucket bucket) (BucketConfig.get_bucket_encryption st bucket);
  cfg ← ask (ok_or cfg (no_such_bucket_encryption bucket));
  mret (xml_text (xml_declaration +:+ element "ServerSideEncryptionConfiguration"
    (element "Rule" (element "ApplyServerSideEncryptionByDefault" (element "SSEAlgorithm" (be_sse_algorithm cfg)))))).
Definition get_bucket_policy (bucket : string) : Gate Response :=
  _ ← ensure bucket;
  policy ← internally (BucketConfig.get_bucket_policy st bucket);
  policy ← ask (ok_or policy no_such_bucket_policy);
  mret (mk_Response 200 [("content-type", "application/json")] (Text policy)).
Definition get_bucket_lifecycle (bucket : string) : Gate Response :=
  _ ← ensure bucket;
  rules ← internally (BucketConfig.get_bucket_lifecycle st bucket);
  rules ← ask (ok_or rules no_such_lifecycle_configuration);
  mret (xml_response (LifecycleConfigurationOut (map lifecycle_rule_out rules))).
Definition get_bucket_erasure (bucket : string) : Gate Response :=
  _ ← ensure bucket;
  enabled ← internally (get_bucket_erasure_coding st bucket);
  mret (xml_response (ErasureConfiguration (if enabled : bool then "Enabled" else "Disabled"))).
Definition get_bucket_logging (bucket : string) : Gate Response :=
  _ ← ensure bucket;
  logging ← internally (BucketConfig.get_bucket_logging st bucket);
  mret (xml_text (xml_declaration +:+
    match logging with
    | Some (target, prefix) =>
        element "BucketLoggingStatus" (element "LoggingEnabled"
          (element "TargetBucket" target +:+ element "TargetPrefix" prefix))
    | None => "<BucketLoggingStatus/>"
    end)).
Definition get_bucket_notification (bucket : string) : Gate Response :=
  _ ← ensure bucket;
  config ← internally (BucketConfig.get_bucket_notification st bucket);
  mret (xml_text (xml_declaration +:+
    match config with
    | Some cfg =>
        element "NotificationConfiguration" (element "TopicConfiguration"
          (element "Endpoint" (bn_webhook_url cfg) +:+ join_with "" (map (element "Event") (bn_events cfg))))
    | None => "<NotificationConfiguration/>"
    end)).
Definition get_bucket_object_lock (bucket : string) : Gate Response :=
  _ ← ensure bucket;
  config ← internally (BucketConfig.get_bucket_object_lock st bucket);
  mret (xml_text (xml_declaration +:+ element "ObjectLockConfiguration"
    match config with
    | Some cfg =>
        element "ObjectLockEnabled" "Enabled"
        +:+ element "Rule" (element "DefaultRetention"
              (element "Mode" (default "GOVERNANCE" (lock_mode_text <$> olc_default_retention_mode cfg))
               +:+ match olc_default_retention_days cfg with Some d => element "Days" (pretty d) | None => "" end))
    | None => element "ObjectLockEnabled" "Disabled"
    end)).

(** *** Writes of the settings *)

Definition SETTING_BODY_MAX : nat := 64 * 1024.
Definition put_bucket_versioning (bucket : string) (body : source) : Gate Response :=
  _ ← ensure bucket;
  text ← ask (body_text body SETTING_BODY_MAX);
  _ ← internally (set_versioning st bucket (says_enabled text));
  mret (empty_response 200).
Definition put_bucket_cors (bucket : string) (body : source) : Gate Response :=
  _ ← ensure bucket;
  text ← ask (body_text body SETTING_BODY_MAX);
  rules ← ask (parse_cors text);
  _ ← internally (BucketConfig.put_bucket_cors st bucket rules);
  mret (empty_response 200).
Definition put_bucket_encryption (bucket : string) (body : source) : Gate Response :=
  _ ← ensure bucket;
  text ← ask (body_text body SETTING_BODY_MAX);
  cfg ← ask (parse_encryption (bool_decide (is_Some (st_kms st))) text);
  _ ← internally (BucketConfig.put_bucket_encryption st bucket cfg);
  mret (empty_response 200).
Definition put_bucket_policy (bucket : string) (body : source) : Gate Response :=
  _ ← ensure bucket;
  bytes ← ask (ok_or (to_bytes body (1024 * 1024)) internal);
  policy ← ask (ok_or (from_utf8 bytes) internal);
  _ ← ask (map_err malformed_policy (validate_policy_v2 from_str bucket policy));
  _ ← storage map_policy_storage_error (BucketConfig.put_bucket_policy st from_str bucket policy);
  mret (empty_response 204).
Definition put_bucket_lifecycle (bucket : string) (body : source) : Gate Response :=
  _ ← ensure bucket;
  text ← ask (body_text body (1024 * 1024));
  rules ← ask (ok_or (lifecycle_of_xml text) malformed_xml);
  _ ← storage map_lifecycle_storage_error (BucketConfig.put_bucket_lifecycle st bucket (map lifecycle_rule rules));
  mret (empty_response 200).
Definition put_bucket_erasure (bucket : string) (body : source) : Gate Response :=
  _ ← ensure bucket;
  text ← ask (body_text body SETTING_BODY_MAX);
  _ ← internally (set_bucket_erasure_coding st bucket (Some (says_enabled text)));
  mret (empty_response 200).
Definition put_bucket_logging (bucket : string) (body : source) : Gate Response :=
  _ ← ensure bucket;
  text ← ask (body_text body SETTING_BODY_MAX);
  target_bucket ← ask (ok_or (extract_xml_tag text "TargetBucket") malformed_xml);
  _ ← storage map_lifecycle_storage_error
        (BucketConfig.put_bucket_logging st bucket target_bucket (default "" (extract_xml_tag text "TargetPrefix")));
  mret (empty_response 200).
Definition put_bucket_notification (bucket : string) (body : source) : Gate Response :=
  _ ← ensure bucket;
  text ← ask (body_text body SETTING_BODY_MAX);
  config ← ask (parse_notification (cf_allow_external_webhooks (as_config app)) text);
  _ ← internally (BucketConfig.put_bucket_notification st bucket config);
  mret (empty_response 200).
Definition put_bucket_object_lock (bucket : string) (body : source) : Gate Response :=
  _ ← ensure bucket;
  text ← ask (body_text body SETTING_BODY_MAX);
  xml ← ask (ok_or (object_lock_of_xml text) malformed_xml);
  config ← ask (parse_object_lock xml);
  _ ← storage map_lifecycle_storage_error (BucketConfig.put_bucket_object_lock st bucket config);
  mret (empty_response 200).

(** *** Removal *)

(** The settings removed without a look, and those that must be there. *)
Definition delete_setting (bucket : string) (delete : M StorageError unit) : Gate Response :=
  _ ← ensure bucket; _ ← internally delete; mret (empty_response 204).
Definition delete_present {A} (bucket : string) (get : M StorageError (option A)) (missing : S3Error)
    (delete : M StorageError unit) : Gate Response :=
  _ ← ensure bucket;
  found ← internally get;
  _ ← ask (ok_or found missing);
  _ ← internally delete;
  mret (empty_response 204).
Definition remove_bucket (bucket : string) : Gate Response :=
  deleted ← storage (fun e => match e with BucketNotEmpty => bucket_not_empty bucket | _ => internal end)
              (Storage.delete_bucket st bucket);
  if deleted : bool then mret (empty_response 204) else refuse (no_such_bucket bucket).

Definition delete_bucket (bucket : string) (ps : params) : Gate Response :=
  if has ps "cors" then delete_setting bucket (BucketConfig.delete_bucket_cors st bucket)
  else if has ps "encryption" then delete_setting bucket (BucketConfig.delete_bucket_encryption st bucket)
  else if has ps "policy" then
    delete_present bucket (BucketConfig.get_bucket_policy st bucket) no_such_bucket_policy
      (BucketConfig.delete_bucket_policy st bucket)
  else if has ps "lifecycle" then
    delete_present bucket (BucketConfig.get_bucket_lifecycle st bucket) no_such_lifecycle_configuration
      (BucketConfig.delete_bucket_lifecycle st bucket)
  else if has ps "logging" then delete_setting bucket (BucketConfig.delete_bucket_logging st bucket)
  else if has ps "notification" then delete_setting bucket (BucketConfig.delete_bucket_notification st bucket)
  else remove_bucket bucket.

(** ** Dispatch on the query *)

Definition handle_bucket_put (ctx : S3RequestContext) (path_bucket : string) (ps : params) (h : HeaderMap)
    (body : source) : Gate Response :=
  let bucket := resolve_bucket (rc_vhost ctx) path_bucket in
  match virtual_host_object_key ps (rc_vhost ctx) with
  | Some key => ObjectApi.put_object from_str app bucket key ∅ h ctx body
  | None =>
      if has ps "versioning" then put_bucket_versioning bucket body
      else if has ps "cors" then put_bucket_cors bucket body
      else if has ps "encryption" then put_bucket_encryption bucket body
      else if has ps "policy" then put_bucket_policy bucket body
      else if has ps "lifecycle" then put_bucket_lifecycle bucket body
      else if has ps "erasure" then put_bucket_erasure bucket body
      else if has ps "logging" then put_bucket_logging bucket body
      else if has ps "notification" then put_bucket_notification bucket body
      else if has ps "object-lock" then put_bucket_object_lock bucket body
      else create_bucket ctx bucket h
  end.

Definition list_object_versions_response (bucket : string) (ps : params) : Gate Response :=
  '(versions, delete_markers) ← on_storage (list_object_versions_api st bucket ps);
  mret (xml_response (ListVersionsResult bucket (default "" (ps !! "prefix")) "" "" 1000 false versions delete_markers)).

Definition handle_bucket_get (ctx : S3RequestContext) (path_bucket : string) (ps : params) (h : HeaderMap)
    : Gate Response :=
  let bucket := resolve_bucket (rc_vhost ctx) path_bucket in
  match virtual_host_object_key ps (rc_vhost ctx) with
  | Some key => ObjectApi.get_object from_str app bucket key ∅ h ctx
  | None =>
      _ ← enforce_tenant_bucket app ctx bucket;
      _ ← ensure bucket;
      if has ps "uploads" then ObjectApi.list_multipart_uploads app bucket
      else if has ps "versioning" then get_bucket_versioning bucket
      else if has ps "cors" then get_bucket_cors bucket
      else if has ps "encryption" then get_bucket_encryption bucket
      else if has ps "policy" then get_bucket_policy bucket
      else if has ps "lifecycle" then get_bucket_lifecycle bucket
      else if has ps "object-lock" then get_bucket_object_lock bucket
      else if has ps "erasure" then get_bucket_erasure bucket
      else if has ps "logging" then get_bucket_logging bucket
      else if has ps "notification" then get_bucket_notification bucket
      else if has ps "versions" then list_object_versions_response bucket ps
      else if has ps "location" then
        mret (xml_text (xml_declaration +:+ element "LocationConstraint" (cf_region (as_config app))))
      else if decide (ps !! "list-type" = Some "2") then
        r ← on_storage (list_objects_v2 st bucket ps); mret (xml_response (ListBucketDocument r))
      else r ← on_storage (list_objects_v1 st bucket ps); mret (xml_response (ListBucketV1Document r))
  end.
End handlers.

(** ** The router *)

(** axum: the pairs of a query string, or the response that rejects it; and the
    answers to a path that is no route and to another method. *)
Class RouterCrate : Type := {
  parse_query : string -> result Response params;
  no_route : string -> Response;
  method_not_allowed : string -> Response;
}.

Section router.
Context `{Environment} `{Crates} `{Serde} `{SerdeJson} `{Aead} `{ReedSolomon} `{HexDecode} `{Buffering}.
Context `{!KeyService FilesystemStorage} `{Webhooks} `{XmlCrate} `{BodyCrate} `{HttpDates} `{PercentEncoding}.
Context `{Process} `{Tasks} `{RouterCrate}.
Context (from_str : string -> result string BucketPolicy) (app : AppState).

Definition with_query (r : Request) (handler : params -> Gate Response) : Gate Response :=
  match parse_query (rq_query r) with Ok ps => handler ps | Err rejection => mret rejection end.

Definition bucket_route (bucket : string) (r : Request) (body : source) : Gate Response :=
  let ctx := from_request_parts r in
  let h := rq_headers r in
  let method := rq_method r in
  if decide (method = "PUT") then with_query r (fun ps => handle_bucket_put from_str app ctx bucket ps h body)
  else if decide (method = "HEAD") then head_bucket app bucket ctx
  else if decide (method = "DELETE") then with_query r (fun ps => delete_bucket app bucket ps)
  else if decide (method = "GET") then with_query r (fun ps => handle_bucket_get from_str app ctx bucket ps h)
  else if decide (method = "OPTIONS") then mret (empty_response 200)
  else if decide (method = "POST") then delete_objects from_str app bucket h ctx body
  else mret (method_not_allowed method).

Definition object_route (bucket key : string) (r : Request) (body : source) : Gate Response :=
  let ctx := from_request_parts r in
  let h := rq_headers r in
  let method := rq_method r in
  if decide (method = "OPTIONS") then mret (empty_response 200)
  else if decide (method ∈ ["POST"; "PUT"; "GET"; "HEAD"; "DELETE"]) then
    with_query r (fun ps =>
      if decide (method = "POST") then post_object from_str app bucket key ps h ctx body
      else if decide (method = "PUT") then ObjectApi.put_object from_str app bucket key ps h ctx body
      else if decide (method = "GET") then ObjectApi.get_object from_str app bucket key ps h ctx
      else if decide (method = "HEAD") then ObjectApi.head_object from_str app bucket key ps h ctx
      else ObjectApi.delete_object from_str app bucket key ps h ctx)
  else mret (method_not_allowed method).

Definition s3_router (body : source) (r : Request) : Gate Response :=
  match route_of (rq_path r) with
  | Some ServiceRoute =>
      if decide (rq_method r = "GET" \/ rq_method r = "HEAD") then list_buckets app (from_request_parts r)
      else mret (method_not_allowed (rq_method r))
  | Some (BucketRoute bucket) => bucket_route bucket r body
  | Some (ObjectRoute bucket key) => object_route bucket key r body
  | None => mret (no_route (rq_path r))
  end.

(** A request through the gates and the router. *)
Definition serve (r : Request) (body : source) : Gate Response := auth_middleware from_str app (s3_router body) r.
End router.
