(* ===== verification/Cors.v ===== *)
(** * Cross-origin requests

    [maxio-server/src/api/cors.rs]: the layer around the S3 routes that answers
    preflight requests and adds headers to the answers, by the rules of the bucket
    named by the path.  The headers it adds are kept beside the answer, which may
    be an error. *)

From stdpp Require Import base list gmap sorting numbers strings pretty.
From Stdlib Require Import ZArith Lia Ascii Strings.Byte.
From S2P Require Import Prelude IpAddr Glob Policy Bytes Reader Utf8 Types Quota Crypto ErasureCode Keyring MetadataIndex FileSystem Paths World Storage BucketConfig Sidecar ApiError ListApi Events Http Signature RateLimit Tenant Gate Multipart HttpBody Headers ObjectApi BucketApi.

Local Open Scope nat_scope.

(** [HeaderValue::from_str(v).is_ok()]. *)
Class HeaderCrate : Type := { header_value_ok : string -> bool }.

Definition extract_bucket_from_path (path : string) : option string :=
  path ← strip_prefix "/" path;
  if decide (path = "") then None
  else
    let bucket := default "" (head (split_char "/" path)) in
    if bool_decide (bucket = "") || bool_decide (bucket = "api") || bool_decide (bucket = "ui") then None
    else Some bucket.

Definition origin_matches (pattern origin : string) : bool :=
  bool_decide (pattern = "*") || bool_decide (pattern = origin).
Definition header_allowed (allowed : list string) (name : string) : bool :=
  existsb (fun h => bool_decide (h = "*") || eq_ignore_ascii_case h name) allowed.
Definition rule_matches (origin method : string) (rule : CorsRule) : bool :=
  existsb (fun p => origin_matches p origin) (allowed_origins rule)
  && existsb (fun m => bool_decide (m = method)) (allowed_methods rule).
Definition find_matching_rule (rules : list CorsRule) (origin method : string) : option CorsRule :=
  find (rule_matches origin method) rules.

(** The names asked for by a preflight request. *)
Definition request_headers_ok (rule : CorsRule) (h : HeaderMap) : bool :=
  match header h "access-control-request-headers" with
  | Some names => forallb (fun name => header_allowed (allowed_headers rule) (trim name)) (split_char "," names)
  | None => true
  end.

Section cors.
Context `{HeaderCrate}.

Definition valid_header (name value : string) : list (string * string) :=
  if header_value_ok value then [(name, value)] else [].
Definition listed_header (name : string) (values : list string) : list (string * string) :=
  if decide (values = []) then [] else valid_header name (join_with ", " values).
Definition apply_cors_headers (rule : CorsRule) (origin : string) : list (string * string) :=
  valid_header "access-control-allow-origin" origin ++ [("vary", "Origin")]
  ++ listed_header "access-control-allow-methods" (allowed_methods rule)
  ++ listed_header "access-control-allow-headers" (allowed_headers rule)
  ++ listed_header "access-control-expose-headers" (expose_headers rule)
  ++ match max_age_seconds rule with
     | Some age => valid_header "access-control-max-age" (pretty age)
     | None => []
     end.

(** An answer, and the headers put on top of it. *)
Definition Answer : Type := result refusal Response * list (string * string).
Definition forbidden : Answer := (Ok (empty_response 403), []).

Section middleware.
Context `{Serde} (app : AppState).

Definition plainly (handler : Gate Response) (s : Server) : Server * Answer :=
  let '(s, r) := handler s in (s, (r, [])).

Definition answer_preflight (rules : list CorsRule) (origin : string) (r : Request) : Answer :=
  match find_matching_rule rules origin (default "" (header (rq_headers r) "access-control-request-method")) with
  | Some rule =>
      if request_headers_ok rule (rq_headers r) then (Ok (empty_response 200), apply_cors_headers rule origin)
      else forbidden
  | None => forbidden
  end.

Definition with_bucket_cors (handler : Request -> Gate Response) (r : Request) (s : Server) : Server * Answer :=
  match header (rq_headers r) "origin", extract_bucket_from_path (rq_path r) with
  | Some origin, Some bucket =>
      let options := bool_decide (rq_method r = "OPTIONS") in
      match BucketConfig.get_bucket_cors (as_storage app) bucket (sv_world s) with
      | (_, Ok (Some rules)) =>
          if options then (s, answer_preflight rules origin r)
          else
            let '(s, answer) := handler r s in
            (s, (answer, match find_matching_rule rules origin (rq_method r) with
                         | Some rule => apply_cors_headers rule origin
                         | None => []
                         end))
      | _ => if options then (s, forbidden) else plainly (handler r) s
      end
  | _, _ => plainly (handler r) s
  end.
Definition cors_middleware (handler : Request -> Gate Response) (r : Request) : Server -> Server * Answer :=
  with_bucket_cors handler r.

(** ** What it promises *)

(** A rule of the bucket of the path that allows the origin and the method. *)
Definition allows (rules : list CorsRule) (origin method : string) : Prop :=
  exists rule, rule ∈ rules /\ rule_matches origin method rule = true.

Lemma find_matching_rule_spec rules origin method :
  match find_matching_rule rules origin method with
  | Some rule => rule ∈ rules /\ rule_matches origin method rule = true
  | None => ~ allows rules origin method
  end.
Proof.
  unfold find_matching_rule. destruct (find _ rules) as [rule|] eqn:E.
  - apply find_some in E as [Hin Hm]. split; [by apply list_elem_of_In|done].
  - intros (rule & Hin%list_elem_of_In & Hm). by rewrite (find_none _ _ E rule Hin) in Hm.
Qed.

(** The layer never changes what a handler does or answers, and adds headers only
    where a rule of the bucket of the path allows the origin and the method of the
    request. *)
Theorem cors_only_adds_headers handler r s :
  rq_method r <> "OPTIONS" ->
  exists headers, with_bucket_cors handler r s = (fst (handler r s), (snd (handler r s), headers)) /\
    (headers <> [] ->
       exists origin bucket rules, header (rq_headers r) "origin" = Some origin /\
         extract_bucket_from_path (rq_path r) = Some bucket /\
         snd (BucketConfig.get_bucket_cors (as_storage app) bucket (sv_world s)) = Ok (Some rules) /\ allows rules origin (rq_method r)).
Proof.
  intros Hm. unfold with_bucket_cors. rewrite bool_decide_eq_false_2 by done. unfold plainly.
  destruct (header (rq_headers r) "origin") as [origin|] eqn:Eo; [|by destruct (handler r s); exists []].
  destruct (extract_bucket_from_path (rq_path r)) as [bucket|] eqn:Eb; [|by destruct (handler r s); exists []].
  destruct (BucketConfig.get_bucket_cors _ bucket (sv_world s)) as [w [[rules|]|e]] eqn:Ec; [|by destruct (handler r s); exists []..].
  destruct (handler r s) as [s' answer]. eexists. split; [done|].
  pose proof (find_matching_rule_spec rules origin (rq_method r)) as Hf. destruct (find_matching_rule _ _ _) as [rule|]; [|done].
  intros _. exists origin, bucket, rules. split_and!; try done; [by rewrite Ec|by exists rule].
Qed.

(** A preflight request touches nothing and is allowed only by a rule that
    allows the origin, the method and every header asked for. *)
Theorem preflight_is_allowed_by_a_rule handler r s origin bucket rules :
  rq_method r = "OPTIONS" -> header (rq_headers r) "origin" = Some origin ->
  extract_bucket_from_path (rq_path r) = Some bucket ->
  snd (BucketConfig.get_bucket_cors (as_storage app) bucket (sv_world s)) = Ok (Some rules) ->
  exists answer, with_bucket_cors handler r s = (s, answer) /\
    (answer = forbidden \/
     exists rule, rule ∈ rules /\ answer = (Ok (empty_response 200), apply_cors_headers rule origin) /\
       request_headers_ok rule (rq_headers r) = true /\
       rule_matches origin (default "" (header (rq_headers r) "access-control-request-method")) rule = true).
Proof.
  intros Hm Ho Hb Hr. unfold with_bucket_cors. rewrite Ho, Hb, bool_decide_eq_true_2 by done.
  destruct (BucketConfig.get_bucket_cors _ bucket (sv_world s)) as [w [x|e]]; cbn in Hr; [|done]. injection Hr as ->.
  eexists. split; [done|]. unfold answer_preflight.
  pose proof (find_matching_rule_spec rules origin (default "" (header (rq_headers r) "access-control-request-method"))) as Hf.
  destruct (find_matching_rule _ _ _) as [rule|]; [|by left]. destruct (request_headers_ok rule _) eqn:E; [|by left].
  right. exists rule. by destruct Hf.
Qed.
End middleware.
End cors.

(** The bucket is that of the path, also where the host names another. *)
Example bucket_of_paths :
  map extract_bucket_from_path ["/pets"; "/pets/cat"; "/"; "/api/buckets"; "/ui/index.html"; "//cat"; "pets"]
  = [Some "pets"; Some "pets"; None; None; None; None; None].
Proof. reflexivity. Qed.

(** The S3 routes: the router behind the gates behind this layer. *)
Section routes.
Context `{Environment} `{Crates} `{Serde} `{SerdeJson} `{Aead} `{ReedSolomon} `{HexDecode} `{Buffering}.
Context `{!KeyService FilesystemStorage} `{Webhooks} `{XmlCrate} `{BodyCrate} `{HttpDates} `{PercentEncoding}.
Context `{Process} `{Tasks} `{RouterCrate} `{HeaderCrate}.
Definition s3_routes (from_str : string -> result string BucketPolicy) (app : AppState) (r : Request) (body : source)
    : Server -> Server * Answer :=
  cors_middleware app (fun r => serve from_str app r body) r.
End routes.
