(* ===== verification/ClusterEc.v ===== *)
(** * Shards of a cluster

    [maxio-cluster/src/ec/mod.rs] and [ec/bitrot.rs]: where the shards of an
    object are placed, how they are written and read back, how a lost one is
    rebuilt, and the scanner that looks for damaged ones.  All nodes of one
    process share the file system and have a data directory each; a node in
    another process is reached over HTTP ([PeerHttp]).  A panic is the error
    [Panicked]. *)

From stdpp Require Import base list gmap sets numbers strings pretty.
From Stdlib Require Import ZArith Lia Ascii Strings.Byte.
From S2P Require Import Prelude Bytes Reader Utf8 Types Quota Crypto ErasureCode Keyring MetadataIndex FileSystem Paths World Storage Objects.

Local Open Scope nat_scope.

(** The body of a successful answer to a GET, within the time limit. *)
Class PeerHttp : Type := { http_get : string -> option bytes }.

Inductive failure : Type :=
| IoFailure (e : io_error)
| Bail (msg : string)
| Panicked.

Record EcShardPlacement : Type := mk_EcShardPlacement {
  sp_bucket : string;
  sp_key : string;
  sp_data_shards : Z;
  sp_parity_shards : Z;
  sp_placements : list (Z * string);
}.

(** Storage of nodes in this process, by their ids; a [HashMap] is visited in an
    order of its own, the order of the list. *)
Definition Nodes : Type := list (string * FilesystemStorage).
Definition node_of (nodes : Nodes) (id : string) : option FilesystemStorage :=
  snd <$> find (fun n => bool_decide (fst n = id)) nodes.

(** ** Placement *)

(** The sum wraps; a remainder by the number of nodes panics when there is none. *)
Definition place_shards (bucket key : string) (data_shards parity_shards : Z) (node_ids : list string)
    : result failure EcShardPlacement :=
  let total := Z.to_nat ((data_shards + parity_shards) mod 2 ^ 32) in
  if decide (0 < total /\ node_ids = []) then Err Panicked
  else Ok (mk_EcShardPlacement bucket key data_shards parity_shards
             (map (fun i => (Z.of_nat i, default "" (node_ids !! (i mod length node_ids)))) (seq 0 total))).

Definition owner_of (placement : EcShardPlacement) (shard_index : Z) : result failure string :=
  ok_or (snd <$> find (fun p => bool_decide (fst p = shard_index)) (sp_placements placement))
    (Bail ("shard " +:+ pretty shard_index +:+ " not placed")).

(** [format!("{shard:06}")]. *)
Definition shard_name (shard : Z) : string := chunk_name (Z.to_nat shard).
Definition shard_path (data_root bucket key : string) (shard : Z) : string :=
  join (join (join (join data_root ".cluster-shards") bucket) key) (shard_name shard).
Definition cluster_shard_path : string -> string -> string -> Z -> string := shard_path.
Definition path_on (fs : FilesystemStorage) (placement : EcShardPlacement) (shard : Z) : string :=
  shard_path (st_data_root fs) (sp_bucket placement) (sp_key placement) shard.

(** ** Reconstruction *)

(** [Vec::resize] with zeros. *)
Definition padded (n : nat) (b : bytes) : bytes := take n b ++ replicate (n - length b) x00.

Section reconstruction.
Context `{ReedSolomon}.

Fixpoint place_present (shard_size : nat) (shards : list (option bytes)) (present : list (Z * bytes))
    : result failure (list (option bytes)) :=
  match present with
  | [] => Ok shards
  | (idx, b) :: present =>
      let i := Z.to_nat idx in
      if length shards <=? i then Err (Bail ("shard index " +:+ pretty idx +:+ " out of range"))
      else place_present shard_size (<[i := Some (padded shard_size b)]> shards) present
  end.

Definition reconstruct_shard (data_shards parity_shards : Z) (shard_size : nat) (present : list (Z * bytes)) (target : Z)
    : result failure bytes :=
  let k := Z.to_nat data_shards in
  let m := Z.to_nat parity_shards in
  _ ← map_err (fun e => Bail ("RS init: " +:+ e)) (rs_new k m);
  shards ← place_present shard_size (replicate (k + m) None) present;
  let available := ErasureCode.present shards in
  if available <? k then
    Err (Bail ("need at least " +:+ pretty k +:+ " shards for reconstruction, have " +:+ pretty available))
  else
    shards ← map_err (fun e => Bail ("RS reconstruct: " +:+ e)) (rs_reconstruct k m shards);
    match shards !! Z.to_nat target with
    | None => Err Panicked
    | Some shard => ok_or shard (Bail ("reconstruction produced no shard " +:+ pretty target))
    end.
End reconstruction.

(** ** Files *)

Section files.
Context `{Crates} `{Serde}.

Definition io {A} (f : tree -> tree * result io_error A) : M failure A := fun w =>
  let '(t, r) := f (w_tree w) in (with_tree w t, map_err IoFailure r).
Definition look {A} (f : tree -> result io_error A) : M failure A := fun w => (w, map_err IoFailure (f (w_tree w))).
(** [if let Ok(b) = ..]. *)
Definition try_ok {A} (m : M failure A) : M failure (option A) :=
  on_world (fun w => match m w with
                     | (w, Ok a) => (w, Ok (Some a))
                     | (w, Err Panicked) => (w, Err Panicked)
                     | (w, Err _) => (w, Ok None)
                     end).
Definition read_bytes (path : string) (t : tree) : result io_error bytes := c ← fs_read t path; Ok (file_bytes c).
Definition invalid_data : io_error := fs_error InvalidData "stream did not contain valid UTF-8".
Definition read_to_string (path : string) (t : tree) : result io_error string :=
  b ← read_bytes path t; ok_or (from_utf8 b) invalid_data.

(** [create_dir_all(path.parent().unwrap())]. *)
Definition create_shard_dir (path : string) : M failure unit :=
  match path_parent path with
  | Some parent => io (fun t => fs_create_dir_all t parent)
  | None => fail Panicked
  end.

(** [Path::with_file_name]. *)
Definition with_file_name (path name : string) : string :=
  match path_file_name path with
  | Some _ => join (default "" (path_parent path)) name
  | None => join path name
  end.

Definition CHECKSUM_SUFFIX : string := ".sha256".
Definition checksum_sidecar (shard_file : string) : string :=
  with_file_name shard_file (default "shard" (path_file_name shard_file) +:+ CHECKSUM_SUFFIX).
Definition shard_checksum_hex (b : bytes) : string := hex_encode (sha256 b).
Definition newline : string := String "010" "".
Definition write_checksum_sidecar (shard_file : string) (b : bytes) : M failure unit :=
  let sidecar := checksum_sidecar shard_file in
  _ ← match path_parent sidecar with
      | Some parent => io (fun t => fs_create_dir_all t parent)
      | None => mret tt
      end;
  io (fun t => fs_write t sidecar (Raw (as_bytes (shard_checksum_hex b +:+ newline)))).

(** A shard without a checksum gets one. *)
Definition verify_shard_checksum (shard_file : string) (b : bytes) : M failure bool :=
  w ← get_tree;
  match read_to_string (checksum_sidecar shard_file) w with
  | Ok s => mret (bool_decide (shard_checksum_hex b = of_chars (lower (trim s))))
  | Err e =>
      if decide (io_error_kind e = NotFound) then _ ← write_checksum_sidecar shard_file b; mret true
      else fail (IoFailure e)
  end.

(** ** Shards *)

Definition node_or_fail (nodes : Nodes) (id : string) : M failure FilesystemStorage :=
  lift (ok_or (node_of nodes id) (Bail ("unknown node " +:+ id))).

Definition write_shard_file (path : string) (b : bytes) : M failure unit :=
  _ ← create_shard_dir path; io (fun t => fs_write t path (Raw b)).
Definition write_shard (nodes : Nodes) (placement : EcShardPlacement) (shard_index : Z) (b : bytes) : M failure unit :=
  owner ← lift (owner_of placement shard_index);
  fs ← node_or_fail nodes owner;
  let path := path_on fs placement shard_index in
  _ ← write_shard_file path b;
  write_checksum_sidecar path b.
Definition write_shard_on_node (nodes : Nodes) (node_id bucket key : string) (shard_index : Z) (b : bytes) : M failure unit :=
  fs ← node_or_fail nodes node_id;
  write_shard_file (shard_path (st_data_root fs) bucket key shard_index) b.

(** The first of the other nodes that has the shard. *)
Fixpoint from_peers (t : tree) (owner : string) (placement : EcShardPlacement) (shard_index : Z) (nodes : Nodes) : option bytes :=
  match nodes with
  | [] => None
  | (id, peer) :: nodes =>
      if decide (id = owner) then from_peers t owner placement shard_index nodes
      else match read_bytes (path_on peer placement shard_index) t with
           | Ok b => Some b
           | Err _ => from_peers t owner placement shard_index nodes
           end
  end.
Definition read_shard (nodes : Nodes) (placement : EcShardPlacement) (shard_index : Z) : M failure bytes :=
  owner ← lift (owner_of placement shard_index);
  fs ← node_or_fail nodes owner;
  t ← get_tree;
  match read_bytes (path_on fs placement shard_index) t with
  | Ok b => mret b
  | Err e =>
      if decide (io_error_kind e = NotFound) then
        lift (ok_or (from_peers t owner placement shard_index nodes) (IoFailure e))
      else fail (IoFailure e)
  end.

(** ** Healing *)

Context `{PeerHttp} `{ReedSolomon}.

Definition shard_url (peer_base_url bucket key : string) (shard_index : Z) : string :=
  trim_end_slashes peer_base_url +:+ "/internal/shard?bucket=" +:+ bucket +:+ "&key=" +:+ key
  +:+ "&index=" +:+ pretty shard_index.
Definition fetch_shard_http (peer_base_url bucket key : string) (shard_index : Z) : option bytes :=
  http_get (shard_url peer_base_url bucket key shard_index).

Section scanner.
Context (local_fs : FilesystemStorage) (local_node_id : string) (peer_urls : gmap Z string) (nodes : option Nodes).

(** One shard, from the local disk, another node of the process, or a peer. *)
Definition gather_shard (placement : EcShardPlacement) (idx : Z) (owner : string) : M failure (option bytes) :=
  t ← get_tree;
  let local := if decide (owner = local_node_id) then
                 match read_bytes (path_on local_fs placement idx) t with Ok b => Some b | Err _ => None end
               else None in
  match local with
  | Some b => mret (Some b)
  | None =>
      here ← match nodes with Some map => try_ok (read_shard map placement idx) | None => mret None end;
      match here with
      | Some b => mret (Some b)
      | None =>
          mret (node_id ← parse_uint u64_max owner; base ← peer_urls !! node_id;
                fetch_shard_http base (sp_bucket placement) (sp_key placement) idx)
      end
  end.
Fixpoint gather_from (placement : EcShardPlacement) (skip_index : option Z) (l : list (Z * string))
    : M failure (list (Z * bytes)) :=
  match l with
  | [] => mret []
  | (idx, owner) :: l =>
      if decide (skip_index = Some idx) then gather_from placement skip_index l
      else
        b ← gather_shard placement idx owner;
        rest ← gather_from placement skip_index l;
        mret (match b with Some b => (idx, b) :: rest | None => rest end)
  end.
Definition gather_shards (placement : EcShardPlacement) (skip_index : option Z) : M failure (list (Z * bytes)) :=
  gather_from placement skip_index (sp_placements placement).

Definition shard_size_from_present (present : list (Z * bytes)) : nat :=
  foldr Nat.max 0 (map (fun p => length (snd p)) present).

Definition heal_local_shard (placement : EcShardPlacement) (corrupt_index : Z) : M failure unit :=
  present ← gather_shards placement (Some corrupt_index);
  let shard_size := shard_size_from_present present in
  _ ← fail_if (shard_size =? 0) (Bail ("no peer shards available to heal shard " +:+ pretty corrupt_index));
  rebuilt ← lift (reconstruct_shard (sp_data_shards placement) (sp_parity_shards placement) shard_size present corrupt_index);
  let path := path_on local_fs placement corrupt_index in
  _ ← write_shard_file path rebuilt;
  write_checksum_sidecar path rebuilt.

(** ** The scanner *)

Record BitrotMetrics : Type := mk_BitrotMetrics {
  shards_scanned : nat;
  corrupt_detected : nat;
  shards_healed : nat;
  scan_errors : nat;
}.
Definition add_metrics (a b : BitrotMetrics) : BitrotMetrics :=
  mk_BitrotMetrics (shards_scanned a + shards_scanned b) (corrupt_detected a + corrupt_detected b)
    (shards_healed a + shards_healed b) (scan_errors a + scan_errors b).

(** The error of a step, which is logged; a panic ends the scanner. *)
Definition logged {A} (m : M failure A) (ok : A -> M failure BitrotMetrics) (error : BitrotMetrics) : M failure BitrotMetrics :=
  r ← try_ok m;
  match r with Some a => ok a | None => mret error end.

Definition scan_shard (placement : EcShardPlacement) (idx : Z) (owner : string) : M failure BitrotMetrics :=
  if decide (owner <> local_node_id) then mret (mk_BitrotMetrics 0 0 0 0)
  else
    let path := path_on local_fs placement idx in
    logged (look (read_bytes path))
      (fun b => logged (verify_shard_checksum path b)
         (fun good => if good : bool then mret (mk_BitrotMetrics 1 0 0 0)
                      else logged (heal_local_shard placement idx) (fun _ => mret (mk_BitrotMetrics 1 1 1 0))
                             (mk_BitrotMetrics 1 1 0 1))
         (mk_BitrotMetrics 1 0 0 1))
      (mk_BitrotMetrics 0 0 0 1).
Fixpoint scan_each {A} (f : A -> M failure BitrotMetrics) (l : list A) : M failure BitrotMetrics :=
  match l with
  | [] => mret (mk_BitrotMetrics 0 0 0 0)
  | a :: l => x ← f a; y ← scan_each f l; mret (add_metrics x y)
  end.
Definition scan_placements (placements : list EcShardPlacement) : M failure BitrotMetrics :=
  scan_each (fun placement => scan_each (fun p => scan_shard placement (fst p) (snd p)) (sp_placements placement)) placements.
End scanner.

(** [GET /internal/shard] on a storage node: [None] is 404. *)
Definition get_shard (fs : FilesystemStorage) (bucket key : string) (index : Z) (t : tree) : option bytes :=
  match read_bytes (cluster_shard_path (st_data_root fs) bucket key index) t with Ok b => Some b | Err _ => None end.
End files.
