(* ===== verification/ClusterEcSpec.v ===== *)
(** * A damaged shard is rebuilt

    Which shards the loss of a node costs, and that the scanner rebuilds a damaged
    shard from any [k] of the others: what it writes is the lost shard, and its
    checksum verifies.  Then what happens when the others are damaged too. *)

From stdpp Require Import base list gmap sets numbers strings pretty.
From Stdlib Require Import ZArith Lia Ascii Strings.Byte.
From S2P Require Import Prelude Bytes Reader Utf8 Types Quota Crypto Keyring MetadataIndex FileSystem Paths World TreeOk ErasureCode Storage Objects Demo Headers ClusterEc.

Local Open Scope nat_scope.

(** ** Reconstruction *)

(** What was gathered are shards of [full], no index twice. *)
Definition true_shards (full : list bytes) (present : list (Z * bytes)) : Prop :=
  NoDup (map fst present) /\ Forall (fun p => (0 <= fst p)%Z /\ full !! Z.to_nat (fst p) = Some (snd p)) present.

Lemma padded_id n b : length b = n -> padded n b = b.
Proof. intros <-. unfold padded. by rewrite take_ge, Nat.sub_diag, app_nil_r. Qed.

Lemma present_insert (shards : list (option bytes)) i b : shards !! i = Some None ->
  present (<[i := Some b]> shards) = S (present shards).
Proof.
  revert i. induction shards as [|s shards IH]; intros [|i] Hi; [done..| |].
  - cbn in Hi. injection Hi as ->. cbn [insert list_insert]. by rewrite !present_cons.
  - cbn [insert list_insert]. rewrite !present_cons, IH by done. lia.
Qed.

Section place.
Context `{ReedSolomon} (full : list bytes) (n : nat).
Hypothesis Hlen : Forall (fun s => length s = n) full.

Lemma place_present_spec shards l : shards_of shards full -> true_shards full l ->
  Forall (fun p => shards !! Z.to_nat (fst p) = Some None) l ->
  exists shards', place_present n shards l = Ok shards' /\ shards_of shards' full /\ present shards' = present shards + length l.
Proof.
  revert shards. induction l as [|[idx b] l IH]; intros shards Hs [Hnd Ht] Hfree.
  { exists shards. split_and!; [done..|]. cbn. lia. }
  cbn [map fst] in Hnd. apply NoDup_cons in Hnd as [Hidx Hnd].
  apply Forall_cons in Ht as [[Hpos Hb] Ht]. cbn [fst snd] in *. apply Forall_cons in Hfree as [Hi Hfree]. cbn [fst] in Hi.
  cbn [place_present]. pose proof (lookup_lt_Some _ _ _ Hi) as Hlt.
  destruct (Nat.leb_spec (length shards) (Z.to_nat idx)); [lia|].
  rewrite padded_id by exact (Forall_lookup_1 _ full _ _ Hlen Hb).
  destruct (IH (<[Z.to_nat idx := Some b]> shards)) as (shards' & E & Hs' & Hp).
  - unfold shards_of in *. rewrite <-(list_insert_id full (Z.to_nat idx) b Hb). apply Forall2_insert; [done|by right].
  - by split.
  - apply Forall_forall. intros p Hp. rewrite Forall_forall in Hfree, Ht. rewrite list_lookup_insert_ne; [by apply Hfree|].
    intros E. destruct (Ht p Hp) as [? _]. apply Hidx. apply list_elem_of_fmap. exists p. split; [lia|done].
  - exists shards'. split_and!; [done..|]. rewrite Hp, present_insert by done. cbn. lia.
Qed.
End place.

Section reconstruct.
Context `{ReedSolomonSpec} (k m n : nat) (all full : list bytes).
Hypothesis Hnew : rs_new k m = Ok tt.
Hypothesis Hn : 0 < n.
Hypothesis Hall : length all = k + m.
Hypothesis Hsize : Forall (fun s => length s = n) all.
Hypothesis Hfull : rs_encode k m all = Ok full.

Lemma full_shards : length full = k + m /\ Forall (fun s => length s = n) full.
Proof.
  destruct (rs_encode_ok k m n all Hnew Hn Hall Hsize) as (parity & E & Hp & Hps). rewrite Hfull in E. injection E as ->.
  split; [rewrite length_app, length_take; lia|]. apply Forall_app. split; [by apply Forall_take|done].
Qed.

Lemma none_shards total : shards_of (replicate total None) full <-> length full = total.
Proof.
  split; [intros Hs%shards_of_length; by rewrite length_replicate in Hs|]. intros <-. unfold shards_of.
  clear. induction full; cbn; constructor; auto.
Qed.

Lemma present_none total : present (replicate total (None : option bytes)) = 0.
Proof. induction total; [done|]. cbn [replicate]. by rewrite present_cons, IHtotal. Qed.

(** From any [k] true shards every shard is rebuilt. *)
Lemma reconstruct_correct l target shard : true_shards full l -> k <= length l ->
  full !! Z.to_nat target = Some shard ->
  reconstruct_shard (Z.of_nat k) (Z.of_nat m) n l target = Ok shard.
Proof.
  intros Ht Hk Hshard. destruct full_shards as [Hl Hs]. unfold reconstruct_shard. rewrite !Nat2Z.id, Hnew. cbn [map_err mbind result_bind].
  destruct (place_present_spec full n Hs (replicate (k + m) None) l) as (shards & E & Hof & Hp).
  - by apply none_shards.
  - done.
  - apply Forall_forall. intros p Hp. destruct Ht as [_ Ht]. rewrite Forall_forall in Ht. destruct (Ht p Hp) as [_ Hx].
    apply lookup_replicate_2. apply lookup_lt_Some in Hx. lia.
  - rewrite E. cbn [mbind result_bind]. rewrite present_none in Hp. rewrite (proj2 (Nat.ltb_ge _ _)) by lia.
    rewrite (rs_reconstruct_ok k m n all full shards) by (done || lia). cbn. by rewrite list_lookup_fmap, Hshard.
Qed.
End reconstruct.

(** ** Placement *)

Definition ceiling (a b : nat) : nat := (a + b - 1) / b.

Lemma residues_count n j total : 0 < n ->
  length (filter (fun i => i mod n = j) (seq 0 total)) <= ceiling total n.
Proof.
  intros Hn. set (l := filter _ _).
  assert (Hl : forall i, i ∈ l -> i mod n = j /\ i < total).
  { intros i [Hi Hs]%list_elem_of_filter. apply elem_of_seq in Hs. split; [done|lia]. }
  assert (Hs : length (map (fun i => i / n) l) <= length (seq 0 (ceiling total n))); [|by rewrite length_map, length_seq in Hs].
  apply submseteq_length, NoDup_submseteq.
  - apply NoDup_fmap_2_strong; [|apply NoDup_filter, NoDup_seq]. intros x y Hx%Hl Hy%Hl E.
    rewrite (Nat.div_mod_eq x n), (Nat.div_mod_eq y n). destruct Hx as [-> _], Hy as [-> _]. by rewrite E.
  - intros q (i & -> & [_ Hi]%Hl)%list_elem_of_fmap. apply elem_of_seq. split; [lia|]. unfold ceiling.
    apply Nat.Div0.div_lt_upper_bound. pose proof (Nat.div_mod_eq (total + n - 1) n).
    pose proof (Nat.mod_upper_bound (total + n - 1) n). lia.
Qed.

Lemma length_filter_map {A B} (f : A -> B) (P : B -> Prop) `{!forall b, Decision (P b)} l :
  length (filter P (map f l)) = length (filter (fun a => P (f a)) l).
Proof. induction l as [|a l IH]; [done|]. cbn [map]. rewrite !filter_cons. case_decide; cbn; by rewrite IH. Qed.
Lemma length_filter_split {A} (P : A -> Prop) `{!forall a, Decision (P a)} l :
  length (filter P l) + length (filter (fun a => ~ P a) l) = length l.
Proof.
  induction l as [|a l IH]; [done|]. rewrite !filter_cons. destruct (decide (P a)).
  - rewrite decide_False by tauto. cbn. lia.
  - rewrite decide_True by tauto. cbn. lia.
Qed.

(** The loss of one node costs at most its share of the shards, rounded up; when
    there is that much parity, [k] shards are left. *)
Theorem node_loss_leaves_enough bucket key k m node_ids placement node :
  (0 <= k)%Z -> (0 <= m)%Z -> (k + m < 2 ^ 32)%Z -> NoDup node_ids -> node_ids <> [] ->
  place_shards bucket key k m node_ids = Ok placement ->
  ceiling (Z.to_nat (k + m)) (length node_ids) <= Z.to_nat m ->
  map fst (sp_placements placement) = map Z.of_nat (seq 0 (Z.to_nat (k + m))) /\
  Z.to_nat k <= length (filter (fun p => snd p <> node) (sp_placements placement)).
Proof.
  intros Hk Hm Ht Hnd Hne. unfold place_shards. rewrite Z.mod_small by lia. rewrite decide_False by tauto.
  intros [= <-] Hc. cbn [sp_placements]. set (total := Z.to_nat (k + m)) in *.
  split; [by rewrite map_map|].
  assert (Hn : 0 < length node_ids) by (destruct node_ids; [done|cbn; lia]).
  assert (Hcount : length (filter (fun p => snd p = node)
      (map (fun i => (Z.of_nat i, default "" (node_ids !! (i mod length node_ids)))) (seq 0 total))) <= Z.to_nat m).
  { rewrite length_filter_map. cbn [snd]. destruct (decide (node ∈ node_ids)) as [[j Hj]%list_elem_of_lookup|Hin].
    - etrans; [|exact Hc]. rewrite <-(residues_count (length node_ids) j total Hn).
      apply Nat.eq_le_incl. f_equal. apply list_filter_iff. intros i.
      destruct (lookup_lt_is_Some_2 node_ids (i mod length node_ids)) as [x Hx]; [apply Nat.mod_upper_bound; lia|].
      rewrite Hx. cbn. split; [intros ->; by eapply NoDup_lookup|intros E; congruence].
    - match goal with |- length ?l <= _ => destruct l as [|i l'] eqn:E; [cbn; lia|assert (Hi : i ∈ l) by (rewrite E; by left)] end.
      apply list_elem_of_filter in Hi as [Hi _]. exfalso. apply Hin. rewrite <-Hi.
      destruct (lookup_lt_is_Some_2 node_ids (i mod length node_ids)) as [x Hx]; [apply Nat.mod_upper_bound; lia|].
      rewrite Hx. cbn. by apply list_elem_of_lookup_2 in Hx. }
  pose proof (length_filter_split (fun p : Z * string => snd p = node)
    (map (fun i => (Z.of_nat i, default "" (node_ids !! (i mod length node_ids)))) (seq 0 total))) as Hs.
  rewrite length_map, length_seq in Hs. lia.
Qed.

(** ** Checksums *)

Section checksum.
Context `{CratesSpec}.

Definition digest_digits : list ascii := chars "0123456789abcdef".

Lemma digit_facts c : c ∈ digest_digits -> graphic c /\ to_ascii_lowercase c = c /\ (code c <= 127)%Z.
Proof.
  intros Hc. assert (Hall : Forall (fun c => graphic c /\ to_ascii_lowercase c = c /\ (code c <= 127)%Z) digest_digits).
  { unfold digest_digits. cbn. repeat (constructor; [split_and!; [by vm_compute|done|by vm_compute]|]). constructor. }
  by rewrite Forall_forall in Hall; apply Hall.
Qed.

Lemma trim_start_newline l : Forall graphic l -> trim_start (rev (l ++ ["010"%char])) = rev l.
Proof.
  intros Hl. rewrite rev_app_distr. cbn [rev app trim_start]. rewrite decide_True by (by do 2 right; left).
  apply trim_start_graphic. by apply Forall_rev.
Qed.

(** What the sidecar says is read back. *)
Lemma checksum_line b : of_chars (lower (trim (shard_checksum_hex b +:+ newline))) = shard_checksum_hex b.
Proof.
  pose proof (hex_encode_digits (sha256 b)) as Hd. fold (shard_checksum_hex b) in Hd.
  assert (Hg : Forall graphic (chars (shard_checksum_hex b))) by (eapply Forall_impl; [exact Hd|]; by intros c (? & _)%digit_facts).
  assert (Ht : trim (shard_checksum_hex b +:+ newline) = shard_checksum_hex b).
  { unfold trim. rewrite chars_app. cbn [chars newline]. destruct (chars (shard_checksum_hex b)) as [|c l] eqn:E.
    - by rewrite <-(of_chars_chars (shard_checksum_hex b)), E.
    - rewrite <-E in *. assert (Hs : trim_start (chars (shard_checksum_hex b) ++ ["010"%char]) = chars (shard_checksum_hex b) ++ ["010"%char]).
      { rewrite E in Hg |- *. apply Forall_cons in Hg as [Hc _]. cbn [app trim_start].
        rewrite decide_False; [done|]. intros Hin. revert Hc.
        repeat (apply elem_of_cons in Hin as [->|Hin]; [intros Hc; by destruct Hc|]). by apply elem_of_nil in Hin. }
      rewrite Hs, trim_start_newline, rev_involutive, of_chars_chars by done. done. }
  rewrite Ht. unfold lower. rewrite <-(of_chars_chars (shard_checksum_hex b)) at 2. f_equal.
  clear Ht Hg. induction Hd as [|c l Hc _ IH]; [done|]. cbn. rewrite IH. f_equal. by apply digit_facts.
Qed.

Lemma ascii_rust_string s : Forall (fun c => (code c <= 127)%Z) (chars s) -> rust_string s.
Proof.
  unfold rust_string, as_bytes. induction s as [|c s IH]; [done|]. cbn [chars]. intros [Hc Hs]%Forall_cons.
  change (is_utf8 (byte_of_ascii c :: String.list_byte_of_string s) = true). cbn [is_utf8]. assert (Hb : between 0 127 (byte_of_ascii c) = true); [|by rewrite Hb; apply IH].
  unfold between. assert (E : Z_of_byte (byte_of_ascii c) = code c); [by destruct c as [[] [] [] [] [] [] [] []]|].
  rewrite E. apply andb_true_iff. split; apply Z.leb_le; [unfold code; lia|done].
Qed.
Lemma checksum_line_text b : from_utf8 (as_bytes (shard_checksum_hex b +:+ newline)) = Some (shard_checksum_hex b +:+ newline).
Proof.
  apply from_utf8_as_bytes, ascii_rust_string. rewrite chars_app. apply Forall_app. split.
  - eapply Forall_impl; [apply hex_encode_digits|]. by intros c (_ & _ & ?)%digit_facts.
  - constructor; [by vm_compute|constructor].
Qed.
End checksum.

(** ** Files *)

Lemma at_place_file_name path P s : at_place path P s -> path_file_name path = Some s.
Proof.
  intros (l & E & _ & _ & Hb & Hs). unfold path_file_name, components. rewrite E.
  assert (Hc : component_of s = [Normal s]).
  { unfold component_of. rewrite !decide_False; [done|..]; [done|intros ->; apply Hb; by right|intros ->; apply Hb; by left]. }
  destruct l as [|w l]; cbn [app].
  - rewrite !decide_False by (intros ->; apply Hb; unfold blank; tauto). by rewrite Hc.
  - rewrite map_app, concat_app. cbn [map concat]. rewrite Hc. by rewrite app_assoc, app_nil_r, last_snoc.
Qed.
Lemma sidecar_place path P s : at_place path P s -> at_place (checksum_sidecar path) P (s +:+ ".sha256").
Proof.
  intros Ha. unfold checksum_sidecar, with_file_name. rewrite (at_place_file_name _ _ _ Ha). cbn [default].
  destruct (at_place_parent _ _ _ Ha) as (q & -> & Hn & Hp). cbn [default].
  assert (Hlen : forall t, length (chars t) < 7 -> s +:+ ".sha256" <> t).
  { intros t Hl E. apply (f_equal (fun s => length (chars s))) in E. rewrite chars_app, length_app in E. cbn in E. lia. }
  apply at_place_join; [done..| | |].
  - pose proof (at_place_no_slash _ _ _ Ha) as Hs. unfold contains_char in *. rewrite bool_decide_eq_false in Hs.
    apply bool_decide_eq_false. rewrite chars_app, elem_of_app. intros [?|Hin]; [done|].
    repeat (apply elem_of_cons in Hin as [[=]|Hin]). by apply elem_of_nil in Hin.
  - intros [E|E]; revert E; apply Hlen; cbn; lia.
  - apply Hlen. cbn. lia.
Qed.

Section place.
Context `{CratesSpec} `{SerdeSpec} (path : string) (P : location) (s : string).
Hypothesis Ha : at_place path P s.
Local Abbreviation side := (P ++ [s +:+ ".sha256"]).

Lemma read_place t : reach t P -> P ++ [s] ∉ t_dirs t ->
  read_bytes path t = match t_files t !! (P ++ [s]) with Some c => Ok (file_bytes c) | None => Err enoent end.
Proof.
  intros Hr Hd. unfold read_bytes, fs_read. rewrite (resolve_place t path P s Ha Hr). cbn.
  destruct (t_files t !! (P ++ [s])); [done|]. by rewrite decide_False.
Qed.
Lemma read_place_ok t b : read_bytes path t = Ok b -> reach t P /\ exists c, t_files t !! (P ++ [s]) = Some c /\ file_bytes c = b.
Proof.
  unfold read_bytes. cbn. destruct (fs_read t path) as [c|e] eqn:E; [|done]. intros [= <-].
  destruct (at_place_names _ _ _ Ha) as [Hp Hn]. apply fs_read_ok in E as [Hr Hf]; [|done]. rewrite Hn in *.
  split; [by eapply resolve_reach|by exists c].
Qed.

Lemma shard_file_written w b : tree_ok (w_tree w) -> reach (w_tree w) P -> P ++ [s] ∉ t_dirs (w_tree w) ->
  write_shard_file path b w = (with_tree w (with_file (w_tree w) (P ++ [s]) (Raw b)), Ok tt).
Proof.
  intros Hok Hr Hd. destruct (at_place_parent _ _ _ Ha) as (q & Hq & Hn & Hp).
  unfold write_shard_file, create_shard_dir, io, mbind, M_bind. rewrite Hq.
  rewrite (create_dir_all_there _ q P) by done. cbn [w_tree with_tree map_err].
  unfold fs_write. rewrite (resolve_place _ path P s Ha) by done. by rewrite decide_False.
Qed.
Lemma sidecar_written w b : tree_ok (w_tree w) -> reach (w_tree w) P -> side ∉ t_dirs (w_tree w) ->
  write_checksum_sidecar path b w =
    (with_tree w (with_file (w_tree w) side (Raw (as_bytes (shard_checksum_hex b +:+ newline)))), Ok tt).
Proof.
  intros Hok Hr Hd. pose proof (sidecar_place _ _ _ Ha) as Hs. destruct (at_place_parent _ _ _ Hs) as (q & Hq & Hn & Hp).
  unfold write_checksum_sidecar, io, mbind, M_bind. rewrite Hq.
  rewrite (create_dir_all_there _ q P) by done. cbn [w_tree with_tree map_err].
  unfold fs_write. rewrite (resolve_place _ _ P _ Hs) by done. by rewrite decide_False.
Qed.
Lemma recorded_verifies w b : reach (w_tree w) P ->
  t_files (w_tree w) !! side = Some (Raw (as_bytes (shard_checksum_hex b +:+ newline))) ->
  verify_shard_checksum path b w = (w, Ok true).
Proof.
  intros Hr Hf. unfold verify_shard_checksum, mbind, M_bind, get_tree. unfold read_to_string, read_bytes, fs_read.
  rewrite (resolve_place _ _ P _ (sidecar_place _ _ _ Ha)) by done. cbn. rewrite Hf. cbn. rewrite file_bytes_raw.
  rewrite checksum_line_text. cbn [ok_or]. rewrite checksum_line. by rewrite bool_decide_eq_true_2.
Qed.
End place.

(** ** Gathering *)

Section heal.
Context `{CratesSpec} `{SerdeSpec} `{PeerHttp} `{ReedSolomonSpec}.
Context (fs : FilesystemStorage) (self : string) (peers : gmap Z string) (nodes : option Nodes) (placement : EcShardPlacement).

(** The copy of a shard the node finds, if any. *)
Definition found (w : world) (p : Z * string) : option bytes :=
  match snd (gather_shard fs self peers nodes placement (fst p) (snd p) w) with Ok o => o | Err _ => None end.

Lemma read_shard_looks map idx w : exists r, read_shard map placement idx w = (w, r) /\ r <> Err Panicked.
Proof.
  unfold read_shard, node_or_fail, owner_of, mbind, M_bind, lift, get_tree.
  destruct (find _ _) as [[i o]|]; cbn; [|by eexists]. destruct (node_of map o) as [nfs|]; cbn; [|by eexists].
  destruct (read_bytes _ _) as [b|e]; [by eexists|]. case_decide; [|by eexists].
  destruct (from_peers _ _ _ _ _); by eexists.
Qed.
Lemma gather_shard_looks w p : gather_shard fs self peers nodes placement (fst p) (snd p) w = (w, Ok (found w p)).
Proof.
  assert (He : exists o, gather_shard fs self peers nodes placement (fst p) (snd p) w = (w, Ok o)).
  { unfold gather_shard, mbind, M_bind, get_tree. destruct (if decide _ then _ else _); [by eexists|].
    destruct nodes as [map|]; [|by eexists]. unfold try_ok, on_world.
    destruct (read_shard_looks map (fst p) w) as (r & -> & Hr).
    destruct r as [b|[e|e|]]; [by eexists..|done]. }
  destruct He as [o E]. unfold found. by rewrite E.
Qed.

Definition gathered (w : world) (skip : Z) : list (Z * bytes) :=
  omap (fun p => if decide (Some skip = Some (fst p)) then None else (fst p,.) <$> found w p) (sp_placements placement).
Lemma gather_shards_looks w skip : gather_shards fs self peers nodes placement (Some skip) w = (w, Ok (gathered w skip)).
Proof.
  unfold gather_shards, gathered. induction (sp_placements placement) as [|[i o] l IH]; [done|]. cbn [gather_from omap list_omap fst].
  destruct (decide (Some skip = Some i)); [exact IH|].
  rewrite (run_ok _ _ _ _ _ (gather_shard_looks w (i, o))), (run_ok _ _ _ _ _ IH). cbn.
  by destruct (found w (i, o)).
Qed.

Lemma gathered_indices w skip : NoDup (map fst (sp_placements placement)) -> NoDup (map fst (gathered w skip)).
Proof.
  unfold gathered. induction (sp_placements placement) as [|[i o] l IH]; cbn; [constructor|]. intros [Hi Hl]%NoDup_cons.
  case_decide; [by apply IH|]. destruct (found w (i, o)); cbn; [|by apply IH]. apply NoDup_cons. split; [|by apply IH].
  intros (p & -> & ((j & o') & Hp & Hj)%list_elem_of_omap)%list_elem_of_fmap. apply Hi. apply list_elem_of_fmap.
  exists (j, o'). split; [|done]. cbn in *. case_decide; [done|]. by destruct (found w (j, o')); simplify_eq/=.
Qed.

Lemma size_of_shards n l : l <> [] -> Forall (fun p : Z * bytes => length (snd p) = n) l -> shard_size_from_present l = n.
Proof.
  unfold shard_size_from_present. intros Hne Hl. induction Hl as [|p l Hp Hl IH]; [done|]. cbn. rewrite Hp.
  destruct l as [|q l]; [cbn; lia|]. rewrite IH by done. lia.
Qed.

(** ** Healing *)

Context (k m n : nat) (all full : list bytes) (idx : Z) (P : location) (s : string) (w : world).
Hypothesis Hnew : rs_new k m = Ok tt.
Hypothesis Hn : 0 < n.
Hypothesis Hk : 0 < k.
Hypothesis Hall : length all = k + m.
Hypothesis Hsize : Forall (fun s => length s = n) all.
Hypothesis Hfull : rs_encode k m all = Ok full.
Hypothesis Hdata : sp_data_shards placement = Z.of_nat k.
Hypothesis Hparity : sp_parity_shards placement = Z.of_nat m.
Hypothesis Hplaced : NoDup (map fst (sp_placements placement)).
Hypothesis Hplace : at_place (path_on fs placement idx) P s.
Hypothesis Hok : tree_ok (w_tree w).
Hypothesis Hreach : reach (w_tree w) P.
Hypothesis Hfile : P ++ [s] ∉ t_dirs (w_tree w).
Hypothesis Hside : P ++ [s +:+ ".sha256"] ∉ t_dirs (w_tree w).
(** The other copies found are the shards, and there are [k] of them. *)
Hypothesis Htrue : forall p b, p ∈ sp_placements placement -> fst p <> idx -> found w p = Some b ->
  (0 <= fst p)%Z /\ full !! Z.to_nat (fst p) = Some b.
Hypothesis Henough : k <= length (gathered w idx).

Lemma gathered_true : true_shards full (gathered w idx).
Proof.
  split; [by apply gathered_indices|]. apply Forall_forall. intros [j b] (p & Hp & Hj)%list_elem_of_omap.
  case_decide as D; [done|]. destruct (found w p) as [b'|] eqn:E; [|done]. injection Hj as <- ->.
  apply (Htrue p b); [done|congruence|done].
Qed.

Lemma name_segments : Forall segment (P ++ [s]) /\ Forall segment (P ++ [s +:+ ".sha256"]).
Proof.
  assert (HP : Forall segment P) by (apply (to_names _ Hok); left; by apply Hreach).
  assert (Hseg : forall q u, at_place q P u -> segment u).
  { intros q u Hq. split; [by eapply at_place_no_slash|]. destruct Hq as (l & _ & _ & _ & ? & ?). done. }
  split; apply Forall_app; (split; [done|]); apply Forall_singleton; [by eapply Hseg|eapply Hseg; by apply sidecar_place].
Qed.

Definition healed (shard : bytes) : tree :=
  with_file (with_file (w_tree w) (P ++ [s]) (Raw shard)) (P ++ [s +:+ ".sha256"])
    (Raw (as_bytes (shard_checksum_hex shard +:+ newline))).

Lemma sidecar_apart : P ++ [s] <> P ++ [s +:+ ".sha256"].
Proof.
  intros E%app_inv_head. injection E as E. apply (f_equal (fun s => length (chars s))) in E.
  rewrite chars_app, length_app in E. cbn in E. lia.
Qed.

Lemma heal_ok shard : full !! Z.to_nat idx = Some shard ->
  heal_local_shard fs self peers nodes placement idx w = (with_tree w (healed shard), Ok tt).
Proof.
  intros Hshard. unfold heal_local_shard. rewrite (run_ok _ _ _ _ _ (gather_shards_looks w idx)).
  destruct (full_shards k m n all full) as [_ Hs]; [done..|].
  assert (Hlen : shard_size_from_present (gathered w idx) = n).
  { apply size_of_shards; [intros E; rewrite E in Henough; cbn in Henough; lia|].
    eapply Forall_impl; [apply gathered_true|]. intros p [_ Hp]. exact (Forall_lookup_1 _ _ _ _ Hs Hp). }
  rewrite Hlen, (proj2 (Nat.eqb_neq n 0)) by lia. unfold fail_if. rewrite (run_ok _ _ _ _ _ eq_refl).
  rewrite Hdata, Hparity.
  rewrite (run_lift _ _ _ shard) by (by apply (reconstruct_correct k m n all full Hnew Hn Hall Hsize Hfull _ idx shard gathered_true)).
  rewrite (run_ok _ _ _ _ _ (shard_file_written _ P s Hplace w shard Hok Hreach Hfile)).
  destruct name_segments as [Hseg _].
  rewrite (sidecar_written _ P s Hplace); [done|..].
  - cbn. apply with_file_ok; [done|by destruct P|by rewrite parent_of_snoc|done|done].
  - exact Hreach.
  - exact Hside.
Qed.

Lemma healed_good shard : read_bytes (path_on fs placement idx) (healed shard) = Ok shard /\
  verify_shard_checksum (path_on fs placement idx) shard (with_tree w (healed shard)) = (with_tree w (healed shard), Ok true).
Proof.
  split.
  - rewrite (read_place _ P s Hplace) by done. cbn. rewrite lookup_insert_ne by (intros E; by apply sidecar_apart).
    rewrite lookup_insert_eq. by rewrite file_bytes_raw.
  - apply (recorded_verifies _ P s Hplace); [exact Hreach|]. cbn. apply lookup_insert_eq.
Qed.
End heal.

(** ** The claims *)

(** The shards of an object: [k] of data and [m] of parity, of [n] bytes each. *)
Record codes `{ReedSolomon} (k m n : nat) (full : list bytes) : Prop := {
  cd_new : rs_new k m = Ok tt;
  cd_size : 0 < n;
  cd_data : 0 < k;
  cd_full : exists all, length all = k + m /\ Forall (fun s => length s = n) all /\ rs_encode k m all = Ok full;
}.

Section claims.
Context `{CratesSpec} `{SerdeSpec} `{PeerHttp} `{ReedSolomonSpec}.
Context (fs : FilesystemStorage) (self : string) (peers : gmap Z string) (nodes : option Nodes).

(** C9: the scanner repairs bit rot.  When a shard of this node no longer has the
    checksum recorded for it, at least [k] of the other shards of the object are
    found on this disk, on another node of the process or with a peer, and every
    one of the other shards that is found is undamaged, which the code does not
    verify, then the scan ends well: it counts one shard scanned, damaged and
    healed, the shard is again the one that was lost, bit for bit, its new
    checksum verifies, and no other file has changed.  A shard that has its
    checksum is left as it is. *)
Theorem scan_repairs_bit_rot placement idx k m n full shard b recorded P s w :
  codes k m n full -> sp_data_shards placement = Z.of_nat k -> sp_parity_shards placement = Z.of_nat m ->
  NoDup (map fst (sp_placements placement)) -> full !! Z.to_nat idx = Some shard ->
  at_place (path_on fs placement idx) P s -> tree_ok (w_tree w) ->
  read_bytes (path_on fs placement idx) (w_tree w) = Ok b ->
  read_to_string (checksum_sidecar (path_on fs placement idx)) (w_tree w) = Ok recorded ->
  (shard_checksum_hex b = of_chars (lower (trim recorded)) ->
     scan_shard fs self peers nodes placement idx self w = (w, Ok (mk_BitrotMetrics 1 0 0 0))) /\
  (shard_checksum_hex b <> of_chars (lower (trim recorded)) ->
     (forall p c, p ∈ sp_placements placement -> fst p <> idx -> found fs self peers nodes placement w p = Some c ->
        (0 <= fst p)%Z /\ full !! Z.to_nat (fst p) = Some c) ->
     k <= length (gathered fs self peers nodes placement w idx) ->
     exists w', scan_shard fs self peers nodes placement idx self w = (w', Ok (mk_BitrotMetrics 1 1 1 0)) /\
       read_bytes (path_on fs placement idx) (w_tree w') = Ok shard /\
       verify_shard_checksum (path_on fs placement idx) shard w' = (w', Ok true) /\
       forall l, l <> P ++ [s] -> l <> P ++ [s +:+ ".sha256"] -> t_files (w_tree w') !! l = t_files (w_tree w) !! l).
Proof.
  intros [Hnew Hn Hk (all & Hall & Hsize & Hfull)] Hd Hm Hnd Hshard Hplace Hok Hb Hs.
  destruct (read_place_ok _ P s Hplace _ _ Hb) as [Hreach (c & Hc & _)].
  assert (Hsp : exists c, t_files (w_tree w) !! (P ++ [s +:+ ".sha256"]) = Some c).
  { unfold read_to_string in Hs. cbn in Hs. destruct (read_bytes (checksum_sidecar _) _) as [b'|] eqn:E; [|done].
    apply (read_place_ok _ P _ (sidecar_place _ _ _ Hplace)) in E as [_ (c' & Hc' & _)]. by eexists. }
  assert (Hdir : forall l c, t_files (w_tree w) !! l = Some c -> l ∉ t_dirs (w_tree w)).
  { intros l c' Hl Hd'. apply (to_disjoint _ Hok) in Hd'. congruence. }
  destruct Hsp as [c' Hc'].
  assert (Hverify : verify_shard_checksum (path_on fs placement idx) b w =
                      (w, Ok (bool_decide (shard_checksum_hex b = of_chars (lower (trim recorded)))))).
  { unfold verify_shard_checksum, mbind, M_bind, get_tree. by rewrite Hs. }
  assert (Hscan : scan_shard fs self peers nodes placement idx self w =
    (if bool_decide (shard_checksum_hex b = of_chars (lower (trim recorded))) then mret (mk_BitrotMetrics 1 0 0 0)
     else logged (heal_local_shard fs self peers nodes placement idx) (fun _ => mret (mk_BitrotMetrics 1 1 1 0))
            (mk_BitrotMetrics 1 1 0 1)) w).
  { unfold scan_shard. rewrite decide_False by tauto.
    unfold logged at 1. rewrite (run_ok _ _ w w (Some b)) by (unfold try_ok, on_world, look; by rewrite Hb).
    unfold logged at 1. by rewrite (run_ok _ _ w w (Some _)) by (unfold try_ok, on_world; by rewrite Hverify). }
  rewrite Hscan.
  destruct (decide (shard_checksum_hex b = of_chars (lower (trim recorded)))) as [E|E];
    [rewrite (bool_decide_eq_true_2 _ E)|rewrite (bool_decide_eq_false_2 _ E)]; (split; [done || by intros ?|]); [by intros ?|].
  intros _ Htrue Henough.
  exists (with_tree w (healed P s w shard)). split.
  - unfold logged. erewrite (run_ok _ _ w _ (Some tt)); [done|]. unfold try_ok, on_world.
    rewrite (heal_ok fs self peers nodes placement k m n all full idx P s w) with (shard := shard); eauto.
  - split; [eapply healed_good; eauto|]. split; [eapply healed_good; eauto|].
    intros l H1' H2'. cbn. rewrite !lookup_insert_ne by congruence. done.
Qed.
End claims.

(** ** Runs *)

Module ClusterDemo.
Import Demo.Toys Xor.

(** An object of two shards and one of parity, on three nodes; node 1 is the one
    that scans, the others are reached over HTTP. *)
Definition placement : EcShardPlacement := mk_EcShardPlacement "pets" "cat" 2 1 [(0%Z, "1"); (1%Z, "2"); (2%Z, "3")].
Example round_robin : place_shards "pets" "cat" 2 1 ["1"; "2"; "3"] = Ok placement.
Proof. reflexivity. Qed.
Definition data : list bytes := [as_bytes "meow"; as_bytes "purr"; replicate 4 x00].
Definition shards : list bytes := match rs_encode 2 1 data with Ok full => full | Err _ => [] end.
Definition peers : gmap Z string := {[ 2%Z := "http://s2:9100"; 3%Z := "http://s3:9100/" ]}.
Definition answers (second third : option bytes) : PeerHttp := {| http_get url :=
  if decide (url = "http://s2:9100/internal/shard?bucket=pets&key=cat&index=1") then second
  else if decide (url = "http://s3:9100/internal/shard?bucket=pets&key=cat&index=2") then third
  else None |}.
Definition sound : PeerHttp := answers (shards !! 1) (shards !! 2).
(** The second shard has rotted where it is. *)
Definition rotten : PeerHttp := answers (Some (as_bytes "mew!")) (shards !! 2).

Definition node : FilesystemStorage := demo_storage false.
Definition damaged : world :=
  fst (write_shard_on_node [("1", node)] "1" "pets" "cat" 0 (as_bytes "moow")
    (fst (write_shard [("1", node)] placement 0 (as_bytes "meow") (demo_world (demo_bucket false None None))))).
Definition shard_file : string := path_on node placement 0.
Definition recorded : string := shard_checksum_hex (as_bytes "meow") +:+ newline.

Lemma scan_repairs_bit_rot_witness :
  read_bytes shard_file (w_tree damaged) = Ok (as_bytes "moow") /\
  exists w', scan_shard (H1 := sound) node "1" peers None placement 0 "1" damaged = (w', Ok (mk_BitrotMetrics 1 1 1 0)) /\
    read_bytes shard_file (w_tree w') = Ok (as_bytes "meow").
Proof.
  assert (Hb : read_bytes shard_file (w_tree damaged) = Ok (as_bytes "moow")) by (vm_compute; reflexivity).
  assert (Hr : read_to_string (checksum_sidecar shard_file) (w_tree damaged) = Ok recorded) by (vm_compute; reflexivity).
  split; [exact Hb|].
  destruct (scan_repairs_bit_rot (H3 := sound) node "1" peers None placement 0 2 1 4 shards (as_bytes "meow") (as_bytes "moow") recorded
    ["data"; ".cluster-shards"; "pets"; "cat"] "000000" damaged) as [_ Hs].
  - split; [vm_compute; reflexivity|lia|lia|]. exists data. split; [reflexivity|]. split; [by repeat constructor|vm_compute; reflexivity].
  - reflexivity.
  - reflexivity.
  - apply (bool_decide_unpack _); vm_compute; exact I.
  - vm_compute. reflexivity.
  - exists (split_char "/" "/data/.cluster-shards/pets/cat"). split; [vm_compute; reflexivity|]. split; [vm_compute; reflexivity|].
    split; [apply (bool_decide_unpack _); vm_compute; exact I|]. split; [by intros [?|?]|done].
  - apply tree_okb_ok. vm_compute. reflexivity.
  - exact Hb.
  - exact Hr.
  - destruct Hs as (w' & Hw & Hg & _).
    + vm_compute. discriminate.
    + intros p c Hp Hne Hf. change (p ∈ [(0%Z, "1"); (1%Z, "2"); (2%Z, "3")]) in Hp.
      apply elem_of_cons in Hp as [->|Hp]; [exfalso; apply Hne; reflexivity|].
      apply elem_of_cons in Hp as [->|Hp]; [|apply list_elem_of_singleton in Hp as ->];
        vm_compute in Hf; injection Hf as <-; (split; [by vm_compute|vm_compute; reflexivity]).
    + vm_compute. lia.
    + exists w'. split; [exact Hw|exact Hg].
Defined.

(** Shards are not checked before they are used: when one of the others is
    damaged as well, the scan writes a shard that was never stored, counts it as
    healed, and records a checksum under which no later scan finds anything
    wrong.  The intact shard of parity would have shown it. *)
Theorem healing_trusts_damaged_shards :
  let '(w', r) := scan_shard (H1 := rotten) node "1" peers None placement 0 "1" damaged in
  r = Ok (mk_BitrotMetrics 1 1 1 0) /\
  read_bytes shard_file (w_tree w') <> Ok (as_bytes "meow") /\
  snd (scan_shard (H1 := rotten) node "1" peers None placement 0 "1" w') = Ok (mk_BitrotMetrics 1 0 0 0).
Proof. vm_compute. split; [reflexivity|]. split; [discriminate|reflexivity]. Qed.

(** The first scan of a shard without a checksum takes it for good. *)
Theorem missing_checksum_blesses_damage :
  let w := fst (write_shard_on_node [("1", node)] "1" "pets" "cat" 0 (as_bytes "moow") (demo_world (demo_bucket false None None))) in
  snd (scan_shard (H1 := sound) node "1" peers None placement 0 "1" w) = Ok (mk_BitrotMetrics 1 0 0 0).
Proof. vm_compute. reflexivity. Qed.
End ClusterDemo.
