(* ===== verification/RaftStore.v ===== *)
(** * The Raft store of a storage node

    [maxio-cluster/src/storage/raft_store.rs]: the log, the state machine and the
    snapshots a storage node keeps in memory for openraft, and how a committed
    mutation reaches the disk.  What openraft defines (leader ids, votes,
    memberships) and the JSON of serde are parameters. *)

From stdpp Require Import base list gmap sets sorting numbers strings pretty.
From Stdlib Require Import ZArith Lia Ascii Strings.Byte.
From S2P Require Import Prelude Bytes Reader Types Quota Crypto Keyring MetadataIndex FileSystem Paths World Storage Objects ClusterEc.

Local Open Scope nat_scope.

(** ** What openraft gives *)

Class Openraft : Type := {
  LeaderId : Type;
  leader_to_string : LeaderId -> string;
  Vote : Type;
  Membership : Type;
  default_membership : Membership;
}.

Record LogId `{Openraft} : Type := mk_LogId { lid_leader : LeaderId; lid_index : Z }.
Arguments mk_LogId {_} _ _.

Inductive StorageMutation : Type :=
| CreateBucketMutation (name region : string)
| DeleteBucketMutation (name : string)
| PutShardMap (bucket key : string) (placement : EcShardPlacement).

Inductive EntryPayload `{Openraft} : Type :=
| Blank
| Normal (mutation : StorageMutation)
| MembershipChange (membership : Membership).
Arguments Blank {_}. Arguments Normal {_} _. Arguments MembershipChange {_} _.

Record Entry `{Openraft} : Type := mk_Entry { en_log_id : LogId; en_payload : EntryPayload }.
Arguments mk_Entry {_} _ _.

Record StoredMembership `{Openraft} : Type := mk_StoredMembership { sm_log_id : option LogId; sm_membership : Membership }.
Arguments mk_StoredMembership {_} _ _.

Record SmData `{Openraft} : Type := mk_SmData {
  last_applied_log : option LogId;
  last_membership : StoredMembership;
  buckets : gset string;
  shard_maps : gmap string EcShardPlacement;
}.
Arguments mk_SmData {_} _ _ _ _.

Record SnapshotMeta `{Openraft} : Type := mk_SnapshotMeta {
  sn_last_log_id : option LogId;
  sn_last_membership : StoredMembership;
  sn_snapshot_id : string;
}.
Arguments mk_SnapshotMeta {_} _ _ _.
Record StoredSnapshot `{Openraft} : Type := mk_StoredSnapshot { ss_meta : SnapshotMeta; ss_data : bytes }.
Arguments mk_StoredSnapshot {_} _ _.

(** The JSON of entries and of the state machine. *)
Class RaftJson `{Openraft} : Type := {
  entry_to_json : Entry -> result string string;
  entry_of_json : string -> result string Entry;
  sm_to_json : SmData -> result string bytes;
  sm_of_json : bytes -> result string SmData;
}.
Class RaftJsonSpec `{RaftJson} : Prop := {
  entry_json e : exists s, entry_to_json e = Ok s /\ entry_of_json s = Ok e;
  sm_json sm : exists b, sm_to_json sm = Ok b /\ sm_of_json b = Ok sm;
}.

(** [StorageIOError], by the subject and the operation. *)
Inductive raft_error `{Openraft} : Type :=
| WriteStateMachine (e : StorageError)
| ReadStateMachine (e : string)
| ReadLogs (e : string)
| WriteLogEntry (id : LogId) (e : string)
| ReadSnapshot (e : string).

Record MutationResponse : Type := mk_MutationResponse { mr_ok : bool }.

Section store.
Context `{Openraft} `{!RaftJson}.

Record StorageRaftStore : Type := mk_StorageRaftStore {
  rs_last_purged_log_id : option LogId;
  rs_committed : option LogId;
  rs_log : gmap Z string;
  rs_sm : SmData;
  rs_vote : option Vote;
  rs_snapshot_idx : Z;
  rs_current_snapshot : option StoredSnapshot;
}.
Definition default_sm : SmData := mk_SmData None (mk_StoredMembership None default_membership) ∅ ∅.
Definition new_store : StorageRaftStore := mk_StorageRaftStore None None ∅ default_sm None 0 None.

Definition with_log (s : StorageRaftStore) (log : gmap Z string) : StorageRaftStore :=
  mk_StorageRaftStore (rs_last_purged_log_id s) (rs_committed s) log (rs_sm s) (rs_vote s) (rs_snapshot_idx s) (rs_current_snapshot s).
Definition with_sm (s : StorageRaftStore) (sm : SmData) : StorageRaftStore :=
  mk_StorageRaftStore (rs_last_purged_log_id s) (rs_committed s) (rs_log s) sm (rs_vote s) (rs_snapshot_idx s) (rs_current_snapshot s).
Definition with_purged (s : StorageRaftStore) (id : LogId) : StorageRaftStore :=
  mk_StorageRaftStore (Some id) (rs_committed s) (rs_log s) (rs_sm s) (rs_vote s) (rs_snapshot_idx s) (rs_current_snapshot s).
Definition with_snapshot (s : StorageRaftStore) (idx : Z) (snapshot : StoredSnapshot) : StorageRaftStore :=
  mk_StorageRaftStore (rs_last_purged_log_id s) (rs_committed s) (rs_log s) (rs_sm s) (rs_vote s) idx (Some snapshot).

(** ** The log

    A [BTreeMap], visited by increasing index. *)

Definition index_le (a b : Z * string) : Prop := (fst a <= fst b)%Z.
#[local] Instance index_le_dec a b : Decision (index_le a b).
Proof. unfold index_le. apply _. Defined.
Definition log_in_order (log : gmap Z string) : list (Z * string) := merge_sort index_le (map_to_list log).

Fixpoint parse_entries (l : list (Z * string)) : result raft_error (list Entry) :=
  match l with
  | [] => Ok []
  | (_, serialized) :: l =>
      e ← map_err ReadLogs (entry_of_json serialized);
      rest ← parse_entries l;
      Ok (e :: rest)
  end.
(** The range of a request is the set of its indices. *)
Definition try_get_log_entries (range : Z -> bool) (s : StorageRaftStore) : result raft_error (list Entry) :=
  parse_entries (filter (fun p => range (fst p) = true) (log_in_order (rs_log s))).

Record LogState : Type := mk_LogState { ls_last_purged_log_id : option LogId; ls_last_log_id : option LogId }.
Definition get_log_state (s : StorageRaftStore) : LogState :=
  let last := p ← last (log_in_order (rs_log s));
              match entry_of_json (snd p) with Ok e => Some (en_log_id e) | Err _ => None end in
  mk_LogState (rs_last_purged_log_id s)
    match last with Some id => Some id | None => rs_last_purged_log_id s end.

(** On an error the entries before it stay. *)
Fixpoint append_to_log (entries : list Entry) (s : StorageRaftStore) : StorageRaftStore * result raft_error unit :=
  match entries with
  | [] => (s, Ok tt)
  | e :: entries =>
      match entry_to_json e with
      | Ok json => append_to_log entries (with_log s (<[lid_index (en_log_id e) := json]> (rs_log s)))
      | Err msg => (s, Err (WriteLogEntry (en_log_id e) msg))
      end
  end.
Definition delete_conflict_logs_since (id : LogId) (s : StorageRaftStore) : StorageRaftStore :=
  with_log s (filter (fun '(k, _) => ~ (lid_index id <= k)%Z) (rs_log s)).
Definition purge_logs_upto (id : LogId) (s : StorageRaftStore) : StorageRaftStore :=
  let s := with_purged s id in
  with_log s (filter (fun '(k, _) => ~ (k <= lid_index id)%Z) (rs_log s)).

Definition save_vote (vote : Vote) (s : StorageRaftStore) : StorageRaftStore :=
  mk_StorageRaftStore (rs_last_purged_log_id s) (rs_committed s) (rs_log s) (rs_sm s) (Some vote) (rs_snapshot_idx s) (rs_current_snapshot s).
Definition read_vote (s : StorageRaftStore) : option Vote := rs_vote s.
Definition save_committed (committed : option LogId) (s : StorageRaftStore) : StorageRaftStore :=
  mk_StorageRaftStore (rs_last_purged_log_id s) committed (rs_log s) (rs_sm s) (rs_vote s) (rs_snapshot_idx s) (rs_current_snapshot s).
Definition read_committed (s : StorageRaftStore) : option LogId := rs_committed s.
Definition last_applied_state (s : StorageRaftStore) : option LogId * StoredMembership :=
  (last_applied_log (rs_sm s), last_membership (rs_sm s)).
Definition shard_map (bucket key : string) (s : StorageRaftStore) : option EcShardPlacement :=
  shard_maps (rs_sm s) !! (bucket +:+ "/" +:+ key).
Definition all_shard_maps (s : StorageRaftStore) : list EcShardPlacement := map snd (map_to_list (shard_maps (rs_sm s))).

(** ** Snapshots *)

Definition snapshot_id (last_applied : option LogId) (idx : Z) : string :=
  match last_applied with
  | Some last => leader_to_string (lid_leader last) +:+ "-" +:+ pretty (lid_index last) +:+ "-" +:+ pretty idx
  | None => "--" +:+ pretty idx
  end.
(** The counter is a [u64]; it would take more snapshots than there are to wrap. *)
Definition build_snapshot (s : StorageRaftStore) : StorageRaftStore * result raft_error StoredSnapshot :=
  match sm_to_json (rs_sm s) with
  | Err e => (s, Err (ReadStateMachine e))
  | Ok data =>
      let idx := (rs_snapshot_idx s + 1)%Z in
      let last := last_applied_log (rs_sm s) in
      let snapshot := mk_StoredSnapshot (mk_SnapshotMeta last (last_membership (rs_sm s)) (snapshot_id last idx)) data in
      (with_snapshot s idx snapshot, Ok snapshot)
  end.
Definition install_snapshot (meta : SnapshotMeta) (snapshot : bytes) (s : StorageRaftStore)
    : StorageRaftStore * result raft_error unit :=
  match sm_of_json snapshot with
  | Err e => (s, Err (ReadSnapshot e))
  | Ok sm => (with_snapshot (with_sm s sm) (rs_snapshot_idx s) (mk_StoredSnapshot meta snapshot), Ok tt)
  end.
Definition get_current_snapshot (s : StorageRaftStore) : option StoredSnapshot := rs_current_snapshot s.

(** ** The state machine *)

Context `{Environment} `{Crates} `{Serde} (fs : FilesystemStorage).
(** [Utc::now().to_rfc3339()] at a tick. *)
Variable rfc3339_at : nat -> string.

(** A node: its store and its disk. *)
Definition Node : Type := StorageRaftStore * world.

Definition with_buckets (sm : SmData) (b : gset string) : SmData :=
  mk_SmData (last_applied_log sm) (last_membership sm) b (shard_maps sm).
Definition with_shard_maps (sm : SmData) (m : gmap string EcShardPlacement) : SmData :=
  mk_SmData (last_applied_log sm) (last_membership sm) (buckets sm) m.
Definition with_applied (sm : SmData) (id : LogId) : SmData :=
  mk_SmData (Some id) (last_membership sm) (buckets sm) (shard_maps sm).
Definition with_membership (sm : SmData) (m : StoredMembership) : SmData :=
  mk_SmData (last_applied_log sm) m (buckets sm) (shard_maps sm).

Definition replicated_bucket (name region created_at : string) : BucketMeta :=
  mk_BucketMeta name created_at region false None None false false None None None None None None None false None.

(** An operation on the disk, its error turned into that of the state machine. *)
Definition on_disk {A} (m : M StorageError A) (n : Node) : Node * result raft_error A :=
  let '(w, r) := m (snd n) in ((fst n, w), map_err WriteStateMachine r).
Definition update_sm (f : SmData -> SmData) (n : Node) : Node := (with_sm (fst n) (f (rs_sm (fst n))), snd n).

Definition apply_mutation (mutation : StorageMutation) (n : Node) : Node * result raft_error unit :=
  match mutation with
  | CreateBucketMutation name region =>
      match on_disk (n ← tick; create_bucket fs (replicated_bucket name region (rfc3339_at n))) n with
      | (n, Ok _) => (update_sm (fun sm => with_buckets sm ({[name]} ∪ buckets sm)) n, Ok tt)
      | (n, Err e) => (n, Err e)
      end
  | DeleteBucketMutation name =>
      match on_disk (delete_bucket fs name) n with
      | (n, Ok _) => (update_sm (fun sm => with_buckets sm (buckets sm ∖ {[name]})) n, Ok tt)
      | (n, Err e) => (n, Err e)
      end
  | PutShardMap bucket key placement =>
      (update_sm (fun sm => with_shard_maps sm (<[bucket +:+ "/" +:+ key := placement]> (shard_maps sm))) n, Ok tt)
  end.

Definition apply_entry (e : Entry) (n : Node) : Node * result raft_error unit :=
  let n := update_sm (fun sm => with_applied sm (en_log_id e)) n in
  match en_payload e with
  | Blank => (n, Ok tt)
  | Normal mutation => apply_mutation mutation n
  | MembershipChange mem =>
      (update_sm (fun sm => with_membership sm (mk_StoredMembership (Some (en_log_id e)) mem)) n, Ok tt)
  end.
Fixpoint apply_to_state_machine (entries : list Entry) (n : Node) : Node * result raft_error (list MutationResponse) :=
  match entries with
  | [] => (n, Ok [])
  | e :: entries =>
      match apply_entry e n with
      | (n, Err err) => (n, Err err)
      | (n, Ok _) =>
          match apply_to_state_machine entries n with
          | (n, Ok res) => (n, Ok (mk_MutationResponse true :: res))
          | (n, Err err) => (n, Err err)
          end
      end
  end.
End store.
