(* ===== verification/RaftStoreSpec.v ===== *)
(** * The log is a list, the state machine a function of it

    The store refines the specification openraft works with: a list of entries
    with consecutive indices, of which a front has been purged.  The replicated
    state is the fold of the applied entries, whatever the disk of the node; the
    disk is not part of it, so it is not restored by a snapshot. *)

From stdpp Require Import base list gmap sets sorting numbers strings pretty.
From Stdlib Require Import ZArith Lia Ascii Strings.Byte.
From S2P Require Import Prelude Bytes Reader Types Quota Crypto Keyring MetadataIndex FileSystem Paths World Storage Objects Demo ClusterEc RaftStore.

Local Open Scope nat_scope.

(** ** The log as a list *)

Section log.
Context `{RaftJsonSpec}.

Definition index_of (e : Entry) : Z := lid_index (en_log_id e).

(** [l] are consecutive entries, the first of index [first]. *)
Definition consecutive (first : Z) (l : list Entry) : Prop :=
  forall i e, l !! i = Some e -> index_of e = (first + Z.of_nat i)%Z.

Definition json_of (e : Entry) : string := match entry_to_json e with Ok s => s | Err _ => "" end.
Lemma json_of_ok e : entry_to_json e = Ok (json_of e) /\ entry_of_json (json_of e) = Ok e.
Proof. unfold json_of. destruct (entry_json e) as (s & -> & ?). done. Qed.

(** The log holds [l] from index [first] on; what is before has been purged. *)
Record represents (first : Z) (l : list Entry) (s : StorageRaftStore) : Prop := {
  rp_consecutive : consecutive first l;
  rp_log j : rs_log s !! j = if decide (first <= j)%Z then json_of <$> l !! Z.to_nat (j - first) else None;
}.

(** The pairs of index and JSON, in order. *)
Fixpoint numbered (first : Z) (l : list Entry) : list (Z * string) :=
  match l with [] => [] | e :: l => (first, json_of e) :: numbered (first + 1) l end.

Lemma elem_of_numbered first l j x : (j, x) ∈ numbered first l <->
  (first <= j)%Z /\ json_of <$> l !! Z.to_nat (j - first) = Some x.
Proof.
  revert first. induction l as [|e l IH]; intros first; cbn [numbered].
  - split; [by intros ?%elem_of_nil|]. rewrite lookup_nil. by intros [_ [=]].
  - rewrite elem_of_cons, IH. split.
    + intros [[= -> ->]|[Hj Hx]]; [split; [lia|]; by replace (Z.to_nat (first - first)) with 0 by lia|].
      split; [lia|]. by replace (Z.to_nat (j - first)) with (S (Z.to_nat (j - (first + 1)))) by lia.
    + intros [Hj Hx]. destruct (decide (j = first)) as [->|Hne].
      * left. replace (Z.to_nat (first - first)) with 0 in Hx by lia. cbn in Hx. by injection Hx as ->.
      * right. split; [lia|]. by replace (Z.to_nat (j - first)) with (S (Z.to_nat (j - (first + 1)))) in Hx by lia.
Qed.
Lemma numbered_above first l : Forall (fun p => (first <= fst p)%Z) (numbered first l).
Proof. apply Forall_forall. intros [j x] [Hj _]%elem_of_numbered. done. Qed.
Lemma numbered_NoDup first l : NoDup (numbered first l).
Proof.
  revert first. induction l as [|e l IH]; intros first; cbn; constructor; [|apply IH].
  intros [Hj _]%elem_of_numbered. lia.
Qed.
Lemma numbered_sorted first l : StronglySorted index_le (numbered first l).
Proof.
  revert first. induction l as [|e l IH]; intros first; cbn; constructor; [apply IH|].
  eapply Forall_impl; [apply numbered_above|]. intros p Hp. unfold index_le. cbn in *. lia.
Qed.

#[local] Existing Instance index_le_dec.
#[local] Instance index_le_trans : Transitive index_le.
Proof. intros a b c. unfold index_le. lia. Qed.
#[local] Instance index_le_total : Total index_le.
Proof. intros a b. unfold index_le. lia. Qed.

Lemma in_order_numbered first l s : represents first l s -> log_in_order (rs_log s) = numbered first l.
Proof.
  intros [Hc Hl]. unfold log_in_order. apply (StronglySorted_unique_strong index_le).
  - intros [i x] [j y] Hx Hy Hij Hji. unfold index_le in *. cbn in *. assert (i = j) as -> by lia.
    apply elem_of_numbered in Hy as [Hj Hy]. rewrite merge_sort_Permutation in Hx. apply elem_of_map_to_list in Hx.
    rewrite Hl, decide_True in Hx by done. congruence.
  - apply StronglySorted_merge_sort; apply _.
  - apply numbered_sorted.
  - rewrite merge_sort_Permutation. apply NoDup_Permutation; [apply NoDup_map_to_list|apply numbered_NoDup|].
    intros [j x]. rewrite elem_of_map_to_list, Hl, elem_of_numbered. case_decide; [tauto|]. split; [done|tauto].
Qed.

(** ** What openraft asks for *)

Record log_view : Type := mk_log_view { lv_first : Z; lv_entries : list Entry; lv_purged : option LogId }.

Definition refines (s : StorageRaftStore) (v : log_view) : Prop :=
  represents (lv_first v) (lv_entries v) s /\ rs_last_purged_log_id s = lv_purged v.

Inductive log_op : Type :=
| Append (entries : list Entry)
| DeleteSince (id : LogId)
| PurgeUpto (id : LogId).

(** Appended entries continue the log; a deletion or a purge starts at most one
    before what is there. *)
Definition allowed (v : log_view) (op : log_op) : Prop :=
  match op with
  | Append es => consecutive (lv_first v + Z.of_nat (length (lv_entries v))) es
  | DeleteSince id => (lv_first v <= lid_index id)%Z
  | PurgeUpto id => (lv_first v <= lid_index id + 1)%Z
  end.
Definition spec_op (v : log_view) (op : log_op) : log_view :=
  match op with
  | Append es => mk_log_view (lv_first v) (lv_entries v ++ es) (lv_purged v)
  | DeleteSince id => mk_log_view (lv_first v) (take (Z.to_nat (lid_index id - lv_first v)) (lv_entries v)) (lv_purged v)
  | PurgeUpto id =>
      mk_log_view (lid_index id + 1) (drop (Z.to_nat (lid_index id + 1 - lv_first v)) (lv_entries v)) (Some id)
  end.
Definition run_op (s : StorageRaftStore) (op : log_op) : StorageRaftStore :=
  match op with
  | Append es => fst (append_to_log es s)
  | DeleteSince id => delete_conflict_logs_since id s
  | PurgeUpto id => purge_logs_upto id s
  end.
Fixpoint allowed_all (v : log_view) (ops : list log_op) : Prop :=
  match ops with [] => True | op :: ops => allowed v op /\ allowed_all (spec_op v op) ops end.

Lemma represents_snoc first l e s : represents first l s -> index_of e = (first + Z.of_nat (length l))%Z ->
  represents first (l ++ [e]) (with_log s (<[lid_index (en_log_id e) := json_of e]> (rs_log s))).
Proof.
  intros [Hc Hl] He. fold (index_of e). rewrite He. split.
  - intros i e' [Hi|[Hi Hx]]%lookup_app_Some; [by apply Hc|]. apply list_lookup_singleton_Some in Hx as [Hz <-].
    rewrite He. lia.
  - intros j. cbn [with_log rs_log]. destruct (decide (j = first + Z.of_nat (length l))%Z) as [->|Hne].
    + rewrite lookup_insert_eq, decide_True by lia. replace (Z.to_nat _) with (length l) by lia.
      by rewrite list_lookup_middle.
    + rewrite lookup_insert_ne, Hl by done. case_decide as D; [|done]. f_equal.
      destruct (decide (Z.to_nat (j - first) < length l)) as [Hlt|Hge]; [by rewrite lookup_app_l|].
      rewrite !lookup_ge_None_2; [done|rewrite length_app; cbn; lia|lia].
Qed.

Lemma append_represents es first l s : represents first l s -> consecutive (first + Z.of_nat (length l)) es ->
  represents first (l ++ es) (fst (append_to_log es s)) /\ snd (append_to_log es s) = Ok tt /\
  rs_last_purged_log_id (fst (append_to_log es s)) = rs_last_purged_log_id s.
Proof.
  revert l s. induction es as [|e es IH]; intros l s Hr Hc; [by rewrite app_nil_r|].
  cbn [append_to_log]. destruct (json_of_ok e) as [-> _]. rewrite (cons_middle e l es), app_assoc.
  apply (IH (l ++ [e]) (with_log s (<[lid_index (en_log_id e) := json_of e]> (rs_log s)))); [apply represents_snoc; [done|]|].
  - rewrite (Hc 0 e eq_refl). lia.
  - intros i e' Hi. rewrite length_app. cbn. rewrite (Hc (S i) e' Hi). lia.
Qed.

Lemma lookup_filter_index {A} (P : Z -> Prop) `{!forall k, Decision (P k)} (m : gmap Z A) j :
  filter (fun '(k, _) => P k) m !! j = if decide (P j) then m !! j else None.
Proof.
  rewrite map_lookup_filter. destruct (m !! j) as [x|]; cbn; [|by case_decide].
  destruct (decide (P j)); [by rewrite option_guard_True|by rewrite option_guard_False].
Qed.

Lemma delete_represents id first l s : represents first l s -> (first <= lid_index id)%Z ->
  represents first (take (Z.to_nat (lid_index id - first)) l) (delete_conflict_logs_since id s).
Proof.
  intros [Hc Hl] Hi. split.
  - intros i e [He _]%lookup_take_Some. by apply Hc.
  - intros j. cbn [delete_conflict_logs_since with_log rs_log].
    rewrite (lookup_filter_index (fun k => ~ (lid_index id <= k)%Z)), Hl.
    destruct (decide (first <= j)%Z); [|by case_decide].
    case_decide; [by rewrite lookup_take_lt by lia|by rewrite lookup_take_ge by lia].
Qed.
Lemma purge_represents id first l s : represents first l s -> (first <= lid_index id + 1)%Z ->
  represents (lid_index id + 1) (drop (Z.to_nat (lid_index id + 1 - first)) l) (purge_logs_upto id s).
Proof.
  intros [Hc Hl] Hi. split.
  - intros i e He. rewrite lookup_drop in He. rewrite (Hc _ _ He). lia.
  - intros j. cbn [purge_logs_upto with_purged with_log rs_log].
    rewrite (lookup_filter_index (fun k => ~ (k <= lid_index id)%Z)), Hl, lookup_drop.
    destruct (decide (lid_index id + 1 <= j)%Z); [|by rewrite decide_False by lia].
    rewrite !decide_True by lia. do 2 f_equal. lia.
Qed.

Lemma op_refines s v op : refines s v -> allowed v op -> refines (run_op s op) (spec_op v op).
Proof.
  intros [Hr Hp] Ha. destruct op as [es|id|id]; cbn [run_op spec_op allowed] in *; split; cbn [lv_first lv_entries lv_purged].
  - by apply append_represents.
  - by rewrite <-Hp; apply (append_represents es (lv_first v) (lv_entries v)).
  - by apply delete_represents.
  - done.
  - by apply purge_represents.
  - done.
Qed.

(** ** What it answers *)

Lemma last_numbered first l : last (numbered first l) = (fun e => ((first + Z.of_nat (length l) - 1)%Z, json_of e)) <$> last l.
Proof.
  revert first. induction l as [|e l IH]; intros first; [done|]. cbn [numbered]. destruct l as [|e' l]; cbn [numbered last].
  - cbn. f_equal. f_equal. lia.
  - specialize (IH (first + 1)%Z). cbn [numbered last] in IH. rewrite IH. cbn [length].
    destruct (last (e' :: l)); cbn; [|done]. f_equal. f_equal. lia.
Qed.

Lemma log_state_of s v : refines s v ->
  get_log_state s = mk_LogState (lv_purged v) (match last (lv_entries v) with Some e => Some (en_log_id e) | None => lv_purged v end).
Proof.
  intros [Hr Hp]. unfold get_log_state. rewrite (in_order_numbered _ _ _ Hr), last_numbered, Hp.
  destruct (last (lv_entries v)) as [e|]; cbn; [|done]. by destruct (json_of_ok e) as [_ ->].
Qed.

Lemma parse_numbered range first l : consecutive first l ->
  parse_entries (filter (fun p => range (fst p) = true) (numbered first l)) = Ok (filter (fun e => range (index_of e) = true) l).
Proof.
  revert first. induction l as [|e l IH]; intros first Hc; [done|]. cbn [numbered].
  assert (Hi : index_of e = first) by (rewrite (Hc 0 e eq_refl); lia).
  assert (Hl : consecutive (first + 1) l) by (intros i e' He; rewrite (Hc (S i) e' He); lia).
  rewrite !filter_cons, Hi. cbn [fst]. case_decide; [|by apply IH].
  cbn [parse_entries]. destruct (json_of_ok e) as [_ ->]. cbn [map_err mbind result_bind].
  by rewrite (IH _ Hl).
Qed.

(** C19: the log kept in a map from indices to JSON is the list of entries openraft
    works with: after any sequence of appended entries, deletions of a
    conflicting tail and purges of a front, each as openraft makes them, the log
    state is the id of the last entry (of the last one purged, when none is left)
    and a range of indices reads back exactly the entries of that range, in
    order, as they were appended. *)
Theorem log_store_refines_list ops s v : refines s v -> allowed_all v ops ->
  let s' := fold_left run_op ops s in
  let v' := fold_left spec_op ops v in
  get_log_state s' = mk_LogState (lv_purged v') (match last (lv_entries v') with Some e => Some (en_log_id e) | None => lv_purged v' end) /\
  forall range, try_get_log_entries range s' = Ok (filter (fun e => range (index_of e) = true) (lv_entries v')).
Proof.
  intros Hr Ha. cbv zeta.
  assert (Hfin : refines (fold_left run_op ops s) (fold_left spec_op ops v)).
  { revert s v Hr Ha. induction ops as [|op ops IH]; intros s v Hr Ha; [done|]. destruct Ha as [Ha Hs].
    apply (IH (run_op s op) (spec_op v op)); [by apply op_refines|done]. }
  split; [by apply log_state_of|]. intros range. unfold try_get_log_entries.
  destruct Hfin as [Hf _]. rewrite (in_order_numbered _ _ _ Hf). apply parse_numbered. apply Hf.
Qed.
End log.

(** ** The state machine *)

Section state_machine.
Context `{RaftJsonSpec} `{Environment} `{Crates} `{Serde}.

(** What an entry does to the replicated state. *)
Definition spec_mutation (sm : SmData) (m : StorageMutation) : SmData :=
  match m with
  | CreateBucketMutation name _ => with_buckets sm ({[name]} ∪ buckets sm)
  | DeleteBucketMutation name => with_buckets sm (buckets sm ∖ {[name]})
  | PutShardMap bucket key placement => with_shard_maps sm (<[bucket +:+ "/" +:+ key := placement]> (shard_maps sm))
  end.
Definition spec_entry (sm : SmData) (e : Entry) : SmData :=
  let sm := with_applied sm (en_log_id e) in
  match en_payload e with
  | Blank => sm
  | Normal m => spec_mutation sm m
  | MembershipChange mem => with_membership sm (mk_StoredMembership (Some (en_log_id e)) mem)
  end.

Lemma on_disk_store {A} (m : M StorageError A) (n : Node) : fst (fst (on_disk m n)) = fst n.
Proof. unfold on_disk. by destruct (m (snd n)). Qed.

Lemma apply_entry_spec fs clock e n n' : apply_entry fs clock e n = (n', Ok tt) -> rs_sm (fst n') = spec_entry (rs_sm (fst n)) e.
Proof.
  unfold apply_entry, spec_entry. destruct (en_payload e) as [|m|mem]; [by intros [= <-]| |by intros [= <-]].
  destruct m as [name region|name|bucket key placement]; cbn [apply_mutation]; [| |by intros [= <-]];
    match goal with |- context [on_disk ?m ?n] => pose proof (on_disk_store m n) as Hs; destruct (on_disk m n) as [n1 [b|err]] end;
    cbn in Hs; intros E; simplify_eq/=; by rewrite Hs.
Qed.

Lemma apply_spec fs clock entries n n' res : apply_to_state_machine fs clock entries n = (n', Ok res) ->
  rs_sm (fst n') = fold_left spec_entry entries (rs_sm (fst n)) /\ res = replicate (length entries) (mk_MutationResponse true).
Proof.
  revert n res. induction entries as [|e entries IH]; intros n res; cbn [apply_to_state_machine]; [by intros [= <- <-]|].
  destruct (apply_entry fs clock e n) as [n1 [[]|err]] eqn:E1; [|done]. apply apply_entry_spec in E1.
  destruct (apply_to_state_machine fs clock entries n1) as [n2 [res2|err]] eqn:E2; [|done]. intros [= <- <-].
  apply IH in E2 as [-> ->]. cbn. by rewrite E1.
Qed.

(** C10: replicas agree.  A node that applies the committed entries one after the
    other, and a node on any other disk, with any other clock, that installs the
    snapshot the first one built after a prefix and applies the rest, end with
    the same replicated state: the same buckets and placements of shards, last
    applied entry and membership. *)
Theorem replicas_agree fs clock fs' clock' prefix rest n n1 res1 s1 snapshot n2 res2 m m1 m2 res3 :
  apply_to_state_machine fs clock prefix n = (n1, Ok res1) ->
  build_snapshot (fst n1) = (s1, Ok snapshot) ->
  apply_to_state_machine fs clock rest (s1, snd n1) = (n2, Ok res2) ->
  install_snapshot (ss_meta snapshot) (ss_data snapshot) (fst m) = (m1, Ok tt) ->
  apply_to_state_machine fs' clock' rest (m1, snd m) = (m2, Ok res3) ->
  rs_sm (fst m2) = rs_sm (fst n2) /\ rs_sm (fst m2) = fold_left spec_entry (prefix ++ rest) (rs_sm (fst n)) /\
  res2 = res3.
Proof.
  intros [E1 _]%apply_spec Hb [E2 ->]%apply_spec Hi [E3 ->]%apply_spec. cbn [fst snd] in *.
  unfold build_snapshot in Hb. destruct (sm_json (rs_sm (fst n1))) as (b & Hj & Hp). rewrite Hj in Hb. injection Hb as <- <-.
  unfold install_snapshot in Hi. cbn [ss_data] in Hi. rewrite Hp in Hi. injection Hi as <-. cbn [with_snapshot with_sm rs_sm] in *.
  rewrite E2, E3, E1, fold_left_app. done.
Qed.
End state_machine.

(** ** Runs *)

Module RaftDemo.
Import Demo.Toys.

(** Leaders are numbered, memberships are lists of nodes, and JSON is the code of
    a countable type, in binary. *)
#[export] Instance toy_raft : Openraft := {|
  LeaderId := nat; leader_to_string n := pretty n; Vote := unit; Membership := list nat; default_membership := []
|}.
Fixpoint digits (p : positive) : list ascii :=
  match p with xH => [] | xO p => "0"%char :: digits p | xI p => "1"%char :: digits p end.
Fixpoint undigits (l : list ascii) : positive :=
  match l with [] => xH | c :: l => if decide (c = "0"%char) then xO (undigits l) else xI (undigits l) end.
Lemma undigits_digits p : undigits (digits p) = p.
Proof. induction p as [p IH|p IH|]; cbn; by rewrite ?IH. Qed.

#[local] Instance placement_eq : EqDecision EcShardPlacement.
Proof. solve_decision. Defined.
#[local] Instance placement_countable : Countable EcShardPlacement.
Proof.
  refine (inj_countable' (fun p => (sp_bucket p, sp_key p, sp_data_shards p, sp_parity_shards p, sp_placements p))
    (fun '(b, k, d, m, l) => mk_EcShardPlacement b k d m l) _). by intros [].
Defined.
#[local] Instance mutation_eq : EqDecision StorageMutation.
Proof. solve_decision. Defined.
#[local] Instance mutation_countable : Countable StorageMutation.
Proof.
  refine (inj_countable'
    (fun m => match m with
              | CreateBucketMutation n r => inl (inl (n, r))
              | DeleteBucketMutation n => inl (inr n)
              | PutShardMap b k p => inr (b, k, p)
              end)
    (fun x => match x with
              | inl (inl (n, r)) => CreateBucketMutation n r
              | inl (inr n) => DeleteBucketMutation n
              | inr (b, k, p) => PutShardMap b k p
              end) _). by intros [].
Defined.
#[local] Instance log_id_eq : EqDecision LogId.
Proof. intros [a i] [b j]. destruct (decide ((a : nat, i) = (b : nat, j))) as [E|E]; [left; by injection E as -> ->|right; congruence]. Defined.
#[local] Instance log_id_countable : Countable LogId.
Proof. refine (inj_countable' (fun x => (lid_leader x : nat, lid_index x)) (fun '(a, i) => mk_LogId a i) _). by intros []. Defined.
Definition entry_code (e : Entry) : nat * Z * (unit + StorageMutation + list nat) :=
  (lid_leader (en_log_id e), lid_index (en_log_id e),
   match en_payload e with Blank => inl (inl tt) | Normal m => inl (inr m) | MembershipChange m => inr m end).
Definition entry_of_code (x : nat * Z * (unit + StorageMutation + list nat)) : Entry :=
  let '(a, i, p) := x in
  mk_Entry (mk_LogId a i) match p with inl (inl _) => Blank | inl (inr m) => Normal m | inr m => MembershipChange m end.
Definition sm_code (sm : SmData) : option LogId * option LogId * list nat * gset string * gmap string EcShardPlacement :=
  (last_applied_log sm, sm_log_id (last_membership sm), sm_membership (last_membership sm), buckets sm, shard_maps sm).
Definition sm_of_code (x : option LogId * option LogId * list nat * gset string * gmap string EcShardPlacement) : SmData :=
  let '(a, i, m, b, s) := x in mk_SmData a (mk_StoredMembership i m) b s.
#[export] Instance toy_raft_json : RaftJson := {|
  entry_to_json e := Ok (of_chars (digits (encode (entry_code e))));
  entry_of_json s := ok_or (entry_of_code <$> decode (undigits (chars s))) "not an entry";
  sm_to_json sm := Ok (as_bytes (of_chars (digits (encode (sm_code sm)))));
  sm_of_json b := ok_or (sm_of_code <$> decode (undigits (chars (String.string_of_list_byte b)))) "not a state machine"
|}.
#[export] Instance toy_raft_json_spec : RaftJsonSpec.
Proof.
  split.
  - intros [[a i] p]. eexists. split; [reflexivity|]. cbn [entry_of_json toy_raft_json].
    rewrite chars_of_chars, undigits_digits, decode_encode. cbn. by destruct p.
  - intros [a [i m] b s]. eexists. split; [reflexivity|]. cbn [sm_of_json toy_raft_json]. unfold as_bytes.
    rewrite String.string_of_list_byte_of_string, chars_of_chars, undigits_digits, decode_encode. done.
Qed.

Definition id_at (term : nat) (i : Z) : LogId := @mk_LogId toy_raft term i.
Definition entry (i : Z) (m : StorageMutation) : Entry := mk_Entry (id_at 1 i) (Normal m).
Definition create_logs : Entry := entry 1 (CreateBucketMutation "logs" "eu").
Definition delete_pets : Entry := entry 2 (DeleteBucketMutation "pets").
Definition create_cats : Entry := entry 3 (CreateBucketMutation "cats" "eu").
Definition conflict : Entry := mk_Entry (id_at 0 2) Blank.
Definition clock (n : nat) : string := "t" +:+ pretty n.
Definition disk : FilesystemStorage := demo_storage false.
Definition empty_bucket : world := demo_world (demo_bucket false None None).

Lemma log_store_refines_list_witness :
  let s := fold_left run_op [Append [create_logs; conflict]; DeleteSince (id_at 0 2); Append [delete_pets; create_cats];
                             PurgeUpto (id_at 1 1)] new_store in
  try_get_log_entries (fun i => (2 <=? i)%Z) s = Ok [delete_pets; create_cats].
Proof.
  cbv zeta. destruct (log_store_refines_list [Append [create_logs; conflict]; DeleteSince (id_at 0 2);
    Append [delete_pets; create_cats]; PurgeUpto (id_at 1 1)] new_store (mk_log_view 1 [] None)) as [_ Hr].
  - split; [|done]. split; [by intros i e|]. intros j. cbn. by case_decide.
  - cbn [allowed_all allowed spec_op lv_first lv_entries lv_purged]. split_and!; try done.
    + intros [|[|i]] e He; cbn in He; try discriminate He; injection He as <-; reflexivity.
    + intros [|[|i]] e He; cbn in He; try discriminate He; injection He as <-; reflexivity.
  - exact (Hr (fun i => (2 <=? i)%Z)).
Defined.

Definition first_node : Node := (new_store, empty_bucket).
Definition after_two : Node := fst (apply_to_state_machine disk clock [create_logs; delete_pets] first_node).
Definition built : StorageRaftStore * result raft_error StoredSnapshot := build_snapshot (fst after_two).
Definition snapshot_built : StoredSnapshot := match snd built with Ok s => s | Err _ => mk_StoredSnapshot (mk_SnapshotMeta None (mk_StoredMembership None []) "") [] end.
Definition second_node : Node := (new_store, empty_bucket).
Definition installed : StorageRaftStore := fst (install_snapshot (ss_meta snapshot_built) (ss_data snapshot_built) (fst second_node)).

Lemma replicas_agree_witness :
  rs_sm (fst (fst (apply_to_state_machine disk clock [create_cats] (installed, snd second_node)))) =
  fold_left spec_entry [create_logs; delete_pets; create_cats] default_sm.
Proof.
  destruct (apply_to_state_machine disk clock [create_logs; delete_pets] first_node) as [n1 [res1|e]] eqn:E1; [|exfalso; vm_compute in E1; discriminate].
  assert (N1 : after_two = n1) by (unfold after_two; by rewrite E1).
  assert (B : build_snapshot (fst n1) = (fst built, Ok snapshot_built)) by (rewrite <-N1; vm_compute; reflexivity).
  destruct (apply_to_state_machine disk clock [create_cats] (fst built, snd n1)) as [n2 [res2|e]] eqn:E2; [|exfalso; rewrite <-N1 in E2; vm_compute in E2; discriminate].
  destruct (apply_to_state_machine disk clock [create_cats] (installed, snd second_node)) as [m2 [res3|e]] eqn:E3; [|exfalso; vm_compute in E3; discriminate].
  assert (I : install_snapshot (ss_meta snapshot_built) (ss_data snapshot_built) (fst second_node) = (installed, Ok tt)) by (vm_compute; reflexivity).
  destruct (replicas_agree disk clock disk clock [create_logs; delete_pets] [create_cats] first_node n1 res1 (fst built) snapshot_built n2 res2
    second_node installed m2 res3 E1 B E2 I E3) as (_ & H & _). exact H.
Defined.

(** The disk is not part of a snapshot: the node that installed it believes in a
    bucket its disk does not have, and still has the one that was deleted. *)
Theorem snapshot_leaves_disk_behind :
  (bool_decide ("logs" ∈ buckets (rs_sm installed)) = true /\ snd (head_bucket disk "logs" (snd second_node)) = Ok false) /\
  (bool_decide ("pets" ∈ buckets (rs_sm installed)) = false /\ snd (head_bucket disk "pets" (snd second_node)) = Ok true).
Proof. split; split; vm_compute; reflexivity. Qed.

(** A committed deletion stops the state machine of the nodes whose bucket still
    holds an object, and goes through on the others. *)
Theorem committed_deletion_diverges :
  let holding := fst (put_object disk "pets" "cat" "text/plain" (body_of "meow") None None None empty_bucket) in
  is_ok (snd (apply_to_state_machine disk clock [delete_pets] (new_store, empty_bucket))) = true /\
  is_ok (snd (apply_to_state_machine disk clock [delete_pets] (new_store, holding))) = false.
Proof. cbv zeta. split; vm_compute; reflexivity. Qed.
End RaftDemo.
