(* ===== verification/ClusterRouting.v ===== *)
(** * Routing of a cluster

    [maxio-cluster/src/routing.rs], [client.rs], [server/mod.rs],
    [storage/api.rs] and the routing snapshot of the server
    ([maxio-server/src/cluster.rs], [cluster_sync.rs]): who the storage nodes are,
    whether enough of them answer, and which of them takes a mutation.  What the
    nodes answer over HTTP is a parameter. *)

From stdpp Require Import base list gmap sets numbers strings pretty.
From Stdlib Require Import ZArith Lia Ascii Strings.Byte.
From S2P Require Import Prelude Bytes Reader Crypto Types Quota Keyring MetadataIndex FileSystem Paths World ClusterEc RaftStore.

Local Open Scope nat_scope.

Record StorageRaftStatus : Type := mk_StorageRaftStatus {
  rst_node_id : Z;
  rst_advertise_addr : string;
  rst_current_leader : option Z;
  rst_is_leader : bool;
  rst_quorum_ok : bool;
  rst_commit_lag : Z;
}.
Record StoragePeerRef : Type := mk_StoragePeerRef { pr_node_id : string; pr_status_url : string }.
Record StorageEndpoint : Type := mk_StorageEndpoint { se_node_id : string; se_addr : string; se_is_leader : bool }.
Record RoutingSnapshot : Type := mk_RoutingSnapshot {
  rt_epoch : Z;
  rt_storage_endpoints : list StorageEndpoint;
  rt_storage_quorum_ok : bool;
  rt_credential_epoch : Z;
}.

(** A successful answer with a body that parses, within the time limit. *)
Class RaftHttp : Type := {
  get_status : string -> option StorageRaftStatus;
  post_propose : string -> StorageMutation -> option MutationResponse;
}.

(** ** Peers *)

Definition list_entries (raw : string) : list string := filter (fun s => s <> "") (map trim (split_char "," raw)).
Definition status_path : string := "/internal/raft/status".
Definition peer_of (part : string) : result string StoragePeerRef :=
  match (match split_once "@" part with Some x => Some x | None => split_once "=" part end) with
  | None => Err ("invalid storage peer entry: " +:+ part)
  | Some (id, rest) =>
      Ok (mk_StoragePeerRef id
            (if starts_with rest "http://" || starts_with rest "https://" then trim_end_slashes rest +:+ status_path
             else "http://" +:+ rest +:+ status_path))
  end.
Definition parse_storage_peers (raw : string) : result string (list StoragePeerRef) :=
  fold_result (fun out part => p ← peer_of part; Ok (out ++ [p])) [] (list_entries raw).

(** The message of the number parser is left out. *)
Definition parse_raft_peer_urls (raw : string) : result string (gmap Z string) :=
  fold_result (fun out part =>
      '(id, url) ← ok_or (split_once "=" part) ("invalid raft peer URL entry: " +:+ part);
      id ← ok_or (parse_uint u64_max id) "invalid digit found in string";
      Ok (<[id := trim_end_slashes url]> out)) ∅ (list_entries raw).

Section http.
Context `{RaftHttp}.

(** ** The routing snapshot *)

Record polled : Type := mk_polled { po_endpoints : list StorageEndpoint; po_leader : option Z; po_ok_count : nat }.
Definition poll (acc : polled) (peer : StoragePeerRef) : polled :=
  match get_status (pr_status_url peer) with
  | Some status =>
      mk_polled (po_endpoints acc ++ [mk_StorageEndpoint (pr_node_id peer) (rst_advertise_addr status) (rst_is_leader status)])
        (if rst_is_leader status then Some (rst_node_id status)
         else match po_leader acc with Some l => Some l | None => rst_current_leader status end)
        (S (po_ok_count acc))
  | None => mk_polled (po_endpoints acc ++ [mk_StorageEndpoint (pr_node_id peer) "" false]) (po_leader acc) (po_ok_count acc)
  end.
Definition poll_all (peers : list StoragePeerRef) : polled := fold_left poll peers (mk_polled [] None 0).
Definition fetch_routing_snapshot (peers : list StoragePeerRef) : RoutingSnapshot :=
  let p := poll_all peers in
  mk_RoutingSnapshot 0 (po_endpoints p)
    (negb (bool_decide (peers = [])) && (length peers <? po_ok_count p * 2) && bool_decide (is_Some (po_leader p))) 0.

(** ** The client of the Raft leader *)

(** [str::replace]. *)
Fixpoint replace_fuel (fuel : nat) (pattern by_ s : string) : string :=
  match fuel with
  | 0 => s
  | S fuel =>
      match strip_prefix pattern s with
      | Some rest => by_ +:+ replace_fuel fuel pattern by_ rest
      | None => match s with "" => "" | String c s => String c (replace_fuel fuel pattern by_ s) end
      end
  end.
Definition propose_url_from_status (status_url : string) : string :=
  replace_fuel (S (String.length status_url)) status_path "/internal/raft/propose" status_url.

(** The nodes that answered, and the first leader announced. *)
Fixpoint ask_peers (peers : list StoragePeerRef) (leader_id : option Z) (by_node_id : list (StoragePeerRef * StorageRaftStatus))
    : StoragePeerRef + option Z * list (StoragePeerRef * StorageRaftStatus) :=
  match peers with
  | [] => inr (leader_id, by_node_id)
  | peer :: peers =>
      match get_status (pr_status_url peer) with
      | None => ask_peers peers leader_id by_node_id
      | Some status =>
          if rst_is_leader status then inl peer
          else ask_peers peers (match leader_id with Some l => Some l | None => rst_current_leader status end)
                 (by_node_id ++ [(peer, status)])
      end
  end.
Definition find_leader_propose_url (peers : list StoragePeerRef) : result string string :=
  let none : result string string :=
    Err ("no storage raft leader found among " +:+ pretty (length peers) +:+ " peer(s)") in
  match ask_peers peers None [] with
  | inl peer => Ok (propose_url_from_status (pr_status_url peer))
  | inr (None, _) => none
  | inr (Some lid, by_node_id) =>
      match find (fun x => (rst_node_id (snd x) =? lid)%Z) by_node_id with
      | Some (peer, _) => Ok (propose_url_from_status (pr_status_url peer))
      | None =>
          match find (fun peer => bool_decide (pr_node_id peer = pretty lid)) peers with
          | Some peer => Ok (propose_url_from_status (pr_status_url peer))
          | None => none
          end
      end
  end.
(** The text of a transport error is left out. *)
Definition propose (peers : list StoragePeerRef) (mutation : StorageMutation) : result string MutationResponse :=
  url ← find_leader_propose_url peers;
  ok_or (post_propose url mutation) "storage raft propose failed".

(** ** The snapshot of the server *)

Definition empty_routing : RoutingSnapshot := mk_RoutingSnapshot 0 [] false 0.
Definition saturating_succ (n : Z) : Z := Z.min (n + 1) u64_max.
(** [ServerCluster::publish]. *)
Definition publish (endpoints : list StorageEndpoint) (quorum_ok : bool) (snap : RoutingSnapshot) : RoutingSnapshot :=
  mk_RoutingSnapshot (saturating_succ (rt_epoch snap)) endpoints quorum_ok (rt_credential_epoch snap).
(** One round of [run_cluster_sync] on the [ClusterState] of the server; without
    peers there is no round. *)
Definition sync_round (storage_endpoints : string) (snap : RoutingSnapshot) : option RoutingSnapshot :=
  match parse_storage_peers storage_endpoints with
  | Ok (_ :: _ as peers) =>
      let fetched := fetch_routing_snapshot peers in
      Some (mk_RoutingSnapshot (saturating_succ (rt_epoch snap)) (rt_storage_endpoints fetched)
              (rt_storage_quorum_ok fetched) (rt_credential_epoch fetched))
  | _ => None
  end.
Definition storage_quorum_ok (snap : RoutingSnapshot) : bool := rt_storage_quorum_ok snap.
Definition routing_epoch (snap : RoutingSnapshot) : Z := rt_epoch snap.
End http.

(** ** The status of a node

    What openraft reports: the leader it knows, the last index of its log and
    the last applied one. *)
Record RaftMetrics : Type := mk_RaftMetrics { mt_current_leader : option Z; mt_last_log_index : option Z; mt_last_applied : option Z }.
Definition commit_lag (m : RaftMetrics) : Z :=
  match mt_last_log_index m, mt_last_applied m with
  | Some last, Some applied => Z.max 0 (last - applied)
  | _, _ => 0
  end.
Definition raft_status (node_id : Z) (advertise_addr : string) (m : RaftMetrics) : StorageRaftStatus :=
  mk_StorageRaftStatus node_id advertise_addr (mt_current_leader m)
    (bool_decide (mt_current_leader m = Some node_id)) (bool_decide (is_Some (mt_current_leader m))) (commit_lag m).
Definition raft_readyz (m : RaftMetrics) : Z := if mt_current_leader m then 200 else 503.

(** ** What a snapshot says *)

Section snapshot.
Context `{RaftHttp}.

Definition answering (peers : list StoragePeerRef) : list StoragePeerRef := filter (fun p => is_Some (get_status (pr_status_url p))) peers.

(** A node that answers is the leader, or names one. *)
Definition leader_known (peers : list StoragePeerRef) : Prop :=
  exists p status, p ∈ peers /\ get_status (pr_status_url p) = Some status /\
    (rst_is_leader status = true \/ is_Some (rst_current_leader status)).

Lemma leader_after (is_leader : bool) (id : Z) (known named : option Z) :
  is_Some (if is_leader then Some id else match known with Some l => Some l | None => named end) <->
  is_Some known \/ is_leader = true \/ is_Some named.
Proof.
  destruct is_leader; [split; [by right; left|by eexists]|]. destruct known as [l|]; [split; [by left|by eexists]|].
  split; [by right; right|]. intros [[]|[|]]; done.
Qed.

Lemma poll_spec peers acc :
  map se_node_id (po_endpoints (fold_left poll peers acc)) = map se_node_id (po_endpoints acc) ++ map pr_node_id peers /\
  po_ok_count (fold_left poll peers acc) = po_ok_count acc + length (answering peers) /\
  (is_Some (po_leader (fold_left poll peers acc)) <-> is_Some (po_leader acc) \/ leader_known peers).
Proof.
  revert acc. induction peers as [|p peers IH]; intros acc; cbn [fold_left].
  - split_and!; [by rewrite app_nil_r|cbn; lia|]. split; [by left|]. intros [?|(p & st & Hp & _)]; [done|by apply elem_of_nil in Hp].
  - destruct (IH (poll acc p)) as (He & Hc & Hl). rewrite He, Hc, Hl. unfold poll, answering. rewrite filter_cons.
    assert (Hcons : leader_known (p :: peers) <->
      (exists st, get_status (pr_status_url p) = Some st /\ (rst_is_leader st = true \/ is_Some (rst_current_leader st))) \/ leader_known peers).
    { split.
      - intros (q & st & [->|Hq]%elem_of_cons & Hst & Hd); [left; by exists st|right; by exists q, st].
      - intros [(st & Hst & Hd)|(q & st & Hq & Hst & Hd)]; [exists p, st; split; [by left|done]|exists q, st; split; [by right|done]]. }
    rewrite Hcons. destruct (get_status (pr_status_url p)) as [st|]; cbn [po_endpoints po_ok_count po_leader map se_node_id].
    + rewrite decide_True by by eexists. split_and!; [by rewrite map_app, <-app_assoc|cbn; lia|].
      pose proof (leader_after (rst_is_leader st) (rst_node_id st) (po_leader acc) (rst_current_leader st)) as Hd. rewrite Hd.
      split; [intros [[?|?]|?]; [by left|right; left; by exists st|by right; right]|].
      intros [?|[(? & [= <-] & ?)|?]]; [by left; left|by left; right|by right].
    + rewrite decide_False by by intros []. split_and!; [by rewrite map_app, <-app_assoc|done|].
      split; [intros [?|?]; auto|intros [?|[(? & ? & _)|?]]; auto]. done.
Qed.

(** A server reports the storage ready exactly when strictly more than half of
    the configured nodes answer and one of those that answer is the leader or
    names one; the snapshot lists every configured node, in order. *)
Theorem quorum_is_a_majority_that_knows_a_leader peers :
  map se_node_id (rt_storage_endpoints (fetch_routing_snapshot peers)) = map pr_node_id peers /\
  (rt_storage_quorum_ok (fetch_routing_snapshot peers) = true <->
     length peers < 2 * length (answering peers) /\ leader_known peers).
Proof.
  destruct (poll_spec peers (mk_polled [] None 0)) as (He & Hc & Hl). fold (poll_all peers) in *.
  unfold fetch_routing_snapshot. cbn [rt_storage_endpoints rt_storage_quorum_ok]. split; [exact He|].
  rewrite !andb_true_iff, negb_true_iff, bool_decide_eq_false, bool_decide_eq_true, Nat.ltb_lt, Hc, Hl. cbn [po_ok_count po_leader].
  split; [intros ((_ & ?) & [Hx|?]); [by destruct Hx|split; [lia|done]]|]. intros (Hm & Hk). split; [split|by right]; [|lia].
  intros ->. destruct Hk as (p & _ & Hp & _). by apply elem_of_nil in Hp.
Qed.
End snapshot.

(** The leader that makes a snapshot ready need not be there: here one node of
    three is down, the other two answer that they have no quorum, and one of them
    still names the node that is down. *)
Module RoutingDemo.
Definition peers : list StoragePeerRef :=
  match parse_storage_peers "1@s1:9100, 2=http://s2:9100/,3@s3:9100" with Ok l => l | Err _ => [] end.
Definition down : RaftHttp := {|
  get_status url :=
    if decide (url = "http://s1:9100/internal/raft/status") then Some (raft_status 1 "s1:9100" (mk_RaftMetrics None (Some 4%Z) (Some 4%Z)))
    else if decide (url = "http://s2:9100/internal/raft/status") then Some (raft_status 2 "s2:9100" (mk_RaftMetrics (Some 3%Z) (Some 4%Z) (Some 2%Z)))
    else None;
  post_propose url m := None
|}.
Theorem ready_without_a_leader :
  rt_storage_quorum_ok (fetch_routing_snapshot (H := down) peers) = true /\
  map (fun p => rst_is_leader <$> get_status (RaftHttp := down) (pr_status_url p)) peers = [Some false; Some false; None] /\
  find_leader_propose_url (H := down) peers = Ok "http://s3:9100/internal/raft/propose".
Proof. split_and!; vm_compute; reflexivity. Qed.
End RoutingDemo.
