(* ===== verification/AccessLog.v ===== *)
(** * Delivery of the access log

    [maxio-storage/src/filesystem/access_logging.rs] and
    [maxio-server/src/access_log.rs]: what the log records of a request, the
    line it becomes, and its delivery as the last line of an object of the
    target bucket.  [finish_access_log] hands the record to a task of its own:
    the deliveries of two requests may overlap, and a delivery is its two
    halves. *)

From stdpp Require Import base list gmap numbers strings pretty.
From Stdlib Require Import ZArith Lia Ascii Strings.Byte.
From S2P Require Import Prelude IpAddr Glob Policy Bytes Reader Utf8 Types Quota Crypto ErasureCode ChunkReader MetadataIndex FileSystem Paths World Keyring TreeOk Storage BucketConfig Sidecar Publish Objects Listing ApiError ListApi Http Signature RateLimit Tenant Gate Demo.

Local Open Scope nat_scope.

(** ** The record of a request *)

Record AccessLogEntry : Type := mk_AccessLogEntry {
  al_timestamp : string; al_source_bucket : string; al_remote_ip : string; al_requester : string;
  al_request_id : string; al_operation : string; al_key : string; al_request_uri : string;
  al_http_status : Z; al_error_code : string; al_bytes_sent : Z; al_object_size : Z;
  al_total_time_ms : Z; al_user_agent : string }.

Definition format_line (e : AccessLogEntry) : string :=
  join_with " "
    [al_source_bucket e; al_timestamp e; al_remote_ip e; al_requester e; al_request_id e; al_operation e; al_key e;
     al_request_uri e; pretty (al_http_status e); al_error_code e; pretty (al_bytes_sent e); pretty (al_object_size e);
     pretty (al_total_time_ms e); al_user_agent e] +:+ newline.

(** [to_rfc3339] of the time of a tick, and the URI of a request as it is printed. *)
Class LogClock : Type := { timestamp_at : nat -> string; uri_text : Request -> string }.

Definition rest_operations : list (string * (string * string)) :=
  map (fun m => (m, ("REST." +:+ m +:+ ".OBJECT", "REST." +:+ m +:+ ".BUCKET"))) ["PUT"; "GET"; "HEAD"; "DELETE"; "POST"].
(** The bucket is the first piece of the path, also of a virtual-hosted request. *)
Definition parse_s3_target (method path : string) : option string * option string * string :=
  let path := trim_start_slashes path in
  if decide (path = "") then (None, None, "ListBuckets")
  else
    let segments := split_char "/" path in
    let key := match tail segments with [] => None | rest => Some (join_with "/" rest) end in
    let operation := match list_find (fun o => fst o = method) rest_operations with
                     | Some (_, (_, (object_op, bucket_op))) => match key with Some _ => object_op | None => bucket_op end
                     | None => "REST." +:+ method
                     end in
    (head segments, key, operation).

Record AccessLogCapture : Type := mk_AccessLogCapture {
  ac_started : Z; ac_uri : string; ac_client_ip : string; ac_user_agent : string; ac_request_id : string;
  ac_principal : string; ac_bucket : option string; ac_key : option string; ac_operation : string }.

Section capture.
Context `{Process} `{LogClock}.

Definition begin_access_log (proxies : TrustedProxies) (n : nat) (r : Request) : AccessLogCapture :=
  let '(bucket, key, operation) := parse_s3_target (rq_method r) (rq_path r) in
  mk_AccessLogCapture (instant n) (uri_text r) (client_ip_from_request proxies r)
    (default "-" (header (rq_headers r) "user-agent")) (default "-" (header (rq_headers r) "x-request-id"))
    (default "-" (rq_principal r)) bucket key operation.

(** The record of a response with a status and headers, if the path names a bucket. *)
Definition finish_access_log (c : AccessLogCapture) (status : Z) (h : HeaderMap) (n : nat) : option AccessLogEntry :=
  bucket ← ac_bucket c;
  Some (mk_AccessLogEntry (timestamp_at n) bucket (ac_client_ip c) (ac_principal c) (ac_request_id c) (ac_operation c)
    (default "" (ac_key c)) (ac_uri c) status (if (400 <=? status)%Z then "Error" else "-")
    (default 0%Z (value ← header h "content-length"; parse_uint u64_max value)) 0
    (((instant n - ac_started c) / 1000000) mod 2 ^ 64)%Z (ac_user_agent c)).
End capture.

(** ** Delivery *)

Section delivery.
Context `{Environment} `{Crates} `{Serde} (st : FilesystemStorage).

Definition log_key (source_bucket prefix date : string) : string :=
  let name := source_bucket +:+ "/" +:+ date +:+ ".log" in
  if decide (prefix = "") then name
  else (if ends_with prefix "/" then prefix else prefix +:+ "/") +:+ name.

(** The first half: where the line goes, and what is there already. *)
Definition read_log (e : AccessLogEntry) : M StorageError (option (string * string * bytes)) :=
  meta ← read_bucket_meta st (al_source_bucket e);
  match bm_logging_target_bucket meta with
  | None => mret None
  | Some target_bucket =>
      if decide (target_bucket = al_source_bucket e) then mret None
      else
        n ← tick;
        let key := log_key (al_source_bucket e) (default "" (bm_logging_target_prefix meta)) (today n) in
        let obj_path := object_path st target_bucket key in
        _ ← create_parent obj_path;
        t ← get_tree;
        existing ← lift (match fs_read t obj_path with
                         | Ok c => Ok (file_bytes c)
                         | Err err => if decide (io_error_kind err = NotFound) then Ok [] else Err (Io err)
                         end);
        mret (Some (target_bucket, key, existing))
  end.

Definition log_meta (key : string) (data : bytes) (now : string) : ObjectMeta :=
  new_meta key (length data) (etag_of data) "text/plain" now None None (None, None) None.
(** The second half: the object with its new line, then its sidecar. *)
Definition write_log (e : AccessLogEntry) (found : option (string * string * bytes)) : M StorageError unit :=
  match found with
  | None => mret tt
  | Some (target_bucket, key, existing) =>
      let data := existing ++ as_bytes (format_line e) in
      _ ← call (fun t => fs_write t (object_path st target_bucket key) (Raw data));
      n ← tick;
      let path := meta_path st target_bucket key in
      _ ← create_parent path;
      call (fun t => fs_write t path (ObjectJson (log_meta key data (now_string n))))
  end.
Definition deliver_access_log (e : AccessLogEntry) : M StorageError unit := found ← read_log e; write_log e found.

(** The deliveries of a list of records, one after the other. *)
Fixpoint deliver_all (l : list AccessLogEntry) : M StorageError unit :=
  match l with [] => mret tt | e :: l => _ ← deliver_access_log e; deliver_all l end.
End delivery.

(** ** The lines of a day *)

Section lines.
Context `{EnvironmentSpec} `{Crates} `{SerdeSpec} (st : FilesystemStorage).
Context (source target prefix date : string) (P : location) (s : string).
Abbreviation key := (log_key source prefix date).
Abbreviation payload := (P ++ [s]).
Abbreviation sidecar := (P ++ [s +:+ ".meta.json"]).
Hypothesis Hst : storage_ok st.
Hypothesis Hsource : validate_bucket_name source = Ok tt.
Hypothesis Hdiffer : target <> source.
Hypothesis op_place : at_place (object_path st target key) P s.
Hypothesis mp_place : at_place (meta_path st target key) P (s +:+ ".meta.json").
Hypothesis elsewhere : P <> bucket_location st source.

(** The directory of the log is there, and the bucket logs to it. *)
Record log_ready (w : world) : Prop := {
  lr_tree : tree_ok (w_tree w);
  lr_reach : reach (w_tree w) P;
  lr_payload : payload ∉ t_dirs (w_tree w);
  lr_sidecar : sidecar ∉ t_dirs (w_tree w);
  lr_source : exists meta, read_bucket_meta st source w = (w, Ok meta) /\
    bm_logging_target_bucket meta = Some target /\ default "" (bm_logging_target_prefix meta) = prefix;
}.
Definition logged (w : world) : bytes := match t_files (w_tree w) !! payload with Some c => file_bytes c | None => [] end.

Lemma names_differ : sidecar <> payload.
Proof.
  intros E. apply app_inj_2 in E as [_ [= E]]; [|done]. apply (f_equal (fun s => length (chars s))) in E.
  rewrite chars_app, length_app in E. cbn in E. lia.
Qed.
(** The state after a delivery. *)
Definition log_written (w : world) (data : bytes) : world :=
  mk_world (with_file (with_file (w_tree w) payload (Raw data)) sidecar
              (ObjectJson (log_meta key data (now_string (S (w_tick w)))))) (w_index w) (S (S (w_tick w))).

Lemma source_record_elsewhere w w' : t_dirs (w_tree w') = t_dirs (w_tree w) ->
  (forall l, l <> payload -> l <> sidecar -> t_files (w_tree w') !! l = t_files (w_tree w) !! l) ->
  forall meta, read_bucket_meta st source w = (w, Ok meta) -> read_bucket_meta st source w' = (w', Ok meta).
Proof.
  intros Hd Hf meta. unfold read_bucket_meta. rewrite !(run_lift _ _ _ _ Hsource). unfold read_json, fs_read, resolve.
  pose proof (bucket_meta_place st source Hst Hsource) as Hp. apply at_place_names in Hp as [Hp Hn].
  assert (Hw : forall cur l, walk (w_tree w) cur l = walk (w_tree w') cur l \/ exists e, walk (w_tree w) cur l = Err e).
  { intros cur l. revert cur. induction l as [|c l IH]; intros cur; cbn [walk]; [by left|]. rewrite Hd.
    case_decide; [|right; by case_decide; eexists]. repeat case_decide; apply IH. }
  destruct (Hw [] (split_char "/" (bucket_meta_path st source))) as [<-|[e ->]]; [|done].
  destruct (walk _ _ _) as [l|e] eqn:El; [|done]. apply (walk_names _ [] _ _ Hp) in El. fold (names (bucket_meta_path st source)) in El.
  rewrite Hn in El. cbn in El. subst l. cbn. rewrite Hf.
  - rewrite Hd. destruct (t_files (w_tree w) !! _) as [c|]; [|by case_decide]. intros [= E]. by rewrite E.
  - intros E. by apply app_inj_2 in E as [? _].
  - intros E. by apply app_inj_2 in E as [? _].
Qed.

Lemma log_written_ready w data : log_ready w -> log_ready (log_written w data) /\ logged (log_written w data) = data.
Proof.
  intros [Hok Hr Hp Hs (meta & Hm & Ht & Hpre)]. split; [split|].
  - cbn. eapply with_place_ok; [by eapply with_place_ok|exact mp_place|done|done].
  - done.
  - done.
  - done.
  - exists meta. split; [|done]. apply (source_record_elsewhere w); [done| |done].
    intros l Hl1 Hl2. cbn. by rewrite !lookup_insert_ne.
  - unfold logged. cbn. rewrite lookup_insert_ne by apply names_differ. rewrite lookup_insert_eq. apply file_bytes_raw.
Qed.

Lemma create_parent_stays path t w : at_place path P t -> tree_ok (w_tree w) -> reach (w_tree w) P ->
  create_parent path w = (w, Ok tt).
Proof.
  intros Ha Hok Hr. pose proof (create_parent_there path P t w Hok Ha Hr) as Hc. unfold create_parent, call.
  destruct (path_parent path); [|by destruct w]. rewrite Hc. by destruct w.
Qed.

Lemma delivered w e : log_ready w -> al_source_bucket e = source -> today (w_tick w) = date ->
  deliver_access_log st e w = (log_written w (logged w ++ as_bytes (format_line e)), Ok tt).
Proof.
  intros [Hok Hr Hp Hs (meta & Hm & Ht & Hpre)] He Hd. unfold deliver_access_log, read_log.
  assert (Hread : forall f, (read_bucket_meta st source ≫= f) w = (f meta w : world * result StorageError (option (string * string * bytes))))
    by (intros f; by apply run_ok).
  unfold mbind at 1, M_bind at 1. rewrite He, Hread, Ht, decide_False, Hpre by done.
  set (w1 := mk_world (w_tree w) (w_index w) (S (w_tick w))).
  rewrite (run_ok _ _ w w1 (w_tick w) eq_refl), Hd. rewrite (run_ok _ _ w1 w1 tt) by (by eapply create_parent_stays).
  rewrite (run_ok _ _ w1 w1 (w_tree w) eq_refl).
  assert (Hf : fs_read (w_tree w) (object_path st target key) = match t_files (w_tree w) !! payload with Some c => Ok c | None => Err enoent end).
  { unfold fs_read. rewrite (resolve_place _ _ _ _ op_place Hr). cbn. destruct (t_files _ !! _); [done|]. by rewrite decide_False. }
  rewrite Hf. rewrite (run_ok _ _ w1 w1 (logged w)) by (unfold logged; by destruct (t_files _ !! _)).
  unfold mret, M_ret, write_log. set (data := logged w ++ _). unfold mbind, M_bind, call, tick.
  change (w_tree w1) with (w_tree w). rewrite (fs_write_there _ _ P s) by done. cbn [map_err with_tree w_tree w_index w_tick w1].
  set (w2 := mk_world _ _ _). rewrite (create_parent_stays _ (s +:+ ".meta.json") w2 mp_place) by (done || by eapply with_place_ok).
  rewrite (fs_write_there _ _ P (s +:+ ".meta.json")) by done. done.
Qed.

(** C35: the log object of a day holds what it held, then the line of every record
    that was delivered, in order and none lost, as long as deliveries do not
    overlap; and its sidecar tells the size and the digest of all of it. *)
Theorem log_keeps_every_line l w : log_ready w -> Forall (fun e => al_source_bucket e = source) l ->
  (forall i, i < 2 * length l -> today (w_tick w + i) = date) ->
  exists w', deliver_all st l w = (w', Ok tt) /\ log_ready w' /\
    logged w' = logged w ++ concat (map (fun e => as_bytes (format_line e)) l) /\
    (l <> [] -> exists now, t_files (w_tree w') !! sidecar = Some (ObjectJson (log_meta key (logged w') now))) /\
    (forall k, k <> payload -> k <> sidecar -> t_files (w_tree w') !! k = t_files (w_tree w) !! k).
Proof.
  revert w. induction l as [|e l IH]; intros w Hw Hl Hd.
  { exists w. split_and!; [done|done|by rewrite app_nil_r|done|done]. }
  apply Forall_cons in Hl as [He Hl]. cbn [length] in Hd.
  pose proof (delivered w e Hw He) as Hrun. rewrite <-(Nat.add_0_r (w_tick w)) in Hrun at 1. specialize (Hrun (Hd 0 ltac:(lia))).
  set (w1 := log_written w _) in Hrun. destruct (log_written_ready w (logged w ++ as_bytes (format_line e)) Hw) as [Hw1 Hlog]. fold w1 in Hw1, Hlog.
  destruct (IH w1 Hw1 Hl) as (w' & Hall & Hw' & Hlog' & Hside & Hrest).
  { intros i Hi. replace (w_tick w1 + i) with (w_tick w + S (S i)) by (cbn; lia). apply Hd. lia. }
  exists w'. split_and!.
  - cbn [deliver_all]. by rewrite (run_ok _ _ _ _ _ Hrun).
  - done.
  - rewrite Hlog', Hlog. cbn [map concat]. by rewrite <-app_assoc.
  - intros _. destruct l as [|e' l']; [|by apply Hside]. cbn in Hall. injection Hall as <-. rewrite Hlog.
    eexists. cbn. by rewrite lookup_insert_eq.
  - intros k Hk1 Hk2. rewrite Hrest by done. cbn. by rewrite !lookup_insert_ne.
Qed.
End lines.

(** ** Runs *)

Module LogDemo.
Import Demo.Toys.

Definition logging_bucket (prefix : option string) : BucketMeta :=
  mk_BucketMeta "photos" "t" "us-east-1" false None None false false None None None (Some "north") (Some "logs") prefix None false None.
Definition other_bucket (name tenant : string) : BucketMeta :=
  mk_BucketMeta name "t" "us-east-1" false None None false false None None None (Some tenant) None None None false None.
Definition buckets (prefix : option string) : world :=
  mk_world
    (mk_tree {[ ["data"; "buckets"; "photos"; ".bucket.json"] := BucketJson (logging_bucket prefix);
                ["data"; "buckets"; "logs"; ".bucket.json"] := BucketJson (other_bucket "logs" "north");
                ["data"; "buckets"; "vault"; ".bucket.json"] := BucketJson (other_bucket "vault" "south") ]}
       {[ []; ["data"]; ["data"; "buckets"]; ["data"; "buckets"; "photos"]; ["data"; "buckets"; "logs"];
          ["data"; "buckets"; "logs"; "photos"]; ["data"; "buckets"; "vault"] ]})
    (Some ∅) 1.
Definition seen (key : string) : AccessLogEntry :=
  mk_AccessLogEntry "t" "photos" "10.0.0.1" "alice" "-" "REST.GET.OBJECT" key ("/photos/" +:+ key) 200 "-" 4 0 1 "-".
Definition day_log : location := ["data"; "buckets"; "logs"; "photos"; "2026-01-01.log"].

Lemma buckets_ready : log_ready (demo_storage false) "photos" "logs" "" ["data"; "buckets"; "logs"; "photos"] "2026-01-01.log" (buckets None).
Proof.
  split.
  - apply tree_okb_ok. vm_compute. reflexivity.
  - intros d Hd. apply (bool_decide_unpack _). destruct Hd as [k Hk].
    repeat (destruct d as [|? d]; [vm_compute; exact I|cbn in Hk; injection Hk as <- Hk]). destruct d; [vm_compute; exact I|discriminate Hk].
  - apply (bool_decide_unpack _). vm_compute. exact I.
  - apply (bool_decide_unpack _). vm_compute. exact I.
  - exists (logging_bucket None). split; [|done]. vm_compute. reflexivity.
Qed.

(** Two deliveries to a log that is not there yet. *)
Lemma log_keeps_every_line_witness :
  match deliver_all (demo_storage false) [seen "cat"; seen "dog"] (buckets None) with
  | (w', Ok _) => logged ["data"; "buckets"; "logs"; "photos"] "2026-01-01.log" w' =
      concat (map (fun e => as_bytes (format_line e)) [seen "cat"; seen "dog"]) /\
      match snd (Objects.get_object (demo_storage false) "logs" "photos/2026-01-01.log" None w') with
      | Ok (stream, meta) => om_size meta = Z.of_nat (length (logged ["data"; "buckets"; "logs"; "photos"] "2026-01-01.log" w'))
      | Err _ => False
      end
  | _ => False
  end.
Proof.
  destruct (log_keeps_every_line (demo_storage false) "photos" "logs" "" "2026-01-01" ["data"; "buckets"; "logs"; "photos"] "2026-01-01.log"
    (demo_storage_ok false) eq_refl ltac:(done)
    ltac:(exists [""; "data"; "buckets"; "logs"; "photos"]; split_and!; [vm_compute; reflexivity|vm_compute; reflexivity|apply (bool_decide_unpack _); vm_compute; exact I|by intros [?|?]|done])
    ltac:(exists [""; "data"; "buckets"; "logs"; "photos"]; split_and!; [vm_compute; reflexivity|vm_compute; reflexivity|apply (bool_decide_unpack _); vm_compute; exact I|by intros [?|?]|done])
    ltac:(apply (bool_decide_unpack _); vm_compute; exact I) [seen "cat"; seen "dog"] (buckets None) buckets_ready
    ltac:(by repeat constructor) ltac:(done)) as (w' & Hrun & _ & Hlog & _).
  rewrite Hrun. split.
  - rewrite Hlog. vm_compute. reflexivity.
  - assert (w' = fst (deliver_all (demo_storage false) [seen "cat"; seen "dog"] (buckets None))) as -> by (by rewrite Hrun).
    vm_compute. reflexivity.
Defined.

(** Two requests at once: both deliveries read the log before either writes it,
    and the line of the first is lost. *)
Example concurrent_deliveries_lose_lines :
  let st := demo_storage false in
  match (a ← read_log st (seen "cat"); b ← read_log st (seen "dog"); _ ← write_log st (seen "cat") a; write_log st (seen "dog") b) (buckets None) with
  | (w', Ok _) => logged ["data"; "buckets"; "logs"; "photos"] "2026-01-01.log" w' = as_bytes (format_line (seen "dog"))
  | _ => False
  end.
Proof. vm_compute. reflexivity. Qed.

(** The log is an object that can be read, but the index is not told: it is in no
    listing. *)
Example log_object_is_not_listed :
  let w := fst (deliver_access_log (demo_storage false) (seen "cat") (buckets None)) in
  is_ok (snd (Objects.head_object (demo_storage false) "logs" "photos/2026-01-01.log" w)) = true /\
  snd (Listing.list_objects (demo_storage false) "logs" "" w) = Ok [] /\
  is_ok (snd (Listing.list_objects_walk (demo_storage false) "logs" "" w)) = true.
Proof. vm_compute. split_and!; reflexivity. Qed.

(** The prefix is taken as it is: the settings accept one that leads to the
    bucket of another tenant, and the log is written there. *)
Example log_prefix_leaves_the_bucket :
  let st := demo_storage false in
  match (_ ← BucketConfig.put_bucket_logging st "photos" "logs" "../vault/"; deliver_access_log st (seen "cat")) (buckets None) with
  | (w', Ok _) => is_ok (snd (Objects.head_object st "vault" "photos/2026-01-01.log" w')) = true /\
                  is_err (snd (Objects.head_object st "logs" "photos/2026-01-01.log" w')) = true
  | _ => False
  end.
Proof. vm_compute. split; reflexivity. Qed.

(** A virtual-hosted request is taken for one on the bucket its key starts with. *)
Example virtual_host_is_not_logged :
  parse_s3_target "GET" "/holiday/cat.jpg" = (Some "holiday", Some "cat.jpg", "REST.GET.OBJECT") /\
  parse_s3_target "PATCH" "/photos" = (Some "photos", None, "REST.PATCH") /\ parse_s3_target "GET" "//" = (None, None, "ListBuckets").
Proof. vm_compute. split_and!; reflexivity. Qed.
End LogDemo.
