(* ===== verification/ConsoleAuth.v ===== *)
(** * Sessions of the console

    [auth/console_session.rs]: the cookie that the console hands out after a login
    with an access key, and whom a cookie stands for; [auth/keycloak.rs]: the
    access tokens of the identity provider, checked against its published keys.
    What Keycloak answers over HTTP and the crate that opens a token are
    parameters. *)

From stdpp Require Import base list gmap numbers strings pretty.
From Stdlib Require Import ZArith Lia Ascii Strings.Byte.
From S2P Require Import Prelude IpAddr Glob Policy Bytes Reader Types Quota Crypto MetadataIndex FileSystem Paths World Keyring Storage Sidecar Http Signature RateLimit Tenant.

Local Open Scope nat_scope.

(** ** JSON *)

Inductive Json : Type :=
| JNull
| JBool (b : bool)
| JNumber (n : Z)
| JString (s : string)
| JArray (l : list Json)
| JObject (fields : list (string * Json)).

(** [Value::get], [Value::as_str]. *)
Definition json_get (key : string) (v : Json) : option Json :=
  match v with
  | JObject fields => snd <$> find (fun f => bool_decide (fst f = key)) fields
  | _ => None
  end.
Definition json_str (v : Json) : option string := match v with JString s => Some s | _ => None end.

(** ** Numbers in base 16 *)

(** [format!("{:x}", n)] of an [i64]. *)
Fixpoint hex_digits (fuel : nat) (n : Z) (l : list ascii) : list ascii :=
  match fuel with
  | O => l
  | S fuel =>
      let l := hex_digit (n mod 16) :: l in
      if (n / 16 =? 0)%Z then l else hex_digits fuel (n / 16) l
  end.
Definition lower_hex (n : Z) : string := of_chars (hex_digits 16 (n mod 2 ^ 64) []).

(** [i64::from_str_radix(s, 16)]. *)
Definition i64_of_hex (s : string) : option Z :=
  match chars s with
  | [] => None
  | "+"%char :: [] | "-"%char :: [] => None
  | "+"%char :: l => parse_digits 16 (2 ^ 63 - 1) 0 l
  | "-"%char :: l => Z.opp <$> parse_digits 16 (2 ^ 63) 0 l
  | l => parse_digits 16 (2 ^ 63 - 1) 0 l
  end.
Definition wrap_i64 (n : Z) : Z := (n + 2 ^ 63) mod 2 ^ 64 - 2 ^ 63.

(** ** Cookies of an access key *)

Section session.
Context `{Crates}.

Definition TOKEN_MAX_AGE_SECS : Z := 7 * 24 * 60 * 60.

Definition session_fingerprint (access_key secret_key : string) : string :=
  hex_encode (take 4 (sha256 (as_bytes access_key ++ as_bytes ":" ++ as_bytes secret_key))).

Definition session_signature (access_key secret_key issued_hex fp : string) : string :=
  hex_encode (hmac_sha256 (as_bytes secret_key) (as_bytes (access_key +:+ ":" +:+ issued_hex +:+ ":" +:+ fp))).

Definition generate_session_token (access_key secret_key : string) (issued_at : Z) : string :=
  let issued_hex := lower_hex issued_at in
  let fp := session_fingerprint access_key secret_key in
  issued_hex +:+ "." +:+ session_signature access_key secret_key issued_hex fp +:+ "." +:+ fp.

(** A subtraction of [i64] wraps in a release build. *)
Definition verify_session_token (now : Z) (token access_key secret_key : string) : bool :=
  match split_char "." token with
  | [issued_hex; signature; fp] =>
      if negb (constant_time_eq (as_bytes fp) (as_bytes (session_fingerprint access_key secret_key))) then false
      else
        match i64_of_hex issued_hex with
        | None => false
        | Some issued_at =>
            if ((TOKEN_MAX_AGE_SECS <? wrap_i64 (now - issued_at)) || (now + 60 <? issued_at))%Z then false
            else constant_time_eq (as_bytes signature) (as_bytes (session_signature access_key secret_key issued_hex fp))
        end
  | _ => false
  end.

Definition lookup_by_session_fingerprint (credentials : CredentialStore) (fp : string) : option CredentialEntry :=
  find (fun cred => bool_decide (session_fingerprint (ce_access_key cred) (ce_secret_key cred) = fp))
    (omap (lookup_credential credentials) (list_access_keys credentials)).

Definition resolve_legacy_console_access_key (now : Z) (credentials : CredentialStore) (token : string) : option string :=
  fp ← split_char "." token !! 2;
  cred ← lookup_by_session_fingerprint credentials fp;
  if verify_session_token now token (ce_access_key cred) (ce_secret_key cred) then Some (ce_access_key cred) else None.
End session.

Definition is_ascii_hexdigit (c : ascii) : bool := bool_decide (is_Some (to_digit 16 c)).
Definition is_legacy_console_session (token : string) : bool :=
  match split_char "." token with
  | [issued_hex; _; fp] =>
      forallb is_ascii_hexdigit (chars issued_hex) && negb (bool_decide (issued_hex = ""))
      && (String.length fp =? 8) && forallb is_ascii_hexdigit (chars fp)
  | _ => false
  end.

Definition bucket_from_console_path (path : string) : option string :=
  match split_char "/" (trim_start_slashes path) with
  | first :: bucket :: _ => if decide (first <> "buckets" \/ bucket = "") then None else Some bucket
  | _ => None
  end.

(** ** Keycloak *)

Record KeycloakTokenResponse : Type := mk_KeycloakTokenResponse {
  kt_access_token : string; kt_expires_in : Z; kt_refresh_expires_in : Z;
  kt_refresh_token : string; kt_token_type : string; kt_scope : string }.
Record KeycloakSettings : Type := mk_KeycloakSettings {
  ks_base_url : string; ks_realm : string; ks_client_id : string; ks_client_secret : option string;
  ks_skip_tls_verify : bool; ks_jwks_url : option string; ks_issuer : option string }.
Record KeycloakClaims : Type := mk_KeycloakClaims { kc_subject : string; kc_preferred_username : option string }.
Inductive KeycloakError : Type :=
| InvalidCredentials
| Unreachable (msg : string)
| TokenEndpoint (msg : string)
| InvalidToken (msg : string)
| NotConfigured.

Definition issuer_url (s : KeycloakSettings) : string :=
  match ks_issuer s with Some url => url | None => ks_base_url s +:+ "/realms/" +:+ ks_realm s end.
Definition jwks_uri (s : KeycloakSettings) : string :=
  match ks_jwks_url s with Some url => url | None => issuer_url s +:+ "/protocol/openid-connect/certs" end.
Definition token_url (s : KeycloakSettings) : string := issuer_url s +:+ "/protocol/openid-connect/token".

Record JwkKey : Type := mk_JwkKey { jk_kid : string; jk_kty : string; jk_n : string; jk_e : string }.

(** The requests of a tick: the status and body of a POST of a form, and the
    status and keys of a GET, or the error of the client; a status with its reason; the tokens of a body.
    The crate [jsonwebtoken]: the keys made of two numbers, the [kid] of a
    token, and its claims when it is signed with RS256 under the key, not
    expired and from the issuer. *)
Class KeycloakHttp : Type := {
  post_form : nat -> string -> list (string * string) -> result string (Z * string);
  get_keys : nat -> string -> result string (Z * result string (list JwkKey));
  status_display : Z -> string;
  parse_token_response : string -> result string KeycloakTokenResponse;
  DecodingKey : Type;
  from_rsa_components : string -> string -> option DecodingKey;
  decode_header : string -> result string (option string);
  decode_claims : nat -> string -> DecodingKey -> string -> result string Json;
}.

Section keycloak.
Context `{KeycloakHttp} (settings : KeycloakSettings).

Definition is_success (status : Z) : bool := ((200 <=? status) && (status <=? 299))%Z.

Definition post_token (n : nat) (form : list (string * string)) : result KeycloakError KeycloakTokenResponse :=
  '(status, body) ← map_err Unreachable (post_form n (token_url settings) form);
  if (status =? 401)%Z then Err InvalidCredentials
  else if negb (is_success status) then Err (TokenEndpoint (trim body))
  else map_err (fun e => TokenEndpoint ("decode response: " +:+ e)) (parse_token_response body).

Definition with_client_secret (form : list (string * string)) : list (string * string) :=
  form ++ match ks_client_secret settings with Some s => [("client_secret", s)] | None => [] end.
Definition password_login (n : nat) (username password : string) : result KeycloakError KeycloakTokenResponse :=
  post_token n (with_client_secret
    [("grant_type", "password"); ("client_id", ks_client_id settings); ("username", username); ("password", password)]).
Definition refresh (n : nat) (refresh_token : string) : result KeycloakError KeycloakTokenResponse :=
  post_token n (with_client_secret
    [("grant_type", "refresh_token"); ("client_id", ks_client_id settings); ("refresh_token", refresh_token)]).

(** The keys of the provider, replaced as a whole by every fetch. *)
Definition refresh_jwks (n : nat) : result KeycloakError (gmap string DecodingKey) :=
  '(status, body) ← map_err (fun e => Unreachable ("fetch jwks: " +:+ e)) (get_keys n (jwks_uri settings));
  if negb (is_success status) then Err (Unreachable ("jwks status " +:+ status_display status))
  else
    l ← map_err (fun e => Unreachable ("decode jwks: " +:+ e)) body;
    Ok (fold_left (fun keys key =>
          if decide (jk_kty key <> "RSA") then keys
          else match from_rsa_components (jk_n key) (jk_e key) with
               | Some k => <[jk_kid key := k]> keys
               | None => keys
               end) l ∅).

(** The cache and the key; an unknown [kid] makes the keys be fetched. *)
Definition decoding_key_for_kid (n : nat) (kid : string) (cache : gmap string DecodingKey)
    : gmap string DecodingKey * result KeycloakError DecodingKey :=
  match cache !! kid with
  | Some key => (cache, Ok key)
  | None =>
      match refresh_jwks n with
      | Err e => (cache, Err e)
      | Ok cache => (cache, ok_or (cache !! kid) (InvalidToken ("unknown kid " +:+ kid)))
      end
  end.

Definition client_authorized (claims : Json) : bool :=
  let client_id := ks_client_id settings in
  if bool_decide ((azp ← json_get "azp" claims; json_str azp) = Some client_id) then true
  else
    match json_get "aud" claims with
    | Some (JString aud) => bool_decide (aud = client_id)
    | Some (JArray items) => existsb (fun aud => bool_decide (aud = client_id)) (omap json_str items)
    | _ => false
    end.

Definition claims_of (claims : Json) : result KeycloakError KeycloakClaims :=
  if negb (client_authorized claims) then Err (InvalidToken "token not issued for this client")
  else Ok (mk_KeycloakClaims (default "" (sub ← json_get "sub" claims; json_str sub))
             (name ← json_get "preferred_username" claims; json_str name)).
Definition token_kid (token : string) : result KeycloakError string :=
  if decide (token = "") then Err (InvalidToken "empty token")
  else
    kid ← map_err (fun e => InvalidToken ("header: " +:+ e)) (decode_header token);
    ok_or kid (InvalidToken "missing kid").
Definition validate_access_token (n : nat) (token : string) (cache : gmap string DecodingKey)
    : gmap string DecodingKey * result KeycloakError KeycloakClaims :=
  match token_kid token with
  | Err e => (cache, Err e)
  | Ok kid =>
      match decoding_key_for_kid n kid cache with
      | (cache, Err e) => (cache, Err e)
      | (cache, Ok key) =>
          (cache, claims ← map_err InvalidToken (decode_claims n token key (issuer_url settings)); claims_of claims)
      end
  end.
End keycloak.
