(* ===== verification/Console.v ===== *)
(** * The API of the web console

    [maxio-server/src/api/console.rs]: logins and their cookies, the gates in
    front of the protected requests (session, tenant, origin), the handlers of
    buckets, objects and versions, presigned links, and the router.  A handler
    runs on the state of the console: the server, the limiter of logins and the
    keys of the identity provider.  The audit layer is in [AuditLog]. *)

From stdpp Require Import base list gmap sorting numbers strings pretty.
From Stdlib Require Import ZArith Lia Ascii Strings.Byte.
From S2P Require Import Prelude IpAddr Glob Policy Bytes Reader Utf8 Types Quota Crypto ErasureCode ChunkReader MetadataIndex FileSystem Paths World Keyring Storage BucketConfig Sidecar Publish Objects Versions Listing ApiError ListApi Events Http Signature RateLimit Tenant Gate Multipart HttpBody Headers ObjectApi BucketApi ConsoleAuth.

Local Open Scope nat_scope.

(** ** Replies *)

Inductive ReplyBody : Type := EmptyBody | JsonBody (v : Json) | StreamBody (s : ByteStream).
Record Reply : Type := mk_Reply { re_status : Z; re_headers : list (string * string); re_body : ReplyBody }.

Definition json_reply (status : Z) (v : Json) : Reply := mk_Reply status [("content-type", "application/json")] (JsonBody v).
Definition error_reply (status : Z) (msg : string) : Reply := json_reply status (JObject [("error", JString msg)]).
Definition ok_reply : Reply := json_reply 200 (JObject [("ok", JBool true)]).
(** [HeaderMap::insert]: every value of the name is replaced. *)
Definition insert_header (name value : string) (l : list (string * string)) : list (string * string) :=
  filter (fun p => fst p <> name) l ++ [(name, value)].
Definition with_headers (l : list (string * string)) (r : Reply) : Reply :=
  mk_Reply (re_status r) (re_headers r ++ l) (re_body r).

(** What [HeaderValue] takes: from a text that is parsed, and from bytes. *)
Definition header_text (s : string) : bool :=
  forallb (fun c => (code c =? 9) || ((32 <=? code c) && (code c <? 127)))%Z (chars s).
Definition header_bytes (s : string) : bool :=
  forallb (fun c => (code c =? 9) || ((32 <=? code c) && negb (code c =? 127)))%Z (chars s).

(** ** The state of the console *)

(** The part of [Config] only the console reads. *)
Record ConsoleApp : Type := mk_ConsoleApp {
  ca_app : AppState; ca_allow_insecure_dev : bool; ca_secure_cookies : bool;
  ca_keycloak : option KeycloakSettings; ca_keycloak_console_access_key : string }.

Record ConsoleState `{KeycloakHttp} : Type := mk_ConsoleState {
  cs_server : Server; cs_login : LoginRateLimiter; cs_jwks : gmap string DecodingKey }.
Arguments mk_ConsoleState {_} _ _ _.

(** An early return, or a panic. *)
Inductive stop : Type := Answer (r : Reply) | Crash.
Definition Console `{KeycloakHttp} (A : Type) : Type := ConsoleState -> ConsoleState * result stop A.
#[export] Instance Console_ret `{KeycloakHttp} : MRet Console := fun A a s => (s, Ok a).
#[export] Instance Console_bind `{KeycloakHttp} : MBind Console := fun A B f m s =>
  match m s with (s, Ok a) => f a s | (s, Err e) => (s, Err e) end.

(** Requests *)
Record LoginRequest : Type := mk_LoginRequest { lq_access_key : string; lq_secret_key : string }.
Record KeycloakLoginRequest : Type := mk_KeycloakLoginRequest { kl_username : string; kl_password : string }.
Record KeycloakRefreshRequest : Type := mk_KeycloakRefreshRequest { kr_refresh_token : option string }.
Record CreateBucketRequest : Type := mk_CreateBucketRequest { cb_name : string }.
Record ListObjectsParams : Type := mk_ListObjectsParams { lo_prefix : option string; lo_delimiter : option string }.
Record PresignParams : Type := mk_PresignParams { pp_expires : option Z }.
Record CreateFolderRequest : Type := mk_CreateFolderRequest { cf_name : string }.
Record SetVersioningRequest : Type := mk_SetVersioningRequest { sv_enabled : bool }.
Record SetEncryptionRequest : Type := mk_SetEncryptionRequest { sn_enabled : bool }.
Record SetPublicRequest : Type := mk_SetPublicRequest { sp_read : bool; sp_list : bool }.
Record ListVersionsParams : Type := mk_ListVersionsParams { lv_key : string }.

(** axum and serde: the value of a body or of a query, or the rejection. *)
Class FromBody (A : Type) : Type := from_body : HeaderMap -> source -> result Reply A.
Class FromQuery (A : Type) : Type := from_query : string -> result Reply A.
(** A captured segment of the path, percent-decoded; the answers to one that is
    no text and to another method. *)
Class ConsoleRouter : Type := {
  decode_segment : string -> option string;
  invalid_segment : Reply;
  wrong_method : Reply;
}.
(** [chrono]: [%Y%m%d] and [%Y%m%dT%H%M%SZ] at a tick. *)
Class AmzClock : Type := { date_stamp_at : nat -> string; amz_date_at : nat -> string }.

(** ** Cookies *)

Definition COOKIE_NAME : string := "maxio_session".
Definition REFRESH_COOKIE_NAME : string := "maxio_kc_refresh".

Definition extract_refresh_cookie (h : HeaderMap) (cookie_name : string) : option string :=
  cookies ← header h "cookie";
  c ← find (fun c => starts_with c (cookie_name +:+ "=")) (map trim (split_char ";" cookies));
  strip_prefix (cookie_name +:+ "=") c.
Definition extract_cookie (h : HeaderMap) : option string := extract_refresh_cookie h COOKIE_NAME.

Definition make_named_cookie (name value : string) (max_age : Z) (secure : bool) : string :=
  let secure_flag := if secure then "; Secure" else "" in
  name +:+ "=" +:+ value +:+ "; Path=/; HttpOnly; SameSite=Strict; Max-Age=" +:+ pretty max_age +:+ secure_flag.
Definition make_cookie (value : string) (max_age : Z) (secure : bool) : string :=
  make_named_cookie COOKIE_NAME value max_age secure.
Definition cookie_secure (app : ConsoleApp) : bool := ca_secure_cookies app && negb (ca_allow_insecure_dev app).

(** ** Origins *)

Definition origin_host (origin_or_referer : string) : option string :=
  rest ← match strip_prefix "https://" origin_or_referer with
         | Some rest => Some rest
         | None => strip_prefix "http://" origin_or_referer
         end;
  head (split_char "/" rest).
Definition same_origin_host (origin_or_referer host : string) : bool :=
  match origin_host origin_or_referer with Some h => eq_ignore_ascii_case h host | None => false end.
Definition is_loopback_host (host_with_optional_port : string) : bool :=
  let host := match strip_prefix "[" host_with_optional_port with
              | Some rest => default "" (head (split_char "]" rest))
              | None => default host_with_optional_port (head (split_char ":" host_with_optional_port))
              end in
  bool_decide (host ∈ ["localhost"; "127.0.0.1"; "::1"]).
Definition dev_loopback_origin_allowed (app : ConsoleApp) (origin_or_referer host : string) : bool :=
  ca_allow_insecure_dev app
  && match origin_host origin_or_referer with
     | Some origin_host => is_loopback_host origin_host && is_loopback_host host
     | None => false
     end.
Definition mutating (method : string) : bool := bool_decide (method ∈ ["POST"; "PUT"; "PATCH"; "DELETE"]).
(** Whether [console_csrf_middleware] lets a request pass. *)
Definition csrf_ok (app : ConsoleApp) (r : Request) : bool :=
  if negb (mutating (rq_method r)) then true
  else
    let host := default "" (header (rq_headers r) "host") in
    let origin := match header (rq_headers r) "origin" with
                  | Some o => Some o
                  | None => header (rq_headers r) "referer"
                  end in
    match origin with
    | Some origin => same_origin_host origin host || dev_loopback_origin_allowed app origin host
    | None => true
    end.
Definition apply_security_headers (l : list (string * string)) : list (string * string) :=
  insert_header "x-frame-options" "DENY"
    (insert_header "referrer-policy" "same-origin" (insert_header "x-content-type-options" "nosniff" l)).

(** ** Texts *)

Definition parent_folder_prefix_for_deleted_object (key : string) : option string :=
  if ends_with key "/" then None
  else (fun p => fst p +:+ "/") <$> rsplit_once "/" key.
Definition sanitize_filename (name : string) : string :=
  of_chars (filter (fun c => c <> "034"%char /\ c <> "\"%char /\ c <> "013"%char /\ c <> "010"%char) (chars name)).
Definition last_segment (key : string) : string := default key (last (split_char "/" key)).
Definition trim_matches_slash (s : string) : string := trim_end_slashes (trim_start_slashes s).

(** ** The handlers *)

Section handlers.
Context `{Environment} `{Crates} `{Serde} `{SerdeJson} `{Aead} `{ReedSolomon} `{HexDecode} `{Buffering}.
Context `{!KeyService FilesystemStorage} `{PercentEncoding} `{Process} `{KeycloakHttp} `{Redis} `{AmzClock}.
Context (app : ConsoleApp).
#[local] Existing Instance sha256_hex_of_crates.

Abbreviation st := (as_storage (ca_app app)).
Abbreviation config := (as_config (ca_app app)).
Abbreviation credentials := (as_credentials (ca_app app)).

Definition answer {A} (r : Reply) : Console A := fun s => (s, Err (Answer r)).
Definition crash {A} : Console A := fun s => (s, Err Crash).
(** [header.parse().unwrap()], and the builder of a response. *)
Definition parsed (value : string) : Console string := if header_text value then mret value else crash.
Definition built (value : string) : Console string := if header_bytes value then mret value else crash.

Definition with_world (s : ConsoleState) (w : world) : ConsoleState :=
  let sv := cs_server s in
  mk_ConsoleState (mk_Server w (sv_put_requests sv) (sv_auth_failures sv) (sv_slow_downs sv) (sv_upload_bytes sv))
    (cs_login s) (cs_jwks s).
(** A step written on the state itself. *)
Definition on_console {A} (f : ConsoleState -> ConsoleState * result stop A) : Console A := f.
Definition stored {E A} (m : M E A) : Console (result E A) := fun s =>
  let '(w, r) := m (sv_world (cs_server s)) in (with_world s w, Ok r).
Definition stored_or {E A} (f : E -> Reply) (m : M E A) : Console A :=
  r ← stored m; match r with Ok a => mret a | Err e => answer (f e) end.
Definition internal_reply (e : StorageError) : Reply := error_reply 500 (storage_error_to_string e).
Definition console_tick : Console nat := stored_or (fun _ : StorageError => ok_reply) tick.

(** *** Whom a cookie stands for *)

Definition resolve_console_principal (token : string) : Console (option string) :=
  n ← console_tick;
  if is_legacy_console_session token then
    mret (resolve_legacy_console_access_key (utc_now n / nanos)%Z credentials token)
  else
    match ca_keycloak app with
    | None => mret None
    | Some settings =>
        valid ← on_console (fun s =>
          let '(jwks, r) := validate_access_token settings n token (cs_jwks s) in
          (mk_ConsoleState (cs_server s) (cs_login s) jwks, Ok (is_ok r)));
        let access_key := trim (ca_keycloak_console_access_key app) in
        mret (if valid : bool then Some (if decide (access_key = "") then cf_access_key config else access_key) else None)
    end.

Definition not_authenticated : Reply := error_reply 401 "Not authenticated".
(** [console_auth_middleware]: the principal of a request. *)
Definition authenticate (h : HeaderMap) : Console string :=
  match extract_cookie h with
  | None => answer not_authenticated
  | Some token =>
      p ← resolve_console_principal token;
      match p with Some p => mret p | None => answer not_authenticated end
  end.

(** *** The gate of a bucket *)

Definition console_access_denied : Reply := error_reply 403 "Access denied".
(** Any other error lets the request pass, for the handler to report it. *)
Definition console_bucket_gate (principal bucket : string) : Console unit :=
  r ← stored (ensure_bucket_access st config credentials principal bucket);
  match r with
  | Ok _ => mret tt
  | Err err =>
      if decide (se_code err = AccessDenied) then answer console_access_denied
      else if decide (se_code err = NoSuchBucket) then answer (error_reply 404 "Bucket not found")
      else mret tt
  end.
Definition console_tenant_gate (principal path : string) : Console unit :=
  match bucket_from_console_path path with
  | Some bucket => console_bucket_gate principal bucket
  | None => mret tt
  end.

(** *** Logins *)

Definition too_many (retry_after : Z) : Reply :=
  with_headers [("retry-after", pretty retry_after)] (error_reply 429 "Too many login attempts. Try again later.").
Definition acquire_login (ip : string) : Console unit :=
  n ← console_tick;
  on_console (fun s =>
    let '(l, r) := check_and_increment (cs_login s) ip n (instant n) in
    (mk_ConsoleState (cs_server s) l (cs_jwks s),
     match r with Some retry_after => Err (Answer (too_many retry_after)) | None => Ok tt end)).

Definition invalid_credentials : Reply := error_reply 401 "Invalid credentials".
Definition login (addr : IpAddr) (h : HeaderMap) (body : LoginRequest) : Console Reply :=
  _ ← acquire_login (client_ip (as_trusted_proxies (ca_app app)) h addr);
  match lookup_credential credentials (lq_access_key body) with
  | None => answer invalid_credentials
  | Some cred =>
      if negb (constant_time_eq (as_bytes (lq_secret_key body)) (as_bytes (ce_secret_key cred))) then answer invalid_credentials
      else
        n ← console_tick;
        let token := generate_session_token (ce_access_key cred) (ce_secret_key cred) (utc_now n / nanos)%Z in
        cookie ← parsed (make_cookie token TOKEN_MAX_AGE_SECS (cookie_secure app));
        mret (with_headers (insert_header "Set-Cookie" cookie []) ok_reply)
  end.
Definition check (h : HeaderMap) : Console Reply :=
  authenticated ← match extract_cookie h with
                  | Some token => p ← resolve_console_principal token; mret (bool_decide (is_Some p))
                  | None => mret false
                  end;
  mret (if authenticated : bool then ok_reply else not_authenticated).
(** The second cookie takes the place of the first. *)
Definition logout : Console Reply :=
  session ← parsed (make_cookie "" 0 (cookie_secure app));
  let l := insert_header "Set-Cookie" session [] in
  l ← match ca_keycloak app with
      | Some _ => c ← parsed (make_named_cookie REFRESH_COOKIE_NAME "" 0 (cookie_secure app)); mret (insert_header "Set-Cookie" c l)
      | None => mret l
      end;
  mret (with_headers l ok_reply).

(** *** Logins with Keycloak *)

Definition keycloak_config : Reply :=
  match ca_keycloak app with
  | Some s => json_reply 200 (JObject [("enabled", JBool true); ("realm", JString (ks_realm s)); ("clientId", JString (ks_client_id s))])
  | None => json_reply 200 (JObject [("enabled", JBool false)])
  end.
Definition keycloak_error_response (err : KeycloakError) : Reply :=
  match err with
  | InvalidCredentials => invalid_credentials
  | NotConfigured => error_reply 503 "Keycloak is not configured"
  | Unreachable msg => error_reply 503 ("Keycloak unreachable: " +:+ msg)
  | TokenEndpoint msg | InvalidToken msg => error_reply 502 msg
  end.
Definition set_keycloak_session_cookies (l : list (string * string)) (tokens : KeycloakTokenResponse)
    : Console (list (string * string)) :=
  session ← parsed (make_cookie (kt_access_token tokens) (kt_expires_in tokens) (cookie_secure app));
  let l := insert_header "Set-Cookie" session l in
  c ← parsed (make_named_cookie REFRESH_COOKIE_NAME (kt_refresh_token tokens) (kt_refresh_expires_in tokens) (cookie_secure app));
  mret (insert_header "Set-Cookie" c l).
Definition token_json (t : KeycloakTokenResponse) : Json :=
  JObject [("access_token", JString (kt_access_token t)); ("expires_in", JNumber (kt_expires_in t));
           ("refresh_expires_in", JNumber (kt_refresh_expires_in t)); ("refresh_token", JString (kt_refresh_token t));
           ("token_type", JString (kt_token_type t)); ("scope", JString (kt_scope t))].
Definition tokens_reply (r : result KeycloakError KeycloakTokenResponse) : Console Reply :=
  match r with
  | Ok tokens => l ← set_keycloak_session_cookies [] tokens; mret (with_headers l (json_reply 200 (token_json tokens)))
  | Err err => answer (keycloak_error_response err)
  end.
Definition keycloak_login (addr : IpAddr) (h : HeaderMap) (body : KeycloakLoginRequest) : Console Reply :=
  match ca_keycloak app with
  | None => answer (keycloak_error_response NotConfigured)
  | Some settings =>
      _ ← acquire_login (client_ip (as_trusted_proxies (ca_app app)) h addr);
      n ← console_tick;
      tokens_reply (password_login settings n (kl_username body) (kl_password body))
  end.
Definition keycloak_refresh (h : HeaderMap) (body : KeycloakRefreshRequest) : Console Reply :=
  match ca_keycloak app with
  | None => answer (keycloak_error_response NotConfigured)
  | Some settings =>
      let refresh_token := match kr_refresh_token body with
                           | Some t => Some t
                           | None => extract_refresh_cookie h REFRESH_COOKIE_NAME
                           end in
      match non_empty refresh_token with
      | None => answer (error_reply 400 "refresh token required")
      | Some t => n ← console_tick; tokens_reply (refresh settings n t)
      end
  end.

(** *** Buckets *)

Definition list_buckets (principal : string) : Console Reply :=
  buckets ← stored_or internal_reply (Listing.list_buckets st);
  let buckets := filter_buckets_for_access config credentials buckets principal in
  mret (json_reply 200 (JObject [("buckets", JArray (map (fun b =>
          JObject [("name", JString (bm_name b)); ("createdAt", JString (bm_created_at b)); ("versioning", JBool (bm_versioning b));
                   ("encryption", JBool (bool_decide (is_Some (bm_encryption_config b))))]) buckets))])).

Definition create_bucket (principal : string) (body : CreateBucketRequest) : Console Reply :=
  if is_err (validate_bucket_name (cb_name body)) then answer (error_reply 400 "Invalid bucket name")
  else
    n ← console_tick;
    let tenant_id := tenant_for_new_bucket config credentials principal in
    created ← stored_or internal_reply
                (Storage.create_bucket st (new_bucket_meta (ca_app app) (cb_name body) (now_string n) tenant_id false));
    mret (if created : bool then ok_reply else error_reply 409 "Bucket already exists").

Definition delete_bucket_api (bucket : string) : Console Reply :=
  removed ← stored_or (fun e => match e with
                                | BucketNotEmpty => error_reply 409 "Bucket is not empty"
                                | e => internal_reply e
                                end) (Storage.delete_bucket st bucket);
  mret (if removed : bool then ok_reply else error_reply 404 "Bucket not found").

Definition existing_bucket (bucket : string) : Console unit :=
  there ← stored_or internal_reply (Storage.head_bucket st bucket);
  if there : bool then mret tt else answer (error_reply 404 "Bucket not found").

(** *** Objects *)

Definition json_object (fields : list (string * Json)) : Reply := json_reply 200 (JObject fields).
Definition file_json (obj : ObjectMeta) : Json :=
  JObject [("key", JString (om_key obj)); ("size", JNumber (om_size obj));
           ("lastModified", JString (om_last_modified obj)); ("etag", JString (om_etag obj))].
(** The directory an object is folded into. *)
Definition common_prefix (prefix delimiter : string) (obj : ObjectMeta) : option string :=
  let suffix := of_chars (drop (String.length prefix) (chars (om_key obj))) in
  (fun before => prefix +:+ before +:+ delimiter) <$> before_first suffix delimiter.
Definition listed_file (prefix delimiter : string) (obj : ObjectMeta) : bool :=
  bool_decide (common_prefix prefix delimiter obj = None) && negb (ends_with (om_key obj) "/").
Definition has_children (all_objects : list ObjectMeta) (p : string) : bool :=
  existsb (fun obj => starts_with (om_key obj) p && negb (bool_decide (om_key obj = p))) all_objects.
Definition listing_json (prefix delimiter : string) (all_objects : list ObjectMeta) : Json :=
  let prefixes := merge_sort string_le (elements (list_to_set (omap (common_prefix prefix delimiter) all_objects) : gset string)) in
  JObject [("files", JArray (map file_json (filter (fun obj => listed_file prefix delimiter obj = true) all_objects)));
           ("prefixes", JArray (map JString prefixes));
           ("emptyPrefixes", JArray (map JString (filter (fun p => has_children all_objects p = false) prefixes)))].
Definition list_objects (bucket : string) (params : ListObjectsParams) : Console Reply :=
  _ ← existing_bucket bucket;
  let prefix := default "" (lo_prefix params) in
  let delimiter := default "/" (lo_delimiter params) in
  all_objects ← stored_or internal_reply (Listing.list_objects st bucket prefix);
  mret (json_reply 200 (listing_json prefix delimiter all_objects)).

(** The default encryption of the bucket. *)
Definition default_encryption (bucket : string) : Console (option EncryptionRequest) :=
  cfg ← stored_or (fun e => error_reply 500 ("failed to read bucket encryption: " +:+ storage_error_to_string e))
          (BucketConfig.get_bucket_encryption st bucket);
  mret (encryption_from_bucket_default <$> cfg).
Definition upload_object (bucket key : string) (h : HeaderMap) (body : source) : Console Reply :=
  _ ← existing_bucket bucket;
  encryption ← default_encryption bucket;
  result ← stored_or internal_reply
             (Objects.put_object st bucket key (content_type_of h) body None encryption (parse_content_length h));
  mret (json_object [("ok", JBool true); ("etag", JString (pr_etag result)); ("size", JNumber (pr_size result))]).

Definition no_body : source := mk_source [] Eof [].
(** A folder stays when its last object goes. *)
Definition preserve_empty_parent_folder_after_object_delete (bucket key : string) : M StorageError unit :=
  match parent_folder_prefix_for_deleted_object key with
  | None => mret tt
  | Some parent_prefix =>
      remaining ← Listing.list_objects st bucket parent_prefix;
      if existsb (fun obj => bool_decide (om_key obj = parent_prefix) || starts_with (om_key obj) parent_prefix) remaining
      then mret tt
      else
        _ ← Objects.put_object st bucket parent_prefix "application/x-directory" no_body None None (Some 0%Z);
        mret tt
  end.
Definition delete_object_api (bucket key : string) : Console Reply :=
  _ ← existing_bucket bucket;
  _ ← stored_or internal_reply (Versions.delete_object st bucket key);
  _ ← stored_or internal_reply (preserve_empty_parent_folder_after_object_delete bucket key);
  mret ok_reply.

Definition attachment (key : string) (stream : ByteStream) (meta : ObjectMeta) : Console Reply :=
  content_type ← built (om_content_type meta);
  disposition ← built ("attachment; filename=" +:+ dquote +:+ sanitize_filename (last_segment key) +:+ dquote);
  mret (mk_Reply 200 [("Content-Type", content_type); ("Content-Length", pretty (om_size meta));
                      ("Content-Disposition", disposition)] (StreamBody stream)).
Definition download_object (bucket key : string) : Console Reply :=
  '(stream, meta) ← stored_or (fun _ => error_reply 404 "Object not found") (Objects.get_object st bucket key None);
  attachment key stream meta.

Definition create_folder (bucket : string) (body : CreateFolderRequest) : Console Reply :=
  let name := trim_matches_slash (trim (cf_name body)) in
  if decide (name = "") then answer (error_reply 400 "Folder name is required")
  else
    encryption ← default_encryption bucket;
    _ ← stored_or internal_reply
          (Objects.put_object st bucket (name +:+ "/") "application/x-directory" no_body None encryption (Some 0%Z));
    mret ok_reply.

(** *** Presigned links *)

(** The path, the query that is signed, and the signature. *)
Definition presigned_path (bucket key : string) : string :=
  "/" +:+ percent_encode bucket +:+ "/" +:+ join_with "/" (map percent_encode (split_char "/" key)).
Definition presigned_query (access_key date_stamp amz_date region : string) (expires_secs : Z) : string :=
  let credential := access_key +:+ "/" +:+ date_stamp +:+ "/" +:+ region +:+ "/s3/aws4_request" in
  join_with "&" (map (fun '(k, v) => percent_encode k +:+ "=" +:+ percent_encode v)
    [("X-Amz-Algorithm", "AWS4-HMAC-SHA256"); ("X-Amz-Credential", credential); ("X-Amz-Date", amz_date);
     ("X-Amz-Expires", pretty expires_secs); ("X-Amz-SignedHeaders", "host")]).
Definition presigned_signature (path canonical_qs host date_stamp amz_date region secret_key : string) : string :=
  let canonical_request := join_with newline ["GET"; path; canonical_qs; "host:" +:+ host +:+ newline; "host"; "UNSIGNED-PAYLOAD"] in
  let scope := date_stamp +:+ "/" +:+ region +:+ "/s3/aws4_request" in
  let string_to_sign := join_with newline ["AWS4-HMAC-SHA256"; amz_date; scope; hex_encode (sha256 (as_bytes canonical_request))] in
  hex_encode (hmac_sha256 (derive_signing_key secret_key date_stamp region) (as_bytes string_to_sign)).
Definition presign_object (principal bucket key : string) (params : PresignParams) (h : HeaderMap) : Console Reply :=
  _ ← stored_or (fun _ => error_reply 404 "Object not found") (Objects.head_object st bucket key);
  let expires_secs := Z.min (default 3600%Z (pp_expires params)) 604800 in
  let host := default "localhost:9000" (header h "host") in
  n ← console_tick;
  match lookup_credential credentials principal with
  | None => answer console_access_denied
  | Some cred =>
      let region := cf_region config in
      let path := presigned_path bucket key in
      let canonical_qs := presigned_query (ce_access_key cred) (date_stamp_at n) (amz_date_at n) region expires_secs in
      let signature := presigned_signature path canonical_qs host (date_stamp_at n) (amz_date_at n) region (ce_secret_key cred) in
      let scheme := if decide (header h "x-forwarded-proto" = Some "https") then "https" else "http" in
      let url := scheme +:+ "://" +:+ host +:+ path +:+ "?" +:+ canonical_qs +:+ "&X-Amz-Signature=" +:+ signature in
      mret (json_object [("url", JString url); ("expiresIn", JNumber expires_secs)])
  end.

(** *** Settings and versions *)

Definition get_versioning (bucket : string) : Console Reply :=
  enabled ← stored_or internal_reply (BucketConfig.is_versioned st bucket);
  mret (json_object [("enabled", JBool enabled)]).
Definition set_versioning (bucket : string) (body : SetVersioningRequest) : Console Reply :=
  _ ← stored_or internal_reply (BucketConfig.set_versioning st bucket (sv_enabled body)); mret ok_reply.
Definition get_encryption (bucket : string) : Console Reply :=
  cfg ← stored_or internal_reply (BucketConfig.get_bucket_encryption st bucket);
  mret (json_object (match cfg with
                     | Some cfg => [("enabled", JBool true); ("algorithm", JString (be_sse_algorithm cfg))]
                     | None => [("enabled", JBool false); ("algorithm", JNull)]
                     end)).
Definition set_encryption (bucket : string) (body : SetEncryptionRequest) : Console Reply :=
  _ ← stored_or internal_reply
        (if sn_enabled body then BucketConfig.put_bucket_encryption st bucket (mk_BucketEncryptionConfig "AES256" None)
         else BucketConfig.delete_bucket_encryption st bucket);
  mret ok_reply.
Definition get_public (bucket : string) : Console Reply :=
  '(read, list) ← stored_or internal_reply (BucketConfig.get_bucket_public st bucket);
  mret (json_object [("read", JBool read); ("list", JBool list)]).
Definition set_public (bucket : string) (body : SetPublicRequest) : Console Reply :=
  _ ← stored_or internal_reply (set_bucket_public st bucket (sp_read body) (sp_list body)); mret ok_reply.

Definition version_json (v : ObjectMeta) : Json :=
  JObject [("versionId", match om_version_id v with Some id => JString id | None => JNull end);
           ("lastModified", JString (om_last_modified v)); ("size", JNumber (om_size v)); ("etag", JString (om_etag v));
           ("isDeleteMarker", JBool (om_is_delete_marker v))].
Definition list_versions (bucket : string) (params : ListVersionsParams) : Console Reply :=
  all ← stored_or internal_reply (Listing.list_object_versions st bucket (lv_key params));
  mret (json_object [("versions", JArray (map version_json (filter (fun v => om_key v = lv_key params) all)))]).
Definition delete_version (bucket version_id key : string) : Console Reply :=
  _ ← stored_or internal_reply (delete_object_version st bucket key version_id); mret ok_reply.
Definition download_version (bucket version_id key : string) : Console Reply :=
  '(stream, meta) ← stored_or (fun _ => error_reply 404 "Version not found")
                      (get_object_version st bucket key version_id None);
  attachment key stream meta.

(** ** The router *)

Context `{ConsoleRouter} `{!FromBody LoginRequest} `{!FromBody KeycloakLoginRequest} `{!FromBody KeycloakRefreshRequest}.
Context `{!FromBody CreateBucketRequest} `{!FromBody CreateFolderRequest} `{!FromBody SetVersioningRequest}.
Context `{!FromBody SetEncryptionRequest} `{!FromBody SetPublicRequest}.
Context `{!FromQuery ListObjectsParams} `{!FromQuery PresignParams} `{!FromQuery ListVersionsParams}.

Definition extracted {A} (r : result Reply A) : Console A := fun s => (s, map_err Answer r).
Definition body_of {A} `{!FromBody A} (r : Request) (body : source) : Console A := extracted (from_body (rq_headers r) body).
Definition query_of {A} `{!FromQuery A} (r : Request) : Console A := extracted (from_query (rq_query r)).
Definition segment (raw : string) : Console string := extracted (ok_or (decode_segment raw) invalid_segment).
(** [{*key}]: the rest of the path, which is not empty. *)
Definition wildcard (rest : list string) : option string :=
  let raw := join_with "/" rest in if decide (raw = "") then None else Some raw.

(** The routes behind the session, below [/api]: the handlers of a path by their
    method, where HEAD is served as GET; [None] when the path is no route. *)
Definition methods (r : Request) (l : list (string * Console Reply)) : Console Reply :=
  let method := if decide (rq_method r = "HEAD") then "GET" else rq_method r in
  match find (fun m => bool_decide (fst m = method)) l with Some m => snd m | None => answer wrong_method end.
Definition object_handlers (r : Request) (body : source) (bucket raw_kind raw_key : string) : option (Console Reply) :=
  let keyed (f : string -> string -> Console Reply) : Console Reply :=
    b ← segment bucket; key ← segment raw_key; f b key in
  if decide (raw_kind = "objects") then Some (methods r [("DELETE", keyed delete_object_api)])
  else if decide (raw_kind = "download") then Some (methods r [("GET", keyed download_object)])
  else if decide (raw_kind = "upload") then
    Some (methods r [("PUT", keyed (fun b key => upload_object b key (rq_headers r) body))])
  else None.
Definition setting_handlers (r : Request) (body : source) (bucket raw_kind : string) : option (Console Reply) :=
  let named (f : string -> Console Reply) : Console Reply := b ← segment bucket; f b in
  if decide (raw_kind = "folders") then
    Some (methods r [("POST", named (fun b => x ← body_of r body; create_folder b x))])
  else if decide (raw_kind = "objects") then Some (methods r [("GET", named (fun b => x ← query_of r; list_objects b x))])
  else if decide (raw_kind = "versioning") then
    Some (methods r [("GET", named get_versioning); ("PUT", named (fun b => x ← body_of r body; set_versioning b x))])
  else if decide (raw_kind = "encryption") then
    Some (methods r [("GET", named get_encryption); ("PUT", named (fun b => x ← body_of r body; set_encryption b x))])
  else if decide (raw_kind = "public") then
    Some (methods r [("GET", named get_public); ("PUT", named (fun b => x ← body_of r body; set_public b x))])
  else if decide (raw_kind = "versions") then Some (methods r [("GET", named (fun b => x ← query_of r; list_versions b x))])
  else None.
Definition version_handlers (r : Request) (bucket version_id raw_kind raw_key : string) : option (Console Reply) :=
  let keyed (f : string -> string -> string -> Console Reply) : Console Reply :=
    b ← segment bucket; v ← segment version_id; key ← segment raw_key; f b v key in
  if decide (raw_kind = "objects") then Some (methods r [("DELETE", keyed delete_version)])
  else if decide (raw_kind = "download") then Some (methods r [("GET", keyed download_version)])
  else None.
Definition bucket_handlers (principal : string) (r : Request) (body : source) (bucket : string) (rest : list string)
    : option (Console Reply) :=
  if decide (bucket = "") then None
  else
    match rest with
    | [] => Some (methods r [("DELETE", b ← segment bucket; delete_bucket_api b)])
    | [kind] => setting_handlers r body bucket kind
    | "presign" :: rest =>
        raw_key ← wildcard rest;
        Some (methods r [("GET", b ← segment bucket; key ← segment raw_key; x ← query_of r;
                                 presign_object principal b key x (rq_headers r))])
    | "versions" :: version_id :: kind :: rest =>
        if decide (version_id = "") then None
        else raw_key ← wildcard rest; version_handlers r bucket version_id kind raw_key
    | kind :: rest => raw_key ← wildcard rest; object_handlers r body bucket kind raw_key
    end.
Definition protected_route (principal : string) (r : Request) (body : source) : option (Console Reply) :=
  match split_char "/" (rq_path r) with
  | "" :: "auth" :: rest => if decide (rest = ["logout"]) then Some (methods r [("POST", logout)]) else None
  | "" :: "buckets" :: [] =>
      Some (methods r [("GET", list_buckets principal); ("POST", x ← body_of r body; create_bucket principal x)])
  | "" :: "buckets" :: bucket :: rest => bucket_handlers principal r body bucket rest
  | _ => None
  end.

(** The session, the tenant, the origin, then the handler.  The answer of the
    handler, an early one included, gets the security headers; those of the
    gates do not. *)
Definition csrf_refused : Reply := error_reply 403 "CSRF origin check failed".
Definition secured (m : Console Reply) : Console Reply := on_console (fun s =>
  let secure r := mk_Reply (re_status r) (apply_security_headers (re_headers r)) (re_body r) in
  match m s with
  | (s, Ok r) => (s, Ok (secure r))
  | (s, Err (Answer r)) => (s, Ok (secure r))
  | (s, Err Crash) => (s, Err Crash)
  end).
Definition protected (r : Request) (handler : string -> Console Reply) : Console Reply :=
  principal ← authenticate (rq_headers r);
  _ ← console_tenant_gate principal (rq_path r);
  if csrf_ok app r then secured (handler principal) else answer csrf_refused.

Definition public_route (r : Request) (addr : IpAddr) (body : source) : option (Console Reply) :=
  let path := rq_path r in
  if decide (path = "/auth/login") then Some (methods r [("POST", x ← body_of r body; login addr (rq_headers r) x)])
  else if decide (path = "/auth/check") then Some (methods r [("GET", check (rq_headers r))])
  else if decide (path = "/auth/keycloak-config") then Some (methods r [("GET", mret keycloak_config)])
  else if decide (path = "/auth/keycloak-login") then
    Some (methods r [("POST", x ← body_of r body; keycloak_login addr (rq_headers r) x)])
  else if decide (path = "/auth/keycloak-refresh") then
    Some (methods r [("POST", x ← body_of r body; keycloak_refresh (rq_headers r) x)])
  else None.

(** A request to the console; [None] when the path is none of its routes. *)
Definition console_router (r : Request) (addr : IpAddr) (body : source) : option (Console Reply) :=
  match public_route r addr body with
  | Some handler => Some handler
  | None =>
      match protected_route "" r body with
      | None => None
      | Some _ => Some (protected r (fun principal => default (answer wrong_method) (protected_route principal r body)))
      end
  end.
End handlers.
