(* ===== verification/ConsoleSpec.v ===== *)
(** * What the console promises

    A login hands out a cookie that stands for its access key for a week; a
    request about a bucket reaches its handler only for a principal the bucket
    admits; a presigned link is accepted by the S3 gates.  And where the console
    does something else than it means to. *)

From stdpp Require Import base list gmap sorting numbers strings pretty.
From Stdlib Require Import ZArith Lia Ascii Strings.Byte.
From S2P Require Import Prelude IpAddr Glob Policy Bytes Reader Utf8 Types Quota Crypto ErasureCode ChunkReader MetadataIndex FileSystem Paths World Keyring Storage BucketConfig Sidecar Publish Objects Versions Listing ApiError ListApi Events Http Signature RateLimit Tenant Gate GateSpec Multipart MultipartSpec HttpBody Headers ObjectApi BucketApi Demo ConsoleAuth Console.

Local Open Scope nat_scope.

(** ** Hexadecimal numbers *)

Lemma hex_digit_value d : (0 <= d < 16)%Z -> to_digit 16 (hex_digit d) = Some d.
Proof.
  intros Hd. rewrite <-(Z2Nat.id d) by lia. assert (Hn : Z.to_nat d < 16) by lia. revert Hn. generalize (Z.to_nat d). clear.
  intros n Hn. do 16 (destruct n as [|n]; [done|]). lia.
Qed.

Lemma parse_hex_digits max fuel n l : (0 <= n < 16 ^ Z.of_nat fuel)%Z -> (n <= max)%Z ->
  parse_digits 16 max 0 (hex_digits fuel n l) = parse_digits 16 max n l.
Proof.
  revert n l. induction fuel as [|fuel IH]; intros n l Hn Hm; [by assert (n = 0%Z) as -> by (cbn in Hn; lia)|].
  assert (Hd : parse_digits 16 max (n / 16) (hex_digit (n mod 16) :: l) = parse_digits 16 max n l).
  { cbn -[to_digit hex_digit]. rewrite hex_digit_value by (apply Z.mod_pos_bound; lia). cbn -[Z.leb].
    replace (n / 16 * 16 + n mod 16)%Z with n by (pose proof (Z.div_mod n 16); lia).
    by rewrite (proj2 (Z.leb_le n max)). }
  rewrite Nat2Z.inj_succ, Z.pow_succ_r in Hn by lia.
  cbn [hex_digits]. destruct (Z.eqb_spec (n / 16) 0) as [E|E]; [by rewrite <-E|].
  rewrite IH; [done| |].
  - split; [apply Z.div_pos; lia|apply Z.div_lt_upper_bound; lia].
  - assert (n / 16 <= n)%Z by (apply Z.div_le_upper_bound; lia). lia.
Qed.

Definition hexadecimals (l : list ascii) : Prop := Forall (fun c => is_Some (to_digit 16 c)) l.
Lemma hex_digits_hex fuel n l : hexadecimals l -> hexadecimals (hex_digits fuel n l).
Proof.
  revert n l. induction fuel as [|fuel IH]; intros n l Hl; [done|]. cbn [hex_digits].
  assert (Hl' : hexadecimals (hex_digit (n mod 16) :: l)).
  { constructor; [|done]. rewrite hex_digit_value by (apply Z.mod_pos_bound; lia). by eexists. }
  case_match; [done|by apply IH].
Qed.
Lemma lower_hex_hex n : hexadecimals (chars (lower_hex n)).
Proof. unfold lower_hex. rewrite chars_of_chars. apply hex_digits_hex. constructor. Qed.
Lemma hex_digits_nonempty fuel n l : fuel <> 0 \/ l <> [] -> hex_digits fuel n l <> [].
Proof.
  revert n l. induction fuel as [|fuel IH]; intros n l [Hf|Hl]; [done|done|..]; cbn [hex_digits].
  all: case_match; [done|by apply IH; right].
Qed.
Lemma lower_hex_cons n : exists c l, chars (lower_hex n) = c :: l.
Proof.
  unfold lower_hex. rewrite chars_of_chars. pose proof (hex_digits_nonempty 16 (n mod 2 ^ 64) [] ltac:(by left)) as Hn.
  destruct (hex_digits _ _ _) as [|c l]; [done|by exists c, l].
Qed.

Lemma i64_of_hex_plain s c l : chars s = c :: l -> is_Some (to_digit 16 c) ->
  i64_of_hex s = parse_digits 16 (2 ^ 63 - 1) 0 (c :: l).
Proof.
  intros E Hc. unfold i64_of_hex. rewrite E.
  assert (Hp : c <> "+"%char) by (intros ->; by destruct Hc).
  assert (Hm : c <> "-"%char) by (intros ->; by destruct Hc).
  clear E Hc. destruct c as [[] [] [] [] [] [] [] []]; done.
Qed.
Lemma i64_of_lower_hex n : (0 <= n <= 2 ^ 63 - 1)%Z -> i64_of_hex (lower_hex n) = Some n.
Proof.
  intros Hn. destruct (lower_hex_cons n) as (c & l & E). pose proof (lower_hex_hex n) as Hh. rewrite E in Hh.
  rewrite (i64_of_hex_plain _ c l E) by (by apply Forall_cons in Hh as [? _]). rewrite <-E. unfold lower_hex.
  rewrite chars_of_chars, Z.mod_small by lia. rewrite parse_hex_digits; [done| |lia].
  change (Z.of_nat 16) with 16%Z. change (16 ^ 16)%Z with (2 ^ 64)%Z. lia.
Qed.

Lemma hex_without c l : to_digit 16 c = None -> hexadecimals l -> c ∉ l.
Proof. intros Hc Hl Hin. unfold hexadecimals in Hl. rewrite Forall_forall in Hl. destruct (Hl c Hin). congruence. Qed.

(** ** Tokens *)

Lemma join_split c s : join_with (String c "") (split_char c s) = s.
Proof.
  induction s as [|a s IH]; [done|]. cbn [split_char]. case_decide as D.
  - subst. destruct (split_char_cons c s) as (w & ws & E). rewrite E in *.
    change (join_with (String c "") ("" :: w :: ws)) with (String c (join_with (String c "") (w :: ws))). by rewrite IH.
  - destruct (split_char_cons c s) as (w & ws & E). rewrite E in *. destruct ws as [|w' ws]; [cbn in *; by rewrite IH|].
    change (String a (join_with (String c "") (w :: w' :: ws)) = String a s). by rewrite IH.
Qed.

Section tokens.
Context `{CratesSpec}.

Lemma hex_encode_hex b : hexadecimals (chars (hex_encode b)).
Proof.
  eapply Forall_impl; [apply hex_encode_digits|]. intros c Hc. cbn in Hc.
  repeat (apply elem_of_cons in Hc as [->|Hc]; [by eexists|]). by apply elem_of_nil in Hc.
Qed.
Lemma hex_encode_no_dot b : contains_char "." (hex_encode b) = false.
Proof. apply not_in. by apply hex_without, hex_encode_hex. Qed.
Lemma lower_hex_no_dot n : contains_char "." (lower_hex n) = false.
Proof. apply not_in. by apply hex_without, lower_hex_hex. Qed.

(** A token of a key, by its date. *)
Definition token_of (access_key secret_key issued_hex : string) : string :=
  let fp := session_fingerprint access_key secret_key in
  issued_hex +:+ "." +:+ session_signature access_key secret_key issued_hex fp +:+ "." +:+ fp.
Definition fresh (now issued_at : Z) : Prop :=
  (wrap_i64 (now - issued_at) <= TOKEN_MAX_AGE_SECS /\ issued_at <= now + 60)%Z.
Definition minted (now : Z) (token access_key secret_key : string) : Prop := exists issued_hex issued_at,
  contains_char "." issued_hex = false /\ i64_of_hex issued_hex = Some issued_at /\ fresh now issued_at /\
  token = token_of access_key secret_key issued_hex.

Lemma split_token ak sk issued_hex : contains_char "." issued_hex = false ->
  split_char "." (token_of ak sk issued_hex) =
  [issued_hex; session_signature ak sk issued_hex (session_fingerprint ak sk); session_fingerprint ak sk].
Proof.
  intros Hi. unfold token_of. set (fp := session_fingerprint ak sk). set (sg := session_signature ak sk issued_hex fp).
  change (issued_hex +:+ "." +:+ sg +:+ "." +:+ fp) with (issued_hex +:+ String "." (sg +:+ String "." fp)).
  rewrite !split_char_app, !split_char_no by (exact Hi || apply hex_encode_no_dot). done.
Qed.

(** The check accepts exactly the tokens made with the secret of the key. *)
Lemma verify_session_token_spec now token ak sk : verify_session_token now token ak sk = true <-> minted now token ak sk.
Proof.
  unfold verify_session_token. split.
  - destruct (split_char "." token) as [|issued_hex [|signature [|fp [|]]]] eqn:E; try done.
    destruct (constant_time_eq (as_bytes fp) _) eqn:Ef; [|done]. apply constant_time_eq_same, (inj as_bytes) in Ef.
    cbn [negb]. destruct (i64_of_hex issued_hex) as [issued_at|] eqn:Ei; [|done]. case_match eqn:Ew; [done|].
    intros Es%constant_time_eq_same%(inj as_bytes). apply orb_false_iff in Ew as [W1%Z.ltb_ge W2%Z.ltb_ge].
    exists issued_hex, issued_at. split_and!; [|done|done|].
    + apply (split_char_pieces "." token). rewrite E. by left.
    + rewrite <-(join_split "." token), E. cbn [join_with]. by subst.
  - intros (issued_hex & issued_at & Hi & Ei & [W1 W2] & ->). rewrite split_token by done. rewrite (proj2 (constant_time_eq_same _ _) eq_refl).
    cbn [negb]. rewrite Ei. rewrite (proj2 (Z.ltb_ge _ _) W1), (proj2 (Z.ltb_ge _ _) W2). cbn [orb].
    by apply constant_time_eq_same.
Qed.

Lemma generated_is_minted now ak sk issued_at : (0 <= issued_at <= now)%Z -> (now <= 2 ^ 62)%Z ->
  (now - issued_at <= TOKEN_MAX_AGE_SECS)%Z -> minted now (generate_session_token ak sk issued_at) ak sk.
Proof.
  intros Hi Hn Hw. exists (lower_hex issued_at), issued_at. split_and!; [apply lower_hex_no_dot|apply i64_of_lower_hex; lia| |done].
  split; [|lia]. unfold wrap_i64. rewrite Z.mod_small by lia. lia.
Qed.

Lemma generated_is_legacy ak sk issued_at : is_legacy_console_session (generate_session_token ak sk issued_at) = true.
Proof.
  unfold is_legacy_console_session. change (generate_session_token ak sk issued_at) with (token_of ak sk (lower_hex issued_at)).
  rewrite split_token by apply lower_hex_no_dot.
  assert (Hf : forall l, hexadecimals l -> forallb is_ascii_hexdigit l = true).
  { intros l Hl. apply forallb_forall. intros c Hc. apply list_elem_of_In in Hc. unfold hexadecimals in Hl. rewrite Forall_forall in Hl.
    apply bool_decide_eq_true. by apply Hl. }
  rewrite !Hf by (apply lower_hex_hex || apply hex_encode_hex).
  destruct (lower_hex_cons issued_at) as (c & l & E). rewrite bool_decide_eq_false_2 by (intros E'; by rewrite E' in E).
  unfold session_fingerprint. rewrite hex_encode_length, length_take, sha256_length. done.
Qed.
End tokens.

(** ** The monad *)

Section steps.
Context `{KeycloakHttp}.

Lemma Console_bind_ok {A B} (m : Console A) (f : A -> Console B) s s' b :
  (m ≫= f) s = (s', Ok b) <-> exists a s1, m s = (s1, Ok a) /\ f a s1 = (s', Ok b).
Proof.
  unfold mbind, Console_bind. destruct (m s) as [s1 [a|e]]; split; [by eauto|by intros (? & ? & [= <- <-] & ?)|done|].
  by intros (? & ? & ? & _).
Qed.
Lemma Console_run_ok {A B} (m : Console A) (f : A -> Console B) s s1 a : m s = (s1, Ok a) -> (m ≫= f) s = f a s1.
Proof. intros Hm. unfold mbind, Console_bind. by rewrite Hm. Qed.
Lemma Console_run_err {A B} (m : Console A) (f : A -> Console B) s s1 e : m s = (s1, Err e) -> (m ≫= f) s = (s1, Err e).
Proof. intros Hm. unfold mbind, Console_bind. by rewrite Hm. Qed.

(** The state after the clock is read. *)
Definition ticked (s : ConsoleState) : ConsoleState :=
  with_world s (mk_world (w_tree (sv_world (cs_server s))) (w_index (sv_world (cs_server s))) (S (w_tick (sv_world (cs_server s))))).
Lemma console_tick_run s : console_tick s = (ticked s, Ok (w_tick (sv_world (cs_server s)))).
Proof. done. Qed.
Lemma parsed_ok value s s' v : parsed value s = (s', Ok v) -> s' = s /\ v = value.
Proof. unfold parsed. destruct (header_text value); [by intros [= <- <-]|done]. Qed.
End steps.

(** ** Sessions *)

Section sessions.
Context `{EnvironmentSpec} `{CratesSpec} `{Serde} `{SerdeJson} `{Aead} `{ReedSolomon} `{HexDecode} `{Buffering}.
Context `{!KeyService FilesystemStorage} `{PercentEncoding} `{Process} `{KeycloakHttp} `{Redis} `{AmzClock}.
Context (app : ConsoleApp).
Abbreviation credentials := (as_credentials (ca_app app)).

(** The time of a state, in seconds. *)
Definition time_of (s : ConsoleState) : Z := (utc_now (w_tick (sv_world (cs_server s))) / nanos)%Z.
Definition distinct_fingerprints (cred : CredentialEntry) : Prop := forall key other,
  lookup_credential credentials key = Some other ->
  session_fingerprint (ce_access_key other) (ce_secret_key other) = session_fingerprint (ce_access_key cred) (ce_secret_key cred) ->
  other = cred.

Lemma enabled_entry store key c : wf_store store -> lookup_credential store key = Some c ->
  c ∈ omap (lookup_credential store) (list_access_keys store).
Proof.
  intros Hwf Hc. apply list_elem_of_omap. exists key. split; [|done].
  apply lookup_credential_Some in Hc as [Hk He]. unfold list_access_keys, enabled_entries. apply list_elem_of_fmap.
  exists c. split; [by destruct (Hwf key c Hk)|]. apply list_elem_of_filter. split; [done|].
  apply list_elem_of_fmap. exists (key, c). split; [done|]. by apply elem_of_map_to_list.
Qed.

Lemma fingerprint_found cred : wf_store credentials -> (exists key, lookup_credential credentials key = Some cred) ->
  distinct_fingerprints cred ->
  lookup_by_session_fingerprint credentials (session_fingerprint (ce_access_key cred) (ce_secret_key cred)) = Some cred.
Proof.
  intros Hwf [key Hk] Hd. unfold lookup_by_session_fingerprint. destruct (find _ _) as [other|] eqn:E.
  - apply find_some in E as [Hin Hf]. apply list_elem_of_In, list_elem_of_omap in Hin as (k & _ & Hk').
    apply bool_decide_eq_true in Hf. f_equal. by eapply Hd.
  - assert (Hin : In cred (omap (lookup_credential credentials) (list_access_keys credentials))).
    { apply list_elem_of_In. by eapply enabled_entry. }
    pose proof (find_none _ _ E cred Hin) as Hn. by apply bool_decide_eq_false in Hn.
Qed.

Lemma resolve_minted now token cred : wf_store credentials -> (exists key, lookup_credential credentials key = Some cred) ->
  distinct_fingerprints cred -> minted now token (ce_access_key cred) (ce_secret_key cred) ->
  resolve_legacy_console_access_key now credentials token = Some (ce_access_key cred).
Proof.
  intros Hwf Hk Hd Hm. unfold resolve_legacy_console_access_key.
  assert (Hs : split_char "." token !! 2 = Some (session_fingerprint (ce_access_key cred) (ce_secret_key cred))).
  { destruct Hm as (ih & ia & Hi & _ & _ & ->). by rewrite split_token. }
  rewrite Hs. cbn [mbind option_bind]. rewrite fingerprint_found by done. cbn [mbind option_bind].
  by rewrite (proj2 (verify_session_token_spec _ _ _ _) Hm).
Qed.

(** The cookie of a request. *)
Lemma cookie_read h token : header h "cookie" = Some (COOKIE_NAME +:+ "=" +:+ token) ->
  trim (COOKIE_NAME +:+ "=" +:+ token) = COOKIE_NAME +:+ "=" +:+ token -> contains_char ";" token = false ->
  extract_cookie h = Some token.
Proof.
  intros Hh Ht Hs. unfold extract_cookie, extract_refresh_cookie. rewrite Hh. cbn [mbind option_bind].
  rewrite split_char_no by (rewrite !contains_app; by rewrite Hs). cbn [map]. rewrite Ht. cbn [find].
  assert (Hp : strip_prefix (COOKIE_NAME +:+ "=") (COOKIE_NAME +:+ "=" +:+ token) = Some token) by (by apply strip_prefix_Some; rewrite str_app_assoc).
  assert (starts_with (COOKIE_NAME +:+ "=" +:+ token) (COOKIE_NAME +:+ "=") = true) as -> by (unfold starts_with; by rewrite Hp).
  cbn [mbind option_bind]. exact Hp.
Qed.

(** The characters of a token. *)
Lemma token_graphic ak sk n : Forall (fun c => graphic c /\ c <> ";"%char) (chars (generate_session_token ak sk n)).
Proof.
  assert (Hh : forall l, hexadecimals l -> Forall (fun c => graphic c /\ c <> ";"%char) l).
  { intros l Hl. eapply Forall_impl; [exact Hl|]. intros c [d Hc]. cbn in Hc.
    destruct c as [[] [] [] [] [] [] [] []]; (split; [done|done]) || (by vm_compute in Hc). }
  unfold generate_session_token. rewrite !chars_app, !Forall_app.
  split_and!; try (apply Hh; apply lower_hex_hex || apply hex_encode_hex).
  all: by repeat constructor.
Qed.
Lemma token_cookie ak sk n h : let token := generate_session_token ak sk n in
  header h "cookie" = Some (COOKIE_NAME +:+ "=" +:+ token) -> extract_cookie h = Some token.
Proof.
  intros token Hh. pose proof (token_graphic ak sk n) as Hg. fold token in Hg. apply cookie_read; [done| |].
  - apply trim_graphic. rewrite !chars_app, !Forall_app. split_and!; [by repeat constructor..|].
    eapply Forall_impl; [exact Hg|]. by intros c [? _].
  - apply not_in. intros Hin. rewrite Forall_forall in Hg. by destruct (Hg _ Hin).
Qed.

(** What a session token of a key is worth at a time. *)
Lemma session_token_worth cred key issued_at now : wf_store credentials -> lookup_credential credentials key = Some cred ->
  distinct_fingerprints cred -> (0 <= issued_at <= now)%Z -> (now <= 2 ^ 62)%Z ->
  resolve_legacy_console_access_key now credentials (generate_session_token (ce_access_key cred) (ce_secret_key cred) issued_at) =
  if (now - issued_at <=? TOKEN_MAX_AGE_SECS)%Z then Some key else None.
Proof.
  intros Hwf Hk Hd Hi Hn. assert (Hkey : ce_access_key cred = key) by (apply lookup_credential_Some in Hk as [Hk _]; by destruct (Hwf key cred Hk)).
  destruct (Z.leb_spec (now - issued_at) TOKEN_MAX_AGE_SECS) as [Hle|Hgt].
  - rewrite <-Hkey. apply resolve_minted; [done|by exists key|done|]. by apply generated_is_minted.
  - unfold resolve_legacy_console_access_key. change (generate_session_token (ce_access_key cred) (ce_secret_key cred) issued_at)
      with (token_of (ce_access_key cred) (ce_secret_key cred) (lower_hex issued_at)).
    rewrite split_token by apply lower_hex_no_dot. cbn [lookup list_lookup mbind option_bind].
    rewrite fingerprint_found by (done || by exists key). cbn [mbind option_bind].
    destruct (verify_session_token _ _ _ _) eqn:E; [|done]. exfalso. apply verify_session_token_spec in E as (ih & ia & Hih & Eia & [Hf _] & Et).
    apply (f_equal (split_char ".")) in Et. rewrite !split_token in Et by (done || apply lower_hex_no_dot). injection Et as <- _.
    rewrite i64_of_lower_hex in Eia by lia. injection Eia as <-. unfold wrap_i64 in Hf. rewrite Z.mod_small in Hf by lia. lia.
Qed.

Lemma acquire_login_ticks ip s s' a : acquire_login ip s = (s', Ok a) ->
  w_tick (sv_world (cs_server s')) = S (w_tick (sv_world (cs_server s))).
Proof.
  unfold acquire_login. rewrite (Console_run_ok _ _ _ _ _ (console_tick_run s)). unfold on_console.
  destruct (check_and_increment _ _ _ _) as [l [r|]]; [done|]. by intros [= <- _].
Qed.

(** C14: a login that is answered 200 was made with the secret of an enabled key,
    and the cookie it hands out stands for that key for seven days and not a
    second longer, whoever sends it and whatever happened in between; unless two
    enabled keys share a fingerprint of 32 bits. *)
Theorem login_opens_a_session addr h body s s' reply : wf_store credentials ->
  login app addr h body s = (s', Ok reply) -> exists cred token n,
  lookup_credential credentials (lq_access_key body) = Some cred /\ lq_secret_key body = ce_secret_key cred /\
  re_headers reply = [("content-type", "application/json"); ("Set-Cookie", make_cookie token TOKEN_MAX_AGE_SECS (cookie_secure app))] /\
  w_tick (sv_world (cs_server s)) < n < w_tick (sv_world (cs_server s')) /\
  (distinct_fingerprints cred -> forall h2 s2,
    let issued_at := (utc_now n / nanos)%Z in
    header h2 "cookie" = Some (COOKIE_NAME +:+ "=" +:+ token) -> (0 <= issued_at <= time_of s2)%Z -> (time_of s2 <= 2 ^ 62)%Z ->
    authenticate app h2 s2 =
    (ticked s2, if (time_of s2 - issued_at <=? TOKEN_MAX_AGE_SECS)%Z then Ok (lq_access_key body) else Err (Answer not_authenticated))).
Proof.
  intros Hwf. unfold login. rewrite Console_bind_ok. intros (u & s1 & Ea & El). apply acquire_login_ticks in Ea.
  destruct (lookup_credential credentials (lq_access_key body)) as [cred|] eqn:Ec; [|done].
  destruct (constant_time_eq (as_bytes (lq_secret_key body)) (as_bytes (ce_secret_key cred))) eqn:Es; [|done].
  apply constant_time_eq_same, (inj as_bytes) in Es. cbn [negb] in El.
  rewrite (Console_run_ok _ _ _ _ _ (console_tick_run s1)), Console_bind_ok in El. destruct El as (cookie & s2 & Ep & El).
  apply parsed_ok in Ep as [-> ->]. injection El as <- <-. set (n := w_tick (sv_world (cs_server s1))) in *.
  exists cred, (generate_session_token (ce_access_key cred) (ce_secret_key cred) (utc_now n / nanos)%Z), n.
  split_and!; [done|done|done|lia|cbn; lia|]. intros Hd h2 s2 Hh Hi Hm. unfold authenticate.
  rewrite (token_cookie _ _ _ _ Hh). unfold resolve_console_principal.
  unfold mbind, Console_bind. rewrite console_tick_run, generated_is_legacy.
  change (utc_now (w_tick (sv_world (cs_server s2))) / nanos)%Z with (time_of s2).
  cbn [mret Console_ret]. rewrite (session_token_worth cred (lq_access_key body)) by done.
  by destruct (_ <=? TOKEN_MAX_AGE_SECS)%Z.
Qed.
End sessions.


(** ** Requests about a bucket *)

(** Without an escape nothing is decoded. *)
Class ConsoleRouterSpec `{ConsoleRouter} : Prop := {
  decode_plain raw : contains_char "%" raw = false -> decode_segment raw = Some raw;
}.

Section confinement.
Context `{EnvironmentSpec} `{CratesSpec} `{Serde} `{SerdeJson} `{Aead} `{ReedSolomon} `{HexDecode} `{Buffering}.
Context `{!KeyService FilesystemStorage} `{PercentEncoding} `{Process} `{KeycloakHttp} `{Redis} `{AmzClock}.
Context `{ConsoleRouterSpec} `{!FromBody LoginRequest} `{!FromBody KeycloakLoginRequest} `{!FromBody KeycloakRefreshRequest}.
Context `{!FromBody CreateBucketRequest} `{!FromBody CreateFolderRequest} `{!FromBody SetVersioningRequest}.
Context `{!FromBody SetEncryptionRequest} `{!FromBody SetPublicRequest}.
Context `{!FromQuery ListObjectsParams} `{!FromQuery PresignParams} `{!FromQuery ListVersionsParams}.
Context (app : ConsoleApp).
Abbreviation st := (as_storage (ca_app app)).
Abbreviation config := (as_config (ca_app app)).
Abbreviation credentials := (as_credentials (ca_app app)).

(** Whom a session stands for: the owner of the secret that minted its cookie, or
    the one principal of the users of the identity provider. *)
Definition session_of (p : string) (h : HeaderMap) (s : ConsoleState) : Prop := exists token, extract_cookie h = Some token /\
  ((exists key cred, lookup_credential credentials key = Some cred /\ ce_access_key cred = p /\
      minted (time_of s) token p (ce_secret_key cred)) \/
   (exists settings, ca_keycloak app = Some settings /\
      is_ok (snd (validate_access_token settings (w_tick (sv_world (cs_server s))) token (cs_jwks s))) = true /\
      p = (let access_key := trim (ca_keycloak_console_access_key app) in if decide (access_key = "") then cf_access_key config else access_key))).

Definition same_files (s s' : ConsoleState) : Prop :=
  w_tree (sv_world (cs_server s')) = w_tree (sv_world (cs_server s)) /\ w_index (sv_world (cs_server s')) = w_index (sv_world (cs_server s)).
Definition gate_refusal (out : result stop Reply) : Prop := exists r, out = Err (Answer r) /\ re_status r ∈ [401; 403; 404]%Z.

Lemma resolve_legacy_Some now token p : resolve_legacy_console_access_key now credentials token = Some p ->
  exists key cred, lookup_credential credentials key = Some cred /\ ce_access_key cred = p /\ minted now token p (ce_secret_key cred).
Proof.
  unfold resolve_legacy_console_access_key. destruct (split_char "." token !! 2) as [fp|]; [|done]. cbn [mbind option_bind].
  unfold lookup_by_session_fingerprint. destruct (find _ _) as [cred|] eqn:Ef; [|done]. cbn [mbind option_bind].
  apply find_some in Ef as [Hin _]. apply list_elem_of_In, list_elem_of_omap in Hin as (key & _ & Hk).
  destruct (verify_session_token _ _ _ _) eqn:Ev; [|done]. intros [= <-]. exists key, cred. split_and!; [done..|].
  by apply verify_session_token_spec.
Qed.

Lemma authenticate_spec h s s' out : authenticate app h s = (s', out) -> same_files s s' /\
  match out with Ok p => session_of p h s | Err e => e = Answer not_authenticated end.
Proof.
  unfold authenticate. destruct (extract_cookie h) as [token|] eqn:Ec; [|by intros [= <- <-]].
  unfold resolve_console_principal, mbind, Console_bind. rewrite console_tick_run.
  destruct (is_legacy_console_session token).
  - cbn. change (utc_now _ / nanos)%Z with (time_of s). destruct (resolve_legacy_console_access_key (time_of s) credentials token) as [p|] eqn:Er.
    + intros [= <- <-]. split; [done|]. exists token. split; [done|]. left. by apply resolve_legacy_Some.
    + by intros [= <- <-].
  - destruct (ca_keycloak app) as [settings|] eqn:Ek; [|by intros [= <- <-]]. unfold on_console.
    change (cs_jwks (ticked s)) with (cs_jwks s). destruct (validate_access_token _ _ _ _) as [jwks r] eqn:Ev.
    destruct (is_ok r) eqn:Er; intros [= <- <-]; (split; [done|]); [|done]. exists token. split; [done|]. right.
    exists settings. rewrite Ev. split_and!; [done|exact Er|done].
Qed.

(** A principal the gate of a bucket lets through: its tenant is that of the
    bucket, or the record of the bucket cannot be read. *)
Definition unreadable (b : string) (w : world) : Prop := exists e,
  Storage.head_bucket st b w = (w, Err e) \/ get_bucket_meta st b w = (w, Err e).
Definition admitted (p b : string) (w : world) : Prop :=
  (exists meta, get_bucket_meta st b w = (w, Ok meta) /\ bucket_access_allowed meta p (lookup_credential credentials p) config = true) \/
  unreadable b w.

Lemma ensure_spec p b w : exists r, ensure_bucket_access st config credentials p b w = (w, r) /\
  match r with
  | Ok _ => validate_bucket_name b = Ok tt /\ admitted p b w
  | Err e => se_code e = AccessDenied \/ se_code e = NoSuchBucket \/ (validate_bucket_name b = Ok tt /\ admitted p b w)
  end.
Proof.
  unfold ensure_bucket_access, find_bucket_meta, admitted, unreadable, mbind, M_bind. pose proof (head_bucket_reads st b w) as Hw.
  destruct (Storage.head_bucket st b w) as [w1 r] eqn:Eh. cbn in Hw. subst w1.
  assert (Hv : validate_bucket_name b = Ok tt \/ exists msg, r = Err (InvalidKey msg)).
  { unfold Storage.head_bucket, mbind, M_bind, lift in Eh. destruct (validate_bucket_name b) as [[]|e] eqn:Ev; [by left|].
    unfold validate_bucket_name in Ev. destruct (is_valid_bucket_name b); [done|]. injection Ev as <-. injection Eh as <-. right. by eexists. }
  destruct Hv as [Hv|[msg ->]]; [|eexists; split; [done|]; by right; left].
  destruct r as [[|]|e].
  - pose proof (read_bucket_meta_reads st b w) as Hg. unfold get_bucket_meta in *.
    destruct (read_bucket_meta st b w) as [w1 [meta|e]] eqn:Eg; cbn in Hg; subst w1.
    + destruct (bucket_access_allowed meta p _ config) eqn:Ea; eexists; (split; [done|]); [|by left].
      split; [done|]. left. by exists meta.
    + destruct e; (eexists; split; [done|]); (by right; left) || (right; right; split; [done|]; right; eexists; by right).
  - eexists. split; [done|]. by right; left.
  - destruct e; (eexists; split; [done|]); (by right; left) || (right; right; split; [done|]; right; eexists; by left).
Qed.

Lemma stored_run {E A} (m : M E A) s w r : m (sv_world (cs_server s)) = (w, r) -> stored m s = (with_world s w, Ok r).
Proof. intros Hm. unfold stored. by rewrite Hm. Qed.
Lemma with_same_world s : with_world s (sv_world (cs_server s)) = s.
Proof. by destruct s as [[] ? ?]. Qed.

Lemma console_bucket_gate_spec p b s s' out : console_bucket_gate app p b s = (s', out) -> s' = s /\
  match out with
  | Ok _ => validate_bucket_name b = Ok tt /\ admitted p b (sv_world (cs_server s))
  | Err e => exists r, e = Answer r /\ re_status r ∈ [401; 403; 404]%Z
  end.
Proof.
  unfold console_bucket_gate. destruct (ensure_spec p b (sv_world (cs_server s))) as (r & Er & Hr).
  rewrite (Console_run_ok _ _ _ _ _ (stored_run _ _ _ _ Er)), with_same_world. destruct r as [meta|e]; [by intros [= <- <-]|].
  case_decide as D1; [intros [= <- <-]; split; [done|]; eexists; split; [done|]; by apply (bool_decide_unpack _)|].
  case_decide as D2; [intros [= <- <-]; split; [done|]; eexists; split; [done|]; by apply (bool_decide_unpack _)|].
  intros [= <- <-]. split; [done|]. destruct Hr as [?|[?|?]]; done.
Qed.

(** The path the gate of the bucket looks at names the bucket of the route. *)
Lemma console_path_bucket path raw rest : split_char "/" path = "" :: "buckets" :: raw :: rest -> raw <> "" ->
  bucket_from_console_path path = Some raw.
Proof.
  intros Hp Hr. set (tail := join_with "/" ("buckets" :: raw :: rest)).
  assert (Hpath : path = "/" +:+ tail) by (by rewrite <-(join_split "/" path), Hp).
  assert (Ht : split_char "/" tail = "buckets" :: raw :: rest).
  { apply split_join_with; [done|]. apply Forall_forall. intros x Hx. apply (split_char_pieces "/" path). rewrite Hp. by right. }
  assert (Htail : exists t, tail = String "b" t) by (by eexists). destruct Htail as [t Htail]. unfold bucket_from_console_path.
  rewrite Hpath, trim_start_slash, Htail, trim_start_other by done.
  rewrite <-Htail, Ht. by rewrite decide_False by (by intros [?|?]).
Qed.

Lemma valid_name_plain b : validate_bucket_name b = Ok tt -> contains_char "%" b = false.
Proof.
  unfold validate_bucket_name. destruct (is_valid_bucket_name b) eqn:E; [|done]. intros _. apply not_in. intros Hin.
  unfold is_valid_bucket_name in E. case_match; [done|]. destruct (forallb bucket_name_char (chars b)) eqn:Ef; [|done].
  apply list_elem_of_In in Hin. by apply (proj1 (forallb_forall _ _) Ef) in Hin.
Qed.

Lemma no_public_bucket_route r addr body raw rest : split_char "/" (rq_path r) = "" :: "buckets" :: raw :: rest ->
  public_route app r addr body = None.
Proof.
  intros Hp. unfold public_route.
  repeat (rewrite decide_False; [|intros E; rewrite E in Hp; vm_compute in Hp; discriminate]). done.
Qed.

(** Where a request says it comes from, and that it is the console: the same host
    or, in development mode, one loopback host for another. *)
Definition told_origin (h : HeaderMap) : option string :=
  match header h "origin" with Some o => Some o | None => header h "referer" end.
Definition same_site (origin host : string) : Prop := exists from, origin_host origin = Some from /\
  (eq_ignore_ascii_case from host = true \/
   (ca_allow_insecure_dev app = true /\ is_loopback_host from = true /\ is_loopback_host host = true)).

Lemma csrf_ok_same_site r : csrf_ok app r = true -> rq_method r ∈ ["POST"; "PUT"; "PATCH"; "DELETE"] ->
  forall origin, told_origin (rq_headers r) = Some origin -> same_site origin (default "" (header (rq_headers r) "host")).
Proof.
  unfold csrf_ok, mutating. intros Hc Hm origin Ho. rewrite bool_decide_eq_true_2 in Hc by done. cbn [negb] in Hc.
  change (match header (rq_headers r) "origin" with Some o => Some o | None => header (rq_headers r) "referer" end)
    with (told_origin (rq_headers r)) in Hc. rewrite Ho in Hc. unfold same_site.
  unfold same_origin_host, dev_loopback_origin_allowed in Hc. destruct (origin_host origin) as [from|]; [|by destruct (ca_allow_insecure_dev app)].
  exists from. split; [done|]. apply orb_true_iff in Hc as [?|Hd]; [by left|right].
  apply andb_true_iff in Hd as [? [? ?]%andb_true_iff]. done.
Qed.

(** C6: a request about a bucket is answered by its handler only with a live
    session, whose cookie was minted with the secret of an enabled key or is a
    token of the identity provider that checks; for a principal that the bucket
    admits by its tenant, or when the record of the bucket cannot be read; and, if
    it changes something and names an origin or else a referer, when that is the
    host of the request, or, in development mode, both are loopback hosts.  Every
    other request is refused with 401, 403 or 404 and changes no file.  The bucket
    the gate looks at is the one the handler works on, however the path is
    escaped. *)
Theorem console_requests_are_confined r addr body m raw rest s s' out :
  split_char "/" (rq_path r) = "" :: "buckets" :: raw :: rest -> raw <> "" ->
  console_router app r addr body = Some m -> m s = (s', out) ->
  (gate_refusal out /\ same_files s s') \/
  exists p s1, session_of p (rq_headers r) s /\ same_files s s1 /\
    validate_bucket_name raw = Ok tt /\ decode_segment raw = Some raw /\ admitted p raw (sv_world (cs_server s1)) /\
    (rq_method r ∈ ["POST"; "PUT"; "PATCH"; "DELETE"] -> forall origin, told_origin (rq_headers r) = Some origin ->
       same_site origin (default "" (header (rq_headers r) "host"))) /\
    (s', out) = secured (default (answer wrong_method) (protected_route app p r body)) s1.
Proof.
  intros Hp Hr Hm Hrun. unfold console_router in Hm. rewrite (no_public_bucket_route _ _ _ _ _ Hp) in Hm.
  destruct (protected_route app "" r body); [|done]. injection Hm as <-. unfold protected in Hrun.
  revert Hrun. unfold mbind at 1, Console_bind at 1. destruct (authenticate app (rq_headers r) s) as [s1 [p|e]] eqn:Ea;
    apply authenticate_spec in Ea as [Hs Ha].
  2: { intros [= <- <-]. left. subst e. split; [|done]. eexists. split; [done|]. by apply (bool_decide_unpack _). }
  unfold mbind, Console_bind, console_tenant_gate. rewrite (console_path_bucket _ _ _ Hp Hr).
  destruct (console_bucket_gate app p raw s1) as [s2 [u|e]] eqn:Eg; apply console_bucket_gate_spec in Eg as [-> Hg].
  2: { intros [= <- <-]. left. split; [|done]. destruct Hg as (x & -> & Hx). by exists x. }
  destruct (csrf_ok app r) eqn:Ec.
  2: { intros [= <- <-]. left. split; [|done]. eexists. split; [done|]. by apply (bool_decide_unpack _). }
  intros Hrun. right. exists p, s1. destruct Hg as [Hv Had]. split_and!; try done.
  - apply decode_plain. by apply valid_name_plain.
  - by apply csrf_ok_same_site.
Qed.
End confinement.


(** ** Presigned links *)

(** The two formats are digits and letters; the second reads back to the second. *)
Class AmzClockSpec `{Process} `{AmzClock} : Prop := {
  date_stamp_plain n : Forall (fun c => unreserved c = true) (chars (date_stamp_at n));
  amz_date_plain n : Forall (fun c => unreserved c = true) (chars (amz_date_at n));
  amz_date_reads n : parse_amz_date (amz_date_at n) = Some (utc_now n / nanos * nanos)%Z;
}.

Lemma unreserved_without c s : unreserved c = false -> Forall (fun c => unreserved c = true) (chars s) -> contains_char c s = false.
Proof. intros Hc Hs. apply not_in. intros Hin. rewrite Forall_forall in Hs. specialize (Hs c Hin). congruence. Qed.
Lemma join_with_snoc sep l x : l <> [] -> join_with sep (l ++ [x]) = join_with sep l +:+ sep +:+ x.
Proof.
  induction l as [|a l IH]; [done|]. intros _. destruct l as [|b l]; [done|].
  change ((a :: b :: l) ++ [x]) with (a :: (b :: l) ++ [x]). rewrite join_with_cons by done. rewrite IH by done.
  rewrite (join_with_cons sep a (b :: l)) by done. by rewrite !str_app_assoc.
Qed.
Lemma pretty_N_unreserved x s : Forall (fun c => unreserved c = true) (chars s) ->
  Forall (fun c => unreserved c = true) (chars (pretty_N_go x s)).
Proof.
  revert s. induction (N.lt_wf_0 x) as [x _ IH]; intros s Hs.
  assert (x = 0 \/ 0 < x)%N as [->|Hpos] by lia; [by rewrite pretty_N_go_0|]. rewrite pretty_N_go_step by done.
  apply IH; [by apply N.div_lt|]. constructor; [|done]. pose proof (N.mod_lt x 10 ltac:(done)) as Hd.
  destruct (pretty_digit _ Hd) as [E _]. revert E. generalize (pretty_N_char (x mod 10)). intros c Hc.
  destruct c as [[] [] [] [] [] [] [] []]; vm_compute in Hc; done.
Qed.
Lemma pretty_unreserved n : (0 <= n)%Z -> Forall (fun c => unreserved c = true) (chars (pretty n)).
Proof.
  intros Hn. destruct n as [|p|p]; [by repeat constructor|by apply pretty_N_unreserved; constructor|lia].
Qed.

Section links.
Context `{CratesSpec} `{PercentEncodingSpec}.

Lemma decode_unreserved s : rust_string s -> Forall (fun c => unreserved c = true) (chars s) -> percent_decode_lossy s = s.
Proof. intros Hs Hu. rewrite <-(encode_unreserved s) at 1 by done. by apply decode_encode. Qed.

(** The pairs of the query that is signed. *)
Definition signed_pairs (credential amz_date expires : string) : list string :=
  ["X-Amz-Algorithm=AWS4-HMAC-SHA256"; "X-Amz-Credential=" +:+ percent_encode credential; "X-Amz-Date=" +:+ amz_date;
   "X-Amz-Expires=" +:+ expires; "X-Amz-SignedHeaders=host"].
Definition credential_of (access_key date_stamp region : string) : string :=
  access_key +:+ "/" +:+ date_stamp +:+ "/" +:+ region +:+ "/s3/aws4_request".

Lemma presigned_query_pairs ak ds ad region e : (0 <= e)%Z -> Forall (fun c => unreserved c = true) (chars ad) ->
  presigned_query ak ds ad region e = join_with "&" (signed_pairs (credential_of ak ds region) ad (pretty e)).
Proof.
  intros He Had. unfold presigned_query, signed_pairs, credential_of. cbn [map].
  rewrite (encode_unreserved "X-Amz-Algorithm"), (encode_unreserved "X-Amz-Credential"), (encode_unreserved "X-Amz-Date"),
    (encode_unreserved "X-Amz-Expires"), (encode_unreserved "X-Amz-SignedHeaders"), (encode_unreserved "AWS4-HMAC-SHA256"),
    (encode_unreserved "host"), (encode_unreserved ad), (encode_unreserved (pretty e)) by (done || (by apply pretty_unreserved) || by repeat constructor).
  done.
Qed.

(** What the link of an object carries. *)
Record link : Type := mk_link { ln_access_key : string; ln_date_stamp : string; ln_amz_date : string; ln_region : string; ln_expires : Z }.
Definition credential (l : link) : string := credential_of (ln_access_key l) (ln_date_stamp l) (ln_region l).
Definition link_pairs (l : link) : list string := signed_pairs (credential l) (ln_amz_date l) (pretty (ln_expires l)).
Definition link_query (l : link) (signature : string) : string :=
  presigned_query (ln_access_key l) (ln_date_stamp l) (ln_amz_date l) (ln_region l) (ln_expires l) +:+ "&X-Amz-Signature=" +:+ signature.
Record wf_link (l : link) : Prop := {
  link_key_plain : contains_char "/" (ln_access_key l) = false;
  link_region_plain : contains_char "/" (ln_region l) = false;
  link_stamp : Forall (fun c => unreserved c = true) (chars (ln_date_stamp l));
  link_date : Forall (fun c => unreserved c = true) (chars (ln_amz_date l));
  link_expiry : (0 <= ln_expires l <= 604800)%Z;
  link_string : rust_string (credential l);
}.
Definition link_auth (l : link) (signature : string) : ParsedAuth :=
  mk_ParsedAuth (ln_access_key l) (ln_date_stamp l) (ln_region l) ["host"] signature.

Lemma link_pairs_clean l : wf_link l -> Forall (fun s => contains_char "&" s = false) (link_pairs l).
Proof.
  intros [_ _ _ Hd He _]. unfold link_pairs, signed_pairs. repeat constructor; rewrite contains_app.
  - by rewrite (encode_without "&").
  - by rewrite (unreserved_without "&" (ln_amz_date l)).
  - rewrite (unreserved_without "&" (pretty (ln_expires l))); [done|done|apply pretty_unreserved; lia].
Qed.
Lemma link_query_pairs l signature : wf_link l -> contains_char "&" signature = false ->
  pairs_of (link_query l signature) = link_pairs l ++ ["X-Amz-Signature=" +:+ signature].
Proof.
  intros Hl Hs. unfold link_query. pose proof (link_expiry l Hl). rewrite presigned_query_pairs by (lia || apply Hl).
  change (?a +:+ "&X-Amz-Signature=" +:+ signature) with (a +:+ "&" +:+ ("X-Amz-Signature=" +:+ signature)).
  change (signed_pairs _ _ _) with (link_pairs l). rewrite <-join_with_snoc by done. apply split_join_with; [by destruct (link_pairs l)|].
  apply Forall_app. split; [by apply link_pairs_clean|]. constructor; [|constructor]. by rewrite contains_app, Hs.
Qed.

Lemma link_credential l signature : wf_link l -> parsed_auth (credential l) "host" signature = Ok (link_auth l signature).
Proof.
  intros Hl. unfold parsed_auth, credential, credential_of.
  change (?a +:+ "/" +:+ ?b +:+ "/" +:+ ?c +:+ "/s3/aws4_request") with (a +:+ String "/" (b +:+ String "/" (c +:+ String "/" "s3/aws4_request"))).
  cbn [splitn]. rewrite (split_once_first "/") by apply Hl.
  rewrite (split_once_first "/") by (apply unreserved_without; [done|apply Hl]). rewrite (split_once_first "/") by apply Hl. done.
Qed.

Lemma link_parses l signature : wf_link l -> contains_char "&" signature = false ->
  parse_presigned_query (link_query l signature) = Ok (link_auth l signature, ln_amz_date l, ln_expires l).
Proof.
  intros Hl Hs. pose proof (link_query_pairs l signature Hl Hs) as Hq. pose proof (link_expiry l Hl) as He.
  assert (Hf : forall name, find_param name (link_query l signature) =
    last (omap (fun pair => let '(k, v) := pair_of pair in if query_param_key_eq k name then Some v else None)
            (link_pairs l ++ ["X-Amz-Signature=" +:+ signature]))) by (intros name; unfold find_param; by rewrite Hq).
  unfold parse_presigned_query. rewrite !Hf.
  change (ok_or _ "Missing X-Amz-Algorithm") with (@Ok string string "AWS4-HMAC-SHA256").
  change (ok_or _ "Missing X-Amz-Credential") with (@Ok string string (percent_encode (credential l))).
  change (ok_or _ "Missing X-Amz-Date") with (@Ok string string (ln_amz_date l)).
  change (ok_or _ "Missing X-Amz-Expires") with (@Ok string string (pretty (ln_expires l))).
  change (ok_or _ "Missing X-Amz-SignedHeaders") with (@Ok string string "host").
  change (ok_or _ "Missing X-Amz-Signature") with (@Ok string string signature).
  cbn [mbind result_bind]. rewrite bool_decide_eq_true_2 by done. cbn [negb].
  rewrite parse_uint_pretty by (unfold u64_max; lia). cbn [ok_or mbind result_bind].
  rewrite (proj2 (Z.ltb_ge _ _) (proj2 He)), decode_utf8_encode by apply Hl. cbn [ok_or mbind result_bind]. by rewrite link_credential.
Qed.

Lemma link_filtered l signature : wf_link l -> contains_char "&" signature = false ->
  filtered_query (link_query l signature) = join_with "&" (link_pairs l).
Proof. intros Hl Hs. unfold filtered_query. rewrite link_query_pairs by done. reflexivity. Qed.

Lemma rust_ascii s : Forall (fun c => unreserved c = true) (chars s) -> rust_string s.
Proof.
  unfold rust_string. induction s as [|c s IH]; [done|]. cbn [chars]. intros [Hc Hs]%Forall_cons. specialize (IH Hs).
  clear Hs. destruct c as [[] [] [] [] [] [] [] []]; first [exfalso; vm_compute in Hc; discriminate|exact IH].
Qed.

(** The signed query is its own canonical form. *)
Lemma link_canonical l : wf_link l -> canonical_query_string (join_with "&" (link_pairs l)) = join_with "&" (link_pairs l).
Proof.
  intros Hl. pose proof (link_expiry l Hl) as He. pose proof (link_date l Hl) as Hd.
  assert (Hp : Forall (fun c => unreserved c = true) (chars (pretty (ln_expires l)))) by (apply pretty_unreserved; lia).
  assert (Hpairs : pairs_of (join_with "&" (link_pairs l)) = link_pairs l).
  { apply split_join_with; [done|by apply link_pairs_clean]. }
  assert (Hq : query_pairs (join_with "&" (link_pairs l)) =
    [("X-Amz-Algorithm", "AWS4-HMAC-SHA256"); ("X-Amz-Credential", credential l); ("X-Amz-Date", ln_amz_date l);
     ("X-Amz-Expires", pretty (ln_expires l)); ("X-Amz-SignedHeaders", "host")]).
  { unfold query_pairs. rewrite Hpairs.
    transitivity (merge_sort pair_le
      [(percent_decode_lossy "X-Amz-Algorithm", percent_decode_lossy "AWS4-HMAC-SHA256");
       (percent_decode_lossy "X-Amz-Credential", percent_decode_lossy (percent_encode (credential l)));
       (percent_decode_lossy "X-Amz-Date", percent_decode_lossy (ln_amz_date l));
       (percent_decode_lossy "X-Amz-Expires", percent_decode_lossy (pretty (ln_expires l)));
       (percent_decode_lossy "X-Amz-SignedHeaders", percent_decode_lossy "host")]); [reflexivity|].
    rewrite decode_encode by apply Hl.
    assert (Hid : forall s, Forall (fun c => unreserved c = true) (chars s) -> percent_decode_lossy s = s).
    { intros s Hs. by apply decode_unreserved; [apply rust_ascii|]. }
    rewrite !Hid by (done || by repeat constructor). reflexivity. }
  unfold canonical_query_string. rewrite decide_False by done. rewrite Hq.
  exact (presigned_query_pairs (ln_access_key l) (ln_date_stamp l) (ln_amz_date l) (ln_region l) (ln_expires l) (proj1 He) Hd).
Qed.

Lemma split_no_slash s : Forall (fun c => contains_char "/" c = false) (map percent_encode (split_char "/" s)).
Proof. apply Forall_forall. intros x Hx. apply list_elem_of_fmap in Hx as (y & -> & _). by apply encode_without. Qed.
Lemma pieces_are_strings s : Forall rust_string (split_char "/" s) -> map (fun w => percent_encode (percent_decode_lossy w)) (map percent_encode (split_char "/" s)) = map percent_encode (split_char "/" s).
Proof.
  intros Hs. rewrite map_map. induction Hs as [|w ws Hw Hws IH]; [done|]. cbn [map]. by rewrite IH, decode_encode.
Qed.

(** The path of the link is its own canonical form. *)
Lemma link_path bucket key : rust_string bucket -> Forall rust_string (split_char "/" key) ->
  canonical_uri (presigned_path bucket key) = presigned_path bucket key.
Proof.
  intros Hb Hk. set (segs := "" :: percent_encode bucket :: map percent_encode (split_char "/" key)).
  assert (Hpath : presigned_path bucket key = join_with "/" segs).
  { unfold presigned_path, segs. destruct (split_char_cons "/" key) as (w & ws & ->). reflexivity. }
  assert (Hsplit : split_char "/" (join_with "/" segs) = segs).
  { apply split_join_with; [done|]. unfold segs. repeat constructor; [by apply encode_without|apply split_no_slash]. }
  assert (Hq : contains_char "?" (join_with "/" segs) = false).
  { apply join_with_without; [done|]. unfold segs. repeat constructor; [by apply encode_without|].
    apply Forall_forall. intros x Hx. apply list_elem_of_fmap in Hx as (y & -> & _). by apply encode_without. }
  rewrite Hpath. unfold canonical_uri. rewrite split_char_no by done. cbn [head default id].
  rewrite decide_False.
  - rewrite Hsplit. unfold segs. cbn [map]. rewrite decode_nil, encode_nil, decode_encode by done. by rewrite pieces_are_strings.
  - intros [E|E]; rewrite E in Hsplit; apply (f_equal length) in Hsplit; unfold segs in Hsplit; cbn in Hsplit; [done|].
    destruct (split_char_cons "/" key) as (w & ws & E'). rewrite E' in Hsplit. done.
Qed.

Definition link_signature (l : link) (path host secret_key : string) : string :=
  presigned_signature path (presigned_query (ln_access_key l) (ln_date_stamp l) (ln_amz_date l) (ln_region l) (ln_expires l))
    host (ln_date_stamp l) (ln_amz_date l) (ln_region l) secret_key.
Lemma link_signature_clean l path host secret : contains_char "&" (link_signature l path host secret) = false.
Proof. apply not_in. by apply hex_without, hex_encode_hex. Qed.

(** The signature of the link is the one the S3 interface computes. *)
Lemma link_verifies l bucket key host secret h : wf_link l -> rust_string bucket -> Forall rust_string (split_char "/" key) ->
  h "host" = [Some host] -> trim host = host ->
  let path := presigned_path bucket key in let signature := link_signature l path host secret in
  verify_presigned_signature "GET" path (link_query l signature) h (link_auth l signature) (ln_amz_date l) secret = true.
Proof.
  intros Hl Hb Hk Hh Ht path signature. unfold verify_presigned_signature.
  rewrite link_filtered by (done || apply link_signature_clean). apply constant_time_eq_same. f_equal.
  unfold computed_signature, link_auth, build_string_to_sign. cbn [pa_date pa_region pa_signed_headers pa_signature].
  unfold canonical_request, path. rewrite link_canonical, link_path by done. cbn [canonical_headers foldr join_with].
  unfold header_value. rewrite Hh. cbn [omap list_omap id join_with]. rewrite Ht.
  unfold signature, link_signature, presigned_signature. rewrite presigned_query_pairs by (apply Hl || apply (link_expiry l Hl)).
  reflexivity.
Qed.
End links.



Section presigning.
Context `{EnvironmentSpec} `{CratesSpec} `{Serde} `{SerdeJson} `{Aead} `{ReedSolomon} `{HexDecode} `{Buffering}.
Context `{!KeyService FilesystemStorage} `{PercentEncodingSpec} `{AmzClockSpec} `{KeycloakHttp} `{Redis}.
Context (from_str : string -> result string BucketPolicy) (app : ConsoleApp).
#[local] Existing Instance sha256_hex_of_crates.
Abbreviation config := (as_config (ca_app app)).
Abbreviation credentials := (as_credentials (ca_app app)).

(** The link of a principal made at tick [n]. *)
Definition link_at (principal : string) (n : nat) (params : PresignParams) : link :=
  mk_link principal (date_stamp_at n) (amz_date_at n) (cf_region config) (Z.min (default 3600%Z (pp_expires params)) 604800).
Definition issued_second (n : nat) : Z := (utc_now n / nanos * nanos)%Z.

Lemma link_at_wf principal n params : contains_char "/" principal = false -> contains_char "/" (cf_region config) = false ->
  rust_string (credential_of principal (date_stamp_at n) (cf_region config)) ->
  (0 <= default 3600 (pp_expires params))%Z -> wf_link (link_at principal n params).
Proof. intros Hp Hr Hs He. constructor; try done; [apply date_stamp_plain|apply amz_date_plain|cbn [ln_expires link_at]; lia]. Qed.

(** The answer of the handler. *)
Definition link_reply (host proto : string) (bucket key : string) (l : link) (secret : string) : Reply :=
  let path := presigned_path bucket key in
  json_object [("url", JString (proto +:+ "://" +:+ host +:+ path +:+ "?" +:+ link_query l (link_signature l path host secret)));
               ("expiresIn", JNumber (ln_expires l))].
Lemma presign_object_spec principal bucket key params h host s s' reply : wf_store credentials -> header h "host" = Some host ->
  presign_object app principal bucket key params h s = (s', Ok reply) ->
  exists n cred proto, lookup_credential credentials principal = Some cred /\ w_tick (sv_world (cs_server s')) = S n /\
    (proto = "http" \/ proto = "https") /\
    reply = link_reply host proto bucket key (link_at principal n params) (ce_secret_key cred).
Proof.
  intros Hwf Hh Hrun. unfold presign_object in Hrun. apply Console_bind_ok in Hrun as (meta & s1 & _ & Hrun).
  apply Console_bind_ok in Hrun as (n & s2 & Ht & Hrun). rewrite console_tick_run in Ht. injection Ht as <- <-.
  destruct (lookup_credential credentials principal) as [cred|] eqn:Ec; [|done].
  destruct (proj1 (lookup_credential_Some _ _ _) Ec) as [Hin _]. rewrite (proj1 (Hwf _ _ Hin)), Hh in Hrun. injection Hrun as <- <-.
  exists (w_tick (sv_world (cs_server s1))), cred, (if decide (header h "x-forwarded-proto" = Some "https") then "https" else "http").
  split_and!; [done|done|case_decide; auto|]. done.
Qed.

Lemma link_is_presigned l signature : wf_link l -> contains_char "&" signature = false ->
  query_has_presigned_signature (link_query l signature) = true.
Proof.
  intros Hl Hs. unfold query_has_presigned_signature. rewrite link_query_pairs by done. apply existsb_exists.
  exists ("X-Amz-Signature=" +:+ signature). split; [|done]. apply list_elem_of_In, list_elem_of_filter. split; [done|]. set_solver.
Qed.

(** C13: the link that the console makes for an object is accepted by the S3
    interface: whoever sends it, to the host of the console, within its time is
    served as the principal who asked for it, however the key of the object is
    written. *)
Theorem presigned_links_are_honoured {A} (next : Request -> Gate A) principal bucket key params h host s s' reply :
  wf_store credentials -> header h "host" = Some host -> trim host = host ->
  contains_char "/" principal = false -> contains_char "/" (cf_region config) = false ->
  (forall n, rust_string (credential_of principal (date_stamp_at n) (cf_region config))) ->
  (0 <= default 3600 (pp_expires params))%Z -> rust_string bucket -> Forall rust_string (split_char "/" key) ->
  presign_object app principal bucket key params h s = (s', Ok reply) ->
  exists n proto query, w_tick (sv_world (cs_server s')) = S n /\ (proto = "http" \/ proto = "https") /\
    reply = json_object [("url", JString (proto +:+ "://" +:+ host +:+ presigned_path bucket key +:+ "?" +:+ query));
                         ("expiresIn", JNumber (Z.min (default 3600%Z (pp_expires params)) 604800)%Z)] /\
    forall r server, rq_method r = "GET" -> rq_path r = presigned_path bucket key -> rq_query r = query ->
      rq_headers r "host" = [Some host] -> rq_vhost r = None -> apply_virtual_host (as_server_host (ca_app app)) r = r ->
      let m := w_tick (sv_world server) in
      (utc_now m <= issued_second n + Z.min (default 3600%Z (pp_expires params)) 604800 * nanos)%Z ->
      (issued_second n <= utc_now m + 15 * 60 * nanos)%Z ->
      auth_middleware from_str (ca_app app) next r server =
      (_ ← gate_tick;
       finalize_s3_request from_str (ca_app app) next (with_principal r principal) (Some principal)
         (client_ip_from_request (as_trusted_proxies (ca_app app)) r)) server.
Proof.
  intros Hwf Hh Htrim Hp Hr Hs He Hb Hk Hrun.
  destruct (presign_object_spec _ _ _ _ _ _ _ _ _ Hwf Hh Hrun) as (n & cred & proto & Hc & Hn & Hproto & ->).
  set (l := link_at principal n params) in *. set (path := presigned_path bucket key).
  set (sg := link_signature l path host (ce_secret_key cred)).
  assert (Hl : wf_link l) by (by apply link_at_wf). assert (Hclean : contains_char "&" sg = false) by apply link_signature_clean.
  exists n, proto, (link_query l sg). split_and!; [done|done|done|].
  intros r server Hm Hpath Hq Hhost Hv Hav m Hexp Hfut. unfold auth_middleware. rewrite Hav, Hm.
  change (bool_decide ("GET" = "PUT")) with false.
  rewrite Hq, link_is_presigned by done. unfold handle_presigned. rewrite Hq, link_parses by done. unfold link_auth at 1.
  cbn [pa_access_key]. change (ln_access_key l) with principal. rewrite Hc.
  assert (same_region (ca_app app) (link_auth l sg) = true) as -> by (by apply constant_time_eq_same). cbn [negb].
  change (ln_amz_date l) with (amz_date_at n). rewrite amz_date_reads. fold (issued_second n).
  change (ln_expires l) with (Z.min (default 3600%Z (pp_expires params)) 604800)%Z.
  unfold mbind, Gate_bind, mret, Gate_ret, gate_tick, on_storage, tick. cbn [map_err]. cbv beta iota. fold m.
  rewrite (proj2 (Z.ltb_ge _ _) Hexp), (proj2 (Z.ltb_ge _ _) Hfut).
  unfold signature_path_from_request. rewrite Hv, Hpath.
  pose proof (link_verifies l bucket key host (ce_secret_key cred) (rq_headers r) Hl Hb Hk Hhost Htrim) as Hver.
  cbv zeta in Hver. fold path sg in Hver. rewrite Hm. change (amz_date_at n) with (ln_amz_date l). rewrite Hver. done.
Qed.
End presigning.

(** ** Runs *)

Module ConsoleDemo.
Import Demo.Toys MultipartSpec.ToyUploads Signature.ToyPercent.
#[local] Existing Instance sha256_hex_of_crates.
#[export] Existing Instance toy_percent.
#[export] Existing Instance GateDemo.toy_process.

(** A provider that hands out one token for any password, and knows one key. *)
#[export] Instance toy_keycloak : KeycloakHttp := {|
  post_form _ _ _ := Ok (200%Z, "tokens"); get_keys _ _ := Ok (200%Z, Ok [mk_JwkKey "k" "RSA" "n" "e"]);
  status_display := pretty;
  parse_token_response _ := Ok (mk_KeycloakTokenResponse "jwt" 300 1800 "again" "Bearer" "openid");
  DecodingKey := unit; from_rsa_components _ _ := Some tt; decode_header _ := Ok (Some "k");
  decode_claims _ _ _ _ := Ok (JObject [("sub", JString "alice"); ("azp", JString "console")]) |}.
#[export] Instance toy_redis : Redis := {| redis_incr _ _ := Some 1%Z; redis_ttl _ _ := Some 60%Z |}.
#[export] Instance toy_clock : AmzClock := {| date_stamp_at _ := "20260102"; amz_date_at _ := "20260102T030405Z" |}.
#[export] Instance toy_clock_spec : AmzClockSpec.
Proof. split; intros n; [by repeat constructor|by repeat constructor|vm_compute; reflexivity]. Qed.
#[export] Instance toy_router : ConsoleRouter := {|
  decode_segment s := Some s; invalid_segment := error_reply 400 "invalid"; wrong_method := mk_Reply 405 [] EmptyBody |}.
#[export] Instance toy_router_spec : ConsoleRouterSpec.
Proof. done. Qed.
#[export] Instance no_login : FromBody LoginRequest := fun _ _ => Ok (mk_LoginRequest "alice" "secret").
#[export] Instance no_keycloak_login : FromBody KeycloakLoginRequest := fun _ _ => Ok (mk_KeycloakLoginRequest "alice" "pw").
#[export] Instance no_refresh : FromBody KeycloakRefreshRequest := fun _ _ => Ok (mk_KeycloakRefreshRequest None).
#[export] Instance no_bucket : FromBody CreateBucketRequest := fun _ _ => Ok (mk_CreateBucketRequest "pets").
#[export] Instance no_folder : FromBody CreateFolderRequest := fun _ _ => Ok (mk_CreateFolderRequest "folder").
#[export] Instance no_versioning : FromBody SetVersioningRequest := fun _ _ => Ok (mk_SetVersioningRequest true).
#[export] Instance no_encryption : FromBody SetEncryptionRequest := fun _ _ => Ok (mk_SetEncryptionRequest true).
#[export] Instance no_public : FromBody SetPublicRequest := fun _ _ => Ok (mk_SetPublicRequest true true).
#[export] Instance no_list : FromQuery ListObjectsParams := fun _ => Ok (mk_ListObjectsParams None None).
#[export] Instance no_presign : FromQuery PresignParams := fun _ => Ok (mk_PresignParams None).
#[export] Instance no_versions : FromQuery ListVersionsParams := fun _ => Ok (mk_ListVersionsParams "cat").

(** Alice of the north tenant owns photos; the vault is another tenant's. *)
Definition keycloak : KeycloakSettings := mk_KeycloakSettings "https://sso.test" "pets" "console" None false None None.
Definition app : ConsoleApp := mk_ConsoleApp GateDemo.app false true (Some keycloak) "".
Definition console (w : world) : ConsoleState :=
  mk_ConsoleState (mk_Server w (limiter_new 0 60) (limiter_new 10 60) 0 0) (InMemory (limiter_new DEFAULT_MAX DEFAULT_WINDOW_SECS)) ∅.
Definition start : ConsoleState := console GateDemo.two_tenants.
Definition browser : IpAddr := V4 [10; 0; 0; 1]%Z.
Definition sent (headers : list (string * string)) : HeaderMap := fun name =>
  match list_find (fun h => h.1 = name) headers with Some (_, (_, v)) => [Some v] | None => [] end.
Definition asked (method path : string) (headers : list (string * string)) : Request :=
  mk_Request method path "" (sent headers) (Some browser) None None.
Lemma one_credential : wf_store (as_credentials (ca_app app)).
Proof.
  intros key c Hk. change (({[ "alice" := GateDemo.alice ]} : CredentialStore) !! key = Some c) in Hk.
  apply lookup_singleton_Some in Hk as [<- <-]. split; [done|by exists "north"].
Qed.
Lemma only_alice key c : as_credentials (ca_app app) !! key = Some c -> c = GateDemo.alice.
Proof.
  intros Hk. change (({[ "alice" := GateDemo.alice ]} : CredentialStore) !! key = Some c) in Hk.
  by apply lookup_singleton_Some in Hk as [_ <-].
Qed.

Definition cookie : string := "maxio_session=" +:+ generate_session_token "alice" "secret" 0.
Lemma login_opens_a_session_witness :
  match login app browser (sent []) (mk_LoginRequest "alice" "secret") start with
  | (s', Ok reply) => exists token,
      re_headers reply = [("content-type", "application/json"); ("Set-Cookie", make_cookie token TOKEN_MAX_AGE_SECS true)] /\
      authenticate app (sent [("cookie", COOKIE_NAME +:+ "=" +:+ token)]) s' = (ticked s', Ok "alice")
  | _ => False
  end.
Proof.
  destruct (login app browser (sent []) (mk_LoginRequest "alice" "secret") start) as [s' [reply|e]] eqn:E.
  2: { exfalso. vm_compute in E. discriminate. }
  destruct (login_opens_a_session app _ _ _ _ _ _ one_credential E) as (cred & token & n & Hc & _ & Hr & _ & Ho).
  exists token. split; [exact Hr|].
  assert (Hd : distinct_fingerprints app cred).
  { intros key other [Hk _]%lookup_credential_Some _. apply lookup_credential_Some in Hc as [Hc _].
    by rewrite (only_alice _ _ Hk), (only_alice _ _ Hc). }
  exact (Ho Hd (sent [("cookie", COOKIE_NAME +:+ "=" +:+ token)]) s' eq_refl ltac:(vm_compute; split; discriminate)
           ltac:(vm_compute; discriminate)).
Defined.

(** Alice deletes in her own bucket from the page of the console; not from
    another page, and not in the bucket of the other tenant. *)
Definition deletion (path origin : string) : Request :=
  asked "DELETE" path [("cookie", cookie); ("host", "s3.test"); ("origin", origin)].
Definition answered (r : Request) : option (ConsoleState * result stop Reply) :=
  (fun m : Console Reply => m start) <$> console_router app r browser (Demo.body_of "").
Definition status_of (o : option (ConsoleState * result stop Reply)) : option Z :=
  match o with Some (_, Ok r) | Some (_, Err (Answer r)) => Some (re_status r) | _ => None end.
Lemma console_requests_are_confined_witness :
  let r := deletion "/buckets/photos/objects/cat" "https://s3.test" in
  match console_router app r browser (Demo.body_of "") with
  | Some m => exists s' out p s1, m start = (s', out) /\ status_of (Some (s', out)) = Some 200%Z /\
      session_of app p (rq_headers r) start /\ admitted app p "photos" (sv_world (cs_server s1)) /\
      (s', out) = secured (default (answer wrong_method) (protected_route app p r (Demo.body_of ""))) s1
  | None => False
  end /\
  status_of (answered (deletion "/buckets/photos/objects/cat" "https://evil.test")) = Some 403%Z /\
  status_of (answered (deletion "/buckets/vault/objects/plans" "https://s3.test")) = Some 403%Z.
Proof.
  intros r. split; [|split; vm_compute; reflexivity]. assert (Hne : "photos" <> "") by discriminate.
  assert (Hm : match console_router app r browser (Demo.body_of "") with Some _ => true | None => false end = true)
    by (vm_compute; reflexivity).
  destruct (console_router app r browser (Demo.body_of "")) as [m|] eqn:Em; [clear Hm|discriminate Hm].
  assert (Hst : status_of (Some (m start)) = Some 200%Z).
  { change (Some (m start)) with ((fun m : Console Reply => m start) <$> Some m). rewrite <-Em. vm_compute. reflexivity. }
  destruct (m start) as [s' out] eqn:Er.
  assert (Hp : split_char "/" (rq_path r) = ["" ; "buckets"; "photos"; "objects"; "cat"]) by (vm_compute; reflexivity).
  destruct (console_requests_are_confined app r browser (Demo.body_of "") m "photos" ["objects"; "cat"] start s' out Hp Hne Em Er)
    as [[(x & -> & Hx) _]|(p & s1 & Hs & _ & _ & _ & Ha & _ & Hout)].
  - exfalso. injection Hst as Hst. rewrite Hst in Hx. revert Hx. apply (bool_decide_unpack _). vm_compute. exact I.
  - exists s', out, p, s1. split; [exact eq_refl|]. split; [exact Hst|]. split; [exact Hs|]. split; [exact Ha|exact Hout].
Defined.

(** *** What the console does instead *)

(** Of the two cookies of a login with the identity provider the browser gets the
    second alone: the session is never set, and the next request is refused. *)
Example sso_login_sets_no_session :
  match keycloak_login app browser (sent []) (mk_KeycloakLoginRequest "alice" "pw") start with
  | (s', Ok reply) => re_status reply = 200%Z /\
      map snd (filter (fun h => fst h = "Set-Cookie") (re_headers reply)) =
        [make_named_cookie REFRESH_COOKIE_NAME "again" 1800 true] /\
      snd (check app (sent [("cookie", "maxio_kc_refresh=again")]) s') = Ok not_authenticated
  | _ => False
  end.
Proof. vm_compute. split_and!; reflexivity. Qed.

(** And the one cookie a logout clears is not that of the session. *)
Example logout_keeps_the_session :
  match logout app start with
  | (s', Ok reply) => map snd (filter (fun h => fst h = "Set-Cookie") (re_headers reply)) =
                        [make_named_cookie REFRESH_COOKIE_NAME "" 0 true] /\
                      snd (check app (sent [("cookie", cookie)]) s') = Ok ok_reply
  | _ => False
  end.
Proof. vm_compute. split_and!; reflexivity. Qed.

(** The record of the vault is damaged: alice deletes from it. *)
Definition damaged : world :=
  mk_world (mk_tree (<[["data"; "buckets"; "vault"; ".bucket.json"] := Raw (as_bytes "{")]> (t_files (w_tree GateDemo.two_tenants)))
              (t_dirs (w_tree GateDemo.two_tenants))) None 1.
Example unreadable_record_opens_bucket :
  snd (console_bucket_gate app "alice" "vault" start) = Err (Answer console_access_denied) /\
  snd (console_bucket_gate app "alice" "vault" (console damaged)) = Ok tt.
Proof. vm_compute. split; reflexivity. Qed.

(** An object whose key holds a control character is stored, and its download
    stops the handler: the name is put in a header as it is. *)
Definition bell : string := "cat" +:+ String "007"%char ".jpg".
Example control_character_crashes_download :
  match upload_object app "photos" bell (sent []) (Demo.body_of "meow") start with
  | (s, Ok reply) => re_status reply = 200%Z /\ is_err (snd (download_object app "photos" bell s)) = true /\
      match snd (download_object app "photos" bell s) with Err Crash => True | _ => False end
  | _ => False
  end.
Proof. vm_compute. split_and!; [reflexivity|reflexivity|exact I]. Qed.

(** *** A link *)

Definition with_cat : ConsoleState :=
  fst (upload_object app "photos" "cat 1.jpg" (sent []) (Demo.body_of "meow") start).
Definition fetched (query : string) : Request :=
  mk_Request "GET" (presigned_path "photos" "cat 1.jpg") query (sent [("host", "s3.test")]) (Some browser) None None.
Lemma presigned_links_are_honoured_witness :
  presigned_path "photos" "cat 1.jpg" = "/photos/cat%201.jpg" /\
  match presign_object app "alice" "photos" "cat 1.jpg" (mk_PresignParams None) (sent [("host", "s3.test")]) with_cat with
  | (_, Ok reply) => exists proto query,
      reply = json_object [("url", JString (proto +:+ "://" +:+ "s3.test" +:+ presigned_path "photos" "cat 1.jpg" +:+ "?" +:+ query));
                           ("expiresIn", JNumber (Z.min (default 3600%Z (pp_expires (mk_PresignParams None))) 604800)%Z)] /\
      auth_middleware GateDemo.no_policies (ca_app app) mret (fetched query) GateDemo.server =
      (_ ← gate_tick;
       finalize_s3_request GateDemo.no_policies (ca_app app) mret (with_principal (fetched query) "alice")
         (Some "alice") (client_ip_from_request (as_trusted_proxies (ca_app app)) (fetched query))) GateDemo.server
  | _ => False
  end.
Proof.
  split; [vm_compute; reflexivity|].
  destruct (presign_object app "alice" "photos" "cat 1.jpg" (mk_PresignParams None) (sent [("host", "s3.test")]) with_cat)
    as [s' [reply|e]] eqn:E; [|exfalso; vm_compute in E; discriminate].
  assert (Hs : forall n : nat, rust_string (credential_of "alice" (date_stamp_at n) "us-east-1")) by (intros n; vm_compute; reflexivity).
  assert (Hb : rust_string "photos") by (vm_compute; reflexivity).
  assert (Hk : Forall rust_string (split_char "/" "cat 1.jpg")) by (repeat constructor; vm_compute; reflexivity).
  assert (He : (0 <= default 3600%Z (pp_expires (mk_PresignParams None)))%Z) by (vm_compute; discriminate).
  destruct (presigned_links_are_honoured GateDemo.no_policies app (mret : Request -> Gate Request) "alice" "photos" "cat 1.jpg"
    (mk_PresignParams None) (sent [("host", "s3.test")]) "s3.test" with_cat s' reply one_credential eq_refl eq_refl eq_refl eq_refl
    Hs He Hb Hk E) as (n & proto & query & _ & _ & Hr & Hrun).
  exists proto, query. split; [exact Hr|].
  exact (Hrun (fetched query) GateDemo.server eq_refl eq_refl eq_refl eq_refl eq_refl eq_refl
    ltac:(vm_compute; discriminate) ltac:(vm_compute; discriminate)).
Defined.
End ConsoleDemo.
