(* ===== verification/Admin.v ===== *)
(** * The admin API and the router of the server

    [maxio-server/src/api/admin.rs] and the routes and layers of
    [maxio-server/src/server.rs].  Requests are authenticated first and counted
    after; a handler runs on the world.  The layers that write the audit record
    and the metrics are in [AuditLog]. *)

From stdpp Require Import base list gmap numbers strings pretty.
From Stdlib Require Import ZArith Lia Ascii Strings.Byte.
From S2P Require Import Prelude IpAddr Glob Policy Bytes Reader Utf8 Types Quota Crypto ErasureCode ChunkReader MetadataIndex FileSystem Paths World Keyring TreeOk Storage BucketConfig Sidecar Publish Objects Versions Listing Housekeeping ApiError ListApi Http Signature RateLimit Tenant Gate Multipart HttpBody Headers ObjectApi BucketApi GateSpec MultipartSpec Demo Console ConsoleSpec.

Local Open Scope nat_scope.

(** ** Readiness *)

Section readiness.
Context (st : FilesystemStorage).

Definition probe_path : string := join (st_data_root st) ".maxio-readyz-probe".
(** [FilesystemStorage::check_readiness]: the probe is written and removed again. *)
Definition check_readiness : M string unit := fun w =>
  match try_exists (w_tree w) (st_data_root st) with
  | Err e => (w, Err ("data directory stat failed: " +:+ io_message e))
  | Ok false => (w, Err "data directory missing")
  | Ok true =>
      match fs_write (w_tree w) probe_path (Raw (as_bytes "1")) with
      | (t, Err e) => (with_tree w t, Err ("data directory not writable: " +:+ io_message e))
      | (t, Ok _) =>
          let '(t, _) := fs_remove_file t probe_path in
          (with_tree w t, if is_usable (st_keyring st) then Ok tt else Err "SSE-S3 keyring has no keys")
      end
  end.
End readiness.

(** ** Answers *)

Record StatusResponse : Type := mk_StatusResponse {
  sr_healthz : string; sr_readyz : string; sr_version : string; sr_uptime_secs : Z }.
Record DiskInfo : Type := mk_DiskInfo { di_total_bytes : option Z; di_free_bytes : option Z; di_used_bytes : option Z }.
Record ConfigInfo : Type := mk_ConfigInfo {
  ci_region : string; ci_erasure_coding : bool; ci_chunk_size : Z; ci_parity_shards : Z;
  ci_max_object_bytes : Z; ci_min_free_disk_bytes : Z }.
Record InfoResponse : Type := mk_InfoResponse {
  ir_data_dir : string; ir_disk : DiskInfo; ir_bucket_count : nat; ir_object_count : nat; ir_config : ConfigInfo }.
Record DoctorCheck : Type := mk_DoctorCheck { dc_name : string; dc_ok : bool; dc_detail : string }.
Record DoctorResponse : Type := mk_DoctorResponse { dr_ok : bool; dr_checks : list DoctorCheck }.
Record KeyringEntry : Type := mk_KeyringEntry { kg_id : string; kg_created_at : string; kg_active : bool }.
Record KeyringResponse : Type := mk_KeyringResponse { kn_active_id : string; kn_keys : list KeyringEntry }.
Record BucketSummary : Type := mk_BucketSummary {
  bs_name : string; bs_created_at : string; bs_region : string; bs_object_count : nat }.
Record BucketDetailResponse : Type := mk_BucketDetailResponse { bd_bucket : BucketMeta; bd_object_count : nat }.
Record HousekeepingResponse : Type := mk_HousekeepingResponse {
  hr_uploads_removed : nat; hr_temp_files_removed : nat; hr_objects_expired : nat; hr_stale_after_days : Z }.

Inductive AdminBody : Type :=
| StatusBody (r : StatusResponse)
| InfoBody (r : InfoResponse)
| DoctorBody (r : DoctorResponse)
| KeyringBody (r : KeyringResponse)
| BucketsBody (l : list BucketSummary)
| BucketBody (r : BucketDetailResponse)
| HousekeepingBody (r : HousekeepingResponse)
| ErrorBody (error message : string)
| LimitedBody (retry_after_secs : Z)
| NoBody.
Record AdminReply : Type := mk_AdminReply { ar_status : Z; ar_headers : list (string * string); ar_body : AdminBody }.

Inductive AdminApiError : Type := AdminNotFound (msg : string) | AdminInternal (msg : string).
(** [impl IntoResponse for AdminApiError]. *)
Definition admin_error_reply (e : AdminApiError) : AdminReply :=
  match e with
  | AdminNotFound msg => mk_AdminReply 404 [] (ErrorBody "not_found" msg)
  | AdminInternal msg => mk_AdminReply 500 [] (ErrorBody "internal_error" msg)
  end.

(** ** The server, as the admin API sees it *)

(** The token, the version and the time of the start; the configuration it
    reports; the keyring file; and whether the cluster has its quorum, [None]
    without a cluster. *)
Record AdminApp : Type := mk_AdminApp {
  aa_app : AppState; aa_token : string; aa_version : string; aa_started_at : Z; aa_config_info : ConfigInfo;
  aa_keyring_file : keyring_file; aa_cluster_mode : bool; aa_quorum : option bool; aa_serve_ui : bool }.

(** [disk_space_bytes]: the total and free bytes of the disk, from [statvfs]. *)
Class DiskSpace : Type := { disk_space_bytes : nat -> option (Z * Z) }.

Record AdminState : Type := mk_AdminState { ad_world : world; ad_limiter : SlidingWindowLimiter }.

Section admin.
Context `{Environment} `{Crates} `{Serde} `{SerdeJson} `{Aead} `{ReedSolomon}.
Context `{!KeyService FilesystemStorage} `{Process} `{DiskSpace} (app : AdminApp).
Abbreviation st := (as_storage (aa_app app)).
Abbreviation config := (as_config (aa_app app)).
Abbreviation credentials := (as_credentials (aa_app app)).

(** *** Whom a request comes from *)

Definition bearer_principal (auth : string) : option string :=
  token ← strip_prefix "Bearer " auth;
  if decide (aa_token app <> "" /\ token = aa_token app) then Some "admin:bearer" else None.
Definition basic_credentials (auth : string) : option (string * string) :=
  encoded ← strip_prefix "Basic " auth;
  decoded ← b64_decode encoded;
  creds ← from_utf8 decoded;
  split_once ":" creds.
(** A key of the store is checked against its entry; any other against the
    server's own pair. *)
Definition basic_principal (user pass : string) : option string :=
  match lookup_credential credentials user with
  | Some cred => if decide (pass = ce_secret_key cred) then Some user else None
  | None => if decide (user = cf_access_key config /\ pass = cf_secret_key config) then Some user else None
  end.
Definition admin_principal (h : HeaderMap) : option string :=
  auth ← header h "authorization";
  match bearer_principal auth with
  | Some p => Some p
  | None => '(user, pass) ← basic_credentials auth; basic_principal user pass
  end.

(** *** The handlers *)

Definition internal_of {A} (m : M StorageError A) : M AdminApiError A := fun w =>
  let '(w, r) := m w in (w, map_err (fun e => AdminInternal (storage_error_to_string e)) r).
Definition answered {E F A} (m : M E A) : M F (result E A) := fun w => let '(w, r) := m w in (w, Ok r).

Definition status : M AdminApiError StatusResponse :=
  ready ← answered (check_readiness st);
  n ← tick;
  mret (mk_StatusResponse "ok" (if is_ok ready then "ok" else "unavailable") (aa_version app)
          ((instant n - aa_started_at app) / nanos)%Z).

Fixpoint count_objects (buckets : list BucketMeta) : M AdminApiError nat :=
  match buckets with
  | [] => mret 0
  | b :: buckets =>
      objects ← internal_of (Listing.list_objects st (bm_name b) "");
      rest ← count_objects buckets;
      mret (length objects + rest)
  end.
Definition visible_buckets (principal : string) : M AdminApiError (list BucketMeta) :=
  buckets ← internal_of (Listing.list_buckets st);
  mret (filter_buckets_for_access config credentials buckets principal).
Definition disk_info (n : nat) : DiskInfo :=
  match disk_space_bytes n with
  | Some (total, free) => mk_DiskInfo (Some total) (Some free) (Some (Z.max 0 (total - free)))
  | None => mk_DiskInfo None None None
  end.
Definition info (principal : string) : M AdminApiError InfoResponse :=
  n ← tick;
  buckets ← visible_buckets principal;
  object_count ← count_objects buckets;
  mret (mk_InfoResponse (cf_data_dir config) (disk_info n) (length buckets) object_count (aa_config_info app)).

Definition doctor : M AdminApiError DoctorResponse :=
  readiness ← answered (check_readiness st);
  disk ← answered (check_upload_start st None);
  let keyring_ok := is_usable (st_keyring st) in
  let checks :=
    [mk_DoctorCheck "readiness" (is_ok readiness)
       (match readiness with Ok _ => "data directory writable and keyring usable" | Err msg => msg end);
     mk_DoctorCheck "disk_reserve" (is_ok disk)
       (match disk with Ok _ => "disk reserve satisfied" | Err e => storage_error_to_string e end);
     mk_DoctorCheck "keyring" keyring_ok
       (if keyring_ok then "SSE-S3 keyring usable (active key id " +:+ kr_active_id (st_keyring st) +:+ ")"
        else "SSE-S3 keyring has no keys")] in
  mret (mk_DoctorResponse (forallb dc_ok checks) checks).

(** The keys of the file, and the active key of the process when it is not among
    them. *)
Definition keyring_entries (active_id : string) (l : list KeyMetadata) : list KeyringEntry :=
  let entries := map (fun m => mk_KeyringEntry (km_id m) (km_created_at m) (km_active m)) l in
  if existsb (fun e => bool_decide (kg_id e = active_id)) entries
  then map (fun e => mk_KeyringEntry (kg_id e) (kg_created_at e) (bool_decide (kg_id e = active_id))) entries
  else entries ++ [mk_KeyringEntry active_id "from-env" true].
Definition keyring : M AdminApiError KeyringResponse :=
  l ← lift (map_err AdminInternal (list_metadata (aa_keyring_file app)));
  let active_id := kr_active_id (st_keyring st) in
  mret (mk_KeyringResponse active_id (keyring_entries active_id l)).

Fixpoint summaries (metas : list BucketMeta) : M AdminApiError (list BucketSummary) :=
  match metas with
  | [] => mret []
  | meta :: metas =>
      object_count ← internal_of (count_bucket_objects st (bm_name meta));
      rest ← summaries metas;
      mret (mk_BucketSummary (bm_name meta) (bm_created_at meta) (bm_region meta) object_count :: rest)
  end.
Definition list_buckets (principal : string) : M AdminApiError (list BucketSummary) :=
  metas ← visible_buckets principal; summaries metas.

Definition not_visible (name : string) : AdminApiError := AdminNotFound ("bucket '" +:+ name +:+ "' not found").
Definition accessible (principal name : string) : M AdminApiError BucketMeta := fun w =>
  let '(w, r) := ensure_bucket_access st config credentials principal name w in
  (w, map_err (fun e => if decide (se_code e = AccessDenied \/ se_code e = NoSuchBucket) then not_visible name
                        else AdminInternal (se_message e)) r).
Definition head_bucket (principal name : string) : M AdminApiError BucketDetailResponse :=
  meta ← accessible principal name;
  object_count ← internal_of (count_bucket_objects st name);
  mret (mk_BucketDetailResponse meta object_count).

(** Seven days, in the unit of the sweep. *)
Definition STALE_AFTER_DAYS : Z := 7.
Definition housekeeping_run : M AdminApiError HousekeepingResponse :=
  s ← internal_of (housekeeping_sweep st (STALE_AFTER_DAYS * 24 * 60 * 60 * nanos)%Z);
  mret (mk_HousekeepingResponse (uploads_removed s) (temp_removed s) (objects_expired s) STALE_AFTER_DAYS).

(** *** The routes and their layers *)

Definition json_of {A} (f : A -> AdminBody) (m : M AdminApiError A) : world -> world * AdminReply := fun w =>
  match m w with
  | (w, Ok a) => (w, mk_AdminReply 200 [] (f a))
  | (w, Err e) => (w, admin_error_reply e)
  end.
Definition wrong_method : AdminReply := mk_AdminReply 405 [] NoBody.
(** The handler of a path below [/api/admin/v1], if it is a route; a captured
    name is taken as it is decoded. *)
Definition admin_route `{ConsoleRouter} (method path principal : string) : option (world -> world * AdminReply) :=
  let reads (m : world -> world * AdminReply) : option (world -> world * AdminReply) :=
    Some (if decide (method = "GET" \/ method = "HEAD") then m else fun w => (w, wrong_method)) in
  match split_char "/" path with
  | [""; "status"] => reads (json_of StatusBody status)
  | [""; "info"] => reads (json_of InfoBody (info principal))
  | [""; "doctor"] => reads (json_of DoctorBody doctor)
  | [""; "keyring"] => reads (json_of KeyringBody keyring)
  | [""; "buckets"] => reads (json_of BucketsBody (list_buckets principal))
  | [""; "buckets"; name] =>
      if decide (name = "") then None
      else reads (fun w => match decode_segment name with
                           | Some name => json_of BucketBody (head_bucket principal name) w
                           | None => (w, mk_AdminReply (re_status invalid_segment) [] NoBody)
                           end)
  | [""; "housekeeping"; "run"] =>
      Some (if decide (method = "POST") then json_of HousekeepingBody housekeeping_run else fun w => (w, wrong_method))
  | _ => None
  end.

Definition unauthorized : AdminReply :=
  mk_AdminReply 401 [] (ErrorBody "unauthorized" "Valid Bearer admin token or Basic access/secret credentials required").
Definition rate_limited (retry : Z) : AdminReply := mk_AdminReply 429 [("retry-after", pretty retry)] (LimitedBody retry).
(** [admin_auth_middleware], then [admin_rate_limit_middleware], then the handler. *)
Definition admin_layers (handler : string -> world -> world * AdminReply) (r : Request) (s : AdminState) : AdminState * AdminReply :=
  match admin_principal (rq_headers r) with
  | None => (s, unauthorized)
  | Some principal =>
      let n := w_tick (ad_world s) in
      let w := mk_world (w_tree (ad_world s)) (w_index (ad_world s)) (S n) in
      let '(l, retry) := try_acquire (ad_limiter s) (client_ip_from_request (as_trusted_proxies (aa_app app)) r) (instant n) in
      match retry with
      | Some retry => (mk_AdminState w l, rate_limited retry)
      | None => let '(w, reply) := handler principal w in (mk_AdminState w l, reply)
      end
  end.
Definition admin_router `{ConsoleRouter} (r : Request) : option (AdminState -> AdminState * AdminReply) :=
  match admin_route (rq_method r) (rq_path r) "" with
  | None => None
  | Some _ => Some (admin_layers (fun principal => default (fun w => (w, wrong_method)) (admin_route (rq_method r) (rq_path r) principal)) r)
  end.

(** ** The router of the server *)

Definition readyz : M AdminApiError Z :=
  if aa_cluster_mode app && negb (default false (aa_quorum app)) then mret 503%Z
  else r ← answered (check_readiness st); mret (if is_ok r then 200%Z else 503%Z).
End admin.

(** Who answers a request: the paths of the server itself come before the
    buckets; a path below [/api] that is no route is one of a bucket. *)
Inductive Served : Type := ByAdmin | ByConsole | ByHealth | ByReady | ByMetrics | ByUi | ByS3.
Section server.
Context `{Environment} `{Crates} `{Serde} `{SerdeJson} `{Aead} `{ReedSolomon} `{HexDecode} `{Buffering}.
Context `{!KeyService FilesystemStorage} `{PercentEncoding} `{Process} `{ConsoleAuth.KeycloakHttp} `{Redis} `{AmzClock} `{DiskSpace}.
Context `{ConsoleRouter} `{!FromBody LoginRequest} `{!FromBody KeycloakLoginRequest} `{!FromBody KeycloakRefreshRequest}.
Context `{!FromBody CreateBucketRequest} `{!FromBody CreateFolderRequest} `{!FromBody SetVersioningRequest}.
Context `{!FromBody SetEncryptionRequest} `{!FromBody SetPublicRequest}.
Context `{!FromQuery ListObjectsParams} `{!FromQuery PresignParams} `{!FromQuery ListVersionsParams}.
Context (admin : AdminApp) (console : ConsoleApp).

Definition with_path (r : Request) (path : string) : Request :=
  mk_Request (rq_method r) path (rq_query r) (rq_headers r) (rq_peer r) (rq_vhost r) (rq_principal r).
Definition is_admin_path (r : Request) : bool :=
  match strip_prefix "/api/admin/v1" (rq_path r) with
  | Some path => match admin_route admin (rq_method r) path "" with Some _ => true | None => false end
  | None => false
  end.
Definition is_console_path (r : Request) (addr : IpAddr) (body : source) : bool :=
  match strip_prefix "/api" (rq_path r) with
  | Some path => match console_router console (with_path r path) addr body with Some _ => true | None => false end
  | None => false
  end.
Definition build_router (r : Request) (addr : IpAddr) (body : source) : Served :=
  let path := rq_path r in
  if is_admin_path r then ByAdmin
  else if is_console_path r addr body then ByConsole
  else if decide (path = "/healthz") then ByHealth
  else if decide (path = "/readyz") then ByReady
  else if decide (cf_metrics_enabled (as_config (aa_app admin)) = true /\ path = "/metrics") then ByMetrics
  else if decide (aa_serve_ui admin = true /\ (path = "/ui" \/ starts_with path "/ui/" = true)) then ByUi
  else ByS3.
End server.

(** The headers every answer gets: those it has are kept, but for the id. *)
Definition CONTENT_SECURITY_POLICY : string :=
  "default-src 'self'; base-uri 'self'; object-src 'none'; frame-ancestors 'none'; img-src 'self' https: data:; style-src 'self' 'unsafe-inline'; script-src 'self'; connect-src 'self'; form-action 'self'".
Definition or_insert (name value : string) (l : list (string * string)) : list (string * string) :=
  if existsb (fun h => bool_decide (fst h = name)) l then l else l ++ [(name, value)].
Definition security_headers_middleware (l : list (string * string)) : list (string * string) :=
  or_insert "permissions-policy" "camera=(), microphone=(), geolocation=()"
    (or_insert "x-frame-options" "DENY"
      (or_insert "referrer-policy" "strict-origin-when-cross-origin"
        (or_insert "x-content-type-options" "nosniff" (or_insert "content-security-policy" CONTENT_SECURITY_POLICY l)))).
Definition request_id_middleware `{Environment} (n : nat) (l : list (string * string)) : list (string * string) :=
  if header_text (uuid_v4 n) then insert_header "x-amz-request-id" (uuid_v4 n) l else l.

(** ** What the admin API promises *)

Section spec.
Context `{Environment} `{CratesSpec} `{Serde} `{SerdeJson} `{Aead} `{ReedSolomon}.
Context `{!KeyService FilesystemStorage} `{Process} `{DiskSpace} `{ConsoleRouter} (app : AdminApp).
Abbreviation st := (as_storage (aa_app app)).
Abbreviation config := (as_config (aa_app app)).
Abbreviation credentials := (as_credentials (aa_app app)).

(** The secret a header shows, and the principal it stands for. *)
Inductive admin_proof (h : HeaderMap) : string -> Prop :=
| ProofToken auth : header h "authorization" = Some auth -> aa_token app <> "" -> auth = "Bearer " +:+ aa_token app ->
    admin_proof h "admin:bearer"
| ProofKey auth user cred : header h "authorization" = Some auth ->
    basic_credentials auth = Some (user, ce_secret_key cred) -> lookup_credential credentials user = Some cred -> admin_proof h user
| ProofOwn auth : header h "authorization" = Some auth ->
    basic_credentials auth = Some (cf_access_key config, cf_secret_key config) ->
    lookup_credential credentials (cf_access_key config) = None -> admin_proof h (cf_access_key config).

Lemma bearer_principal_sound auth p : bearer_principal app auth = Some p ->
  p = "admin:bearer" /\ aa_token app <> "" /\ auth = "Bearer " +:+ aa_token app.
Proof.
  unfold bearer_principal, mbind, option_bind. destruct (strip_prefix "Bearer " auth) as [token|] eqn:Et; [|done].
  case_decide as D; [|done]. intros [= <-]. destruct D as [D ->]. split_and!; [done|done|]. by apply strip_prefix_Some in Et.
Qed.
Lemma basic_principal_sound h auth user pass p : header h "authorization" = Some auth -> basic_credentials auth = Some (user, pass) ->
  basic_principal app user pass = Some p -> admin_proof h p.
Proof.
  intros Hh Hb. unfold basic_principal. destruct (lookup_credential credentials user) as [cred|] eqn:Ec; case_decide as D; try done;
    intros [= <-].
  - subst pass. by eapply ProofKey.
  - destruct D as [-> ->]. by eapply ProofOwn.
Qed.
Lemma admin_principal_sound h p : admin_principal app h = Some p -> admin_proof h p.
Proof.
  unfold admin_principal, mbind, option_bind. destruct (header h "authorization") as [auth|] eqn:Eh; [|done].
  destruct (bearer_principal app auth) as [p'|] eqn:Ep.
  - intros [= <-]. apply bearer_principal_sound in Ep as (-> & Ht & Ha). by eapply ProofToken.
  - destruct (basic_credentials auth) as [[user pass]|] eqn:Eb; [|done]. by eapply basic_principal_sound.
Qed.

Lemma admin_principal_complete h p : admin_proof h p -> admin_principal app h <> None.
Proof.
  unfold admin_principal, mbind, option_bind.
  intros [auth Hh Ht ->|auth user cred Hh Hb Hl|auth Hh Hb Hl]; rewrite Hh.
  - unfold bearer_principal, mbind, option_bind. rewrite (proj2 (strip_prefix_Some _ _ _) eq_refl), decide_True by done. done.
  - destruct (bearer_principal app auth); [done|]. rewrite Hb. unfold basic_principal. by rewrite Hl, decide_True.
  - destruct (bearer_principal app auth); [done|]. rewrite Hb. unfold basic_principal. by rewrite Hl, decide_True.
Qed.

(** The state in which the limiter has been asked. *)
Definition ticked (s : AdminState) : world := mk_world (w_tree (ad_world s)) (w_index (ad_world s)) (S (w_tick (ad_world s))).

(** C15: a request to the admin API reaches its handler only with the token, the
    secret of an enabled key, or the server's own pair, and only when the limiter
    lets its address through at that moment, which counts it.  With such a proof
    and over the limit it is answered 429, and without one 401: then nothing
    changes at all, and the request is not even counted. *)
Theorem admin_requests_are_authentic r m s s' reply :
  admin_router app r = Some m -> m s = (s', reply) ->
  let asked := try_acquire (ad_limiter s) (client_ip_from_request (as_trusted_proxies (aa_app app)) r) (instant (w_tick (ad_world s))) in
  ((forall p, ~ admin_proof (rq_headers r) p) /\ s' = s /\ reply = unauthorized) \/
  (exists p, admin_proof (rq_headers r) p /\
    ((exists l retry, asked = (l, Some retry) /\ s' = mk_AdminState (ticked s) l /\ reply = rate_limited retry) \/
     (exists l handler w, asked = (l, None) /\ admin_route app (rq_method r) (rq_path r) p = Some handler /\
        handler (ticked s) = (w, reply) /\ s' = mk_AdminState w l))).
Proof.
  unfold admin_router. destruct (admin_route app (rq_method r) (rq_path r) "") as [h0|] eqn:E0; [|done]. intros [= <-].
  unfold admin_layers. destruct (admin_principal app (rq_headers r)) as [p|] eqn:Ep.
  2:{ cbn zeta. intros [= <- <-]. left. split; [|done]. by intros p Hp%admin_principal_complete. }
  apply admin_principal_sound in Ep. cbn zeta. intros Hm. right. exists p. split; [done|]. revert Hm.
  destruct (try_acquire _ _ _) as [l [retry|]]; [intros [= <- <-]; left; by exists l, retry|].
  assert (exists h, admin_route app (rq_method r) (rq_path r) p = Some h) as [h Eh].
  { revert E0. unfold admin_route. repeat (case_match; try done); intros _; by eexists. }
  rewrite Eh. change (default (fun w : world => (w, wrong_method)) (Some h)) with h. fold (ticked s).
  destruct (h (ticked s)) as [w reply'] eqn:Er. intros [= <- <-]. right. by exists l, h, w.
Qed.

(** The bucket a principal asks about: the answer is the record the principal's
    tenant may see, or the one of a bucket that does not exist. *)
Lemma accessible_spec p name w : exists r, accessible app p name w = (w, r) /\
  match r with
  | Ok meta => get_bucket_meta st name w = (w, Ok meta) /\
               bucket_access_allowed meta p (lookup_credential credentials p) config = true
  | Err (AdminNotFound msg) => AdminNotFound msg = not_visible name
  | Err (AdminInternal _) => True
  end.
Proof.
  unfold accessible, ensure_bucket_access, find_bucket_meta, mbind, M_bind. pose proof (head_bucket_reads st name w) as Hw.
  destruct (Storage.head_bucket st name w) as [w1 r] eqn:Eh. cbn in Hw. subst w1.
  destruct r as [[|]|e].
  - pose proof (read_bucket_meta_reads st name w) as Hg. unfold get_bucket_meta in *.
    destruct (read_bucket_meta st name w) as [w1 [meta|e]] eqn:Eg; cbn in Hg; subst w1.
    + destruct (bucket_access_allowed meta p _ config) eqn:Ea; by eexists.
    + destruct e; by eexists.
  - by eexists.
  - destruct e; by eexists.
Qed.

(** A bucket of another tenant is answered as one that does not exist. *)
Lemma foreign_bucket_is_missing p name w meta : Storage.head_bucket st name w = (w, Ok true) ->
  get_bucket_meta st name w = (w, Ok meta) ->
  bucket_access_allowed meta p (lookup_credential credentials p) config = false ->
  head_bucket app p name w = (w, Err (not_visible name)).
Proof.
  intros Hh Hg Ha. unfold head_bucket, mbind, M_bind, accessible, ensure_bucket_access, find_bucket_meta, mbind, M_bind.
  by rewrite Hh, Hg, Ha.
Qed.
Lemma missing_bucket p name w : Storage.head_bucket st name w = (w, Ok false) ->
  head_bucket app p name w = (w, Err (not_visible name)).
Proof.
  intros Hh. unfold head_bucket, mbind, M_bind, accessible, ensure_bucket_access, find_bucket_meta, mbind, M_bind. by rewrite Hh.
Qed.

(** The probe of the readiness check leaves no trace. *)
Lemma readiness_leaves_no_trace w w' r : (forall l, resolve (w_tree w) (probe_path st) = Ok l -> t_files (w_tree w) !! l = None) ->
  check_readiness st w = (w', r) -> w' = w.
Proof.
  intros Hnone. unfold check_readiness. destruct (try_exists _ _) as [[|]|e]; [|by intros [= <-]..].
  unfold fs_write, fs_remove_file. destruct (resolve (w_tree w) (probe_path st)) as [l|e] eqn:El; [|intros [= <- _]; by destruct w].
  specialize (Hnone l eq_refl). case_decide as Hd; [intros [= <- _]; by destruct w|].
  assert (Hres : forall c, resolve (mk_tree (<[l:=c]> (t_files (w_tree w))) (t_dirs (w_tree w))) (probe_path st) = Ok l).
  { intros c. eapply resolve_mono; [|exact El]. done. }
  rewrite Hres. cbn [t_files]. rewrite lookup_insert_eq. cbn [t_files t_dirs]. rewrite delete_insert_id by done.
  intros [= <- _]. by destruct w as [[files dirs] ? ?].
Qed.
End spec.

(** ** Runs *)

Module AdminDemo.
Import Demo.Toys Signature.ToyPercent.
#[export] Existing Instance GateSpec.GateDemo.toy_process.
#[export] Instance toy_disk : DiskSpace := {| disk_space_bytes _ := Some (100%Z, 40%Z) |}.
#[export] Instance toy_router : ConsoleRouter := {|
  decode_segment s := Some s; invalid_segment := error_reply 400 "invalid"; Console.wrong_method := mk_Reply 405 [] EmptyBody |}.

Definition reported : ConfigInfo := mk_ConfigInfo "us-east-1" false 4 1 0 0.
Definition app : AdminApp :=
  mk_AdminApp GateSpec.GateDemo.app "token" "1.0" 0 reported (Parsed []) false None true.
Definition start : AdminState := mk_AdminState GateSpec.GateDemo.two_tenants (limiter_new 2 60).
Definition asked (method path authorization : string) : Request :=
  mk_Request method path "" (fun name => if decide (name = "authorization") then [Some authorization] else [])
    (Some (V4 [10; 0; 0; 1]%Z)) None None.
(** The toy encoding of base64 is the text behind one letter. *)
Definition basic (user pass : string) : string := "Basic " +:+ b64_encode (as_bytes (user +:+ ":" +:+ pass)).
Definition answer_to (r : Request) : option (AdminState * AdminReply) := (fun m => m start) <$> admin_router app r.
Definition code_of (o : option (AdminState * AdminReply)) : option Z := ar_status ∘ snd <$> o.

Lemma admin_requests_are_authentic_witness :
  code_of (answer_to (asked "GET" "/buckets/photos" (basic "alice" "secret"))) = Some 200%Z /\
  code_of (answer_to (asked "GET" "/buckets/vault" (basic "alice" "secret"))) = Some 404%Z /\
  code_of (answer_to (asked "GET" "/buckets/vault" "Bearer token")) = Some 200%Z /\
  match admin_router app (asked "GET" "/keyring" (basic "alice" "guess")) with
  | Some m => m start = (start, unauthorized)
  | None => False
  end.
Proof.
  split; [vm_compute; reflexivity|]. split; [vm_compute; reflexivity|]. split; [vm_compute; reflexivity|].
  set (r := asked "GET" "/keyring" (basic "alice" "guess")).
  destruct (admin_router app r) as [m|] eqn:Em; [|vm_compute in Em; discriminate].
  assert (Hc : ar_status (snd (m start)) = 401%Z).
  { change (m start) with (default (m start) ((fun m : AdminState -> AdminState * AdminReply => m start) <$> Some m)). rewrite <-Em. vm_compute. reflexivity. }
  destruct (m start) as [s' reply] eqn:Er.
  destruct (admin_requests_are_authentic app r m start s' reply Em Er) as [(_ & -> & ->)|(p & _ & [(l & retry & _ & _ & ->)|(l & handler & w & _ & Hh & Hw & _)])];
    [done|discriminate Hc|].
  exfalso. injection Hh as <-. unfold json_of, keyring in Hw. cbn in Hw. injection Hw as _ <-. discriminate Hc.
Defined.

(** Guesses are not counted, however many. *)
Example failed_admin_logins_are_not_limited :
  match admin_router app (asked "GET" "/info" (basic "root" "guess")) with
  | Some m => fst (m (fst (m (fst (m start))))) = start
  | None => False
  end.
Proof. vm_compute. reflexivity. Qed.

(** The key of any tenant may look at the keyring and the disk, and run the
    housekeeping. *)
Example tenant_key_administers :
  code_of (answer_to (asked "GET" "/keyring" (basic "alice" "secret"))) = Some 200%Z /\
  code_of (answer_to (asked "GET" "/doctor" (basic "alice" "secret"))) = Some 200%Z /\
  code_of (answer_to (asked "POST" "/housekeeping/run" (basic "alice" "secret"))) = Some 200%Z.
Proof. vm_compute. split_and!; reflexivity. Qed.

(** The server's own key is disabled in the credentials file: the S3 interface
    does not know it any more, the admin API does. *)
Definition disabled_root : AdminApp :=
  mk_AdminApp
    (mk_AppState (demo_storage false) (as_config GateSpec.GateDemo.app) []
       {[ "root" := mk_CredentialEntry "root" "rotated" false None (Some "north") [] [] ]} "s3.test")
    "" "1.0" 0 reported (Parsed []) false None true.
Example disabled_key_administers :
  lookup_credential (as_credentials (aa_app disabled_root)) "root" = None /\
  admin_principal disabled_root (rq_headers (asked "GET" "/info" (basic "root" "root-secret"))) = Some "root".
Proof. vm_compute. split; reflexivity. Qed.
End AdminDemo.

Module ServerDemo.
Import Demo.Toys MultipartSpec.ToyUploads Signature.ToyPercent ConsoleSpec.ConsoleDemo.
#[export] Existing Instance toy_percent.
#[export] Existing Instance GateSpec.GateDemo.toy_process.
#[export] Existing Instance AdminDemo.toy_disk.

Definition served (path : string) : Served :=
  build_router AdminDemo.app ConsoleDemo.app (asked "GET" path []) browser (Demo.body_of "").
(** A bucket may be called healthz, api or ui: its listings are answered by the
    server itself, and some of its objects too. *)
Example server_paths_shadow_buckets :
  Forall (fun name => validate_bucket_name name = Ok tt) ["healthz"; "readyz"; "metrics"; "api"] /\
  served "/healthz" = ByHealth /\ served "/readyz" = ByReady /\ served "/metrics" = ByMetrics /\
  served "/api/buckets" = ByConsole /\ served "/api/admin/v1/status" = ByAdmin /\
  served "/api/holiday.jpg" = ByS3 /\ served "/photos/cat.jpg" = ByS3.
Proof. split; [by repeat constructor|]. vm_compute. split_and!; reflexivity. Qed.
End ServerDemo.
