(* ===== verification/AuditLog.v ===== *)
(** * The audit log and the metrics

    [maxio-server/src/audit.rs] and [metrics.rs]: the record a mutating request
    leaves, in the S3 interface after the handler and in the console and the
    admin API by a layer of their routers; the counters of requests and the text
    a monitor reads.  The log is the list of its records: the JSON of one, the
    capture for tests and the text of a floating-point number are left out or a
    parameter. *)

From stdpp Require Import base list gmap numbers strings pretty.
From Stdlib Require Import ZArith Lia Ascii Strings.Byte.
From S2P Require Import Prelude IpAddr Glob Policy Bytes Reader Types Keyring Paths Sidecar Http AccessLog.

Local Open Scope nat_scope.

(** ** The audit log *)

Record AuditRecord : Type := mk_AuditRecord {
  ar_timestamp : string; ar_source : string; ar_action : string; ar_method : string; ar_path : string;
  ar_bucket : option string; ar_key : option string; ar_principal : string; ar_client_ip : string;
  ar_status : Z; ar_outcome : string }.

Definition is_mutating (method : string) : bool := bool_decide (method ∈ ["PUT"; "POST"; "DELETE"; "PATCH"]).

Definition infer_principal (path : string) : string :=
  if starts_with path "/api/admin/" then "admin" else if starts_with path "/api/" then "console" else "anonymous".

(** Source, bucket, key and action. *)
Definition parse_audit_target (method path query : string) : string * option string * option string * string :=
  match strip_prefix "/api/admin/v1/" path with
  | Some rest => ("admin", None, None, "admin:" +:+ rest)
  | None =>
      if starts_with path "/api/" then ("console", None, None, "console:" +:+ method +:+ " " +:+ path)
      else
        let segments := split_char "/" (trim_start_slashes path) in
        let bucket := head segments in
        let key := match tail segments with [] => None | rest => Some (join_with "/" rest) end in
        let action := "s3:" +:+ method +:+ " " +:+ path in
        let action := if decide (query = "") then action else action +:+ "?" +:+ query in
        ("s3", bucket, (k ← key; if decide (k = "") then None else Some k), action)
  end.

Section audit.
Context `{LogClock}.

Definition audit_record (n : nat) (method path query principal client_ip : string) (status : Z) : AuditRecord :=
  let '(source, bucket, key, action) := parse_audit_target method path query in
  mk_AuditRecord (timestamp_at n) source action method path bucket key principal client_ip status
    (if (status <? 400)%Z then "success" else "failure").

(** What the S3 interface adds to the log after its handler. *)
Definition finish_s3_request_audit (audit_log : bool) (n : nat) (method path query : string) (principal : option string)
    (client_ip : string) (status : Z) : list AuditRecord :=
  if negb audit_log || negb (is_mutating method) then []
  else [audit_record n method path query (default (infer_principal path) principal) client_ip status].

(** The layer of the console and of the admin API: the request as it is seen
    there, its handler, and the record at the time the handler is done. *)
Definition audit_middleware {S A} (audit_log : bool) (proxies : TrustedProxies) (time : S -> nat) (status_of : A -> Z)
    (next : Request -> S -> S * A) (r : Request) (s : S) : S * A * list AuditRecord :=
  let '(s, reply) := next r s in
  if negb audit_log || negb (is_mutating (rq_method r)) then (s, reply, [])
  else
    (s, reply, [audit_record (time s) (rq_method r) (rq_path r) (rq_query r)
                  (default (infer_principal (rq_path r)) (rq_principal r)) (client_ip_from_request proxies r) (status_of reply)]).

(** The layer neither changes the answer nor hides it: one record for a request
    that changes something, with the status of the answer. *)
Lemma audit_middleware_spec {S A} proxies time status_of (next : Request -> S -> S * A) r s :
  let '(s', reply, log) := audit_middleware true proxies time status_of next r s in
  (s', reply) = next r s /\
  if is_mutating (rq_method r) then exists rec, log = [rec] /\ ar_status rec = status_of reply /\
       (ar_outcome rec = "success" <-> (status_of reply < 400)%Z) /\ ar_path rec = rq_path r
  else log = [].
Proof.
  unfold audit_middleware. destruct (next r s) as [s' reply]. cbn [negb orb]. destruct (is_mutating _); cbn; [|done].
  split; [done|]. eexists. split; [done|]. unfold audit_record. destruct (parse_audit_target _ _ _) as [[[? ?] ?] ?]. cbn.
  split_and!; [done| |done]. destruct (Z.ltb_spec (status_of reply) 400); naive_solver lia.
Qed.
End audit.

(** ** The metrics *)

Definition METHODS : list string := ["GET"; "PUT"; "POST"; "DELETE"; "HEAD"; "OPTIONS"; "OTHER"].
Definition STATUS_CLASSES : list string := ["2xx"; "3xx"; "4xx"; "5xx"; "other"].

(** [requests] by method, then by class of status; every counter has 64 bits. *)
Record Metrics : Type := mk_Metrics {
  mt_requests : list (list Z); mt_duration_sum_ns : Z; mt_duration_count : Z; mt_slow_downs : Z; mt_upload_bytes : Z }.
Definition no_metrics : Metrics := mk_Metrics (replicate 7 (replicate 5 0%Z)) 0 0 0 0.

Definition fetch_add (counter by_ : Z) : Z := ((counter + by_) mod 2 ^ 64)%Z.

Definition method_index (method : string) : nat :=
  match list_find (fun m => m = method) ["GET"; "PUT"; "POST"; "DELETE"; "HEAD"; "OPTIONS"] with
  | Some (i, _) => i
  | None => 6
  end.
Definition status_class_index (status : Z) : nat :=
  if ((200 <=? status) && (status <=? 299))%Z then 0
  else if ((300 <=? status) && (status <=? 399))%Z then 1
  else if ((400 <=? status) && (status <=? 499))%Z then 2
  else if ((500 <=? status) && (status <=? 599))%Z then 3 else 4.

Definition record_request (method : string) (status elapsed_nanos : Z) (m : Metrics) : Metrics :=
  mk_Metrics (alter (alter (fun c => fetch_add c 1) (status_class_index status)) (method_index method) (mt_requests m))
    (fetch_add (mt_duration_sum_ns m) (elapsed_nanos mod 2 ^ 64)) (fetch_add (mt_duration_count m) 1)
    (mt_slow_downs m) (mt_upload_bytes m).
Definition record_slow_down (m : Metrics) : Metrics :=
  mk_Metrics (mt_requests m) (mt_duration_sum_ns m) (mt_duration_count m) (fetch_add (mt_slow_downs m) 1) (mt_upload_bytes m).
Definition record_upload_bytes (bytes : Z) (m : Metrics) : Metrics :=
  if (0 <? bytes)%Z then
    mk_Metrics (mt_requests m) (mt_duration_sum_ns m) (mt_duration_count m) (mt_slow_downs m) (fetch_add (mt_upload_bytes m) bytes)
  else m.

(** The layer of the server and of the metrics port. *)
Definition metrics_middleware {S A} (metrics_enabled : bool) (clock : S -> Z) (status_of : A -> Z)
    (next : Request -> S -> S * A) (r : Request) (s : S) (m : Metrics) : S * A * Metrics :=
  let start := clock s in
  let '(s, reply) := next r s in
  (s, reply, if metrics_enabled then record_request (rq_method r) (status_of reply) (clock s - start) m else m).

(** What the text tells besides the counters. *)
Record Gauges : Type := mk_Gauges {
  ga_uptime_secs : Z; ga_multipart_uploads : nat; ga_cluster : option (Z * bool); ga_disk : option (Z * Z) }.

Section text.
(** [sum_ns as f64 / 1_000_000_000.0], printed. *)
Context (seconds_text : Z -> string).

Definition metric (name help kind value : string) : list string :=
  ["# HELP " +:+ name +:+ " " +:+ help; "# TYPE " +:+ name +:+ " " +:+ kind; name +:+ " " +:+ value].
Definition request_line (method class : string) (value : Z) : list string :=
  if (0 <? value)%Z then
    ["maxio_http_requests_total{method=" +:+ dquote +:+ method +:+ dquote +:+ ",status_class=" +:+ dquote +:+ class +:+ dquote +:+ "} "
       +:+ pretty value]
  else [].
Definition request_lines (requests : list (list Z)) : list string :=
  concat (zip_with (fun method row => concat (zip_with (request_line method) STATUS_CLASSES row)) METHODS requests).

Definition render_prometheus (m : Metrics) (g : Gauges) : list string :=
  ["# HELP maxio_http_requests_total Total HTTP requests by method and status class"; "# TYPE maxio_http_requests_total counter"]
  ++ request_lines (mt_requests m)
  ++ metric "maxio_http_request_duration_seconds_sum" "Sum of HTTP request durations" "counter" (seconds_text (mt_duration_sum_ns m))
  ++ metric "maxio_http_request_duration_seconds_count" "HTTP requests observed for latency" "counter" (pretty (mt_duration_count m))
  ++ metric "maxio_s3_slow_down_total" "S3 rate-limit SlowDown responses" "counter" (pretty (mt_slow_downs m))
  ++ metric "maxio_upload_bytes_total" "Bytes accepted on S3 PUT uploads" "counter" (pretty (mt_upload_bytes m))
  ++ metric "maxio_uptime_seconds" "Process uptime" "gauge" (pretty (ga_uptime_secs g))
  ++ metric "maxio_active_multipart_uploads" "Active multipart uploads" "gauge" (pretty (ga_multipart_uploads g))
  ++ match ga_cluster g with
     | Some (epoch, quorum) =>
         metric "maxio_cluster_routing_epoch" "Server routing snapshot epoch" "gauge" (pretty epoch)
         ++ metric "maxio_cluster_storage_quorum_ok" "1 when storage Raft quorum is healthy" "gauge" (if quorum : bool then "1" else "0")
     | None => []
     end
  ++ match ga_disk g with
     | Some (total, free) =>
         metric "maxio_disk_total_bytes" "Total bytes on data volume" "gauge" (pretty total)
         ++ metric "maxio_disk_free_bytes" "Free bytes on data volume" "gauge" (pretty free)
     | None => []
     end.
End text.

(** ** What the counters count *)

Record observed : Type := mk_observed { ob_method : string; ob_status : Z; ob_nanos : Z }.
Definition run_requests (l : list observed) (m : Metrics) : Metrics :=
  fold_left (fun m o => record_request (ob_method o) (ob_status o) (ob_nanos o) m) l m.
Definition counted (i j : nat) (o : observed) : Prop := method_index (ob_method o) = i /\ status_class_index (ob_status o) = j.
#[export] Instance counted_dec i j o : Decision (counted i j o).
Proof. unfold counted. apply _. Defined.
Definition cell (i j : nat) (m : Metrics) : option Z := row ← mt_requests m !! i; row !! j.

Lemma fetch_add_count n : fetch_add (Z.of_nat n mod 2 ^ 64) 1 = (Z.of_nat (n + 1) mod 2 ^ 64)%Z.
Proof. unfold fetch_add. rewrite Zplus_mod_idemp_l. f_equal. lia. Qed.
Lemma method_index_lt method : method_index method < 7.
Proof.
  unfold method_index. destruct (list_find _ _) as [[i x]|] eqn:E; [|lia].
  apply list_find_Some in E as (E & _ & _). apply lookup_lt_Some in E. cbn in E. lia.
Qed.
Lemma status_class_index_lt status : status_class_index status < 5.
Proof. unfold status_class_index. repeat case_match; lia. Qed.

Lemma cell_step o i j m c : cell i j m = Some c ->
  cell i j (record_request (ob_method o) (ob_status o) (ob_nanos o) m) = Some (if decide (counted i j o) then fetch_add c 1 else c).
Proof.
  unfold cell, record_request, mbind, option_bind. cbn [mt_requests]. intros Hc.
  destruct (mt_requests m !! i) as [row|] eqn:Er; [|done].
  destruct (decide (method_index (ob_method o) = i)) as [Hi|Hi].
  - subst i. rewrite list_lookup_alter_eq, Er. cbn. destruct (decide (status_class_index (ob_status o) = j)) as [Hj|Hj].
    + subst j. rewrite list_lookup_alter_eq, Hc. cbn. by rewrite decide_True by done.
    + rewrite list_lookup_alter_ne by done. rewrite decide_False by (intros [_ ?]; done). done.
  - rewrite list_lookup_alter_ne by done. rewrite Er. rewrite decide_False by (intros [? _]; done). done.
Qed.

(** After any requests, every cell holds the number of the requests of its
    method and class of status, and the counter of durations that of all of
    them, modulo [2 ^ 64]; every request is in exactly one cell. *)
Theorem counters_count_requests l :
  (forall i j, i < 7 -> j < 5 ->
     cell i j (run_requests l no_metrics) = Some (Z.of_nat (length (filter (counted i j) l)) mod 2 ^ 64)%Z) /\
  mt_duration_count (run_requests l no_metrics) = (Z.of_nat (length l) mod 2 ^ 64)%Z /\
  Forall (fun o => exists i j, i < 7 /\ j < 5 /\ forall i' j', counted i' j' o <-> i' = i /\ j' = j) l.
Proof.
  split_and!.
  - intros i j Hi Hj. induction l as [|o l IH] using rev_ind.
    + unfold cell, run_requests, no_metrics. cbn [fold_left mt_requests mbind option_bind].
      rewrite lookup_replicate_2 by done. cbn beta iota. by apply lookup_replicate_2.
    + unfold run_requests in *. rewrite fold_left_app. cbn [fold_left]. erewrite cell_step by exact IH.
      rewrite filter_app, length_app, filter_cons. case_decide; cbn [filter list_filter length].
      * by rewrite fetch_add_count.
      * by rewrite Nat.add_0_r.
  - induction l as [|o l IH] using rev_ind; [done|]. unfold run_requests in *. rewrite fold_left_app. cbn [fold_left].
    unfold record_request at 1. cbn [mt_duration_count]. by rewrite IH, fetch_add_count, length_app.
  - apply Forall_forall. intros o _. exists (method_index (ob_method o)), (status_class_index (ob_status o)).
    split_and!; [apply method_index_lt|apply status_class_index_lt|]. unfold counted. naive_solver.
Qed.

(** ** What the records say *)

Module AuditDemo.
#[local] Instance noon : LogClock := {| timestamp_at _ := "2026-06-28T12:00:00Z"; uri_text r := rq_path r |}.
Definition request (method path query : string) (principal : option string) : Request :=
  mk_Request method path query (fun _ => []) None None principal.
Definition recorded (r : Request) : list (string * option string * option string * string) :=
  map (fun rec => (ar_source rec, ar_bucket rec, ar_key rec, ar_principal rec))
    (snd (audit_middleware true [] (fun _ => 0) (fun status : Z => status) (fun _ s => (s, 200%Z)) r tt)).

(** The nested routers take their prefix off the path before the layer sees it:
    a sweep that an administrator starts is recorded as an access of the S3
    interface to the bucket [housekeeping], and a bucket the console deletes as
    one of the bucket [buckets] by nobody. *)
Example nested_requests_are_recorded_as_s3 :
  recorded (request "POST" "/housekeeping/run" "" (Some "admin:bearer")) = [("s3", Some "housekeeping", Some "run", "admin:bearer")] /\
  recorded (request "DELETE" "/buckets/photos" "" None) = [("s3", Some "buckets", Some "photos", "anonymous")] /\
  recorded (request "POST" "/api/admin/v1/housekeeping/run" "" (Some "admin:bearer")) = [("admin", None, None, "admin:bearer")].
Proof. vm_compute. done. Qed.

(** The action of a presigned upload holds its signature. *)
Example signatures_are_recorded :
  map ar_action (finish_s3_request_audit true 0 "PUT" "/photos/cat" "X-Amz-Expires=604800&X-Amz-Signature=abc" (Some "k") "-" 200) =
  ["s3:PUT /photos/cat?X-Amz-Expires=604800&X-Amz-Signature=abc"].
Proof. vm_compute. done. Qed.

Example metrics_text : Forall (fun line => line ∈
    render_prometheus (fun _ => "0.005") (record_slow_down (record_request "GET" 200 5000000 no_metrics)) (mk_Gauges 7 0 None None))
  ["maxio_http_requests_total{method=" +:+ dquote +:+ "GET" +:+ dquote +:+ ",status_class=" +:+ dquote +:+ "2xx" +:+ dquote +:+ "} 1";
   "maxio_http_request_duration_seconds_count 1"; "maxio_s3_slow_down_total 1"; "maxio_uptime_seconds 7"].
Proof. vm_compute. repeat constructor. Qed.
End AuditDemo.
