(* ===== verification/Backend.v ===== *)
(** * The interface of the storage

    [maxio-storage/src/backend.rs]: the operations the server needs of a
    storage, on whatever state it keeps, and the file-system store behind it.
    [BucketStore] says what a client of the interface may rely on for buckets. *)

From stdpp Require Import base list gmap numbers strings pretty.
From Stdlib Require Import ZArith Lia Ascii Strings.Byte.
From S2P Require Import Prelude IpAddr Glob Policy Bytes Reader Utf8 Types Quota Crypto ErasureCode ChunkReader MetadataIndex FileSystem Paths World Keyring TreeOk Storage BucketConfig BucketSpec Sidecar Publish Objects Versions Listing Housekeeping ApiError ListApi Http Signature RateLimit Tenant Gate Multipart AccessLog Admin.

Local Open Scope nat_scope.

(** ** The trait *)

Section trait.
Context (S : Type).
Local Abbreviation Op A := (S -> S * result StorageError A).

Record OperationalOps : Type := mk_OperationalOps {
  op_data_root : string;
  op_keyring : Keyring;
  op_kms : option KmsBackend;
  op_check_upload_start : option Z -> Op unit;
  op_check_readiness : S -> S * result string unit;
  op_housekeeping_sweep : Z -> Op swept;
  op_count_active_multipart_uploads : S -> nat;
  op_count_bucket_objects : string -> Op nat;
  op_count_all_objects : Op nat;
}.

Record BucketOps : Type := mk_BucketOps {
  bk_list_buckets : Op (list BucketMeta);
  bk_create_bucket : BucketMeta -> Op bool;
  bk_head_bucket : string -> Op bool;
  bk_get_bucket_meta : string -> Op BucketMeta;
  bk_delete_bucket : string -> Op bool;
}.

Record SettingOps : Type := mk_SettingOps {
  se_is_versioned : string -> Op bool;
  se_set_versioning : string -> bool -> Op unit;
  se_get_bucket_public : string -> Op (bool * bool);
  se_set_bucket_public : string -> bool -> bool -> Op unit;
  se_put_bucket_policy : string -> string -> Op unit;
  se_get_bucket_policy : string -> Op (option string);
  se_delete_bucket_policy : string -> Op unit;
  se_put_bucket_cors : string -> list CorsRule -> Op unit;
  se_get_bucket_cors : string -> Op (option (list CorsRule));
  se_delete_bucket_cors : string -> Op unit;
  se_put_bucket_encryption : string -> BucketEncryptionConfig -> Op unit;
  se_get_bucket_encryption : string -> Op (option BucketEncryptionConfig);
  se_delete_bucket_encryption : string -> Op unit;
  se_set_bucket_erasure_coding : string -> option bool -> Op unit;
  se_get_bucket_erasure_coding : string -> Op bool;
  se_put_bucket_lifecycle : string -> list LifecycleRule -> Op unit;
  se_get_bucket_lifecycle : string -> Op (option (list LifecycleRule));
  se_delete_bucket_lifecycle : string -> Op unit;
  se_get_bucket_logging : string -> Op (option (string * string));
  se_put_bucket_logging : string -> string -> string -> Op unit;
  se_delete_bucket_logging : string -> Op unit;
  se_get_bucket_notification : string -> Op (option BucketNotificationConfig);
  se_put_bucket_notification : string -> BucketNotificationConfig -> Op unit;
  se_delete_bucket_notification : string -> Op unit;
  se_deliver_access_log : AccessLogEntry -> Op unit;
}.

Record LockOps : Type := mk_LockOps {
  lk_put_bucket_object_lock : string -> ObjectLockConfig -> Op unit;
  lk_get_bucket_object_lock : string -> Op (option ObjectLockConfig);
  lk_put_object_retention : string -> string -> option string -> ObjectLockRetention -> Op unit;
  lk_get_object_retention : string -> string -> option string -> Op ObjectLockRetention;
  lk_put_object_legal_hold : string -> string -> option string -> LegalHoldStatus -> Op unit;
  lk_get_object_legal_hold : string -> string -> option string -> Op LegalHoldStatus;
}.

Record ObjectOps : Type := mk_ObjectOps {
  ob_put_object : string -> string -> string -> source -> option (ChecksumAlgorithm * option string) ->
    option EncryptionRequest -> option Z -> Op PutResult;
  ob_get_object : string -> string -> option bytes -> Op (ByteStream * ObjectMeta);
  ob_get_object_range : string -> string -> nat -> nat -> option bytes -> Op (ByteStream * ObjectMeta);
  ob_head_object : string -> string -> Op ObjectMeta;
  ob_delete_object : string -> string -> Op DeleteResult;
  ob_get_object_tagging : string -> string -> Op (gmap string string);
  ob_put_object_tagging : string -> string -> gmap string string -> Op unit;
  ob_delete_object_tagging : string -> string -> Op unit;
  ob_get_object_version : string -> string -> string -> option bytes -> Op (ByteStream * ObjectMeta);
  ob_head_object_version : string -> string -> string -> Op ObjectMeta;
  ob_delete_object_version : string -> string -> string -> Op ObjectMeta;
  ob_list_objects : string -> string -> Op (list ObjectMeta);
  ob_list_object_versions : string -> string -> Op (list ObjectMeta);
}.

Record MultipartOps : Type := mk_MultipartOps {
  mp_create_multipart_upload : string -> string -> string -> option ChecksumAlgorithm ->
    option UploadEncryptionSpec -> Op MultipartUploadMeta;
  mp_upload_part : string -> string -> Z -> source -> option (ChecksumAlgorithm * option string) ->
    option bytes -> option Z -> Op PartMeta;
  mp_complete_multipart_upload : string -> string -> list (Z * string) -> option bytes -> Op PutResult;
  mp_abort_multipart_upload : string -> string -> Op unit;
  mp_list_parts : string -> string -> Op (MultipartUploadMeta * list PartMeta);
  mp_list_multipart_uploads : string -> Op (list MultipartUploadMeta);
}.

Record StorageBackend : Type := mk_StorageBackend {
  sb_operational : OperationalOps; sb_buckets : BucketOps; sb_settings : SettingOps; sb_locks : LockOps;
  sb_objects : ObjectOps; sb_multipart : MultipartOps }.
End trait.
Arguments mk_OperationalOps {_}.
Arguments mk_BucketOps {_}.
Arguments mk_SettingOps {_}.
Arguments mk_LockOps {_}.
Arguments mk_ObjectOps {_}.
Arguments mk_MultipartOps {_}.
Arguments mk_StorageBackend {_}.

(** ** The file-system store *)

Section filesystem.
Context `{Environment} `{Crates} `{Serde} `{SerdeJson} `{Aead} `{ReedSolomon} `{HexDecode} `{Buffering}.
Context `{!KeyService FilesystemStorage} (from_str : string -> result string BucketPolicy) (st : FilesystemStorage).

Definition filesystem_operational : OperationalOps world :=
  mk_OperationalOps (st_data_root st) (st_keyring st) (st_kms st) (check_upload_start st) (check_readiness st)
    (housekeeping_sweep st) (fun w => count_active_multipart_uploads st (w_tree w)) (Listing.count_bucket_objects st)
    (Listing.count_all_objects st).
Definition filesystem_buckets : BucketOps world :=
  mk_BucketOps (Listing.list_buckets st) (Storage.create_bucket st) (Storage.head_bucket st) (get_bucket_meta st) (Storage.delete_bucket st).
Definition filesystem_settings : SettingOps world :=
  mk_SettingOps (BucketConfig.is_versioned st) (BucketConfig.set_versioning st) (BucketConfig.get_bucket_public st)
    (BucketConfig.set_bucket_public st) (BucketConfig.put_bucket_policy st from_str) (BucketConfig.get_bucket_policy st)
    (BucketConfig.delete_bucket_policy st) (BucketConfig.put_bucket_cors st) (BucketConfig.get_bucket_cors st)
    (BucketConfig.delete_bucket_cors st) (BucketConfig.put_bucket_encryption st) (BucketConfig.get_bucket_encryption st)
    (BucketConfig.delete_bucket_encryption st) (BucketConfig.set_bucket_erasure_coding st) (BucketConfig.get_bucket_erasure_coding st)
    (BucketConfig.put_bucket_lifecycle st) (BucketConfig.get_bucket_lifecycle st) (BucketConfig.delete_bucket_lifecycle st)
    (BucketConfig.get_bucket_logging st) (BucketConfig.put_bucket_logging st) (BucketConfig.delete_bucket_logging st)
    (BucketConfig.get_bucket_notification st) (BucketConfig.put_bucket_notification st) (BucketConfig.delete_bucket_notification st)
    (deliver_access_log st).
Definition filesystem_locks : LockOps world :=
  mk_LockOps (BucketConfig.put_bucket_object_lock st) (BucketConfig.get_bucket_object_lock st) (Sidecar.put_object_retention st)
    (Sidecar.get_object_retention st) (Sidecar.put_object_legal_hold st) (Sidecar.get_object_legal_hold st).
Definition filesystem_objects : ObjectOps world :=
  mk_ObjectOps (Objects.put_object st) (Objects.get_object st) (Objects.get_object_range st) (Objects.head_object st)
    (Versions.delete_object st) (Objects.get_object_tagging st) (Objects.put_object_tagging st) (Objects.delete_object_tagging st)
    (Versions.get_object_version st) (Versions.head_object_version st) (Versions.delete_object_version st)
    (Listing.list_objects st) (Listing.list_object_versions st).
Definition filesystem_multipart : MultipartOps world :=
  mk_MultipartOps (Multipart.create_multipart_upload st) (Multipart.upload_part st) (Multipart.complete_multipart_upload st)
    (Multipart.abort_multipart_upload st) (Multipart.list_parts st) (Multipart.list_multipart_uploads st).
(** [dyn_storage]. *)
Definition dyn_storage : StorageBackend world :=
  mk_StorageBackend filesystem_operational filesystem_buckets filesystem_settings filesystem_locks filesystem_objects filesystem_multipart.
End filesystem.

(** ** What a client may rely on *)

(** A bucket that was created is there, one that was deleted is not, and making a
    bucket, or failing to, takes no other away. *)
Class BucketStore {S} (b : BucketOps S) : Prop := {
  others_stay meta name s s' r : bk_create_bucket _ b meta s = (s', r) ->
    snd (bk_head_bucket _ b name s) = Ok true -> snd (bk_head_bucket _ b name s') = Ok true;
  created_is_there meta s s' : bk_create_bucket _ b meta s = (s', Ok true) ->
    bk_head_bucket _ b (bm_name meta) s' = (s', Ok true);
  deleted_is_gone name s s' : bk_delete_bucket _ b name s = (s', Ok true) ->
    snd (bk_head_bucket _ b name s') <> Ok true;
}.

Section discharge.
Context `{Serde} (st : FilesystemStorage).
Hypothesis Hst : storage_ok st.

Lemma record_is_there b c t : fs_read t (bucket_meta_path st b) = Ok c -> try_exists t (bucket_meta_path st b) = Ok true.
Proof.
  unfold try_exists, fs_read. destruct (resolve _ _) as [l|]; [|done]. cbn. destruct (t_files t !! l) eqn:El; [|by case_decide].
  intros _. f_equal. apply orb_true_iff. right. by apply bool_decide_eq_true.
Qed.
Lemma created_has_record m w w' : Storage.create_bucket st m w = (w', Ok true) ->
  Storage.head_bucket st (bm_name m) w' = (w', Ok true).
Proof.
  unfold Storage.create_bucket. intros ([] & w1 & [Hv ->]%lift_ok & Hc)%M_bind_ok. unfold on_world in Hc.
  destruct (at_place_names _ _ _ (bucket_meta_place st (bm_name m) Hst Hv)) as [Hp _].
  destruct (fs_create_dir (w_tree w) _) as [t [u|e]]; [|by case_decide].
  fold (bucket_meta_path st (bm_name m)) in Hc.
  destruct (fs_write t (bucket_meta_path st (bm_name m)) (BucketJson m)) as [t' [u'|e]] eqn:E; [|done].
  injection Hc as <-. apply fs_write_effect in E as [[_ ?]|(_ & -> & Hres & _)]; [done| |done].
  unfold Storage.head_bucket. rewrite (run_lift _ _ _ _ Hv). unfold query. cbn [w_tree with_tree].
  rewrite (record_is_there _ (BucketJson m)); [done|]. apply fs_read_ok; [done|].
  split; [by apply (resolve_mono t)|apply lookup_insert_eq].
Qed.
Lemma deleted_has_no_record name w w' : Storage.delete_bucket st name w = (w', Ok true) ->
  snd (Storage.head_bucket st name w') <> Ok true.
Proof.
  unfold Storage.delete_bucket. intros ([] & w1 & [Hv ->]%lift_ok & Hd)%M_bind_ok.
  apply M_bind_ok in Hd as (there & w1 & _ & Hd). destruct there; cbn [negb] in Hd; [|done].
  apply M_bind_ok in Hd as (real & w2 & _ & Hd). apply M_bind_ok in Hd as (u & w3 & _ & Hd).
  apply M_bind_ok in Hd as (u' & w4 & _ & Hd). unfold on_world, fs_remove_dir in Hd.
  destruct (at_place_names _ _ _ (bucket_dir_place st name Hst Hv)) as [Hdp Hdn].
  destruct (resolve (w_tree w4) (bucket_dir st name)) as [l|e] eqn:El; [|done]. apply resolve_names in El as ->; [|done].
  case_decide; [|by case_decide]. destruct (empty_dir _ _); [|done]. injection Hd as <-.
  unfold Storage.head_bucket. rewrite (run_lift _ _ _ _ Hv). unfold query. cbn [snd w_tree with_tree].
  pose proof (bucket_meta_place st name Hst Hv) as Hplace. destruct (at_place_names _ _ _ Hplace) as [Hp Hn].
  unfold try_exists. destruct (resolve _ (bucket_meta_path st name)) as [l|e] eqn:El; cbn [map_err]; [|by case_decide].
  pose proof El as Hr. apply resolve_names in Hr as ->; [|done]. rewrite Hn in El. eapply resolve_reach in El; [|exact Hplace].
  specialize (El (bucket_location st name) ltac:(done)). cbn in El. unfold bucket_location in El. rewrite Hdn in El. set_solver.
Qed.
(** More directories and files only help. *)
Lemma try_exists_mono t t' p : t_dirs t ⊆ t_dirs t' -> (forall l, is_Some (t_files t !! l) -> is_Some (t_files t' !! l)) ->
  try_exists t p = Ok true -> try_exists t' p = Ok true.
Proof.
  intros Hd Hf. unfold try_exists. destruct (resolve t p) as [l|] eqn:El; [|by case_decide].
  rewrite (resolve_mono t t' p l Hd El). intros [= [H1|H1]%orb_true_iff]; apply bool_decide_eq_true in H1; f_equal; apply orb_true_iff.
  - left. apply bool_decide_eq_true. by apply Hd.
  - right. apply bool_decide_eq_true. by apply Hf.
Qed.
Lemma creation_keeps meta w w' r p : Storage.create_bucket st meta w = (w', r) ->
  try_exists (w_tree w) p = Ok true -> try_exists (w_tree w') p = Ok true.
Proof.
  unfold Storage.create_bucket, mbind, M_bind, lift. destruct (validate_bucket_name (bm_name meta)); [|by intros [= <- _]].
  unfold on_world, fs_create_dir. destruct (resolve (w_tree w) _) as [l|e] eqn:El; [|by intros [= <- _]].
  case_decide as D; [by intros [= <- _]|]. set (t := mk_tree (t_files (w_tree w)) ({[l]} ∪ t_dirs (w_tree w))).
  assert (Hm : try_exists (w_tree w) p = Ok true -> try_exists t p = Ok true) by (apply try_exists_mono; [set_solver|done]).
  unfold fs_write. destruct (resolve t (join _ _)) as [k|e] eqn:Ek; [case_decide|].
  2: { intros [= <- _] Hp. cbn [w_tree with_tree]. eapply try_exists_mono; [| |by apply Hm]; [done|].
    intros j [c Hj]. cbn. destruct (decide (j = k)) as [->|]; [rewrite lookup_insert_eq|rewrite lookup_insert_ne by done]; by eexists. }
  all: intros [= <- _] Hp; cbn [w_tree with_tree]; unfold fs_remove_dir;
    destruct (resolve t (bucket_dir st (bm_name meta))) as [l'|e'] eqn:El'; [|by apply Hm]; (case_decide; [|by apply Hm]); destruct (empty_dir _ _); [|by apply Hm].
  all: assert (Hsub : t_dirs (w_tree w) ⊆ t_dirs t) by set_solver; rewrite (resolve_mono (w_tree w) t _ l Hsub El) in El'; injection El' as <-; cbn [fst].
  all: eapply try_exists_mono; [| |exact Hp]; [cbn; set_solver|done].
Qed.
Lemma creation_keeps_heads meta name w w' r : Storage.create_bucket st meta w = (w', r) ->
  snd (Storage.head_bucket st name w) = Ok true -> snd (Storage.head_bucket st name w') = Ok true.
Proof.
  intros Hc. unfold Storage.head_bucket, mbind, M_bind, lift, query. destruct (validate_bucket_name name) as [[]|]; [|done]. cbn [snd].
  destruct (try_exists (w_tree w) _) as [b|] eqn:E; [|done]. intros [= ->]. by rewrite (creation_keeps _ _ _ _ _ Hc E).
Qed.
#[export] Instance filesystem_bucket_store : BucketStore (filesystem_buckets st).
Proof. split; [exact creation_keeps_heads|exact created_has_record|exact deleted_has_no_record]. Qed.
End discharge.
