(* ===== verification/ClusterMetadata.v ===== *)
(** * Buckets in a cluster

    [maxio-cluster/src/metadata.rs]: the storage of a server that belongs to a
    cluster.  The creation and the deletion of a bucket are proposed to the
    storage nodes first and then made on the server; everything else is the
    server's own. *)

From stdpp Require Import base list gmap numbers strings pretty.
From Stdlib Require Import ZArith Lia Ascii Strings.Byte.
From S2P Require Import Prelude IpAddr Glob Policy Bytes Reader Utf8 Types Quota Crypto ErasureCode ChunkReader MetadataIndex FileSystem Paths World Keyring TreeOk Storage BucketConfig Sidecar Publish Objects Versions Listing Housekeeping ClusterEc MultipartSpec RaftStore RaftStoreSpec ClusterRouting AccessLog Demo Backend.

Local Open Scope nat_scope.

(** An operation on the server's storage, beside the cluster. *)
Definition on_server {S R E A} (m : S -> S * result E A) : S * R -> (S * R) * result E A := fun '(s, c) =>
  let '(s, r) := m s in ((s, c), r).

(** The storage nodes as a client reaches them over HTTP: what they answer about
    their status, and what a mutation posted to one does to them and answers. *)
Class ClusterHttp (R : Type) : Type := {
  status_at : R -> string -> option StorageRaftStatus;
  post_mutation : string -> StorageMutation -> R -> R * option MutationResponse;
}.

Section wrapper.
Context {S R : Type} `{!ClusterHttp R} (inner : StorageBackend S) (peers : list StoragePeerRef).
Local Abbreviation Op A := (S * R -> (S * R) * result StorageError A).

(** [StorageRaftClient::propose], with what it does to the nodes. *)
Definition answers (c : R) : RaftHttp := {| get_status := status_at c; post_propose url m := snd (post_mutation url m c) |}.
Definition client_propose (mutation : StorageMutation) (c : R) : R * result string MutationResponse :=
  (match find_leader_propose_url (H := answers c) peers with
   | Ok url => fst (post_mutation url mutation c)
   | Err _ => c
   end, propose (H := answers c) peers mutation).

Definition propose_mutation (mutation : StorageMutation) : Op unit := fun '(s, c) =>
  let '(c, resp) := client_propose mutation c in
  ((s, c), match resp with
           | Err e => Err (IntegrityError ("storage raft propose: " +:+ e))
           | Ok resp => if mr_ok resp then Ok tt else Err (IntegrityError "storage raft propose rejected")
           end).
Definition after_proposal {A} (mutation : StorageMutation) (m : S -> S * result StorageError A) : Op A := fun sc =>
  match propose_mutation mutation sc with
  | (sc, Err e) => (sc, Err e)
  | (sc, Ok _) => on_server m sc
  end.

Definition cluster_operational : OperationalOps (S * R) :=
  let o := sb_operational _ inner in
  mk_OperationalOps (op_data_root _ o) (op_keyring _ o) (op_kms _ o) (fun size => on_server (op_check_upload_start _ o size))
    (on_server (op_check_readiness _ o)) (fun stale => on_server (op_housekeeping_sweep _ o stale))
    (fun sc => op_count_active_multipart_uploads _ o (fst sc)) (fun b => on_server (op_count_bucket_objects _ o b))
    (on_server (op_count_all_objects _ o)).
Definition cluster_buckets : BucketOps (S * R) :=
  let b := sb_buckets _ inner in
  mk_BucketOps (on_server (bk_list_buckets _ b))
    (fun meta => after_proposal (CreateBucketMutation (bm_name meta) (bm_region meta)) (bk_create_bucket _ b meta))
    (fun name => on_server (bk_head_bucket _ b name)) (fun name => on_server (bk_get_bucket_meta _ b name))
    (fun name => after_proposal (DeleteBucketMutation name) (bk_delete_bucket _ b name)).
Definition cluster_settings : SettingOps (S * R) :=
  let o := sb_settings _ inner in
  mk_SettingOps (fun b => on_server (se_is_versioned _ o b)) (fun b x => on_server (se_set_versioning _ o b x))
    (fun b => on_server (se_get_bucket_public _ o b)) (fun b x y => on_server (se_set_bucket_public _ o b x y))
    (fun b x => on_server (se_put_bucket_policy _ o b x)) (fun b => on_server (se_get_bucket_policy _ o b))
    (fun b => on_server (se_delete_bucket_policy _ o b))
    (fun b x => on_server (se_put_bucket_cors _ o b x)) (fun b => on_server (se_get_bucket_cors _ o b))
    (fun b => on_server (se_delete_bucket_cors _ o b))
    (fun b x => on_server (se_put_bucket_encryption _ o b x)) (fun b => on_server (se_get_bucket_encryption _ o b))
    (fun b => on_server (se_delete_bucket_encryption _ o b))
    (fun b x => on_server (se_set_bucket_erasure_coding _ o b x)) (fun b => on_server (se_get_bucket_erasure_coding _ o b))
    (fun b x => on_server (se_put_bucket_lifecycle _ o b x)) (fun b => on_server (se_get_bucket_lifecycle _ o b))
    (fun b => on_server (se_delete_bucket_lifecycle _ o b))
    (fun b => on_server (se_get_bucket_logging _ o b)) (fun b x y => on_server (se_put_bucket_logging _ o b x y))
    (fun b => on_server (se_delete_bucket_logging _ o b))
    (fun b => on_server (se_get_bucket_notification _ o b)) (fun b x => on_server (se_put_bucket_notification _ o b x))
    (fun b => on_server (se_delete_bucket_notification _ o b)) (fun e => on_server (se_deliver_access_log _ o e)).
Definition cluster_locks : LockOps (S * R) :=
  let o := sb_locks _ inner in
  mk_LockOps (fun b x => on_server (lk_put_bucket_object_lock _ o b x)) (fun b => on_server (lk_get_bucket_object_lock _ o b))
    (fun b k v x => on_server (lk_put_object_retention _ o b k v x)) (fun b k v => on_server (lk_get_object_retention _ o b k v))
    (fun b k v x => on_server (lk_put_object_legal_hold _ o b k v x)) (fun b k v => on_server (lk_get_object_legal_hold _ o b k v)).
Definition cluster_objects : ObjectOps (S * R) :=
  let o := sb_objects _ inner in
  mk_ObjectOps (fun b k t body c e d => on_server (ob_put_object _ o b k t body c e d)) (fun b k c => on_server (ob_get_object _ o b k c))
    (fun b k off len c => on_server (ob_get_object_range _ o b k off len c)) (fun b k => on_server (ob_head_object _ o b k))
    (fun b k => on_server (ob_delete_object _ o b k)) (fun b k => on_server (ob_get_object_tagging _ o b k))
    (fun b k t => on_server (ob_put_object_tagging _ o b k t)) (fun b k => on_server (ob_delete_object_tagging _ o b k))
    (fun b k v c => on_server (ob_get_object_version _ o b k v c)) (fun b k v => on_server (ob_head_object_version _ o b k v))
    (fun b k v => on_server (ob_delete_object_version _ o b k v)) (fun b p => on_server (ob_list_objects _ o b p))
    (fun b p => on_server (ob_list_object_versions _ o b p)).
Definition cluster_multipart : MultipartOps (S * R) :=
  let o := sb_multipart _ inner in
  mk_MultipartOps (fun b k t c e => on_server (mp_create_multipart_upload _ o b k t c e))
    (fun b u n body c k d => on_server (mp_upload_part _ o b u n body c k d))
    (fun b u parts k => on_server (mp_complete_multipart_upload _ o b u parts k)) (fun b u => on_server (mp_abort_multipart_upload _ o b u))
    (fun b u => on_server (mp_list_parts _ o b u)) (fun b => on_server (mp_list_multipart_uploads _ o b)).
Definition wrap_cluster_storage : StorageBackend (S * R) :=
  mk_StorageBackend cluster_operational cluster_buckets cluster_settings cluster_locks cluster_objects cluster_multipart.
End wrapper.

(** ** The server and the nodes agree *)

(** The handler of a proposal on a node ([raft_propose] of [storage/api.rs]):
    the answer of openraft, or an internal error. *)
Definition raft_propose {N} (client_write : StorageMutation -> N -> N * option MutationResponse) (mutation : StorageMutation) (n : N)
    : N * (Z + MutationResponse) :=
  match client_write mutation n with
  | (n, Some response) => (n, inr response)
  | (n, None) => (n, inl 500%Z)
  end.

Section agreement.
Context `{Openraft} `{Environment} `{Crates} `{Serde} (node_fs : FilesystemStorage) (rfc3339_at : nat -> string).
Context {S : Type} (inner : StorageBackend S) `{!BucketStore (sb_buckets _ inner)}.
Context `{!ClusterHttp Node} (peers : list StoragePeerRef).
(** What openraft documents of [client_write]: an answer is that of the state
    machine, which has applied an entry with the mutation; the log and the vote
    have moved before, the state machine has not. *)
Context (client_write : StorageMutation -> Node -> Node * option MutationResponse).
Hypothesis write_applies : forall m n n' resp, client_write m n = (n', Some resp) ->
  exists n0 id, rs_sm (fst n0) = rs_sm (fst n) /\
    apply_to_state_machine node_fs rfc3339_at [mk_Entry id (Normal m)] n0 = (n', Ok [resp]).
(** A successful answer to a POST is the one the handler gave. *)
Hypothesis post_is_handled : forall url m n n' resp, post_mutation url m n = (n', Some resp) ->
  raft_propose client_write m n = (n', inr resp).
Abbreviation server := (sb_buckets _ inner).
Abbreviation cluster := (sb_buckets _ (wrap_cluster_storage inner peers)).
Abbreviation replicated n := (buckets (rs_sm (fst n))).

(** The bucket mutations as they act on the replicated set. *)
Definition on_buckets (m : StorageMutation) (s : gset string) : gset string :=
  match m with
  | CreateBucketMutation name _ => {[name]} ∪ s
  | DeleteBucketMutation name => s ∖ {[name]}
  | PutShardMap _ _ _ => s
  end.

Lemma server_disk_store {A} (m : M StorageError A) n n' r : on_disk m n = (n', r) -> fst n' = fst n.
Proof. unfold on_disk. destruct (m (snd n)). by intros [= <- _]. Qed.
Lemma applied_buckets m n n' : apply_mutation node_fs rfc3339_at m n = (n', Ok tt) -> replicated n' = on_buckets m (replicated n).
Proof.
  destruct m as [name region|name|b k p]; cbn [apply_mutation on_buckets]; [| |by intros [= <-]];
    (destruct (on_disk _ n) as [n1 [x|e]] eqn:E; [|done]); apply server_disk_store in E; intros [= <-]; cbn; by rewrite E.
Qed.
Lemma written_buckets m n n' resp : client_write m n = (n', Some resp) -> replicated n' = on_buckets m (replicated n).
Proof.
  intros (n0 & id & Hn & Ha)%write_applies. rewrite <-Hn. cbn [apply_to_state_machine] in Ha.
  destruct (apply_entry _ _ _ n0) as [n1 [u|e]] eqn:Ee; [|done]. injection Ha as <- _. unfold apply_entry in Ee. cbn in Ee.
  destruct u. by rewrite (applied_buckets _ _ _ Ee).
Qed.
Lemma proposal_spec m s n s' n' r : propose_mutation (S := S) peers m (s, n) = ((s', n'), r) -> s' = s /\
  match r with
  | Ok _ => replicated n' = on_buckets m (replicated n)
  | Err e => exists msg, e = IntegrityError msg
  end.
Proof.
  unfold propose_mutation, client_propose, propose. destruct (find_leader_propose_url peers) as [url|e]; cbn [mbind result_bind];
    [|intros [= <- <- <-]; split; [done|by eexists]]. cbn [post_propose answers].
  destruct (post_mutation url m n) as [n1 [resp|]] eqn:Ep; cbn [fst snd ok_or].
  - apply post_is_handled in Ep. unfold raft_propose in Ep. destruct (client_write m n) as [n2 [resp'|]] eqn:Ew; [|done].
    injection Ep as -> ->. apply written_buckets in Ew.
    destruct (mr_ok resp); intros [= <- <- <-]; (split; [done|]); [done|by eexists].
  - intros [= <- <- <-]. split; [done|by eexists].
Qed.

(** C20: buckets in a cluster, over any storage that keeps its buckets.  The
    client finds the leader and posts the mutation to it, whose handler writes it
    through the Raft group; a write that answers has been applied, and a successful
    answer to a post is the one of the handler.  When the
    proposal of a creation or a deletion fails, the operation fails with it and
    the server is as it was.  When it succeeds, the replicated buckets are those
    before with the bucket, or without it, and the operation is the one of the
    server: a creation it reports is of a bucket that is then there, a deletion it
    reports of one that is then gone.  What the server refuses then, the cluster
    has carried out all the same. *)
Theorem cluster_buckets_agree :
  (forall meta s n, let m := CreateBucketMutation (bm_name meta) (bm_region meta) in
     match propose_mutation peers m (s, n) with
     | ((s1, n'), Err e) => s1 = s /\ bk_create_bucket _ cluster meta (s, n) = ((s, n'), Err e)
     | ((s1, n'), Ok _) => s1 = s /\ replicated n' = {[bm_name meta]} ∪ replicated n /\
         exists s' r, bk_create_bucket _ server meta s = (s', r) /\ bk_create_bucket _ cluster meta (s, n) = ((s', n'), r) /\
           (r = Ok true -> bk_head_bucket _ server (bm_name meta) s' = (s', Ok true))
     end) /\
  (forall name s n, let m := DeleteBucketMutation name in
     match propose_mutation peers m (s, n) with
     | ((s1, n'), Err e) => s1 = s /\ bk_delete_bucket _ cluster name (s, n) = ((s, n'), Err e)
     | ((s1, n'), Ok _) => s1 = s /\ replicated n' = replicated n ∖ {[name]} /\
         exists s' r, bk_delete_bucket _ server name s = (s', r) /\ bk_delete_bucket _ cluster name (s, n) = ((s', n'), r) /\
           (r = Ok true -> snd (bk_head_bucket _ server name s') <> Ok true)
     end).
Proof.
  split.
  - intros meta s n m. destruct (propose_mutation peers m (s, n)) as [[s1 n'] [u|e]] eqn:Ep;
      pose proof (proposal_spec _ _ _ _ _ _ Ep) as [-> Hp].
    + split_and!; [done|exact Hp|]. destruct (bk_create_bucket _ server meta s) as [s' r] eqn:Es. exists s', r. split_and!; [done| |].
      * cbn -[propose_mutation]. unfold after_proposal. fold m. rewrite Ep. unfold on_server. by rewrite Es.
      * intros ->. by eapply created_is_there.
    + split; [done|]. cbn -[propose_mutation]. unfold after_proposal. fold m. by rewrite Ep.
  - intros name s n m. destruct (propose_mutation peers m (s, n)) as [[s1 n'] [u|e]] eqn:Ep;
      pose proof (proposal_spec _ _ _ _ _ _ Ep) as [-> Hp].
    + split_and!; [done|exact Hp|]. destruct (bk_delete_bucket _ server name s) as [s' r] eqn:Es. exists s', r. split_and!; [done| |].
      * cbn -[propose_mutation]. unfold after_proposal. fold m. rewrite Ep. unfold on_server. by rewrite Es.
      * intros ->. by eapply deleted_is_gone.
    + split; [done|]. cbn -[propose_mutation]. unfold after_proposal. fold m. by rewrite Ep.
Qed.
End agreement.

(** ** Runs *)

Module MetadataDemo.
Import Demo.Toys MultipartSpec.ToyUploads.
#[local] Existing Instance RaftStoreSpec.RaftDemo.toy_raft.

(** A node that is its own majority: it commits what is proposed. *)
Definition fs : FilesystemStorage := demo_storage false.
Definition clock (n : nat) : string := "t".
Definition first : LogId := @mk_LogId RaftStoreSpec.RaftDemo.toy_raft 1 1%Z.
Definition write (m : StorageMutation) (n : Node) : Node * option MutationResponse :=
  match apply_to_state_machine fs clock [mk_Entry (first) (Normal m)] n with
  | (n, Ok [resp]) => (n, Some resp)
  | (n, _) => (n, None)
  end.
#[local] Instance one_node : ClusterHttp Node := {|
  status_at _ url := if decide (url = "http://s1:9100/internal/raft/status") then Some (raft_status 1 "s1:9100" (mk_RaftMetrics (Some 1%Z) None None)) else None;
  post_mutation url m n := if decide (url = "http://s1:9100/internal/raft/propose") then write m n else (n, None) |}.
Lemma write_applies m n n' resp : write m n = (n', Some resp) -> exists n0 id, rs_sm (fst n0) = rs_sm (fst n) /\
  apply_to_state_machine fs clock [mk_Entry id (Normal m)] n0 = (n', Ok [resp]).
Proof.
  unfold write. intros E. exists n, (first). split; [done|].
  destruct (apply_to_state_machine _ _ _ n) as [n1 [[|x []]|e]]; try done. by injection E as -> ->.
Qed.
Lemma post_is_handled url m n n' resp : post_mutation url m n = (n', Some resp) -> raft_propose write m n = (n', inr resp).
Proof. cbn. case_decide; [|done]. unfold raft_propose. by intros ->. Qed.
Definition peers : list StoragePeerRef := [mk_StoragePeerRef "1" "http://s1:9100/internal/raft/status"].

Definition inner : StorageBackend world := dyn_storage (fun _ => Err "none") (demo_storage false).
#[local] Instance inner_store : BucketStore (sb_buckets _ inner).
Proof. apply filesystem_bucket_store, demo_storage_ok. Qed.
Definition empty_disk : world := mk_world (mk_tree ∅ {[ []; ["data"]; ["data"; "buckets"] ]}) None 1.
Definition cluster : StorageBackend (world * Node) := wrap_cluster_storage inner peers.
Definition start : world * Node := (empty_disk, (new_store, empty_disk)).
Definition pets : BucketMeta :=
  mk_BucketMeta "pets" "t" "us-east-1" false None None false false None None None None None None None false None.

Lemma cluster_buckets_agree_witness :
  match bk_create_bucket _ (sb_buckets _ cluster) pets start with
  | ((s, n), Ok true) => Storage.head_bucket (demo_storage false) "pets" s = (s, Ok true) /\ "pets" ∈ buckets (rs_sm (fst n))
  | _ => False
  end.
Proof.
  destruct (cluster_buckets_agree fs clock inner peers write write_applies post_is_handled) as [Hc _].
  specialize (Hc pets empty_disk (new_store, empty_disk)). cbv zeta in Hc.
  destruct (propose_mutation peers _ _) as [[s1 n'] [u|e]] eqn:Ep; [|exfalso; vm_compute in Ep; discriminate].
  destruct Hc as (_ & Hr & s' & r & Hs & Hcl & Hh). assert (Hcl' : bk_create_bucket _ (sb_buckets _ cluster) pets start = ((s', n'), r)) by exact Hcl. rewrite Hcl'.
  assert (Hok : r = Ok true) by (change (snd (s', r) = Ok true); rewrite <-Hs; vm_compute; reflexivity). subst r.
  split; [exact (Hh eq_refl)|]. rewrite Hr. cbn. set_solver.
Defined.

(** The objects are on the server only: a bucket that holds one is deleted in the
    cluster, and stays on the server. *)
Example refused_deletion_is_replicated :
  match (let '(s, _) := bk_create_bucket _ (sb_buckets _ cluster) pets start in
         let '(s, _) := ob_put_object _ (sb_objects _ cluster) "pets" "cat" "text/plain" (Demo.body_of "meow") None None None s in
         bk_delete_bucket _ (sb_buckets _ cluster) "pets" s) with
  | ((s, n), Err BucketNotEmpty) => snd (Storage.head_bucket (demo_storage false) "pets" s) = Ok true /\
      snd (Storage.head_bucket (demo_storage false) "pets" (snd n)) = Ok false /\ buckets (rs_sm (fst n)) = ∅
  | _ => False
  end.
Proof. vm_compute. split_and!; reflexivity. Qed.

End MetadataDemo.
