(* ===== verification/Startup.v ===== *)
(** * The start of the server

    [src/main.rs], the defaults and checks of [maxio-server/src/config.rs] and
    [provision_default_buckets] of [maxio-storage/src/lib.rs]: what the program
    refuses to start with, the buckets it makes, and the answer of the command
    that checks a running server.  Sockets, tasks and log lines are left out. *)

From stdpp Require Import base list gmap numbers strings pretty.
From Stdlib Require Import ZArith Lia Ascii Strings.Byte.
From S2P Require Import Prelude IpAddr Glob Policy Bytes Reader Utf8 Types Quota Crypto MetadataIndex FileSystem Paths World Keyring Storage ClusterEc RaftStore ClusterRouting MultipartSpec Demo Backend.

Local Open Scope nat_scope.

(** ** Configuration *)

Section environment.
Context (var : string -> option string).

(** The first variable that is set and not blank. *)
Definition first_env_value (keys : list string) : option string :=
  head (omap (fun key => value ← var key; if decide (trim value = "") then None else Some value) keys).
Definition default_access_key : string := default "maxioadmin" (first_env_value ["MINIO_ROOT_USER"; "MINIO_ACCESS_KEY"]).
Definition default_secret_key : string := default "maxioadmin" (first_env_value ["MINIO_ROOT_PASSWORD"; "MINIO_SECRET_KEY"]).
Definition default_region : string := default "us-east-1" (first_env_value ["MINIO_REGION_NAME"; "MINIO_REGION"]).
Definition default_default_buckets : option string := first_env_value ["MINIO_DEFAULT_BUCKETS"].
End environment.

(** The part of the configuration the start looks at. *)
Record StartConfig : Type := mk_StartConfig {
  sc_access_key : string; sc_secret_key : string; sc_region : string; sc_allow_insecure_dev : bool;
  sc_keycloak_enabled : bool; sc_keycloak_base_url : string; sc_keycloak_realm : string; sc_keycloak_client_id : string;
  sc_keycloak_skip_tls_verify : bool; sc_cluster_mode : bool; sc_storage_endpoints : string; sc_default_buckets : string }.

Definition validate_keycloak (c : StartConfig) : result string unit :=
  if negb (sc_keycloak_enabled c) then Ok tt
  else if decide (trim (sc_keycloak_base_url c) = "") then
    Err "MAXIO_KEYCLOAK_ENABLED requires MAXIO_KEYCLOAK_BASE_URL (or --keycloak-base-url)"
  else if decide (trim (sc_keycloak_realm c) = "") then Err "MAXIO_KEYCLOAK_REALM must not be empty when Keycloak is enabled"
  else if decide (trim (sc_keycloak_client_id c) = "") then
    Err "MAXIO_KEYCLOAK_CLIENT_ID must not be empty when Keycloak is enabled"
  else if negb (sc_allow_insecure_dev c) && sc_keycloak_skip_tls_verify c then
    Err "MAXIO_KEYCLOAK_SKIP_TLS_VERIFY is only allowed with --allow-insecure-dev"
  else Ok tt.
Definition refuse_default_credentials (c : StartConfig) : result string unit :=
  if bool_decide (sc_access_key c = "maxioadmin") && bool_decide (sc_secret_key c = "maxioadmin") && negb (sc_allow_insecure_dev c)
  then Err "refusing to start with default credentials in production; set MAXIO_ACCESS_KEY/MAXIO_SECRET_KEY or use --allow-insecure-dev for local development"
  else Ok tt.
(** The storage nodes, when the server belongs to a cluster. *)
Definition cluster_peers (c : StartConfig) : result string (option (list StoragePeerRef)) :=
  if sc_cluster_mode c && negb (bool_decide (sc_storage_endpoints c = ""))
  then peers ← parse_storage_peers (sc_storage_endpoints c); Ok (Some peers)
  else Ok None.
(** The checks, in the order of [main]. *)
Definition startup_checks (c : StartConfig) : result string (option (list StoragePeerRef)) :=
  _ ← validate_keycloak c; _ ← refuse_default_credentials c; cluster_peers c.

(** ** Default buckets *)

(** The names that are made: trimmed, and valid. *)
Definition default_bucket_names (default_buckets : string) : list string :=
  filter (fun name => name <> "" /\ is_valid_bucket_name name = true) (map trim (split_char "," default_buckets)).
Definition default_bucket_meta (name region created_at : string) : BucketMeta :=
  mk_BucketMeta name created_at region false None None false false None None None None None None None false None.

Section provision.
Context {S : Type} (b : BucketOps S) (read_clock : S -> S * string) (region : string).

(** The state after, and what the log says of every name. *)
Fixpoint provision (names : list string) (s : S) : S * list (string * result StorageError bool) :=
  match names with
  | [] => (s, [])
  | name :: names =>
      let '(s, created_at) := read_clock s in
      let '(s, r) := bk_create_bucket _ b (default_bucket_meta name region created_at) s in
      let '(s, l) := provision names s in
      (s, (name, r) :: l)
  end.
(** A bucket that cannot be made is logged, and the next one is tried. *)
Definition provision_default_buckets (default_buckets : string) (s : S) : S * list (string * result StorageError bool) :=
  if decide (default_buckets = "") then (s, []) else provision (default_bucket_names default_buckets) s.

(** Reading the clock changes no bucket. *)
Hypothesis clock_reads : forall name s, snd (bk_head_bucket _ b name s) = Ok true -> snd (bk_head_bucket _ b name (fst (read_clock s))) = Ok true.
Context `{!BucketStore b}.

Lemma provision_spec names s s' l : provision names s = (s', l) ->
  map fst l = names /\ Forall (fun '(name, r) => r = Ok true -> snd (bk_head_bucket _ b name s') = Ok true) l /\
  (forall name, snd (bk_head_bucket _ b name s) = Ok true -> snd (bk_head_bucket _ b name s') = Ok true).
Proof.
  revert s s' l. induction names as [|n names IH]; intros s s' l; cbn [provision]; [by intros [= <- <-]|].
  pose proof (clock_reads) as Hc. destruct (read_clock s) as [s1 now] eqn:Ec.
  destruct (bk_create_bucket _ b (default_bucket_meta n region now) s1) as [s2 r] eqn:E.
  destruct (provision names s2) as [s3 l'] eqn:Ep. intros [= <- <-]. apply IH in Ep as (Hm & Hf & Hk). split_and!.
  - cbn. by rewrite Hm.
  - constructor; [|done]. intros ->. apply Hk. apply created_is_there in E. cbn in E. by rewrite E.
  - intros name Hs. apply Hk. eapply others_stay; [exact E|]. specialize (Hc name s Hs). by rewrite Ec in Hc.
Qed.

(** The start tries every valid name of the list in turn, a failure stopping
    none of the others; what it reports as made is a bucket when it is done, and
    every bucket that was there before is still there. *)
Theorem default_buckets_are_there default_buckets s s' l :
  provision_default_buckets default_buckets s = (s', l) ->
  map fst l = default_bucket_names default_buckets /\
  Forall (fun '(name, r) => r = Ok true -> snd (bk_head_bucket _ b name s') = Ok true) l /\
  (forall name, snd (bk_head_bucket _ b name s) = Ok true -> snd (bk_head_bucket _ b name s') = Ok true).
Proof.
  unfold provision_default_buckets. case_decide as D; [|apply provision_spec].
  intros [= <- <-]. rewrite D. by split_and!.
Qed.
End provision.

(** ** The health check and the storage nodes *)

Definition is_whitespace_byte (c : ascii) : bool := bool_decide (c ∈ [" "; "009"; "010"; "011"; "012"; "013"]%char).
(** [split_whitespace], of a line in ASCII. *)
Fixpoint words (l word : list ascii) : list string :=
  match l with
  | [] => match word with [] => [] | _ => [of_chars word] end
  | c :: l => if is_whitespace_byte c then (match word with [] => [] | _ => [of_chars word] end) ++ words l []
              else words l (word ++ [c])
  end.
(** The status of the first line of an answer. *)
Definition status_code (response : string) : option Z :=
  let status_line := default "" (head (split_char "010" response)) in
  value ← words (chars status_line) [] !! 1; parse_uint 65535 value.
Definition run_healthcheck (url : string) (response : string) : result string unit :=
  status ← ok_or (status_code response) ("invalid HTTP response from " +:+ url);
  if ((200 <=? status) && (status <? 300))%Z then Ok tt
  else Err ("healthcheck failed with HTTP status " +:+ pretty status).

(** [run_storage_raft]: the voters of a bootstrap, and whether the scanner of
    damaged shards runs. *)
Definition voter_ids (voters : string) : gset Z :=
  list_to_set (omap (fun s => parse_uint u64_max (trim s)) (split_char "," voters)).
Definition storage_raft_checks (peers voters : string) (bootstrap : bool) : result string (gmap Z string * gset Z) :=
  peer_urls ← parse_raft_peer_urls peers;
  let ids := voter_ids voters in
  if bootstrap && bool_decide (ids = ∅)
  then Err "MAXIO_STORAGE_RAFT_BOOTSTRAP requires non-empty MAXIO_STORAGE_RAFT_VOTERS" else Ok (peer_urls, ids).
Definition bitrot_enabled (scan erasure_coding : bool) (parity_shards : Z) : bool :=
  scan && erasure_coding && (0 <? parity_shards)%Z.

(** ** Runs *)

Module StartDemo.
Import Demo.Toys MultipartSpec.ToyUploads.

Definition shop : BucketOps world := filesystem_buckets (demo_storage false).
#[local] Instance shop_store : BucketStore shop.
Proof. apply filesystem_bucket_store, demo_storage_ok. Qed.
Definition clock (w : world) : world * string := (mk_world (w_tree w) (w_index w) (S (w_tick w)), now_string (w_tick w)).
Definition empty_disk : world := mk_world (mk_tree ∅ {[ []; ["data"]; ["data"; "buckets"] ]}) None 1.
Lemma clock_reads name w : snd (bk_head_bucket _ shop name w) = Ok true -> snd (bk_head_bucket _ shop name (fst (clock w))) = Ok true.
Proof.
  cbn. unfold Storage.head_bucket, mbind, M_bind, lift, query. destruct (validate_bucket_name name) as [[]|]; [|done]. done.
Qed.
Lemma default_buckets_are_there_witness :
  match provision_default_buckets shop clock "us-east-1" "photos, UPPER,,logs" empty_disk with
  | (w', l) => l = [("photos", Ok true); ("logs", Ok true)] /\ snd (bk_head_bucket _ shop "logs" w') = Ok true
  end.
Proof.
  destruct (provision_default_buckets shop clock "us-east-1" "photos, UPPER,,logs" empty_disk) as [w' l] eqn:E.
  destruct (default_buckets_are_there shop clock "us-east-1" clock_reads _ _ _ _ E) as (_ & Hf & _).
  assert (l = [("photos", Ok true); ("logs", Ok true)]) as Hl.
  { change l with (snd (w', l)). rewrite <-E. vm_compute. reflexivity. }
  split; [exact Hl|]. rewrite Hl in Hf. apply Forall_cons in Hf as [_ Hf]. apply Forall_cons in Hf as [Hf _]. by apply Hf.
Defined.

Example health_of_an_answer :
  status_code ("HTTP/1.1 204 No Content" +:+ String "013"%char (String "010"%char "x")) = Some 204%Z /\ status_code "" = None.
Proof. vm_compute. split; reflexivity. Qed.
End StartDemo.
