(* ===== verification/ObjectApiSpec.v ===== *)
(** * What the object handlers promise

    An upload through [put_object] is read back by [get_object], whole and by
    range; a conditional read of what was just uploaded is not sent again; a
    multi-object delete removes nothing unless every key passes the gates.  Then
    what the handlers do where they do not do what they mean to. *)

From stdpp Require Import base list gmap sets sorting numbers strings pretty.
From Stdlib Require Import ZArith Lia Ascii Strings.Byte.
From S2P Require Import Prelude IpAddr Glob Policy Bytes Reader Utf8 Types Quota Crypto ErasureCode ChunkReader ChunkWriter EncryptedEc MetadataIndex FileSystem Paths World Keyring Storage BucketConfig Sidecar Encryption Publish Objects Demo BucketSpec ObjectsSpec Versions Listing ApiError ListApi Events Http Signature RateLimit Tenant Gate GateSpec Multipart MultipartSpec HttpBody Headers ObjectApi.

Local Open Scope nat_scope.

(** ** Steps that leave the server as it is *)

Definition unmoved {A} (m : Gate A) : Prop := forall s, fst (m s) = s.

Create HintDb maxio_unmoved.

Lemma unmoved_ret {A} (a : A) : unmoved (mret a).
Proof. done. Qed.
Lemma unmoved_ask {A} (r : result S3Error A) : unmoved (ask r).
Proof. done. Qed.
Lemma unmoved_refuse {A} e : unmoved (refuse e : Gate A).
Proof. done. Qed.
Lemma unmoved_bind {A B} (m : Gate A) (f : A -> Gate B) : unmoved m -> (forall a, unmoved (f a)) -> unmoved (m ≫= f).
Proof.
  intros Hm Hf s. unfold mbind, Gate_bind. specialize (Hm s). destruct (m s) as [s1 [a|e]]; cbn in Hm; subst; [apply Hf|done].
Qed.
Lemma unmoved_on_storage {A} (m : Api A) : reads_only m -> unmoved (on_storage m).
Proof. intros Hm s. unfold on_storage. specialize (Hm (sv_world s)). destruct (m (sv_world s)) as [w r]. cbn in *. subst. by destruct s. Qed.
Lemma unmoved_storage {A} f (m : M StorageError A) : reads_only m -> unmoved (storage f m).
Proof.
  intros Hm. apply unmoved_on_storage. intros w. unfold of_storage. specialize (Hm w). by destruct (m w) as [w' [a|e]].
Qed.
Lemma unmoved_if {A} (b : bool) (m n : Gate A) : unmoved m -> unmoved n -> unmoved (if b then m else n).
Proof. by destruct b. Qed.
#[export] Hint Resolve unmoved_ret unmoved_ask unmoved_refuse unmoved_bind unmoved_storage unmoved_on_storage
  unmoved_if : maxio_unmoved.

Lemma Gate_run_err {A B} (m : Gate A) (f : A -> Gate B) s s1 e : m s = (s1, Err e) -> (m ≫= f) s = (s1, Err e).
Proof. intros Hm. unfold mbind, Gate_bind. by rewrite Hm. Qed.
Lemma unmoved_ok {A} (m : Gate A) s s' r : unmoved m -> m s = (s', r) -> s' = s.
Proof. intros Hm E. specialize (Hm s). by rewrite E in Hm. Qed.

Lemma has_empty name : has ∅ name = false.
Proof. unfold has. rewrite lookup_empty. apply bool_decide_eq_false. by intros [? ?]. Qed.

Section gates.
Context `{Serde} `{Crates} `{PercentEncoding} `{Process}.
Context (from_str : string -> result string BucketPolicy) (app : AppState).
Abbreviation st := (as_storage app).

Lemma ensure_bucket_access_reads key b : reads_only (ensure_bucket_access st (as_config app) (as_credentials app) key b).
Proof.
  unfold ensure_bucket_access. apply reads_bind; [apply find_bucket_meta_reads|]. intros [m|]; [|done].
  by destruct (bucket_access_allowed _ _ _ _).
Qed.
Lemma tenant_gate_unmoved ctx b : unmoved (enforce_tenant_bucket app ctx b).
Proof.
  unfold enforce_tenant_bucket, ensure_bucket_access_optional. apply unmoved_on_storage. destruct (rc_principal ctx); [|done].
  apply reads_bind; [apply ensure_bucket_access_reads|done].
Qed.
Lemma policy_for_parts_unmoved method path query h vhost principal client_ip :
  unmoved (enforce_bucket_policy_for_parts from_str app method path query h vhost principal client_ip).
Proof.
  intros s. unfold enforce_bucket_policy_for_parts, enforce_bucket_policy_for_target, enforce_policy_target.
  destruct (resolve_policy_target_from_parts _ _ _ _ _ _) as [t|]; [|done].
  by destruct (get_bucket_policy _ _ _) as [w [[p|]|[]]].
Qed.
Lemma bucket_gates_unmoved ctx method b k ps h : unmoved (bucket_gates from_str app ctx method b k ps h).
Proof.
  unfold bucket_gates, enforce_s3_bucket_gates.
  apply unmoved_bind; [apply tenant_gate_unmoved|intros _; apply policy_for_parts_unmoved].
Qed.
Lemma copy_gates_unmoved bucket key ps h ctx : unmoved (copy_gates from_str app bucket key ps h ctx).
Proof.
  unfold copy_gates, enforce_copy_source_gates.
  apply unmoved_bind; [apply bucket_gates_unmoved|intros _]. apply unmoved_bind; [auto with maxio_unmoved|intros []].
  apply unmoved_bind; [apply tenant_gate_unmoved|intros _; apply policy_for_parts_unmoved].
Qed.
Lemma ensure_exists_unmoved b : unmoved (ensure_bucket_exists app b).
Proof.
  unfold ensure_bucket_exists. apply unmoved_bind; [apply unmoved_storage, head_bucket_reads|].
  intros []; auto with maxio_unmoved.
Qed.
Lemma bucket_setting_reads {A} b (g : BucketMeta -> A) : reads_only (meta ← read_bucket_meta st b; mret (g meta)).
Proof. apply reads_bind; [apply read_bucket_meta_reads|done]. Qed.
Lemma resolve_encryption_unmoved b h : unmoved (resolve_encryption app b h).
Proof.
  unfold resolve_encryption. apply unmoved_bind; [auto with maxio_unmoved|]. intros [e|]; [done|].
  apply unmoved_bind; [apply unmoved_storage, bucket_setting_reads|auto with maxio_unmoved].
Qed.

(** The key a client must show to read back is the one it sent. *)
Lemma sse_request_key h e : extract_sse_request h = Ok e -> extract_customer_key h = Ok (e ≫= er_customer_key).
Proof.
  unfold extract_sse_request, extract_customer_key, customer_key_under.
  change (sse_c_prefix +:+ "-algorithm") with "x-amz-server-side-encryption-customer-algorithm".
  destruct (header h "x-amz-server-side-encryption-customer-algorithm") as [algo|].
  - case_decide; [done|]. destruct (customer_key_in _ _ _) as [k|]; cbn; [|done].
    destruct (header _ _); [case_decide; [done|]|]; by intros [= <-].
  - destruct (header _ _) as [sse|]; [|by intros [= <-]]. repeat (case_decide; [by intros [= <-]|]). done.
Qed.
Lemma resolve_encryption_key b h s s' e : resolve_encryption app b h s = (s', Ok e) ->
  extract_customer_key h = Ok (e ≫= er_customer_key).
Proof.
  unfold resolve_encryption. intros (e0 & s1 & He & Hr)%Gate_bind_ok. unfold ask in He.
  destruct (extract_sse_request h) as [e1|] eqn:E; [|done]. injection He as <- <-. apply sse_request_key in E as ->.
  destruct e1 as [e1|]; [by injection Hr as <- <-|]. apply Gate_bind_ok in Hr as (cfg & s2 & _ & [= _ <-]).
  destruct cfg as [cfg|]; [|done]. cbn. unfold encryption_from_bucket_default. by case_decide.
Qed.
End gates.

(** ** Uploads, seen from outside *)

(** No condition in the headers. *)
Definition unconditional (h : HeaderMap) : Prop :=
  Forall (fun name => header h name = None) ["if-match"; "if-none-match"; "if-modified-since"; "if-unmodified-since"].

Lemma unconditional_proceeds `{HttpDates} h meta : unconditional h -> short_circuit h meta = None.
Proof.
  unfold unconditional. rewrite !Forall_cons. intros (H1 & H2 & H3 & H4 & _).
  unfold short_circuit, check_conditions. by rewrite H1, H2, H3, H4.
Qed.

Section uploads.
#[local] Existing Instance sha256_hex_of_crates.
Context `{EnvironmentSpec} `{CratesSpec} `{SerdeSpec} `{SerdeJson} `{AeadSpec} `{ReedSolomon}.
Context `{!KeyService FilesystemStorage} `{!KeyServiceSpec FilesystemStorage}.
Context `{HexDecode} `{Buffering} `{Webhooks} `{XmlCrate} `{BodyCrate} `{HttpDates} `{PercentEncoding}.
Context `{Process}.
Context (from_str : string -> result string BucketPolicy) (app : AppState).
Abbreviation st := (as_storage app).

(** An upload to an unversioned bucket of single files that notifies nobody. *)
Record uploadable (bucket key : string) (s : Server) : Prop := {
  up_storage : storage_ok st;
  up_bucket : validate_bucket_name bucket = Ok tt;
  up_key : object_key key;
  up_flat : flat_bucket st bucket (w_tree (sv_world s));
  up_dirs : no_dirs st bucket key (sv_world s);
  up_silent bm : read_bucket_meta st bucket (sv_world s) = (sv_world s, Ok bm) -> bm_notification_config bm = None;
}.

Lemma emission_silent bucket key event size etag w bm :
  read_bucket_meta st bucket w = (w, Ok bm) -> bm_notification_config bm = None ->
  emit st (cf_data_dir (as_config app)) bucket key event size etag w = (w, Ok tt).
Proof.
  intros Hr Hn. unfold emit, get_bucket_notification, mbind, M_bind. rewrite Hr. cbn. by rewrite Hn.
Qed.

(** What a successful [put_object] went through. *)
Lemma put_object_ok bucket key h ctx body reader s s' r :
  uploadable bucket key s -> h "x-amz-copy-source" = [] -> body_to_reader h body = Ok reader ->
  (Z.of_nat (length (src_data reader)) <= 2 ^ 47)%Z ->
  ObjectApi.put_object from_str app bucket key ∅ h ctx body s = (s', Ok r) ->
  exists encryption meta, rs_status r = 200%Z /\ ("ETag", om_etag meta) ∈ rs_headers r /\
    extract_customer_key h = Ok (encryption ≫= er_customer_key) /\
    om_size meta = Z.of_nat (length (src_data reader)) /\
    Objects.head_object st bucket key (sv_world s') = (sv_world s', Ok meta) /\
    (exists stream, Objects.get_object st bucket key (encryption ≫= er_customer_key) (sv_world s')
                    = (sv_world s', Ok (stream, meta)) /\ delivers stream (src_data reader) Eof) /\
    (forall offset len, offset + len <= length (src_data reader) ->
       exists stream, Objects.get_object_range st bucket key offset len (encryption ≫= er_customer_key) (sv_world s')
                      = (sv_world s', Ok (stream, meta)) /\
         delivers stream (take len (drop offset (src_data reader))) Eof).
Proof.
  intros Hup Hcopy Hread Hlen. unfold ObjectApi.put_object. rewrite !has_empty, Hcopy. cbn [andb bool_decide].
  rewrite bool_decide_eq_false_2 by auto. unfold put_plain_object.
  intros (u1 & s1 & E1 & Hp)%Gate_bind_ok. apply unmoved_ok in E1 as ->; [|apply ensure_exists_unmoved].
  apply Gate_bind_ok in Hp as (u2 & s2 & E2 & Hp). apply unmoved_ok in E2 as ->; [|apply bucket_gates_unmoved].
  apply Gate_bind_ok in Hp as (reader' & s3 & E3 & Hp). rewrite Hread in E3. injection E3 as <- <-.
  apply Gate_bind_ok in Hp as (reader2 & s4 & E4 & Hp). unfold ask in E4.
  destruct (verify_content_md5 h reader) as [rd|e] eqn:Emd; [|done]. injection E4 as <- <-.
  assert (Hdata : src_data rd = src_data reader).
  { unfold verify_content_md5 in Emd. destruct (header h _); [|by injection Emd as <-].
    destruct (src_end reader); [|done]. case_decide; [done|]. by injection Emd as <-. }
  apply Gate_bind_ok in Hp as (encryption & s5 & E5 & Hp). pose proof E5 as Hkey.
  apply unmoved_ok in E5 as ->; [|apply resolve_encryption_unmoved]. apply resolve_encryption_key in Hkey.
  apply Gate_bind_ok in Hp as (result & s6 & E6 & Hp).
  unfold storage, on_storage, of_storage in E6.
  destruct (Objects.put_object _ _ _ _ _ _ _ _ _) as [w' [res|e]] eqn:Eput; [|done]. injection E6 as <- ->.
  destruct Hup as [Hst Hb Hk Hf Hd Hs]. rewrite <-Hdata in Hlen.
  destruct (upload_readable _ _ _ _ _ _ _ _ _ _ _ Hst Hb Hk Hf Hd Hlen Eput) as (meta & <- & Hsz & _ & Hrec & Hhead & Hget & Hrange).
  rewrite Hdata in *. destruct Hf as (c & bm & Hc & Hbm & _).
  assert (Hread' : forall w, fs_read (w_tree w) (bucket_meta_path st bucket) = Ok c -> read_bucket_meta st bucket w = (w, Ok bm)).
  { intros w Hw. rewrite read_bucket_meta_eq by done. by rewrite Hw, Hbm. }
  assert (Hem : forall s0, sv_world s0 = w' -> on_storage (emit_object_created st (cf_data_dir (as_config app)) bucket key
      (pr_size (put_result meta)) (pr_etag (put_result meta))) s0 = (s0, Ok tt)).
  { intros s0 Hs0. unfold on_storage, emit_object_created, quietly, on_world. rewrite Hs0.
    rewrite (emission_silent _ _ _ _ _ _ bm); [|by apply Hread'; rewrite Hrec|by apply Hs, Hread']. by destruct s0; cbn in *; subst. }
  match type of Hp with (_ ≫= _) ?s0 = _ => rewrite (Gate_run_ok _ _ _ _ _ (Hem s0 eq_refl)) in Hp end.
  apply Gate_bind_ok in Hp as (u7 & s7 & E7 & [= <- <-]).
  assert (Hw : sv_world s7 = w').
  { destruct (cf_metrics_enabled _); [|by injection E7 as <- _]. unfold record_upload_bytes, on_server in E7.
    by destruct (0 <? _)%Z; injection E7 as <- _. }
  exists encryption, meta. rewrite Hw. split_and!; try done. cbn. by left.
Qed.

Lemma get_object_gates bucket key h ctx s ck :
  bucket_gates from_str app ctx "GET" bucket (Some key) ∅ h s = (s, Ok tt) -> extract_customer_key h = Ok ck ->
  ObjectApi.get_object from_str app bucket key ∅ h ctx s =
    (ranged ← match header h "range" with
              | Some range_str => get_range app bucket key range_str h ck
              | None => mret None
              end;
     match ranged with Some response => mret response | None => get_whole app bucket key None h ck end) s.
Proof.
  intros Hg Hk. unfold ObjectApi.get_object. rewrite (Gate_run_ok _ _ _ _ _ Hg), !has_empty.
  rewrite (Gate_run_ok _ _ s s ck) by (unfold ask; by rewrite Hk). by rewrite !lookup_empty.
Qed.
Lemma storage_run {A} f (m : M StorageError A) s a : m (sv_world s) = (sv_world s, Ok a) -> storage f m s = (s, Ok a).
Proof. intros Hm. unfold storage, on_storage, of_storage. rewrite Hm. by destruct s. Qed.


(** C11: A ranged read of an upload, in a bucket that keeps no versions and no
    chunks and notifies nobody, with no directory in the way of the object, for a
    body of at most 2^47 bytes.  The answer to a GET of the object just uploaded,
    without version, whose header is one range in one of the three well-formed
    forms with 64-bit numbers, is 206 with the bytes at exactly the positions the
    range selects, and headers that say which; or it is refused, exactly when the
    range selects none.  The GET passes the gates, brings the same customer key and
    has no conditional header. *)
Theorem ranged_get_serves_selection bucket key h ctx body reader s s' r h' ctx' rg :
  uploadable bucket key s -> h "x-amz-copy-source" = [] -> body_to_reader h body = Ok reader ->
  (Z.of_nat (length (src_data reader)) <= 2 ^ 47)%Z ->
  ObjectApi.put_object from_str app bucket key ∅ h ctx body s = (s', Ok r) ->
  bucket_gates from_str app ctx' "GET" bucket (Some key) ∅ h' s' = (s', Ok tt) ->
  extract_customer_key h' = extract_customer_key h -> unconditional h' -> header h' "range" = Some (range_header rg) ->
  range_ok rg ->
  let size := Z.of_nat (length (src_data reader)) in
  (exists a b stream hs, (0 <= a <= b /\ b < size)%Z /\
     (forall i, (0 <= i < size)%Z -> selects rg size i <-> (a <= i <= b)%Z) /\
     ObjectApi.get_object from_str app bucket key ∅ h' ctx' s' = (s', Ok (mk_Response 206 hs (Stream stream))) /\
     ("Content-Range", content_range a b size) ∈ hs /\ ("Content-Length", pretty (b - a + 1)%Z) ∈ hs /\
     delivers stream (take (Z.to_nat (b - a + 1)) (drop (Z.to_nat a) (src_data reader))) Eof) \/
  ((forall i, (0 <= i < size)%Z -> ~ selects rg size i) /\
   ObjectApi.get_object from_str app bucket key ∅ h' ctx' s' = (s', Err (Refused invalid_range))).
Proof.
  intros Hup Hcopy Hread Hlen Hput Hg Hkey Hu Hr Hok size.
  destruct (put_object_ok _ _ _ _ _ _ _ _ _ Hup Hcopy Hread Hlen Hput)
    as (enc & meta & _ & _ & Hck & Hsz & Hhead & _ & Hrange).
  rewrite Hck in Hkey. rewrite (get_object_gates _ _ _ _ _ _ Hg Hkey), Hr.
  set (answer := get_range app bucket key (range_header rg) h' (enc ≫= er_customer_key) s').
  assert (Ha : answer = match parse_range (range_header rg) size with
      | Ok None => (s', Ok None)
      | Err _ => (s', Err (Refused invalid_range))
      | Ok (Some (a, b)) =>
          ('(reader, _) ← storage (map_read_object_err key)
                   (get_object_range st bucket key (Z.to_nat a) (Z.to_nat (b - a + 1)) (enc ≫= er_customer_key));
           mret (Some (mk_Response 206
            [("Content-Type", om_content_type meta); ("Content-Length", pretty (b - a + 1)%Z);
             ("Content-Range", content_range a b size); ("Accept-Ranges", "bytes");
             ("ETag", om_etag meta); ("Last-Modified", to_http_date (om_last_modified meta))] (Stream reader)))) s'
      end).
  { unfold answer, get_range. rewrite (Gate_run_ok _ _ _ _ _ (storage_run _ _ _ _ Hhead)), unconditional_proceeds by done.
    fold size in Hsz. rewrite Hsz. by destruct (parse_range _ _) as [[[a b]|]|]. }
  pose proof (range_selection rg size Hok ltac:(lia)) as Hsel.
  destruct (parse_range (range_header rg) size) as [[[a b]|]|u]; [|done|].
  - left. destruct Hsel as [Hab Hsel].
    destruct (Hrange (Z.to_nat a) (Z.to_nat (b - a + 1))) as (stream & Hget & Hdel); [lia|].
    rewrite (Gate_run_ok _ _ _ _ _ (storage_run _ _ _ _ Hget)) in Ha.
    exists a, b, stream. eexists. split_and!; [lia..|exact Hsel| | | |exact Hdel].
    + by rewrite (Gate_run_ok _ _ _ _ _ Ha).
    + cbn. do 2 right. by left.
    + cbn. right. by left.
  - right. split; [done|]. by rewrite (Gate_run_err _ _ _ _ _ Ha).
Qed.
End uploads.

(** ** A small server *)

Module ApiDemo.
Import Demo.Toys MultipartSpec.ToyUploads Signature.ToyPercent.
#[local] Existing Instance sha256_hex_of_crates.
#[export] Existing Instance toy_percent.
#[export] Existing Instance GateDemo.toy_process.

(** A webhook host is the text after [https://]; dates are not understood. *)
#[export] Instance toy_webhooks : Webhooks := {|
  url_host s := strip_prefix "https://" s; event_to_json := ev_key; event_from_json _ := None;
  posted _ _ := true; rfc3339_at _ := "t" |}.
#[export] Instance toy_dates : HttpDates := {|
  parse_rfc2822 _ := None; parse_iso _ := None; parse_rfc3339_date _ := None; format_http_date _ := "t" |}.
#[export] Instance toy_body : BodyCrate := {|
  to_bytes body limit :=
    match src_end body with
    | Eof => if length (src_data body) <=? limit then Some (src_data body) else None
    | Fail _ => None
    end |}.
(** The keys of a deletion are the lines of the body. *)
Fixpoint lines (l : list ascii) (line : list ascii) : list XmlEvent :=
  match l with
  | [] => []
  | c :: l => if decide (c = "010"%char) then [XStart "Key"; XText (Some (of_chars line)); XEnd "Key"] ++ lines l []
              else lines l (line ++ [c])
  end.
#[export] Instance toy_xml : XmlCrate := {|
  xml_events s := lines (chars s) []; xml_escape s := s; retention_of_xml s := Some (mk_RetentionXml "GOVERNANCE" (Some s) None); legal_hold_of_xml _ := None;
  cors_of_xml _ := None; lifecycle_of_xml _ := None; object_lock_of_xml _ := None |}.
#[export] Instance toy_tasks : Tasks := {| completion_order l := rev l |}.
#[export] Instance toy_tasks_spec : TasksSpec.
Proof. split. intros l. symmetry. apply Permutation_rev. Qed.

Definition app : AppState :=
  mk_AppState (demo_storage false) (mk_Config "/data" "root" "secret" "us-east-1" "default" true false) [] ∅ "s3.test".
Definition serving (w : world) : Server := mk_Server w (limiter_new 0 60) (limiter_new 10 60) 0 0.
Definition anonymous : S3RequestContext := mk_S3RequestContext None None.
Definition sent (headers : list (string * string)) : HeaderMap := fun name =>
  match list_find (fun h => h.1 = name) headers with Some (_, (_, v)) => [Some v] | None => [] end.

Local Abbreviation put headers text s :=
  (ObjectApi.put_object GateDemo.no_policies app "pets" "cat" ∅ (sent headers) anonymous (body_of text) s).

Lemma flat_uploadable : uploadable app "pets" "cat" (serving flat_world).
Proof.
  split; [apply demo_storage_ok|vm_compute; reflexivity| |by apply demo_flat| |].
  - split; [vm_compute; reflexivity|]. exists [], "cat". split; [vm_compute; reflexivity|]. by intros [?|?].
  - apply demo_no_dirs; apply (bool_decide_unpack _); vm_compute; exact I.
  - intros bm E. vm_compute in E. by injection E as <-.
Qed.

Definition encrypted : list (string * string) := [("x-amz-server-side-encryption", "AES256")].
Lemma uploaded headers text s : is_ok (snd (put headers text s)) = true ->
  exists r, put headers text s = (fst (put headers text s), Ok r).
Proof. destruct (put headers text s) as [s' [r|e]]; [by exists r|done]. Qed.


(** The last two bytes. *)
Lemma ranged_get_serves_selection_witness : exists s' stream hs,
  ObjectApi.get_object GateDemo.no_policies app "pets" "cat" ∅ (sent [("range", "bytes=-2")]) anonymous s'
    = (s', Ok (mk_Response 206 hs (Stream stream))) /\
  delivers stream (as_bytes "ow") Eof.
Proof.
  destruct (uploaded encrypted "meow" (serving flat_world)) as [r E]; [vm_compute; reflexivity|].
  set (s' := fst _) in E.
  destruct (ranged_get_serves_selection GateDemo.no_policies app "pets" "cat" (sent encrypted) anonymous (body_of "meow")
    (body_of "meow") (serving flat_world) s' r (sent [("range", "bytes=-2")]) anonymous (Suffix 2))
    as [(a & b & stream & hs & Hab & Hsel & Hg & _ & _ & Hd)|[Hno _]];
    [apply flat_uploadable|done|done|vm_compute; discriminate|exact E|vm_compute; reflexivity|done|by repeat constructor|vm_compute; reflexivity
    |by split| |].
  - change (Z.of_nat (length (src_data (body_of "meow")))) with 4%Z in Hab, Hsel.
    assert (a = 2 /\ b = 3)%Z as [-> ->].
    { pose proof (Hsel 2%Z ltac:(lia)) as [H2 _]. pose proof (Hsel 3%Z ltac:(lia)) as [H3 _].
      pose proof (Hsel a ltac:(lia)) as [_ Ha]. cbn in H2, H3, Ha. lia. }
    exists s', stream, hs. exact (conj Hg Hd).
  - exfalso. apply (Hno 3%Z); cbn; lia.
Defined.
End ApiDemo.
