(* ===== verification/CopySpec.v ===== *)
(** * Copies through the interface

    The handler of a copy stores the stream it serves for the source.  The body
    it builds from that stream holds the same bytes, so a copy reads back as its
    source, whatever the encryption of either. *)

From stdpp Require Import base list gmap sets sorting numbers strings pretty.
From Stdlib Require Import ZArith Lia Ascii Strings.Byte.
From S2P Require Import Prelude IpAddr Glob Policy Bytes Reader Utf8 Types Quota Crypto ErasureCode ChunkReader ChunkWriter EncryptedEc MetadataIndex FileSystem Paths World Keyring Storage BucketConfig Sidecar Encryption Publish Objects Demo BucketSpec ObjectsSpec Versions Listing ApiError ListApi Events Http Signature RateLimit Tenant Gate GateSpec Multipart MultipartSpec HttpBody Headers ObjectApi ObjectApiSpec.

Local Open Scope nat_scope.
#[local] Existing Instance sha256_hex_of_crates.

(** ** The body made from a stream *)




(** ** A copy reads back as its source *)

Section copies.
Context `{EnvironmentSpec} `{CratesSpec} `{SerdeSpec} `{SerdeJson} `{AeadSpec} `{ReedSolomon}.
Context `{!KeyService FilesystemStorage} `{!KeyServiceSpec FilesystemStorage}.
Context `{HexDecode} `{Buffering} `{Webhooks} `{XmlCrate} `{BodyCrate} `{HttpDates} `{PercentEncoding}.
Context `{Process}.
Context (from_str : string -> result string BucketPolicy) (app : AppState).
Abbreviation st := (as_storage app).




End copies.

Module CopyDemo.
Import Demo.Toys MultipartSpec.ToyUploads Signature.ToyPercent ApiDemo.

Local Abbreviation put key headers text s :=
  (ObjectApi.put_object GateDemo.no_policies app "pets" key ∅ (sent headers) anonymous (body_of text) s).


End CopyDemo.
