(* ===== verification/SettingsSpec.v ===== *)
(** * The settings a bucket can come to have

    The handlers check what they are sent before it is stored.  A typing of
    bucket records, and that every request about a setting keeps every record of
    the store well typed. *)

From stdpp Require Import base list gmap sorting numbers strings pretty.
From Stdlib Require Import ZArith Lia Ascii Strings.Byte.
From S2P Require Import Prelude IpAddr Glob Policy Bytes Reader Utf8 Types Quota Crypto ErasureCode ChunkReader MetadataIndex FileSystem Paths World Keyring Storage BucketConfig Sidecar Publish Objects Demo BucketSpec ObjectsSpec Versions Listing ApiError ListApi Events Http Signature RateLimit Tenant Gate GateSpec Multipart MultipartSpec HttpBody Headers ObjectApi BucketApi ObjectApiSpec.

Local Open Scope nat_scope.

(** ** Well-typed records *)

Record cors_rule_ok (r : CorsRule) : Prop := {
  cr_origins : allowed_origins r <> [];
  cr_methods : allowed_methods r <> [] /\ Forall (fun m => m ∈ cors_methods) (allowed_methods r);
}.
Definition encryption_ok (has_kms : bool) (c : BucketEncryptionConfig) : Prop :=
  be_sse_algorithm c = "AES256" \/ (be_sse_algorithm c = "aws:kms" /\ has_kms = true).
Definition notification_ok `{Webhooks} (allow_external : bool) (c : BucketNotificationConfig) : Prop :=
  validate_webhook_url (bn_webhook_url c) allow_external = Ok tt /\ bn_events c <> [] /\
  bn_events c ⊆ ["s3:ObjectCreated:Put"; "s3:ObjectRemoved:Delete"].
Definition lifecycle_rule_ok (r : LifecycleRule) : Prop := Types.lr_id r <> "" /\ lr_expiration_days r <> Some 0%Z.

(** [allow_external]: the configuration lets webhooks leave the network. *)
Record settings_ok `{Webhooks} (st : FilesystemStorage) (allow_external : bool)
    (from_str : string -> result string BucketPolicy) (bucket : string) (m : BucketMeta) : Prop := {
  so_cors rules : bm_cors_rules m = Some rules -> length rules <= 100 /\ Forall cors_rule_ok rules;
  so_encryption c : bm_encryption_config m = Some c -> encryption_ok (bool_decide (is_Some (st_kms st))) c;
  so_policy p : bm_bucket_policy m = Some p -> validate_policy_v2 from_str bucket p = Ok tt;
  so_erasure : bm_erasure_coding m = Some true -> st_erasure_coding st = true;
  so_lifecycle rules : bm_lifecycle_rules m = Some rules -> Forall lifecycle_rule_ok rules;
  so_logging t : bm_logging_target_bucket m = Some t -> validate_bucket_name t = Ok tt /\ t <> bucket;
  so_notification c : bm_notification_config m = Some c -> notification_ok allow_external c;
  so_lock c : bm_object_lock_config m = Some c -> bm_object_lock_enabled m = true;
}.

(** What the parsers let through. *)
Lemma parse_cors_ok `{XmlCrate} text rules : parse_cors text = Ok rules ->
  length rules <= 100 /\ Forall cors_rule_ok rules.
Proof.
  unfold parse_cors. destruct (cors_of_xml text) as [rs|]; cbn -[Nat.ltb]; [|done].
  destruct (Nat.ltb_spec 100 (length rs)) as [|Hl]; [done|].
  destruct (for_each check_cors_rule rs) as [[]|] eqn:E; cbn; [|done]. intros [= <-]. split; [done|].
  rewrite for_each_ok in E. eapply Forall_impl; [exact E|]. intros r. unfold check_cors_rule.
  do 2 case_bool_decide; cbn; try done. rewrite for_each_ok. split; [done|]. split; [done|].
  eapply Forall_impl; [done|]. intros m. cbn. by case_decide.
Qed.
Lemma parse_encryption_ok has_kms text c : parse_encryption has_kms text = Ok c -> encryption_ok has_kms c.
Proof.
  unfold parse_encryption, encryption_ok. destruct (extract_xml_tag text "SSEAlgorithm") as [a|]; cbn; [|done].
  repeat case_bool_decide; destruct has_kms; cbn; try done; intros [= <-]; cbn; try tauto.
Qed.
Lemma parse_notification_ok `{Webhooks} allow text c : parse_notification allow text = Ok c -> notification_ok allow c.
Proof.
  unfold parse_notification. destruct (extract_xml_tag text "Endpoint") as [url|]; cbn; [|done].
  destruct (validate_webhook_url url allow) as [[]|] eqn:E; cbn; [|done].
  case_decide as Hne; [done|]. intros [= <-]. split; [done|]. split; [done|].
  cbn [bn_events]. clear Hne. repeat case_decide; set_solver.
Qed.

(** ** Steps that keep an invariant of the store *)

(** [I] holds of the world before and after, and [Q] of an answer. *)
Definition keeps {S E A} (wd : S -> world) (I : world -> Prop) (Q : A -> Prop) (m : S -> S * result E A) : Prop :=
  forall s s' r, m s = (s', r) -> I (wd s) -> I (wd s') /\ match r with Ok a => Q a | Err _ => True end.

Section keeps.
Context (I : world -> Prop).
Abbreviation keepsM := (keeps (fun w : world => w) I).
Abbreviation keepsG := (keeps sv_world I).

Lemma keeps_bindM {E A B} (Q : A -> Prop) (R : B -> Prop) (m : M E A) f :
  keepsM Q m -> (forall a, Q a -> keepsM R (f a)) -> keepsM R (m ≫= f).
Proof.
  intros Hm Hf s s' r. unfold mbind, M_bind. destruct (m s) as [s1 [a|e]] eqn:E1; intros E2 Hi;
    destruct (Hm _ _ _ E1 Hi) as [Hi1 Hq]; [by apply (Hf a Hq s1)|by injection E2 as <- <-].
Qed.
Lemma keeps_bind {A B} (Q : A -> Prop) (R : B -> Prop) (m : Gate A) f :
  keepsG Q m -> (forall a, Q a -> keepsG R (f a)) -> keepsG R (m ≫= f).
Proof.
  intros Hm Hf s s' r. unfold mbind, Gate_bind. destruct (m s) as [s1 [a|e]] eqn:E1; intros E2 Hi;
    destruct (Hm _ _ _ E1 Hi) as [Hi1 Hq]; [by apply (Hf a Hq s1)|by injection E2 as <- <-].
Qed.
Lemma keeps_readM {E A} (m : M E A) : reads_only m -> keepsM (fun _ => True) m.
Proof. intros Hm s s' r E1 Hi. specialize (Hm s). rewrite E1 in Hm. cbn in Hm. subst. by destruct r. Qed.
Lemma keeps_liftM {E A} (r : result E A) : keepsM (fun a => r = Ok a) (lift r).
Proof. intros s s' r' [= <- <-] Hi. by destruct r. Qed.
Lemma keeps_fail_if {E} b (e : E) : keepsM (fun _ => b = false) (fail_if b e).
Proof. intros s s' r. unfold fail_if. by destruct b; intros [= <- <-]. Qed.
Lemma keeps_unmoved {A} (m : Gate A) : unmoved m -> keepsG (fun _ => True) m.
Proof. intros Hm s s' r E1 Hi. specialize (Hm s). rewrite E1 in Hm. cbn in Hm. subst. by destruct r. Qed.
Lemma keeps_ask {A} (r : result S3Error A) : keepsG (fun a => r = Ok a) (ask r).
Proof. intros s s' r' [= <- <-] Hi. by destruct r. Qed.
Lemma keeps_ret {A} (a : A) : keepsG (fun _ => True) (mret a : Gate A).
Proof. by apply keeps_unmoved. Qed.
Lemma keeps_storage {A} f (m : M StorageError A) (Q : A -> Prop) : keepsM Q m -> keepsG Q (storage f m).
Proof.
  intros Hm s s' r. unfold storage, on_storage, of_storage. destruct (m (sv_world s)) as [w x] eqn:E1.
  intros E2 Hi. destruct (Hm _ _ _ E1 Hi) as [Hi' Hq]. by destruct x; injection E2 as <- <-.
Qed.
End keeps.

Section settings.
Context `{EnvironmentSpec} `{Crates} `{SerdeSpec} `{SerdeJson} `{Aead} `{ReedSolomon} `{HexDecode} `{Buffering}.
Context `{!KeyService FilesystemStorage} `{Webhooks} `{XmlCrate} `{BodyCrate} `{HttpDates} `{PercentEncoding}.
Context `{Process} `{Tasks}.
Context (from_str : string -> result string BucketPolicy) (app : AppState).
Abbreviation st := (as_storage app).
Hypothesis Hst : storage_ok st.

Abbreviation ok := (settings_ok st (cf_allow_external_webhooks (as_config app)) from_str).
(** Every record of the store is well typed. *)
Definition records_ok (w : world) : Prop :=
  forall bucket m, read_bucket_meta st bucket w = (w, Ok m) -> ok bucket m.
Abbreviation keepsM := (keeps (fun w : world => w) records_ok).
Abbreviation keepsG := (keeps sv_world records_ok).

Lemma read_valid b w m : read_bucket_meta st b w = (w, Ok m) -> validate_bucket_name b = Ok tt.
Proof.
  unfold read_bucket_meta, mbind, M_bind, lift. destruct (validate_bucket_name b) as [[]|]; [done|]. by intros [= ?].
Qed.
Lemma keeps_write b m : validate_bucket_name b = Ok tt -> ok b m ->
  keepsM (fun _ => True) (call (fun t => fs_write t (bucket_meta_path st b) (BucketJson m))).
Proof.
  intros Hb Hm w w' r E Hi. split; [|by destruct r].
  destruct (bucket_meta_location st Hst b Hb) as [Hp Hn]. unfold call in E.
  destruct (fs_write (w_tree w) (bucket_meta_path st b) (BucketJson m)) as [t x] eqn:Ef. injection E as <- _.
  apply fs_write_effect in Ef as [[-> _]|(-> & -> & Hres & _)]; [..|done]; [by destruct w|].
  intros b' m' Hr. pose proof (read_valid _ _ _ Hr) as Hb'. revert Hr.
  rewrite read_bucket_meta_eq by done. cbn [with_tree w_tree]. intros [= Hr].
  destruct (bucket_meta_location st Hst b' Hb') as [Hp' Hn'].
  destruct (fs_read _ (bucket_meta_path st b')) as [c|e] eqn:Er; [|done].
  apply (fs_read_ok _ _ _ Hp') in Er as [E1 E2]. destruct (decide (b' = b)) as [->|Hne].
  - cbn in E2. rewrite lookup_insert_eq in E2. injection E2 as <-. rewrite parse_bucket_json in Hr. by injection Hr as <-.
  - apply (Hi b' m'). rewrite read_bucket_meta_eq by done. f_equal.
    rewrite (proj2 (fs_read_ok _ _ c Hp')); [done|]. cbn in E2. rewrite lookup_insert_ne in E2.
    + split; [by apply (resolve_mono (with_file (w_tree w) (names (bucket_meta_path st b)) (BucketJson m)))|done].
    + rewrite Hn, Hn'. intros [_ E3]%app_inj_1; [|done]. by injection E3 as <-.
Qed.
Lemma keeps_update b f : (forall m, validate_bucket_name b = Ok tt -> ok b m -> ok b (f m)) ->
  keepsM (fun _ => True) (update_bucket_meta st b f).
Proof.
  intros Hf w w' r. unfold update_bucket_meta, mbind, M_bind.
  destruct (read_bucket_meta st b w) as [w1 [m|e]] eqn:E.
  - assert (w1 = w) as -> by (pose proof (read_bucket_meta_reads st b w) as Hr; by rewrite E in Hr).
    intros E2 Hi. pose proof (read_valid _ _ _ E) as Hb.
    exact (keeps_write b (f m) Hb (Hf m Hb (Hi b m E)) w w' r E2 Hi).
  - intros [= <- <-]. pose proof (read_bucket_meta_reads st b w) as Hr. rewrite E in Hr. cbn in Hr. by subst.
Qed.

(** Changing one field asks for that field only. *)
Ltac one_field := intros m Hb Ho; destruct Ho; constructor; cbn; try assumption; try (by intros; simplify_eq).

Lemma keeps_versioning b on : keepsM (fun _ => True) (set_versioning st b on).
Proof. apply keeps_update. one_field. Qed.
Lemma keeps_erasure b on : keepsM (fun _ => True) (set_bucket_erasure_coding st b on).
Proof.
  eapply keeps_bindM; [apply keeps_liftM|intros _ _]. eapply keeps_bindM; [apply keeps_fail_if|intros u Hu].
  apply keeps_update. one_field. intros ->. cbn in Hu. by apply negb_false_iff in Hu.
Qed.
Lemma keeps_lifecycle b rules : keepsM (fun _ => True) (BucketConfig.put_bucket_lifecycle st b rules).
Proof.
  eapply keeps_bindM; [apply keeps_liftM|intros _ _]. eapply keeps_bindM; [apply keeps_liftM|intros [] Hr].
  apply keeps_update. one_field. intros rs [= <-]. rewrite for_each_ok in Hr.
  eapply Forall_impl; [exact Hr|]. intros rule. unfold check_lifecycle_rule, lifecycle_rule_ok. by repeat case_decide.
Qed.
Lemma keeps_cors b rules : (length rules <= 100 /\ Forall cors_rule_ok rules) ->
  keepsM (fun _ => True) (BucketConfig.put_bucket_cors st b rules).
Proof. intros Hr. apply keeps_update. one_field. Qed.
Lemma keeps_encryption b c : encryption_ok (bool_decide (is_Some (st_kms st))) c ->
  keepsM (fun _ => True) (BucketConfig.put_bucket_encryption st b c).
Proof. intros Hr. apply keeps_update. one_field. Qed.
Lemma keeps_notification b c : notification_ok (cf_allow_external_webhooks (as_config app)) c ->
  keepsM (fun _ => True) (BucketConfig.put_bucket_notification st b c).
Proof. intros Hr. apply keeps_update. one_field. Qed.
Lemma keeps_policy b p : validate_policy_v2 from_str b p = Ok tt -> keepsM (fun _ => True) (BucketConfig.put_bucket_policy st from_str b p).
Proof.
  intros Hp. eapply keeps_bindM; [apply keeps_liftM|intros _ _]. eapply keeps_bindM; [apply keeps_liftM|intros e _].
  apply keeps_update. one_field.
Qed.
Lemma keeps_logging b t p : keepsM (fun _ => True) (BucketConfig.put_bucket_logging st b t p).
Proof.
  eapply keeps_bindM; [apply keeps_liftM|intros _ _]. eapply keeps_bindM; [apply keeps_liftM|intros [] Ht].
  eapply keeps_bindM; [apply keeps_fail_if|intros u Hu].
  eapply keeps_bindM; [apply keeps_readM, head_bucket_reads|intros there _].
  eapply keeps_bindM; [apply keeps_fail_if|intros _ _].
  apply keeps_update. one_field. intros t' [= <-]. split; [done|]. apply bool_decide_eq_false in Hu. by intros ->.
Qed.
Lemma keeps_object_lock b c : keepsM (fun _ => True) (BucketConfig.put_bucket_object_lock st b c).
Proof.
  intros w w' r. unfold BucketConfig.put_bucket_object_lock, mbind at 1, M_bind at 1.
  destruct (read_bucket_meta st b w) as [w1 x] eqn:E.
  assert (w1 = w) as -> by (pose proof (read_bucket_meta_reads st b w) as Hr; by rewrite E in Hr).
  destruct x as [m|e]; [|by intros [= <- <-]]. intros E2 Hi. revert E2 Hi. generalize (read_valid _ _ _ E). intros Hb E2 Hi.
  refine (keeps_bindM records_ok _ _ _ _ (keeps_fail_if records_ok _ _) _ w w' r E2 Hi). intros _ Hl.
  apply keeps_write; [done|]. apply negb_false_iff in Hl. pose proof (Hi b m E) as Ho. destruct Ho. constructor; cbn; done.
Qed.
Lemma keeps_delete b f : f = with_lifecycle None \/ f = with_cors None \/ f = with_encryption None \/
    f = with_notification None \/ f = with_logging None None \/
    f = (fun meta => with_public false false (with_policy None meta)) ->
  keepsM (fun _ => True) (update_bucket_meta st b f).
Proof. intros Hf. apply keeps_update. destruct_or! Hf; subst; one_field. Qed.

(** ** The handlers *)

(** A handler: the bucket is there, then the rest. *)
Lemma keeps_ensured {A} b (Q : A -> Prop) (f : unit -> Gate A) : (forall u, keepsG Q (f u)) ->
  keepsG Q (ensure_bucket_exists app b ≫= f).
Proof.
  intros Hf. eapply keeps_bind; [apply keeps_unmoved, ensure_exists_unmoved|intros u _; apply Hf].
Qed.
(** A stored setting, and the answer. *)
Lemma keeps_stored f (m : M StorageError unit) (r : Response) : keepsM (fun _ => True) m ->
  keepsG (fun _ : Response => True) (_ ← storage f m; mret r : Gate Response).
Proof. intros Hm. eapply keeps_bind; [apply keeps_storage, Hm|intros _ _; apply keeps_ret]. Qed.
Ltac asked := eapply keeps_bind; [apply keeps_ask|intros ? ?; cbv beta in *].

Lemma keeps_put_setting bucket body :
  Forall (keepsG (fun _ => True))
    [put_bucket_versioning app bucket body; put_bucket_cors app bucket body; put_bucket_encryption app bucket body;
     put_bucket_policy from_str app bucket body; put_bucket_lifecycle app bucket body; put_bucket_erasure app bucket body;
     put_bucket_logging app bucket body; put_bucket_notification app bucket body;
     put_bucket_object_lock app bucket body].
Proof.
  rewrite !Forall_cons, Forall_nil. split_and!; [..|done]; apply keeps_ensured; intros _.
  - asked. apply keeps_stored, keeps_versioning.
  - asked. asked. apply keeps_stored, keeps_cors. eapply parse_cors_ok; eassumption.
  - asked. asked. apply keeps_stored, keeps_encryption. eapply parse_encryption_ok; eassumption.
  - asked. asked. asked. apply keeps_stored, keeps_policy. unfold map_err in *. by destruct (validate_policy_v2 _ _ _) as [[]|].
  - asked. asked. apply keeps_stored, keeps_lifecycle.
  - asked. apply keeps_stored, keeps_erasure.
  - asked. asked. apply keeps_stored, keeps_logging.
  - asked. asked. apply keeps_stored, keeps_notification. eapply parse_notification_ok; eassumption.
  - asked. asked. asked. apply keeps_stored, keeps_object_lock.
Qed.

Lemma keeps_delete_setting bucket m : keepsM (fun _ => True) m -> keepsG (fun _ => True) (delete_setting app bucket m).
Proof. intros Hm. by apply keeps_ensured; intros _; apply keeps_stored. Qed.
Lemma keeps_delete_present {A} bucket (g : BucketMeta -> option A) e m : keepsM (fun _ => True) m ->
  keepsG (fun _ => True) (delete_present app bucket (meta ← read_bucket_meta st bucket; mret (g meta)) e m).
Proof.
  intros Hm. apply keeps_ensured; intros _.
  eapply keeps_bind; [apply keeps_unmoved, unmoved_storage, bucket_setting_reads|intros found _]. asked. by apply keeps_stored.
Qed.

(** The settings that can be written, and those that can be removed. *)
Definition written_settings : list string :=
  ["versioning"; "cors"; "encryption"; "policy"; "lifecycle"; "erasure"; "logging"; "notification"; "object-lock"].
Definition removed_settings : list string := ["cors"; "encryption"; "policy"; "lifecycle"; "logging"; "notification"].
Definition names_setting (ps : params) (settings : list string) : bool := existsb (has ps) settings.

(** C17: The records of the buckets stay well typed.  Whatever a client sends as a
    setting of any bucket, and whichever setting it removes, afterwards every
    record of the store that can be read holds at most a hundred CORS rules, each
    with origins and known methods; a known encryption algorithm, KMS only where a
    KMS is configured; a policy the validator accepts; erasure coding only on a
    server that has it; lifecycle rules that have a name and do not expire at once; a log
    target that is another bucket with a valid name; a webhook address of an
    accepted form, with supported events; and a lock configuration only where the
    bucket was made with object lock. *)
Theorem settings_stay_well_typed ctx bucket ps h body s s' r :
  records_ok (sv_world s) ->
  (names_setting ps written_settings = true /\ handle_bucket_put from_str app ctx bucket ps h body s = (s', r)) \/
  (names_setting ps removed_settings = true /\ delete_bucket app bucket ps s = (s', r)) ->
  records_ok (sv_world s').
Proof.
  intros Hi. assert (K : forall m : Gate Response, keepsG (fun _ => True) m -> m s = (s', r) -> records_ok (sv_world s')).
  { intros m Hm E. exact (proj1 (Hm _ _ _ E Hi)). }
  intros [[Hn E]|[Hn E]].
  - unfold handle_bucket_put in E. assert (Hv : virtual_host_object_key ps (rc_vhost ctx) = None).
    { unfold virtual_host_object_key. rewrite decide_True; [done|]. intros ->. by vm_compute in Hn. }
    rewrite Hv in E. pose proof (keeps_put_setting (resolve_bucket (rc_vhost ctx) bucket) body) as Hall.
    rewrite !Forall_cons in Hall. destruct Hall as (K1 & K2 & K3 & K4 & K5 & K6 & K7 & K8 & K9 & _).
    cbn in Hn. repeat (destruct (has ps _); [by eapply K; [|exact E]|cbn in Hn]). done.
  - unfold delete_bucket in E. cbn in Hn.
    repeat (destruct (has ps _); [eapply K; [|exact E]; first [apply keeps_delete_setting|apply keeps_delete_present];
      apply keeps_delete; tauto|cbn in Hn]). done.
Qed.
End settings.

Module SettingsDemo.
Import Demo.Toys MultipartSpec.ToyUploads Signature.ToyPercent ApiDemo.

Definition parser := GateDemo.no_policies.
Lemma flat_records_ok : records_ok parser app flat_world.
Proof.
  intros b m Hr. pose proof (read_valid _ _ _ _ Hr) as Hb. revert Hr.
  rewrite (read_bucket_meta_eq (demo_storage false) b Hb). intros [= Hr].
  destruct (bucket_meta_location (demo_storage false) (demo_storage_ok false) b Hb) as [Hp _].
  destruct (fs_read _ _) as [c|e] eqn:E; [|done]. apply (fs_read_ok _ _ _ Hp) in E as [_ E].
  cbn in E. apply lookup_singleton_Some in E as [_ <-]. injection Hr as <-. by split.
Qed.

Definition notify_body : source :=
  body_of "<Endpoint>https://localhost</Endpoint><Event>s3:ObjectCreated:Put</Event>".
Lemma settings_stay_well_typed_witness :
  let s' := fst (handle_bucket_put parser app anonymous "pets" {[ "notification" := "" ]} (sent []) notify_body (serving flat_world)) in
  exists m c, read_bucket_meta (demo_storage false) "pets" (sv_world s') = (sv_world s', Ok m) /\
    bm_notification_config m = Some c /\ notification_ok false c.
Proof.
  cbv zeta. destruct (handle_bucket_put parser app anonymous "pets" {[ "notification" := "" ]} (sent []) notify_body
    (serving flat_world)) as [s' r] eqn:E. cbn [fst].
  pose proof (settings_stay_well_typed parser app (demo_storage_ok false) anonymous "pets" {[ "notification" := "" ]} (sent [])
    notify_body (serving flat_world) s' r flat_records_ok (or_introl (conj eq_refl E))) as Hs.
  assert (Hm : exists m c, read_bucket_meta (demo_storage false) "pets" (sv_world s') = (sv_world s', Ok m) /\
    bm_notification_config m = Some c).
  { apply (f_equal fst) in E. cbn [fst] in E. rewrite <-E. eexists _, _. split; vm_compute; reflexivity. }
  destruct Hm as (m & c & Hr & Hc). exists m, c. split; [exact Hr|]. split; [exact Hc|].
  exact (so_notification _ _ _ _ _ (Hs "pets" m Hr) c Hc).
Defined.
End SettingsDemo.
