(* ===== verification/HandlersSpec.v ===== *)
(** * More of what the handlers promise

    A multi-object delete passes the gates for every key before it removes one;
    a new bucket belongs to the tenant of its creator; and places where a handler
    does something else than it means to. *)

From stdpp Require Import base list gmap sorting numbers strings pretty.
From Stdlib Require Import ZArith Lia Ascii Strings.Byte.
From S2P Require Import Prelude IpAddr Glob Policy Bytes Reader Utf8 Types Quota Crypto ErasureCode ChunkReader MetadataIndex FileSystem Paths World Keyring Storage BucketConfig Sidecar Encryption Publish Objects Demo BucketSpec ObjectsSpec Versions Listing ApiError ListApi Events Http Signature RateLimit Tenant Gate GateSpec Multipart MultipartSpec Behaviours HttpBody Headers ObjectApi BucketApi ObjectApiSpec.

Local Open Scope nat_scope.

(** A step that leaves the server as it is, and what follows it. *)
Lemma unmoved_step {A B} (m : Gate A) (f : A -> Gate B) s s' r : (m ≫= f) s = (s', r) -> unmoved m ->
  (exists a, m s = (s, Ok a) /\ f a s = (s', r)) \/ (s' = s /\ exists e, r = Err e).
Proof.
  unfold mbind, Gate_bind. intros E Hm. specialize (Hm s). destruct (m s) as [s1 [a|e]]; cbn in Hm; subst s1.
  - left. by exists a.
  - right. injection E as <- <-. by split; [|exists e].
Qed.

(** ** Deleting many objects *)

Section deletions.
Context `{EnvironmentSpec} `{Crates} `{Serde} `{SerdeJson} `{Aead} `{ReedSolomon} `{HexDecode} `{Buffering}.
Context `{!KeyService FilesystemStorage} `{Webhooks} `{XmlCrate} `{BodyCrate} `{HttpDates} `{PercentEncoding}.
Context `{Process} `{TasksSpec}.
Context (from_str : string -> result string BucketPolicy) (app : AppState).
Abbreviation st := (as_storage app).

(** The world after the keys were deleted, one after another. *)
Definition after_deletes (bucket : string) (keys : list string) (w : world) : world :=
  fold_left (fun w key => fst (Versions.delete_object st bucket key w)) keys w.

Lemma delete_each_runs bucket keys s : exists xml,
  delete_each app bucket keys s =
  (mk_Server (after_deletes bucket keys (sv_world s)) (sv_put_requests s) (sv_auth_failures s) (sv_slow_downs s)
     (sv_upload_bytes s), Ok xml).
Proof.
  revert s. induction keys as [|key keys IH]; intros s; [by exists ("", ""); destruct s|]. cbn [delete_each].
  match goal with |- context [(?m ≫= ?f) s] => destruct (m s) as [s1 [entry|e]] eqn:E end;
    unfold on_server in E; destruct (Versions.delete_object st bucket key (sv_world s)) as [w x] eqn:Ed; [|done].
  injection E as <- <-. erewrite Gate_run_ok; [|unfold on_server; rewrite Ed; reflexivity].
  match goal with |- context [(delete_each _ _ _ ≫= _) ?s1] => destruct (IH s1) as [xml Hx] end.
  rewrite (Gate_run_ok _ _ _ _ _ Hx). eexists. unfold after_deletes. cbn [fold_left sv_world]. by rewrite Ed.
Qed.

Lemma gate_each_ok ctx bucket h keys s s' : gate_each from_str app ctx bucket h keys s = (s', Ok tt) ->
  s' = s /\ Forall (fun key => bucket_gates from_str app ctx "DELETE" bucket (Some key) ∅ h s = (s, Ok tt)) keys.
Proof.
  revert s. induction keys as [|key keys IH]; intros s; [by intros [= <-]|].
  intros (u & s1 & E1 & E2)%Gate_bind_ok. destruct u. pose proof E1 as E1'.
  apply unmoved_ok in E1' as ->; [|apply bucket_gates_unmoved]. apply IH in E2 as [-> Hk]. split; [done|by constructor].
Qed.
Lemma gate_each_unmoved ctx bucket h keys : unmoved (gate_each from_str app ctx bucket h keys).
Proof.
  induction keys as [|key keys IH]; [done|]. apply unmoved_bind; [apply bucket_gates_unmoved|done].
Qed.

(** C22: A multi-object delete is all or nothing as far as permission goes.  When
    it is answered with an error the server is as it was; otherwise the request
    named at most a thousand keys, the gates passed for each of them, and exactly
    those objects were deleted, in some order. *)
Theorem multi_delete_gates_every_key bucket h ctx body s s' r :
  delete_objects from_str app bucket h ctx body s = (s', r) ->
  match r with
  | Err _ => s' = s
  | Ok response =>
      exists text keys order, body_text body DELETE_BODY_MAX = Ok text /\ keys_in false (xml_events text) = Ok keys /\
        length keys <= 1000 /\ order ≡ₚ keys /\ rs_status response = 200%Z /\
        Forall (fun key => bucket_gates from_str app ctx "DELETE" bucket (Some key) ∅ h s = (s, Ok tt)) keys /\
        sv_world s' = after_deletes bucket order (sv_world s)
  end.
Proof.
  unfold delete_objects. intros Hd.
  apply unmoved_step in Hd as [(u1 & _ & Hd)|[-> [e ->]]]; [|done|apply ensure_exists_unmoved].
  apply unmoved_step in Hd as [(u2 & _ & Hd)|[-> [e ->]]]; [|done|apply bucket_gates_unmoved].
  apply unmoved_step in Hd as [(text & Et & Hd)|[-> [e ->]]]; [|done|apply unmoved_ask].
  apply unmoved_step in Hd as [(keys & Ek & Hd)|[-> [e ->]]]; [|done|apply unmoved_ask].
  destruct (Nat.ltb_spec 1000 (length keys)) as [|Hlen]; [by injection Hd as <- <-|].
  apply unmoved_step in Hd as [([] & Eg & Hd)|[-> [e ->]]]; [|done|apply gate_each_unmoved].
  apply gate_each_ok in Eg as [_ Hg]. destruct (delete_each_runs bucket (completion_order keys) s) as [xml Hx].
  rewrite (Gate_run_ok _ _ _ _ _ Hx) in Hd. destruct xml as [deleted errors]. injection Hd as <- <-.
  exists text, keys, (completion_order keys). unfold ask in Et, Ek.
  destruct (body_text _ _); [injection Et as ->|done]. destruct (keys_in _ _); [injection Ek as ->|done].
  split_and!; try done. apply completion_order_perm.
Qed.
End deletions.

(** ** New buckets *)

Section tenants.
Context `{EnvironmentSpec} `{Crates} `{SerdeSpec} `{SerdeJson} `{Aead} `{ReedSolomon} `{HexDecode} `{Buffering}.
Context `{!KeyService FilesystemStorage} `{Webhooks} `{XmlCrate} `{BodyCrate} `{HttpDates} `{PercentEncoding}.
Context `{Process} `{Tasks}.
Context (app : AppState).
Abbreviation st := (as_storage app).
Abbreviation config := (as_config app).
Abbreviation credentials := (as_credentials app).

(** A bucket that was created has the record it was created with. *)
Lemma create_bucket_record m w w' : storage_ok st -> Storage.create_bucket st m w = (w', Ok true) ->
  validate_bucket_name (bm_name m) = Ok tt /\
  fs_read (w_tree w') (bucket_meta_path st (bm_name m)) = Ok (BucketJson m).
Proof.
  intros Hst. unfold Storage.create_bucket. intros ([] & w1 & [Hv ->]%lift_ok & Hc)%M_bind_ok. split; [done|].
  destruct (bucket_meta_location st Hst (bm_name m) Hv) as [Hp _]. unfold on_world in Hc.
  destruct (fs_create_dir (w_tree w) _) as [t [u|e]]; [|by case_decide; simplify_eq].
  fold (bucket_meta_path st (bm_name m)) in Hc.
  destruct (fs_write t (bucket_meta_path st (bm_name m)) (BucketJson m)) as [t' [u'|e]] eqn:E; [|done].
  injection Hc as <-. apply fs_write_effect in E as [[_ ?]|(_ & -> & Hres & _)]; [done| |done]. cbn.
  apply fs_read_ok; [done|]. split; [by apply (resolve_mono t)|apply lookup_insert_eq].
Qed.

Lemma ensure_access_spec key b w m :
  validate_bucket_name b = Ok tt -> fs_read (w_tree w) (bucket_meta_path st b) = Ok (BucketJson m) ->
  ensure_bucket_access st config credentials key b w =
  (w, if bucket_access_allowed m key (lookup_credential credentials key) config then Ok m
      else Err (access_denied "Access Denied")).
Proof.
  intros Hv Hr. unfold ensure_bucket_access. rewrite (run_ok _ _ w w (Some m)); [by destruct (bucket_access_allowed _ _ _ _)|].
  unfold find_bucket_meta, Storage.head_bucket. rewrite (run_lift _ _ _ _ Hv).
  unfold query, mbind, M_bind. assert (He : try_exists (w_tree w) (bucket_meta_path st b) = Ok true).
  { unfold try_exists. unfold fs_read in Hr. destruct (resolve _ _) as [l|]; [|done]. cbn in Hr.
    destruct (t_files (w_tree w) !! l) eqn:El; [|by case_decide]. f_equal. apply orb_true_iff. right.
    by apply bool_decide_eq_true. }
  rewrite He. cbn. unfold get_bucket_meta. rewrite read_bucket_meta_eq by done. by rewrite Hr, parse_bucket_json.
Qed.

(** A new bucket belongs to the tenant of its creator.  After [create_bucket]
    answered, the gate of the bucket lets through the administrators and the
    enabled keys of the tenant of the creator, and nobody else. *)
Theorem new_bucket_belongs_to_its_tenant ctx principal bucket h s s' r key vhost :
  storage_ok st -> rc_principal ctx = Some principal ->
  BucketApi.create_bucket app ctx bucket h s = (s', Ok r) ->
  enforce_tenant_bucket app (mk_S3RequestContext (Some key) vhost) bucket s' =
  (s', if is_global_admin key config then Ok tt
       else match lookup_credential credentials key with
            | Some c => if decide (credential_tenant_id c (configured_default_tenant config)
                                   = tenant_for_new_bucket config credentials principal)
                        then Ok tt else Err (Refused (access_denied "Access Denied"))
            | None => Err (Refused (access_denied "Access Denied"))
            end).
Proof.
  intros Hst Hp. unfold BucketApi.create_bucket, principal_of. rewrite Hp.
  intros (p & s1 & [= <- <-] & Hc)%Gate_bind_ok. apply Gate_bind_ok in Hc as (u & s2 & E2 & Hc).
  destruct (is_valid_bucket_name bucket); [|done]. injection E2 as <- _.
  apply Gate_bind_ok in Hc as (n & s3 & E3 & Hc). apply Gate_bind_ok in Hc as (created & s4 & E4 & Hc).
  destruct created; [|done]. injection Hc as <- _.
  set (m := new_bucket_meta _ _ _ _ _) in E4. unfold storage, on_storage, of_storage in E4.
  destruct (Storage.create_bucket st m (sv_world s3)) as [w [c|e]] eqn:Ec; [|done]. injection E4 as <- ->.
  destruct (create_bucket_record m _ _ Hst Ec) as [Hv Hr]. change (bm_name m) with bucket in Hv, Hr.
  unfold enforce_tenant_bucket, ensure_bucket_access_optional. cbn [rc_principal].
  unfold on_storage, mbind, M_bind. cbn [sv_world].
  rewrite (ensure_access_spec key bucket w m Hv Hr). unfold bucket_access_allowed.
  destruct (is_global_admin key config); [done|]. destruct (lookup_credential credentials key) as [c|]; [|done].
  assert (Ht : bucket_tenant_id m (configured_default_tenant config) = tenant_for_new_bucket config credentials principal).
  { unfold bucket_tenant_id, effective_tenant_id. change (bm_tenant_id m) with (Some (tenant_for_new_bucket config credentials principal)).
    unfold non_empty. cbn. rewrite decide_False; [done|]. unfold tenant_for_new_bucket.
    pose proof (configured_default_nonempty config) as Hd.
    destruct (is_global_admin _ _); [done|]. destruct (lookup_credential _ _) as [c'|]; [|done].
    unfold credential_tenant_id, effective_tenant_id, non_empty. destruct (ce_tenant_id c') as [t|]; cbn; [by case_decide|done]. }
  rewrite Ht. case_bool_decide as E1; case_decide as E2; congruence || done.
Qed.
End tenants.

(** ** Versions and ranges *)

Section ranges.
Context `{Environment} `{Crates} `{Serde} `{SerdeJson} `{Aead} `{ReedSolomon} `{HexDecode} `{Buffering}.
Context `{!KeyService FilesystemStorage} `{Webhooks} `{XmlCrate} `{BodyCrate} `{HttpDates} `{PercentEncoding}.
Context `{Process} `{Tasks}.
Context (from_str : string -> result string BucketPolicy) (app : AppState).

(** A read of a version with a range is a read of the current object: once the
    gates have passed, the answer to a GET with a [Range] header does not depend on
    [versionId], and is not an error when there is no such version. *)
Theorem ranged_get_ignores_version bucket key v range_str h ctx s s' ck r :
  bucket_gates from_str app ctx "GET" bucket (Some key) {[ "versionId" := v ]} h s = (s, Ok tt) ->
  extract_customer_key h = Ok ck -> header h "range" = Some range_str ->
  get_range app bucket key range_str h ck s = (s', Ok (Some r)) ->
  ObjectApi.get_object from_str app bucket key {[ "versionId" := v ]} h ctx s = (s', Ok r).
Proof.
  intros Hg Hk Hr Hget. unfold ObjectApi.get_object. rewrite (Gate_run_ok _ _ _ _ _ Hg).
  assert (Hno : forall name, name <> "versionId" -> has {[ "versionId" := v ]} name = false).
  { intros name Hne. unfold has. rewrite lookup_singleton_ne by congruence. apply bool_decide_eq_false. by intros [? ?]. }
  rewrite !Hno by done. rewrite (Gate_run_ok _ _ s s ck) by (unfold ask; by rewrite Hk).
  rewrite lookup_singleton_ne, Hr by done. by rewrite (Gate_run_ok _ _ _ _ _ Hget).
Qed.
End ranges.

(** A tag whose value is empty has no text in it, and is not stored. *)
Lemma empty_tag_values_are_dropped key :
  tags_in None false false ∅
    [XStart "Tag"; XStart "Key"; XText (Some key); XEnd "Key"; XStart "Value"; XEnd "Value"; XEnd "Tag"] = Ok ∅.
Proof. reflexivity. Qed.

(** ** On the small server *)

Module HandlersDemo.
Import Demo.Toys MultipartSpec.ToyUploads Signature.ToyPercent ApiDemo.
#[local] Existing Instance sha256_hex_of_crates.

Definition parser := GateDemo.no_policies.
Local Abbreviation put headers text s :=
  (ObjectApi.put_object parser app "pets" "cat" ∅ (sent headers) anonymous (body_of text) s).
Local Abbreviation get ps headers s := (ObjectApi.get_object parser app "pets" "cat" ps (sent headers) anonymous s).
Definition with_cat : Server := fst (put [] "meow" (serving flat_world)).
Definition status (r : result refusal Response) : option Z := match r with Ok x => Some (rs_status x) | Err _ => None end.
Definition said (r : result refusal Response) (name : string) : option string :=
  match r with
  | Ok x => (fun p => p.2.2) <$> list_find (fun p => p.1 = name) (rs_headers x)
  | Err _ => None
  end.

(** A version that never was. *)
Lemma ranged_get_ignores_version_witness : exists s' r,
  get {[ "versionId" := "none" ]} [("range", "bytes=1-2")] with_cat = (s', Ok r) /\ rs_status r = 206%Z.
Proof.
  destruct (get_range app "pets" "cat" "bytes=1-2" (sent [("range", "bytes=1-2")]) None with_cat) as [s' [[r|]|e]] eqn:E;
    [|exfalso; vm_compute in E; discriminate..].
  exists s', r. split.
  - refine (ranged_get_ignores_version parser app "pets" "cat" "none" "bytes=1-2" (sent [("range", "bytes=1-2")]) anonymous
      with_cat s' None r _ _ _ E); vm_compute; reflexivity.
  - assert (K : status (Ok r) = Some 206%Z).
    { assert (K : match snd (get_range app "pets" "cat" "bytes=1-2" (sent [("range", "bytes=1-2")]) None with_cat) with
                  | Ok (Some r) => status (Ok r) | _ => None end = Some 206%Z) by (vm_compute; reflexivity).
      rewrite E in K. exact K. }
    by injection K.
Defined.

(** Two keys deleted by one request. *)
Lemma multi_delete_gates_every_key_witness :
  match delete_objects parser app "pets" (sent []) anonymous (body_of ("cat" +:+ String "010" ("dog" +:+ String "010" "")%string)) with_cat with
  | (s', Ok response) => exists order, order ≡ₚ ["cat"; "dog"] /\ sv_world s' = after_deletes app "pets" order (sv_world with_cat)
  | (s', Err _) => False
  end.
Proof.
  set (body := body_of _).
  destruct (delete_objects parser app "pets" (sent []) anonymous body with_cat) as [s' r] eqn:E.
  pose proof (multi_delete_gates_every_key parser app "pets" (sent []) anonymous body with_cat s' r E) as Hm.
  destruct r as [response|e]; [|clear Hm; vm_compute in E; discriminate].
  destruct Hm as (text & keys & order & Et & Ek & _ & Ho & _ & _ & Hw). exists order. split; [|exact Hw].
  assert (K : text = "cat" +:+ String "010" ("dog" +:+ String "010" "")%string).
  { clear -Et. vm_compute in Et. injection Et as <-. reflexivity. }
  subst text. assert (K : keys = ["cat"; "dog"]) by (clear -Ek; vm_compute in Ek; injection Ek as <-; reflexivity).
  by rewrite <-K.
Defined.

(** Alice of the north makes a bucket; Bob of the south is turned away. *)
Definition bob : CredentialEntry := mk_CredentialEntry "bob" "secret" true None (Some "south") [] [].
Definition both : AppState :=
  mk_AppState (demo_storage false) (as_config GateDemo.app) [] {[ "alice" := GateDemo.alice; "bob" := bob ]} "s3.test".
Definition as_key (key : string) : S3RequestContext := mk_S3RequestContext (Some key) None.
Lemma new_bucket_belongs_to_its_tenant_witness : exists s' r,
  BucketApi.create_bucket both (as_key "alice") "birds" (sent []) GateDemo.server = (s', Ok r) /\
  enforce_tenant_bucket both (as_key "alice") "birds" s' = (s', Ok tt) /\
  enforce_tenant_bucket both (as_key "bob") "birds" s' = (s', Err (Refused (access_denied "Access Denied"))).
Proof.
  destruct (BucketApi.create_bucket both (as_key "alice") "birds" (sent []) GateDemo.server) as [s' [r|e]] eqn:E;
    [|exfalso; vm_compute in E; discriminate].
  exists s', r. split; [reflexivity|]. split.
  - refine (eq_trans (new_bucket_belongs_to_its_tenant both (as_key "alice") "alice" "birds" (sent []) GateDemo.server s' r
      "alice" None (demo_storage_ok false) eq_refl E) _). vm_compute. reflexivity.
  - refine (eq_trans (new_bucket_belongs_to_its_tenant both (as_key "alice") "alice" "birds" (sent []) GateDemo.server s' r
      "bob" None (demo_storage_ok false) eq_refl E) _). vm_compute. reflexivity.
Defined.

(** ** Closed runs *)

Definition reached {A} (run : Server * A) : Server := fst run.
Definition answer {A} (run : Server * A) : A := snd run.
Local Abbreviation delete s := (ObjectApi.delete_object parser app "pets" "cat" ∅ (sent []) anonymous s).
Local Abbreviation retain date s :=
  (ObjectApi.put_object parser app "pets" "cat" {[ "retention" := "" ]} (sent []) anonymous (body_of date) s).

(** Compliance retention does not hold.  In a bucket whose objects are retained
    for compliance a deletion is refused; a PUT of the retention of the object by
    the same caller is accepted whatever the retention before, also with
    governance mode and with text that is no date, and then the deletion succeeds. *)
Theorem compliance_retention_can_be_lifted :
  let s1 := reached (put [] "meow" (serving Behaviours.locked_world)) in
  let s2 := reached (retain "whenever" s1) in
  let s3 := reached (delete s2) in
  answer (delete s1) = Err (Refused (access_denied "object is protected by retention or legal hold")) /\
  status (answer (retain "whenever" s1)) = Some 200%Z /\
  status (answer (delete s2)) = Some 204%Z /\
  answer (get ∅ [] s3) = Err (Refused (no_such_key "cat")).
Proof. cbv zeta. split_and!; vm_compute; reflexivity. Qed.

Definition part_headers_of (s : Server) : list (option string) :=
  let r := answer (get {[ "partNumber" := "1" ]} [] s) in [said r "Content-Length"; said r "Content-Range"].
(** The last position of an empty part wraps.  An upload whose only part is
    empty is completed; reading that part answers with a content range that ends
    at 2^64 - 1. *)
Theorem empty_part_range_wraps :
  let created := Multipart.create_multipart_upload (demo_storage false) "pets" "cat" "text/plain" None None flat_world in
  let uploaded := Multipart.upload_part (demo_storage false) "pets" "u" 1 (body_of "") None None None (fst created) in
  let completed := Multipart.complete_multipart_upload (demo_storage false) "pets" "u" [(1%Z, demo_etag "")] None (fst uploaded) in
  is_ok (snd completed) = true /\
  part_headers_of (serving (fst completed)) = [Some "0"; Some "bytes 0-18446744073709551615/0"].
Proof. cbv zeta. split; vm_compute; reflexivity. Qed.
End HandlersDemo.
